(* ===== verification/_CoqProject ===== *)
-Q . S2P
Prelude.v
Crc32.v
Treap.v
Lexer.v
Parser.v
Grammar.v
Symbols.v
Tables.v
Combinator.v
Unify.v
Values.v
Sema.v
Invariant.v
Checked.v
Names.v
Writer.v
Typing.v
Declared.v
Main.v
Reproducible.v
Wire.v
Written.v
Reader.v
RoundTrip.v
Whole.v
Simple.v
Marks.v
Shape.v
Mirror.v
Writers.v
Generate.v
HeaderWriter.v
CppWriter.v
HppWriter.v
JniWriter.v
Sample.v
Analysis.v
Reach.v
Complete.v
Header.v
Cpp.v
Files.v
Runs.v
Program.v
Jni.v
JavaWriter.v
Java.v
Builder.v
Json.v
JsonText.v
