(* ===== verification/Prelude.v ===== *)
(** * A verification library for the TL schema compiler

    ** The program

    The repository compiles schemas of the TL language in two steps.  The C
    program [tlc] (src/td/generate/tl-parser) reads a text schema and writes a
    binary one; the C++ generators (src/tdtl) read the binary schema and print
    source code.  The library models all of [tlc], the reader of the generators,
    the generator itself for any writer of a target language, the writers of
    the C++ interface, with and without JNI, and the program that runs them, and
    the generator of the JSON converter:

    - tl-parser/crc32.c: the checksum that names combinators;
    - tl-parser/tl-parser-tree.h: the treaps behind every table;
    - tl-parser/tl-parser.c, lines 68 to 949: lexer and backtracking parser,
      from the text to a parse tree;
    - tl-parser/tl-parser.c, lines 950 to 2785: symbol tables, combinator
      trees, unification, and the [tl_parse_*] functions that fill the tables
      from the parse tree;
    - tl-parser/tl-parser.c, lines 2787 to 3078: the writer of the binary schema;
    - tl-parser/tlc.c: [main];
    - tdtl/td/tl/tl_simple_parser.h, tl_core.h, tl_core.cpp, tl_config.h,
      tl_config.cpp and the function [read_tl_config_from_file] of tl_generate.cpp:
      the reader;
    - tdtl/td/tl/tl_simple.h: the simplified schema that the JSON converter walks;
    - tdtl/td/tl/tl_generate.cpp: the generator, [write_tl];
    - tdtl/td/tl/tl_writer.h, tl_writer.cpp, td/generate/tl_writer_td.cpp: the
      interface of the writers and what their base classes implement;
    - td/generate/tl_writer_h.cpp, tl_writer_cpp.cpp, tl_writer_hpp.cpp: the writers
      of the headers, of the sources and of [downcast_call]; tl_writer_jni_h.cpp,
      tl_writer_jni_cpp.cpp: the writers that take the place of the first two when
      the interface is for Java;
    - td/generate/tl_writer_java.cpp, generate_java.cpp: the writer of the classes of
      Java, and its program;
    - td/generate/generate_common.cpp: the program that generates the C++ interface;
    - tdtl/td/tl/tl_file_utils.cpp, td/generate/remove_documentation.cpp: the files;
    - tdutils/td/utils/StringBuilder.h, StringBuilder.cpp, SliceBuilder.h: strings
      built in a buffer;
    - td/generate/tl_json_converter.cpp, generate_json.cpp: the JSON converter.

    [main] parses its options, reads the file, runs the lexer and parser
    ([tl_parse_lex]), turns the tree into the program ([tl_parse]) and writes
    the tables ([write_types]).  The reader turns those bytes into a [tl_config].
    [write_tl] finds the types that a writer cannot print, and what the functions
    lead to, and calls the writer for every class; [write_tl_to_file] replaces a
    file whose text has changed.  [generate_cpp] does this with three writers, on
    the same objects.  [gen_json_converter] builds the simplified schema of a
    [tl_config] and appends the text for every class to a string builder.

    ** The files

    Every definition that models code keeps the name of the code; its place in
    the sources is in the comment at the top of its file.

    - Prelude: machine integers ([i32], [u32], [i64], [u64], [schar], [uchar]),
      outcomes ([result]: a value, a fault, fuel exhausted), the state monad [M]
      with its notations, [wp], strings.
    - Crc32: the tables and the unrolled loop; equivalence with the bit-serial
      CRC-32 for every length, and detection of short bursts.
    - Treap: [DEFINE_TREE], generic in the comparison ([CmpLaws] is the interface
      that a comparison has to satisfy); refinement of a sorted list.
    - Lexer, Parser: [struct parse] and the [parse_*] functions; the lexer leaves
      the longest lexeme, an error exactly where no lexeme starts, and the end of
      the text exactly at a zero byte or the end.  Grammar: the
      parser returns on every text that ends with a newline, without a fault; what
      it returns follows the grammar, and the parser has then stopped at the final
      newline or at a zero byte before it, after which nothing is read.
    - Symbols: the state of the second phase ([sstate]: a heap of nodes, types,
      constructors and variables, the treaps, the globals) and the operations on
      the tables.  Tables: their invariant and their behaviour on every branch.
    - Combinator, Unify, Sema: the rest of the second phase.  Values:
      substitutions are finite maps.  Names: explicit names, the canonical text
      of a combinator, its number is the CRC-32 of that text.
    - Invariant: what [tl_parse] keeps, whatever the program: the tables, the
      links between types and constructors, the counters.  Checked: what the
      final check of the types guarantees.  Typing: without
      partial applications, every node it builds is well typed (with them it is
      not: [Runs.partial_application_untypes_array]).  Declared: without partial
      applications, the combinators that an accepted program leaves are those that
      its source declares.
    - Writer: the [write_*] functions.  Wire: the abstract binary schema, its
      encoding, and the writer as a refinement of it.  Written: the converse, the
      writer returns only on heaps that hold a schema.
    - Main: [main].  Reproducible: the writer does not depend on the random
      numbers.
    - Reader: the C++ reader and its termination on every input.  RoundTrip: the
      reader returns the meaning of a schema on the encoding of it.
    - Whole: a run of [main] that writes a file has accepted the program of its
      source and writes the encoding of the schema in the tables that this
      leaves, and the reader reads that schema.
    - Simple: the simplified schema, its objects as indices into the vectors that
      own them.  Marks: [do_mark] as a search of the graph of objects.  Shape:
      building the graph ends and finishes every object it registers.  Mirror:
      the schema represents the configuration, the marks are reachability in it.
    - Writers: the interface, [TL_writer], as a record of methods, and the methods of
      the base classes.  Generate: [write_tl] for any writer.  HeaderWriter,
      CppWriter, HppWriter, JniWriter: the writers.  Sample: a small configuration.
    - Analysis: the search for complex types ends at the least solution
      ([SupportLaws] is what it needs of a writer).  Reach: the search from the
      functions is reachability.  Complete: a writer that keeps the promise
      [WriterTotal] lets [write_tl] complete, and what [write_tl] leaves of the
      types: [FLAG_COMPLEX] cleared, [simple_constructors] as the search assigned it,
      the rest as it was.  Header: the header writer keeps it; runs in which the
      assertions of the generator fail.  Cpp: the source writer keeps it, which
      depends on the order in which fields declare and use variables.
    - Files: the files that are written; the removal of documentation against a
      declarative account of the lines that are documentation.  Runs: [main]
      evaluated on whole files.
    - Program: [generate_cpp]; one writer does not disturb the next; the chain from
      a text schema to the files of the interface, evaluated on an example.
    - Jni: the writers for JNI keep the promise [WriterTotal] too.  JavaWriter: the
      writer of the classes of Java.  Java: the fields and types that the code for
      JNI looks up are those that the classes of Java declare.
    - Builder: the string builder stays inside its buffer and holds what was
      appended.  Json: the JSON converter.  JsonText: it writes the text of the
      interface that the configuration describes, or stops when either of the two
      texts does not fit the buffer.

    ** How C is modelled

    Integers are [Z], with the wrap-around of their width written out where the
    code can reach it; characters are signed; loads are little-endian.  A
    pointer into the heap of the second phase is a [ptr] (null, the sentinels -1
    and -2 that the code stores, or the address of an object); objects are
    records in finite maps, so aliasing is modelled.  Parse trees and the nodes of
    treaps have one owner and are values.  A failed [assert], the use of a bad
    pointer, an access out of bounds and [std::abort] are the faults of
    [Prelude.fault]: a run that ends in one returns no value.  [malloc] and
    [fwrite] succeed, as the code assumes.

    Loops and recursions that are not structural take fuel, and [OutOfFuel] is an
    outcome of its own.  For the lexer and the parser, [Main.text_fuel]
    (twice the length of the text plus four) is proved to be enough.  The reader
    takes one unit per byte of its input and one more, also proved to be enough.
    The simplified schema takes one unit per type of the configuration to build
    ([Simple.type_fuel]) and one per custom type and nested vector to mark
    ([Simple.mark_fuel]), proved to be enough on simple configurations.
    The search for complex types takes one unit per round, the search from the
    functions one per nested type; the number of types and one more is enough.
    The recursions over combinator trees take one unit per level; the theorems
    about them either give the depth that the trees need as a hypothesis or are
    about the runs that return a value.

    What is not in the sources is a parameter: [lrand48] (the random numbers by
    position), [address] (where an object lies, which matters because
    substitutions are ordered by address), [garbage] (the uninitialised
    [params_types] of a type; in Json the contents of a temporary buffer), [beyond] (the bytes after a string literal that
    [mystrcmp2] may read), the file system ([fopen_rb], [fopen_wb]), and the
    results of [getopt]; whether the build has [TD_ENABLE_JNI] and
    [DISABLE_HPP_DOCUMENTATION].  The methods of a
    writer are an argument of [write_tl].  The hypothesis on [address] in the theorems on the
    writer is that all nodes lie within 2 GB of each other; without it the
    comparison of addresses is not an order ([Treap.ptr_cmp_truncates]).

    ** What is not modelled

    wgetopt.c (third-party code for Windows), the usage text and the signal
    handlers of tlc.c, what goes to [stderr]; the operators of the string builder
    for floating-point numbers and addresses, which print through the library; the
    other writers of td/generate (.NET and C), which are instances of the same
    interface and differ in the text they print; the client library, SQLite and
    the examples, which are other programs.

    ** What is left

    Termination of the second phase with fuel computed from the text; soundness
    of [uniformize]; independence of [tl_parse] as a whole from the random
    numbers (it is proved for the writer and for the operations on tables). *)

From Stdlib Require Import ZArith Lia Bool List Btauto.
From stdpp Require Import base list strings.

#[global] Open Scope Z_scope.

(** ** Tactics *)

(** Case analysis on the boolean or decidable scrutinee of the goal's
    innermost match, keeping the equation. *)
Ltac case_goal :=
  match goal with
  | |- context [if ?b then _ else _] => destruct b eqn:?
  | |- context [match ?b with _ => _ end] => destruct b eqn:?
  end.

Ltac zbool :=
  repeat match goal with
  | H : (_ && _)%bool = true |- _ => apply andb_true_iff in H; destruct H
  | H : (_ || _)%bool = false |- _ => apply orb_false_iff in H; destruct H
  | H : negb _ = true |- _ => apply negb_true_iff in H
  | H : negb _ = false |- _ => apply negb_false_iff in H
  | H : (_ =? _) = true |- _ => apply Z.eqb_eq in H
  | H : (_ =? _) = false |- _ => apply Z.eqb_neq in H
  | H : (_ <? _) = true |- _ => apply Z.ltb_lt in H
  | H : (_ <? _) = false |- _ => apply Z.ltb_ge in H
  | H : (_ <=? _) = true |- _ => apply Z.leb_le in H
  | H : (_ <=? _) = false |- _ => apply Z.leb_gt in H
  end.

(** [lia] with the quotients and remainders by constants written out. *)
Ltac zmod := Z.to_euclidean_division_equations; lia.

(** ** Machine integers *)

(** An unsigned 32-bit value, a signed 32-bit value ([int]), a signed 64-bit
    value ([long long]) and a signed [char], each as the residue the C type
    holds. *)
Definition u32 (z : Z) : Z := z mod 2 ^ 32.
Definition i32 (z : Z) : Z := (z + 2 ^ 31) mod 2 ^ 32 - 2 ^ 31.
Definition u64 (z : Z) : Z := z mod 2 ^ 64.
Definition i64 (z : Z) : Z := (z + 2 ^ 63) mod 2 ^ 64 - 2 ^ 63.
Definition schar (z : Z) : Z := (z + 2 ^ 7) mod 2 ^ 8 - 2 ^ 7.
Definition uchar (z : Z) : Z := z mod 2 ^ 8.

Definition is_byte (b : Z) : Prop := 0 <= b < 256.

(** ** Bit-level lemmas *)

Lemma testbit_high a k n : 0 <= a < 2 ^ k -> k <= n -> Z.testbit a n = false.
Proof.
  intros [H0 H1] Hn. destruct (Z.eq_dec a 0) as [->|]; [apply Z.bits_0|].
  apply Z.bits_above_log2; [lia|].
  enough (Z.log2 a < k) by lia. apply Z.log2_lt_pow2; lia.
Qed.

Lemma testbit_small a k :
  0 <= k -> 0 <= a -> (forall n, k <= n -> Z.testbit a n = false) -> a < 2 ^ k.
Proof.
  intros Hk Ha H. destruct (Z.eq_dec a 0) as [->|]; [lia|].
  apply Z.log2_lt_pow2; [lia|]. destruct (Z.lt_ge_cases (Z.log2 a) k) as [|Hge]; [done|].
  specialize (H _ Hge). rewrite Z.bit_log2 in H; [done|lia].
Qed.

Lemma lxor_bound k a b :
  0 <= k -> 0 <= a < 2 ^ k -> 0 <= b < 2 ^ k -> 0 <= Z.lxor a b < 2 ^ k.
Proof.
  intros Hk Ha Hb. assert (0 <= Z.lxor a b) by (apply Z.lxor_nonneg; lia).
  split; [done|]. apply testbit_small; [done..|]. intros n Hn.
  by rewrite Z.lxor_spec, (testbit_high a k), (testbit_high b k).
Qed.

Lemma shiftr_bound k a n :
  0 <= n <= k -> 0 <= a < 2 ^ k -> 0 <= Z.shiftr a n < 2 ^ (k - n).
Proof.
  intros Hn Ha. rewrite Z.shiftr_div_pow2 by lia. split; [apply Z.div_pos; lia|].
  apply Z.div_lt_upper_bound; [lia|]. rewrite <- Z.pow_add_r by lia.
  replace (n + (k - n)) with k by lia. lia.
Qed.

Lemma byte_land_shl b w : is_byte b -> Z.land b (Z.shiftl w 8) = 0.
Proof.
  intros Hb. apply Z.bits_inj'; intros n Hn. rewrite Z.land_spec, Z.bits_0.
  destruct (Z.lt_ge_cases n 8).
  - rewrite (Z.shiftl_spec_low w 8 n) by lia. apply andb_false_r.
  - by rewrite (testbit_high b 8).
Qed.

Lemma byte_lor_lxor b w : is_byte b -> Z.lor b (Z.shiftl w 8) = Z.lxor b (Z.shiftl w 8).
Proof. intros Hb. symmetry. by apply Z.lxor_lor, byte_land_shl. Qed.

Lemma byte_lor_add b w : is_byte b -> Z.lor b (Z.shiftl w 8) = b + w * 256.
Proof.
  intros Hb. rewrite byte_lor_lxor by done.
  rewrite <- Z.add_nocarry_lxor by (by apply byte_land_shl).
  by rewrite Z.shiftl_mul_pow2 by lia.
Qed.

Lemma land_ff_byte x : is_byte (Z.land x 0xff).
Proof. change 0xff with (Z.ones 8). rewrite Z.land_ones by lia. unfold is_byte. zmod. Qed.

Lemma byte_split x : x = Z.lxor (Z.land x 0xff) (Z.shiftl (Z.shiftr x 8) 8).
Proof.
  rewrite <- byte_lor_lxor, byte_lor_add by apply land_ff_byte.
  change 0xff with (Z.ones 8). rewrite Z.land_ones, Z.shiftr_div_pow2 by lia. zmod.
Qed.

Lemma land_add_low x b : is_byte b -> Z.land (Z.lxor b (Z.shiftl x 8)) 0xff = b.
Proof.
  intros Hb. rewrite <- byte_lor_lxor, byte_lor_add by done.
  change 0xff with (Z.ones 8). rewrite Z.land_ones by lia. unfold is_byte in Hb. zmod.
Qed.

Lemma land_lxor_l a b c : Z.land (Z.lxor a b) c = Z.lxor (Z.land a c) (Z.land b c).
Proof. apply Z.bits_inj'; intros n Hn. rewrite !Z.land_spec, !Z.lxor_spec, !Z.land_spec. btauto. Qed.

Lemma byte_land_ff b : is_byte b -> Z.land b 0xff = b.
Proof.
  intros Hb. change 0xff with (Z.ones 8). rewrite Z.land_ones by lia. by apply Z.mod_small.
Qed.

Lemma byte_shiftr_8 b : is_byte b -> Z.shiftr b 8 = 0.
Proof. intros Hb. rewrite Z.shiftr_div_pow2 by lia. by apply Z.div_small. Qed.

(** ** Width lemmas *)

Lemma u32_small z : 0 <= z < 2 ^ 32 -> u32 z = z.
Proof. intros. by apply Z.mod_small. Qed.

Lemma u32_i32 z : u32 (i32 z) = u32 z.
Proof. unfold u32, i32. zmod. Qed.

Lemma u32_range z : 0 <= u32 z < 2 ^ 32.
Proof. unfold u32. zmod. Qed.

Lemma i32_small z : - 2 ^ 31 <= z < 2 ^ 31 -> i32 z = z.
Proof. unfold i32. zmod. Qed.

Lemma i32_range z : - 2 ^ 31 <= i32 z < 2 ^ 31.
Proof. unfold i32. zmod. Qed.

Lemma u32_schar_low z : Z.land (u32 (schar z)) 0xff = uchar z.
Proof.
  change 0xff with (Z.ones 8). rewrite Z.land_ones by lia. unfold u32, schar, uchar. zmod.
Qed.

Lemma uchar_byte b : is_byte b -> uchar b = b.
Proof. intros Hb. by apply Z.mod_small. Qed.

(** ** Outcomes and the state monad *)

(** What stops a run of the C program other than returning: a failed
    [assert] (the process aborts), a dereference of a null or foreign
    pointer, an access outside an object, a call of [std::abort] or an
    exception that nothing catches. *)
Inductive fault := AssertFailed | BadPointer | OutOfBounds | Aborted.

(** The outcome of a computation: a value, a fault, or the fuel of the model
    exhausted (the code is still running). *)
Inductive result (A : Type) :=
| Ret (a : A)
| Fault (f : fault)
| OutOfFuel.
Arguments Ret {A} _.
Arguments Fault {A} _.
Arguments OutOfFuel {A}.

Definition rbind {A B} (m : result A) (k : A -> result B) : result B :=
  match m with
  | Ret a => k a
  | Fault f => Fault f
  | OutOfFuel => OutOfFuel
  end.

(** Code that reads and writes a state of type [S] and returns an [A]. *)
Definition M (S A : Type) : Type := S -> result (A * S).

Definition ret {S A} (a : A) : M S A := fun s => Ret (a, s).

Definition bind {S A B} (m : M S A) (k : A -> M S B) : M S B :=
  fun s => rbind (m s) (fun '(a, s) => k a s).

Definition fail {S A} (f : fault) : M S A := fun _ => Fault f.
Definition out_of_fuel {S A} : M S A := fun _ => OutOfFuel.
Definition get {S} : M S S := fun s => Ret (s, s).
Definition put {S} (s : S) : M S unit := fun _ => Ret (tt, s).
Definition modify {S} (f : S -> S) : M S unit := fun s => Ret (tt, f s).

(** [assert (b)]. *)
Definition assert {S} (b : bool) : M S unit := if b then ret tt else fail AssertFailed.

Declare Scope tl_scope.
Delimit Scope tl_scope with tl.

Notation "'let*' x ':=' m 'in' k" := (bind m (fun x => k))
  (at level 10, x pattern, m at level 100, k at level 200) : tl_scope.
Notation "m ;; k" := (bind m (fun _ => k))
  (at level 100, k at level 200, right associativity) : tl_scope.
Notation "'do?' x ':=' m 'in' k" := (rbind m (fun x => k))
  (at level 10, x pattern, m at level 100, k at level 200) : tl_scope.

Lemma rbind_Ret {A B} (m : result A) (k : A -> result B) b :
  rbind m k = Ret b <-> exists a, m = Ret a /\ k a = Ret b.
Proof. destruct m; cbn; split; try (intros (? & [=] & ?)); try congruence; eauto. Qed.

Lemma bind_Ret {S A B} (m : M S A) (k : A -> M S B) s b s' :
  bind m k s = Ret (b, s') <-> exists a s1, m s = Ret (a, s1) /\ k a s1 = Ret (b, s').
Proof.
  unfold bind. destruct (m s) as [[a s1]| |]; cbn; split;
    try (intros (? & ? & [=] & ?)); try congruence; eauto.
Qed.

Lemma bind_assoc {S A B C} (m : M S A) (k : A -> M S B) (h : B -> M S C) s :
  bind (bind m k) h s = bind m (fun a => bind (k a) h) s.
Proof. unfold bind. by destruct (m s) as [[]| |]. Qed.

(** Run [act] on the elements of a list in order. *)
Fixpoint each {S A} (act : A -> M S unit) (l : list A) : M S unit :=
  match l with
  | [] => ret tt
  | x :: l => bind (act x) (fun _ => each act l)
  end.

Lemma each_app {S A} (act : A -> M S unit) l1 l2 s :
  each act (l1 ++ l2) s = bind (each act l1) (fun _ => each act l2) s.
Proof.
  revert s. induction l1 as [|x l1 IH]; intros s; [done|].
  cbn [each app]. rewrite bind_assoc. unfold bind at 1 2. unfold rbind.
  destruct (act x s) as [[[] s1]| |]; [apply IH|done..].
Qed.

(** ** Characters and strings *)

(** A [char] of the source, as a signed value; a string literal, without its
    terminating null. *)
Definition chr (a : Ascii.ascii) : Z := schar (Z.of_N (Ascii.N_of_ascii a)).
Fixpoint str (s : string) : list Z :=
  match s with
  | EmptyString => []
  | String a s => chr a :: str s
  end.

(** [l[i..i+n)]. *)
Definition slice (l : list Z) (i n : Z) : list Z := take (Z.to_nat n) (drop (Z.to_nat i) l).

(** Evaluate the character constants. *)
Ltac chars :=
  repeat match goal with
  | |- context [chr ?a] => let v := eval vm_compute in (chr a) in change (chr a) with v
  | H : context [chr ?a] |- _ => let v := eval vm_compute in (chr a) in change (chr a) with v in H
  end.

(** ** Total correctness of stateful code *)

(** [wp m s Q]: from [s], [m] returns (no fault, no exhausted fuel) and the
    value and state it returns satisfy [Q]. *)
Definition wp {S A} (m : M S A) (s : S) (Q : A -> S -> Prop) : Prop :=
  exists a s', m s = Ret (a, s') /\ Q a s'.

Lemma wp_ret {S A} (a : A) (s : S) (Q : A -> S -> Prop) : Q a s -> wp (ret a) s Q.
Proof. intros H. by exists a, s. Qed.

Lemma wp_bind {S A B} (m : M S A) (k : A -> M S B) s (Q : B -> S -> Prop) :
  wp m s (fun a s' => wp (k a) s' Q) -> wp (bind m k) s Q.
Proof.
  intros (a & s1 & E1 & b & s2 & E2 & H). exists b, s2. split; [|done].
  unfold bind. by rewrite E1.
Qed.

Lemma wp_mono {S A} (m : M S A) s (Q Q' : A -> S -> Prop) :
  wp m s Q -> (forall a s', Q a s' -> Q' a s') -> wp m s Q'.
Proof. intros (a & s' & E & H) HQ. exists a, s'. auto. Qed.

Lemma wp_get {S} (s : S) (Q : S -> S -> Prop) : Q s s -> wp get s Q.
Proof. intros H. by exists s, s. Qed.

Lemma wp_modify {S} (f : S -> S) s (Q : unit -> S -> Prop) : Q tt (f s) -> wp (modify f) s Q.
Proof. intros H. by exists tt, (f s). Qed.

(** ** Lists without duplicates *)

Lemma NoDup_map_inj {A B} (f : A -> B) l x y : NoDup (map f l) -> x ∈ l -> y ∈ l -> f x = f y -> x = y.
Proof.
  induction l as [|z l IH]; cbn; intros ND Hx Hy E; [by apply not_elem_of_nil in Hx|].
  apply NoDup_cons in ND as [Hz ND]. apply elem_of_cons in Hx as [->|Hx], Hy as [->|Hy]; try done.
  - exfalso. apply Hz. rewrite E. by apply list_elem_of_fmap_2.
  - exfalso. apply Hz. rewrite <- E. by apply list_elem_of_fmap_2.
  - by apply IH.
Qed.

Lemma elem_of_concat_map {A B} (f : A -> list B) l x : x ∈ concat (map f l) <-> exists y, y ∈ l /\ x ∈ f y.
Proof.
  rewrite list_elem_of_In, in_concat. setoid_rewrite in_map_iff. setoid_rewrite list_elem_of_In. naive_solver.
Qed.
