(* ===== verification/Treap.v ===== *)
(** * The treaps of tl-parser-tree.h

    [DEFINE_TREE (X_NAME, X_TYPE, X_CMP, X_UNSET)] instantiates a randomised
    search tree for each of its uses: the symbol tables of types,
    constructors, functions, variables and fields, and the substitutions of
    the unifier.  The nodes are owned by their tree, so a node is a value
    here; [malloc] is taken to succeed, as the macro does.  A comparator is a
    function to [int] whose sign is the order; [X_UNSET] is [None].

    The abstract specification of a tree is its in-order list: under the
    invariant [tree_ok] every operation is an operation on a sorted list of
    elements, whatever the priorities. *)
From Stdlib Require Import ZArith Lia List Bool.
From stdpp Require Import base list sorting.
From S2P Require Import Prelude.
Open Scope tl_scope.

(** ** The code *)

Inductive tree (X : Type) :=
| Nil
| Node (left : tree X) (x : X) (y : Z) (right : tree X).
Arguments Nil {X}.
Arguments Node {X} _ _ _ _.

Section Code.
Context {X : Type} (X_CMP : X -> X -> Z).

Definition new_tree_node (x : X) (y : Z) : tree X := Node Nil x y Nil.

(** The pair is what the out-parameters [L] and [R] receive. *)
Fixpoint tree_split (T : tree X) (x : X) : tree X * tree X :=
  match T with
  | Nil => (Nil, Nil)
  | Node l tx ty r =>
      let c := X_CMP x tx in
      if c <? 0 then
        let '(L, tl) := tree_split l x in (L, Node tl tx ty r)
      else
        let '(tr, R) := tree_split r x in (Node l tx ty tr, R)
  end.

Fixpoint tree_insert (T : tree X) (x : X) (y : Z) : result (tree X) :=
  match T with
  | Nil => Ret (new_tree_node x y)
  | Node l tx ty r =>
      if y >? ty then
        let '(L, R) := tree_split T x in Ret (Node L x y R)
      else
        let c := X_CMP x tx in
        if c =? 0 then Fault AssertFailed
        else if c <? 0 then do? l := tree_insert l x y in Ret (Node l tx ty r)
        else do? r := tree_insert r x y in Ret (Node l tx ty r)
  end.

Fixpoint tree_merge (L : tree X) : tree X -> tree X :=
  fix merge_R (R : tree X) : tree X :=
    match L, R with
    | Nil, _ => R
    | _, Nil => L
    | Node ll lx ly lr, Node rl rx ry rr =>
        if ly >? ry then Node ll lx ly (tree_merge lr R)
        else Node (merge_R rl) rx ry rr
    end.

Fixpoint tree_delete (T : tree X) (x : X) : result (tree X) :=
  match T with
  | Nil => Fault AssertFailed
  | Node l tx ty r =>
      let c := X_CMP x tx in
      if c =? 0 then Ret (tree_merge l r)
      else if c <? 0 then do? l := tree_delete l x in Ret (Node l tx ty r)
      else do? r := tree_delete r x in Ret (Node l tx ty r)
  end.

Fixpoint tree_get_min (T : tree X) : option X :=
  match T with
  | Nil => None
  | Node Nil x _ _ => Some x
  | Node l _ _ _ => tree_get_min l
  end.

Fixpoint tree_lookup (T : tree X) (x : X) : option X :=
  match T with
  | Nil => None
  | Node l tx _ r =>
      let c := X_CMP x tx in
      if c =? 0 then Some tx
      else if c <? 0 then tree_lookup l x else tree_lookup r x
  end.

(** [act] may change the program's state [S]; [tree_act_ex] passes an extra
    argument along. *)
Fixpoint tree_act {S} (act : X -> M S unit) (T : tree X) : M S unit :=
  match T with
  | Nil => ret tt
  | Node l x _ r => tree_act act l ;; act x ;; tree_act act r
  end.

Fixpoint tree_act_ex {S E} (act : X -> E -> M S unit) (T : tree X) (extra : E) : M S unit :=
  match T with
  | Nil => ret tt
  | Node l x _ r => tree_act_ex act l extra ;; act x extra ;; tree_act_ex act r extra
  end.

Fixpoint tree_count (T : tree X) : Z :=
  match T with
  | Nil => 0
  | Node l _ _ r => 1 + tree_count l + tree_count r
  end.

(** The root's key and priority, for the checks on a child. *)
Definition check_child (T : tree X) (ok : X -> Z -> bool) : bool :=
  match T with
  | Nil => true
  | Node _ x y _ => ok x y
  end.

Fixpoint tree_check (T : tree X) : result unit :=
  match T with
  | Nil => Ret tt
  | Node l tx ty r =>
      if check_child l (fun x y => (y <=? ty) && (X_CMP x tx <? 0)) &&
         check_child r (fun x y => (y <=? ty) && (X_CMP x tx >? 0))
      then do? _ := tree_check l in tree_check r
      else Fault AssertFailed
  end.

(** Every node is freed; the caller stores the null result. *)
Fixpoint tree_clear (T : tree X) : tree X :=
  match T with
  | Nil => Nil
  | Node l _ _ r => let _ := tree_clear l in let _ := tree_clear r in Nil
  end.

End Code.

(** ** Orders *)

(** What a comparator promises on the elements [D] it is used on: its sign is
    a total preorder. *)
Class CmpLaws {X : Type} (D : X -> Prop) (cmp : X -> X -> Z) : Prop := {
  cmp_refl x : D x -> cmp x x = 0;
  cmp_flip x y : D x -> D y -> cmp x y < 0 <-> 0 < cmp y x;
  cmp_trans x y z :
    D x -> D y -> D z -> cmp x y <= 0 -> cmp y z <= 0 -> cmp x z <= 0
}.

(** ** The specification: sorted lists *)

Section Spec.
Context {X : Type} (cmp : X -> X -> Z).

Fixpoint inorder (T : tree X) : list X :=
  match T with
  | Nil => []
  | Node l x _ r => inorder l ++ x :: inorder r
  end.

Definition sorted (l : list X) : Prop := StronglySorted (fun a b => cmp a b < 0) l.

Fixpoint sorted_insert (x : X) (l : list X) : list X :=
  match l with
  | [] => [x]
  | e :: l => if cmp x e <? 0 then x :: e :: l else e :: sorted_insert x l
  end.

Definition sorted_remove (x : X) (l : list X) : list X :=
  List.filter (fun e => negb (cmp x e =? 0)) l.

Definition sorted_find (x : X) (l : list X) : option X := List.find (fun e => cmp x e =? 0) l.

(** Priorities never increase from a node to its children. *)
Definition top_le (T : tree X) (y : Z) : Prop :=
  match T with
  | Nil => True
  | Node _ _ ty _ => ty <= y
  end.

Fixpoint heap (T : tree X) : Prop :=
  match T with
  | Nil => True
  | Node l _ y r => top_le l y /\ top_le r y /\ heap l /\ heap r
  end.

(** The key [x] does not occur. *)
Definition fresh (x : X) (l : list X) : Prop := Forall (fun e => cmp x e <> 0) l.

End Spec.

(** The representation invariant. *)
Record tree_ok {X : Type} (D : X -> Prop) (cmp : X -> X -> Z) (T : tree X) : Prop := {
  ok_dom : Forall D (inorder T);
  ok_sorted : sorted cmp (inorder T);
  ok_heap : heap T
}.

Create HintDb treap.

(** ** Proofs *)

Section Proofs.
Context {X : Type} (D : X -> Prop) (cmp : X -> X -> Z) `{!CmpLaws D cmp}.

Lemma cmp_sides x y :
  D x -> D y ->
  (cmp x y < 0 /\ 0 < cmp y x) \/ (cmp x y = 0 /\ cmp y x = 0) \/ (0 < cmp x y /\ cmp y x < 0).
Proof.
  intros Hx Hy. pose proof (cmp_flip x y Hx Hy). pose proof (cmp_flip y x Hy Hx). lia.
Qed.

Lemma cmp_lt_le x y z : D x -> D y -> D z -> cmp x y < 0 -> cmp y z <= 0 -> cmp x z < 0.
Proof.
  intros Hx Hy Hz H1 H2. pose proof (cmp_trans x y z Hx Hy Hz (Z.lt_le_incl _ _ H1) H2).
  pose proof (cmp_sides x z Hx Hz). pose proof (cmp_sides x y Hx Hy).
  destruct (Z.eq_dec (cmp x z) 0) as [E|]; [|lia].
  assert (Hzx : cmp z x <= 0) by lia. pose proof (cmp_trans y z x Hy Hz Hx H2 Hzx). lia.
Qed.

Lemma cmp_le_lt x y z : D x -> D y -> D z -> cmp x y <= 0 -> cmp y z < 0 -> cmp x z < 0.
Proof.
  intros Hx Hy Hz H1 H2. pose proof (cmp_trans x y z Hx Hy Hz H1 (Z.lt_le_incl _ _ H2)).
  pose proof (cmp_sides x z Hx Hz). pose proof (cmp_sides y z Hy Hz).
  destruct (Z.eq_dec (cmp x z) 0) as [E|]; [|lia].
  assert (Hzx : cmp z x <= 0) by lia. pose proof (cmp_trans z x y Hz Hx Hy Hzx H1). lia.
Qed.

(** Splitting the invariant of a node. *)
Lemma sorted_node l x r :
  sorted cmp (l ++ x :: r) <->
  sorted cmp l /\ sorted cmp r /\ Forall (fun a => cmp a x < 0) l /\
  Forall (fun b => cmp x b < 0) r /\ (forall a b, a ∈ l -> b ∈ r -> cmp a b < 0).
Proof.
  clear dependent D. unfold sorted.
  rewrite StronglySorted_app, StronglySorted_cons, !Forall_forall.
  split.
  - intros (H & Hl & Hx & Hr).
    split_and!; [done|done|intros a Ha; apply H; [done|left]|done|].
    intros a b Ha Hb. apply H; [done|by right].
  - intros (Hl & Hr & Hlx & Hxr & H). split_and!; [|done..].
    intros a b Ha [->|Hb]%elem_of_cons; auto.
Qed.

Lemma Forall_node (P : X -> Prop) l x r :
  Forall P (l ++ x :: r) <-> Forall P l /\ P x /\ Forall P r.
Proof. by rewrite Forall_app, Forall_cons. Qed.

(** The side of [x] that an element falls on, given the side of a pivot. *)
Lemma side_right x p l :
  D x -> D p -> Forall D l -> cmp x p < 0 -> Forall (fun b => cmp p b < 0) l ->
  Forall (fun e => cmp x e < 0) l.
Proof.
  intros Hx Hp. rewrite !Forall_forall. intros HD H Hl e He.
  eapply cmp_lt_le; [done|exact Hp|auto|done|]. specialize (Hl e He). lia.
Qed.

Lemma side_left x p l :
  D x -> D p -> Forall D l -> 0 <= cmp x p -> Forall (fun a => cmp a p < 0) l ->
  Forall (fun e => 0 < cmp x e) l.
Proof.
  intros Hx Hp. rewrite !Forall_forall. intros HD H Hl e He.
  pose proof (cmp_sides x p Hx Hp).
  assert (cmp e x < 0); [|pose proof (cmp_sides e x (HD e He) Hx); lia].
  eapply cmp_lt_le; [auto|exact Hp|done|auto|lia].
Qed.

(** *** Splitting and merging *)

Lemma tree_split_inorder T x L R :
  tree_split cmp T x = (L, R) -> inorder T = inorder L ++ inorder R.
Proof.
  revert L R. induction T as [|l IHl tx ty r IHr]; cbn; intros L R H; [by simplify_eq|].
  destruct (cmp x tx <? 0).
  - destruct (tree_split cmp l x) as [L' R'] eqn:E. simplify_eq/=.
    by rewrite (IHl _ _ eq_refl), <- app_assoc.
  - destruct (tree_split cmp r x) as [L' R'] eqn:E. simplify_eq/=.
    by rewrite (IHr _ _ eq_refl), <- app_assoc.
Qed.

Lemma tree_split_sides T x L R :
  D x -> Forall D (inorder T) -> sorted cmp (inorder T) -> tree_split cmp T x = (L, R) ->
  Forall (fun e => 0 <= cmp x e) (inorder L) /\ Forall (fun e => cmp x e < 0) (inorder R).
Proof.
  intros Hx. revert L R.
  induction T as [|l IHl tx ty r IHr]; cbn; intros L R HD HS H; [by simplify_eq|].
  apply Forall_node in HD as (HDl & HDx & HDr).
  apply sorted_node in HS as (HSl & HSr & Hlx & Hxr & _).
  destruct (cmp x tx <? 0) eqn:E; zbool.
  - destruct (tree_split cmp l x) as [L' R'] eqn:El. simplify_eq/=.
    destruct (IHl _ _ HDl HSl eq_refl) as [? ?]. rewrite Forall_node.
    eauto using side_right.
  - destruct (tree_split cmp r x) as [L' R'] eqn:Er. simplify_eq/=.
    destruct (IHr _ _ HDr HSr eq_refl) as [? ?]. rewrite Forall_node.
    split_and!; [|done..]. eapply Forall_impl; [by apply (side_left x tx)|]. cbn. lia.
Qed.

Lemma tree_split_heap T x L R :
  heap T -> tree_split cmp T x = (L, R) ->
  heap L /\ heap R /\ (forall y, top_le T y -> top_le L y /\ top_le R y).
Proof.
  revert L R. induction T as [|l IHl tx ty r IHr]; cbn; intros L R H E; [by simplify_eq|].
  destruct H as (Hl & Hr & Hhl & Hhr). destruct (cmp x tx <? 0).
  - destruct (tree_split cmp l x) as [L' R'] eqn:El. simplify_eq/=.
    destruct (IHl _ _ Hhl eq_refl) as (? & ? & Ht). destruct (Ht ty Hl).
    split_and!; [done..|]. intros y Hy. split; [|done].
    destruct L; cbn in *; [done|]. lia.
  - destruct (tree_split cmp r x) as [L' R'] eqn:Er. simplify_eq/=.
    destruct (IHr _ _ Hhr eq_refl) as (? & ? & Ht). destruct (Ht ty Hr).
    split_and!; [done..|]. intros y Hy. split; [done|].
    destruct R; cbn in *; [done|]. lia.
Qed.

Lemma tree_merge_nodes (ll lr rl rr : tree X) lx ly rx ry :
  tree_merge (Node ll lx ly lr) (Node rl rx ry rr) =
  if ly >? ry then Node ll lx ly (tree_merge lr (Node rl rx ry rr))
  else Node (tree_merge (Node ll lx ly lr) rl) rx ry rr.
Proof. reflexivity. Qed.

Lemma tree_merge_inorder (L R : tree X) : inorder (tree_merge L R) = inorder L ++ inorder R.
Proof.
  revert R. induction L as [|ll _ lx ly lr IHL]; intros R; [by destruct R|].
  induction R as [|rl IHR rx ry rr _]; [by rewrite app_nil_r|].
  rewrite tree_merge_nodes. destruct (ly >? ry).
  - cbn [inorder]. rewrite IHL. cbn [inorder]. by rewrite <- app_assoc.
  - cbn [inorder]. rewrite IHR. cbn [inorder]. by rewrite <- !app_assoc.
Qed.

Lemma tree_merge_heap (L R : tree X) y :
  heap L -> heap R -> heap (tree_merge L R) /\
  (top_le L y -> top_le R y -> top_le (tree_merge L R) y).
Proof.
  revert R y. induction L as [|ll _ lx ly lr IHL]; intros R y HL; [by destruct R|].
  revert y. induction R as [|rl IHR rx ry rr _]; intros y HR; [done|].
  rewrite tree_merge_nodes. destruct (ly >? ry) eqn:E.
  - cbn in HL. destruct HL as (? & ? & ? & ?). split; [|done].
    destruct (IHL (Node rl rx ry rr) ly) as [? Ht]; [done..|].
    cbn. split_and!; try done. apply Ht; [done|]. cbn. lia.
  - cbn in HR. destruct HR as (? & ? & ? & ?).
    destruct (IHR ry) as [? Ht]; [done|]. split; [|done].
    cbn. split_and!; try done. apply Ht; [|done]. cbn. lia.
Qed.

(** *** Insertion *)

Lemma sorted_insert_app x l1 l2 :
  Forall (fun e => 0 <= cmp x e) l1 -> sorted_insert cmp x (l1 ++ l2) = l1 ++ sorted_insert cmp x l2.
Proof.
  induction 1 as [|e l1 He _ IH]; [done|]. cbn. by rewrite (proj2 (Z.ltb_ge _ _)), IH.
Qed.

Lemma sorted_insert_cons x l :
  Forall (fun e => cmp x e < 0) l -> sorted_insert cmp x l = x :: l.
Proof. intros [|e l' He _]; [done|]. cbn. by rewrite (proj2 (Z.ltb_lt _ _)). Qed.

Lemma sorted_insert_left x l1 e l2 :
  cmp x e < 0 -> sorted_insert cmp x (l1 ++ e :: l2) = sorted_insert cmp x l1 ++ e :: l2.
Proof.
  intros He. induction l1 as [|a l1 IH]; cbn; [by rewrite (proj2 (Z.ltb_lt _ _))|].
  rewrite IH. by destruct (cmp x a <? 0).
Qed.

Lemma sorted_insert_perm x l : sorted_insert cmp x l ≡ₚ x :: l.
Proof.
  induction l as [|e l IH]; cbn; [done|]. case_goal; [done|]. rewrite IH. by constructor.
Qed.

Lemma sorted_insert_sorted x l :
  D x -> Forall D l -> fresh cmp x l -> sorted cmp l -> sorted cmp (sorted_insert cmp x l).
Proof.
  intros Hx HD Hf HS. induction HS as [|e l HS IH Hel]; cbn; [by repeat constructor|].
  apply Forall_cons in HD as [HDe HDl]. apply Forall_cons in Hf as [Hfe Hfl].
  destruct (cmp x e <? 0) eqn:E; zbool.
  - repeat constructor; try done. by apply (side_right x e).
  - constructor; [by apply IH|]. rewrite sorted_insert_perm. constructor; [|done].
    pose proof (cmp_sides x e Hx HDe). lia.
Qed.

(** Under the invariant, inserting a fresh key never trips the assertion and
    is insertion into the sorted list, at every priority. *)
Lemma tree_insert_spec T x y :
  D x -> Forall D (inorder T) -> sorted cmp (inorder T) -> heap T -> fresh cmp x (inorder T) ->
  exists T', tree_insert cmp T x y = Ret T' /\
    inorder T' = sorted_insert cmp x (inorder T) /\ heap T' /\
    (forall y', top_le T y' -> y <= y' -> top_le T' y').
Proof.
  intros Hx. induction T as [|l IHl tx ty r IHr]; intros HD HS HH HF.
  { exists (Node Nil x y Nil). by cbn. }
  cbn [tree_insert]. destruct (y >? ty) eqn:Ey.
  { destruct (tree_split cmp (Node l tx ty r) x) as [L R] eqn:E.
    pose proof (tree_split_inorder _ _ _ _ E) as Hin.
    destruct (tree_split_sides _ _ _ _ Hx HD HS E) as [HL HR].
    destruct (tree_split_heap _ _ _ _ HH E) as (? & ? & Ht).
    destruct (Ht y) as [? ?]; [cbn; lia|].
    exists (Node L x y R). split_and!; try done.
    rewrite Hin, sorted_insert_app, sorted_insert_cons by done. done. }
  cbn [inorder] in *. apply Forall_node in HD as (HDl & HDx & HDr).
  apply sorted_node in HS as (HSl & HSr & Hlx & Hxr & Hlr).
  apply Forall_node in HF as (HFl & HFx & HFr). destruct HH as (? & ? & ? & ?).
  destruct (cmp x tx =? 0) eqn:E0; zbool; [done|].
  destruct (cmp x tx <? 0) eqn:E; zbool.
  - destruct IHl as (l' & -> & Hin & ? & Ht); [done..|]. cbn.
    eexists. split_and!; [done| |cbn; split_and!; try done; apply Ht; [done|lia]|done].
    cbn [inorder]. by rewrite Hin, sorted_insert_left.
  - destruct IHr as (r' & -> & Hin & ? & Ht); [done..|]. cbn.
    eexists. split_and!; [done| |cbn; split_and!; try done; apply Ht; [done|lia]|done].
    cbn [inorder]. rewrite Hin, sorted_insert_app.
    + cbn. by rewrite (proj2 (Z.ltb_ge _ _)).
    + eapply Forall_impl; [by apply (side_left x tx)|]. cbn. lia.
Qed.

Lemma tree_insert_ok T x y :
  D x -> tree_ok D cmp T -> fresh cmp x (inorder T) ->
  exists T', tree_insert cmp T x y = Ret T' /\ tree_ok D cmp T' /\
    inorder T' = sorted_insert cmp x (inorder T).
Proof.
  intros Hx [HD HS HH] HF.
  destruct (tree_insert_spec T x y) as (T' & E & Hin & HH' & _); [done..|].
  exists T'. split_and!; [done| |done]. constructor; [| |done]; rewrite Hin.
  - rewrite sorted_insert_perm. by constructor.
  - by apply sorted_insert_sorted.
Qed.

(** *** Deletion *)

Lemma sorted_remove_app x l1 l2 :
  sorted_remove cmp x (l1 ++ l2) = sorted_remove cmp x l1 ++ sorted_remove cmp x l2.
Proof. apply List.filter_app. Qed.

Lemma sorted_remove_cons x e l :
  sorted_remove cmp x (e :: l) =
  if cmp x e =? 0 then sorted_remove cmp x l else e :: sorted_remove cmp x l.
Proof. unfold sorted_remove. cbn. by destruct (cmp x e =? 0). Qed.

Lemma sorted_remove_fresh x l : fresh cmp x l -> sorted_remove cmp x l = l.
Proof.
  induction 1 as [|e l He _ IH]; [done|].
  by rewrite sorted_remove_cons, (proj2 (Z.eqb_neq _ _)), IH by done.
Qed.

Lemma fresh_lt x l : Forall (fun e => cmp x e < 0) l -> fresh cmp x l.
Proof. intros H. eapply Forall_impl; [exact H|]. cbn. lia. Qed.

Lemma fresh_gt x l : Forall (fun e => 0 < cmp x e) l -> fresh cmp x l.
Proof. intros H. eapply Forall_impl; [exact H|]. cbn. lia. Qed.

(** The keys left and right of a node whose key is not [x]'s. *)
Lemma fresh_node_right x tx l :
  D x -> D tx -> Forall D l -> cmp x tx <= 0 -> Forall (fun b => cmp tx b < 0) l -> fresh cmp x l.
Proof.
  intros Hx Ht HD H Hl. apply fresh_lt. rewrite !Forall_forall in *.
  intros e He. apply (cmp_le_lt x tx e); auto.
Qed.

Lemma fresh_node_left x tx l :
  D x -> D tx -> Forall D l -> 0 <= cmp x tx -> Forall (fun a => cmp a tx < 0) l -> fresh cmp x l.
Proof. intros. by apply fresh_gt, (side_left x tx). Qed.

Lemma tree_delete_spec T x :
  D x -> Forall D (inorder T) -> sorted cmp (inorder T) -> heap T ->
  ~ fresh cmp x (inorder T) ->
  exists T', tree_delete cmp T x = Ret T' /\
    inorder T' = sorted_remove cmp x (inorder T) /\ heap T' /\
    (forall y', top_le T y' -> top_le T' y').
Proof.
  intros Hx. induction T as [|l IHl tx ty r IHr]; intros HD HS HH HF.
  { destruct HF. constructor. }
  cbn [inorder tree_delete] in *. apply Forall_node in HD as (HDl & HDx & HDr).
  apply sorted_node in HS as (HSl & HSr & Hlx & Hxr & Hlr).
  unfold fresh in HF. rewrite Forall_node in HF. destruct HH as (Hl & Hr & HHl & HHr).
  rewrite sorted_remove_app, sorted_remove_cons.
  destruct (cmp x tx =? 0) eqn:E0; zbool.
  - destruct (tree_merge_heap l r ty HHl HHr) as [? Ht].
    exists (tree_merge l r). split_and!; [done| |done|].
    + rewrite tree_merge_inorder, (sorted_remove_fresh x (inorder l)), (sorted_remove_fresh x (inorder r)); [done|..].
      * apply (fresh_node_right x tx); done || lia.
      * apply (fresh_node_left x tx); done || lia.
    + intros y' Hy. cbn in Hy. specialize (Ht Hl Hr). by destruct (tree_merge l r); cbn in *; [|lia].
  - destruct (cmp x tx <? 0) eqn:E; zbool.
    + assert (HFr : fresh cmp x (inorder r)) by (apply (fresh_node_right x tx); done || lia).
      destruct IHl as (l' & -> & Hin & ? & Ht); [tauto..|]. cbn.
      eexists. split_and!; [done| |cbn; split_and!; try done; by apply Ht|done].
      cbn [inorder]. rewrite Hin, (sorted_remove_fresh x (inorder r)) by done. done.
    + assert (HFl : fresh cmp x (inorder l)) by (apply (fresh_node_left x tx); done || lia).
      destruct IHr as (r' & -> & Hin & ? & Ht); [tauto..|]. cbn.
      eexists. split_and!; [done| |cbn; split_and!; try done; by apply Ht|done].
      cbn [inorder]. rewrite Hin, (sorted_remove_fresh x (inorder l)) by done. done.
Qed.

(** Deleting a key that is not there runs into the null tree's assertion. *)
Lemma tree_delete_absent T x :
  fresh cmp x (inorder T) -> tree_delete cmp T x = Fault AssertFailed.
Proof.
  induction T as [|l IHl tx ty r IHr]; cbn; [done|]. unfold fresh. rewrite Forall_node.
  intros (Hl & Hx & Hr). rewrite (proj2 (Z.eqb_neq _ _)) by done.
  case_goal; [by rewrite IHl|by rewrite IHr].
Qed.

Lemma sorted_remove_sorted x l : sorted cmp l -> sorted cmp (sorted_remove cmp x l).
Proof.
  induction 1 as [|e l HS IH Hel]; [constructor|]. rewrite sorted_remove_cons.
  case_goal; [done|]. constructor; [done|]. rewrite Forall_forall in *.
  intros a Ha. apply Hel. unfold sorted_remove in Ha.
  apply list_elem_of_In, filter_In in Ha as [Ha _]. by apply list_elem_of_In.
Qed.

Lemma sorted_remove_Forall (P : X -> Prop) x l : Forall P l -> Forall P (sorted_remove cmp x l).
Proof.
  induction 1; [constructor|]. rewrite sorted_remove_cons. case_goal; by try constructor.
Qed.

Lemma tree_delete_ok T x :
  D x -> tree_ok D cmp T -> ~ fresh cmp x (inorder T) ->
  exists T', tree_delete cmp T x = Ret T' /\ tree_ok D cmp T' /\
    inorder T' = sorted_remove cmp x (inorder T).
Proof.
  intros Hx [HD HS HH] HF.
  destruct (tree_delete_spec T x) as (T' & E & Hin & HH' & _); [done..|].
  exists T'. split_and!; [done| |done]. constructor; [| |done]; rewrite Hin.
  - by apply sorted_remove_Forall.
  - by apply sorted_remove_sorted.
Qed.

(** *** Lookup, minimum and traversal *)

Lemma sorted_find_app x l1 l2 :
  sorted_find cmp x (l1 ++ l2) =
  match sorted_find cmp x l1 with Some e => Some e | None => sorted_find cmp x l2 end.
Proof. unfold sorted_find. induction l1 as [|e l1 IH]; cbn; [done|]. by case_goal. Qed.

Lemma sorted_find_fresh x l : fresh cmp x l <-> sorted_find cmp x l = None.
Proof.
  unfold sorted_find, fresh. induction l as [|e l IH]; cbn; [done|].
  rewrite Forall_cons. destruct (cmp x e =? 0) eqn:E; zbool; [|by rewrite IH; intuition].
  split; [intros [? _]; done|done].
Qed.

Lemma tree_lookup_find T x :
  D x -> Forall D (inorder T) -> sorted cmp (inorder T) ->
  tree_lookup cmp T x = sorted_find cmp x (inorder T).
Proof.
  intros Hx. induction T as [|l IHl tx ty r IHr]; intros HD HS; [done|].
  cbn [inorder tree_lookup] in *. apply Forall_node in HD as (HDl & HDx & HDr).
  apply sorted_node in HS as (HSl & HSr & Hlx & Hxr & _). rewrite sorted_find_app.
  destruct (Z.lt_trichotomy (cmp x tx) 0) as [H|[H|H]].
  - rewrite (proj2 (Z.eqb_neq _ _)), (proj2 (Z.ltb_lt _ _)), IHl by done || lia.
    destruct (sorted_find cmp x (inorder l)); [done|]. symmetry.
    apply sorted_find_fresh. constructor; [lia|]. apply (fresh_node_right x tx); done || lia.
  - rewrite H. rewrite (proj1 (sorted_find_fresh x (inorder l))).
    + unfold sorted_find. cbn. by rewrite H.
    + apply (fresh_node_left x tx); done || lia.
  - rewrite (proj2 (Z.eqb_neq _ _)), (proj2 (Z.ltb_ge _ _)), IHr by done || lia.
    rewrite (proj1 (sorted_find_fresh x (inorder l))).
    + unfold sorted_find. cbn. by rewrite (proj2 (Z.eqb_neq _ _)) by lia.
    + apply (fresh_node_left x tx); done || lia.
Qed.

Lemma tree_lookup_ok T x :
  D x -> tree_ok D cmp T -> tree_lookup cmp T x = sorted_find cmp x (inorder T).
Proof. intros Hx []. by apply tree_lookup_find. Qed.

Lemma tree_get_min_inorder (T : tree X) : tree_get_min T = head (inorder T).
Proof.
  induction T as [|l IHl tx ty r _]; [done|].
  destruct l as [|ll lx ly lr]; [done|].
  transitivity (tree_get_min (Node ll lx ly lr)); [done|]. rewrite IHl. cbn [inorder]. by destruct (inorder ll).
Qed.

Lemma tree_act_inorder {S} (act : X -> M S unit) T s :
  tree_act act T s = each act (inorder T) s.
Proof.
  revert s. induction T as [|l IHl x y r IHr]; intros s; [done|].
  cbn [tree_act inorder]. rewrite each_app. unfold bind, rbind.
  rewrite IHl. destruct (each act (inorder l) s) as [[[] s1]| |]; [|done..].
  cbn [each]. unfold bind, rbind. destruct (act x s1) as [[[] s2]| |]; [|done..]. apply IHr.
Qed.

Lemma tree_act_ex_act {S E} (act : X -> E -> M S unit) T extra s :
  tree_act_ex act T extra s = tree_act (fun x => act x extra) T s.
Proof.
  revert s. induction T as [|l IHl x y r IHr]; intros s; [done|]. cbn. unfold bind, rbind.
  rewrite IHl. case_goal; [|done..]. destruct a as [[] s1].
  destruct (act x extra s1) as [[[] s2]| |]; [|done..]. apply IHr.
Qed.

Lemma tree_count_length (T : tree X) : tree_count T = Z.of_nat (length (inorder T)).
Proof. induction T; cbn; [done|]. rewrite length_app. cbn. lia. Qed.

Lemma tree_clear_Nil (T : tree X) : tree_clear T = Nil.
Proof. by destruct T. Qed.

Lemma tree_check_ok T : tree_ok D cmp T -> tree_check cmp T = Ret tt.
Proof.
  intros [HD HS HH]. induction T as [|l IHl tx ty r IHr]; [done|].
  cbn [inorder tree_check] in *. apply Forall_node in HD as (HDl & HDx & HDr).
  apply sorted_node in HS as (HSl & HSr & Hlx & Hxr & _). destruct HH as (Hl & Hr & HHl & HHr).
  rewrite IHl, IHr by done.
  assert (check_child l (fun x y => (y <=? ty) && (cmp x tx <? 0)) = true) as ->.
  { destruct l; cbn in *; [done|]. apply Forall_node in Hlx as (_ & ? & _). lia. }
  assert (check_child r (fun x y => (y <=? ty) && (cmp x tx >? 0)) = true) as ->; [|done].
  destruct r as [|? x ? ?]; cbn in *; [done|]. apply Forall_node in Hxr as (_ & ? & _).
  apply Forall_node in HDr as (_ & HDrx & _). pose proof (cmp_sides tx x HDx HDrx). lia.
Qed.

(** *** Insertion sequences *)

(** A run of insertions, each with the priority drawn for it. *)
Fixpoint insert_all (l : list (X * Z)) (T : tree X) : result (tree X) :=
  match l with
  | [] => Ret T
  | (x, y) :: l => do? T := tree_insert cmp T x y in insert_all l T
  end.

(** No two positions hold the same key. *)
Definition distinct (l : list X) : Prop := forall i j a b,
  l !! i = Some a -> l !! j = Some b -> cmp a b = 0 -> i = j.

Lemma distinct_cons x l :
  Forall D (x :: l) -> distinct (x :: l) <-> fresh cmp x l /\ distinct l.
Proof.
  intros [Hx HD]%Forall_cons. unfold distinct, fresh. rewrite Forall_lookup in *. split.
  - intros H. split.
    + intros i e He Hc. by specialize (H 0%nat (S i) x e eq_refl He Hc).
    + intros i j a b Ha Hb Hc. by specialize (H (S i) (S j) a b Ha Hb Hc); injection H.
  - intros [Hf H] [|i] [|j] a b Ha Hb Hc; cbn in *; simplify_eq; [done|..].
    + by destruct (Hf _ _ Hb).
    + destruct (Hf _ _ Ha). pose proof (cmp_sides a b (HD _ _ Ha) Hx). lia.
    + f_equal. eauto.
Qed.

Lemma fresh_perm x l1 l2 : l1 ≡ₚ l2 -> fresh cmp x l1 -> fresh cmp x l2.
Proof. unfold fresh. by intros ->. Qed.

Lemma insert_all_ok l T :
  Forall D (l.*1) -> tree_ok D cmp T -> distinct (l.*1) ->
  Forall (fun x => fresh cmp x (inorder T)) (l.*1) ->
  exists T', insert_all l T = Ret T' /\ tree_ok D cmp T' /\ inorder T' ≡ₚ l.*1 ++ inorder T.
Proof.
  revert T. induction l as [|[x y] l IH]; intros T HD HT Hd Hf; [by exists T|].
  cbn [fmap list_fmap fst] in *. apply distinct_cons in Hd as [Hxl Hd]; [|done].
  apply Forall_cons in HD as [Hx HD]. apply Forall_cons in Hf as [Hfx Hf].
  cbn [insert_all]. destruct (tree_insert_ok T x y) as (T1 & E & HT1 & Hin); [done..|].
  rewrite E. cbn [rbind]. assert (Hp : inorder T1 ≡ₚ x :: inorder T)
    by (rewrite Hin; apply sorted_insert_perm).
  destruct (IH T1) as (T2 & E2 & HT2 & Hp2); [done..| |].
  - rewrite Forall_lookup in *. intros i e He. eapply fresh_perm; [by symmetry|].
    constructor; [|by eapply Hf].
    unfold fresh in Hxl. rewrite Forall_lookup in Hxl. specialize (Hxl i e He).
    pose proof (cmp_sides e x (HD _ _ He) Hx). lia.
  - exists T2. split_and!; [done..|]. rewrite Hp2, Hp. symmetry. apply Permutation_middle.
Qed.

(** Trees with the same elements have the same traversal, whatever the
    priorities and the order of insertion. *)
Lemma inorder_unique T1 T2 :
  tree_ok D cmp T1 -> tree_ok D cmp T2 -> inorder T1 ≡ₚ inorder T2 -> inorder T1 = inorder T2.
Proof.
  intros [HD1 HS1 _] [HD2 HS2 _] Hp.
  eapply StronglySorted_unique_strong; [|exact HS1|exact HS2|done].
  intros a b Ha Hb H1 H2. rewrite Forall_forall in HD1, HD2.
  pose proof (cmp_sides a b (HD1 _ Ha) (HD2 _ Hb)). cbv beta in *. lia.
Qed.

End Proofs.

(** ** Comparators *)

(** The first byte of a C string, as [unsigned char]; 0 at its end. *)
Definition str_head (s : list Z) : Z :=
  match s with
  | [] => 0
  | c :: _ => uchar c
  end.

(** [strcmp]: the sign of the first difference as unsigned characters; a
    string ends at its first null character. *)
Fixpoint strcmp (a b : list Z) : Z :=
  if str_head a =? str_head b then
    match a, b with
    | _ :: a', _ :: b' => if str_head a =? 0 then 0 else strcmp a' b'
    | _, _ => 0
    end
  else str_head a - str_head b.

Lemma strcmp_heads a b :
  strcmp a b =
  if str_head a =? str_head b then
    if str_head a =? 0 then 0 else strcmp (tail a) (tail b)
  else str_head a - str_head b.
Proof.
  destruct a as [|x a], b as [|y b]; cbn [strcmp tail]; try done;
    destruct (str_head _ =? str_head _) eqn:E; try done.
  cbn in *. by rewrite E.
Qed.

#[export] Instance strcmp_laws : CmpLaws (fun _ => True) strcmp.
Proof.
  constructor.
  - intros x _. induction x as [|c x IH]; rewrite strcmp_heads, Z.eqb_refl; [done|].
    by case_goal.
  - intros x y _ _. revert y.
    induction x as [|c x IH]; intros y; rewrite (strcmp_heads y), strcmp_heads, (Z.eqb_sym (str_head y)).
    + destruct (str_head [] =? str_head y) eqn:E; [|zbool; lia].
      zbool. rewrite <- E. by cbn.
    + destruct (str_head (c :: x) =? str_head y) eqn:E; zbool; [|lia].
      rewrite <- E. case_goal; [lia|]. apply IH.
  - intros x y z _ _ _. revert y z. induction x as [|c x IH]; intros y z;
      rewrite (strcmp_heads y z), !(strcmp_heads _ z), (strcmp_heads _ y);
      repeat case_goal; zbool; try lia.
    + cbn in *. lia.
    + apply IH.
Qed.

(** A C string: no embedded null, every element a [char]. *)
Definition is_char (c : Z) : Prop := -128 <= c < 128.
Definition c_string (s : list Z) : Prop := Forall (fun c => is_char c /\ c <> 0) s.

Lemma strcmp_eq a b : c_string a -> c_string b -> strcmp a b = 0 <-> a = b.
Proof.
  unfold c_string, is_char. intros Ha. revert b. induction Ha as [|x a Hx Ha IH]; intros b Hb.
  - destruct b as [|y b]; [done|]. apply Forall_cons in Hb as [Hy _]. rewrite strcmp_heads.
    cbn [str_head]. unfold uchar in *. split; [|done]. case_goal; zbool; zmod.
  - rewrite strcmp_heads. destruct b as [|y b]; cbn [str_head tail].
    { unfold uchar. split; [|done]. case_goal; zbool; zmod. }
    apply Forall_cons in Hb as [Hy Hb]. destruct (uchar x =? uchar y) eqn:E; zbool.
    + assert (x = y) as -> by (unfold uchar in E; zmod).
      rewrite (proj2 (Z.eqb_neq _ _)) by (unfold uchar; zmod).
      rewrite IH by done. split; congruence.
    + split; [lia|]. intros [= -> ->]. lia.
Qed.

(** [tl_var_value_cmp]: the difference of two addresses, converted to the
    [int] the tree code keeps it in. *)
Definition ptr_cmp (a b : Z) : Z := i32 (a - b).

(** The addresses of one 2 GB window are totally ordered by it. *)
#[export] Instance ptr_cmp_laws base :
  CmpLaws (fun a => base <= a < base + 2 ^ 31) ptr_cmp.
Proof.
  constructor; unfold ptr_cmp; intros; rewrite ?i32_small in * by lia; lia.
Qed.

(** ** The contract the clients use *)

Section Contract.
Context {X : Type} (D : X -> Prop) (cmp : X -> X -> Z) `{!CmpLaws D cmp}.

Lemma sorted_find_insert x z l :
  D x -> D z -> Forall D l -> fresh cmp x l -> sorted cmp l ->
  sorted_find cmp z (sorted_insert cmp x l) =
  if cmp z x =? 0 then Some x else sorted_find cmp z l.
Proof.
  intros Hx Hz HD HF HS. unfold sorted_find.
  induction HS as [|e l HS IH Hel]; cbn; [by case_goal|].
  apply Forall_cons in HD as [HDe HD]. apply Forall_cons in HF as [HFe HF].
  destruct (cmp x e <? 0) eqn:E; cbn; [by case_goal|].
  rewrite IH by done. destruct (cmp z e =? 0) eqn:Ee; [|by case_goal].
  zbool. destruct (cmp z x =? 0) eqn:Ex; [|done]. zbool.
  pose proof (cmp_sides D cmp x e Hx HDe). pose proof (cmp_sides D cmp z x Hz Hx).
  pose proof (cmp_sides D cmp z e Hz HDe).
  assert (cmp e x < 0) as Hex by lia.
  pose proof (cmp_lt_le D cmp e x z HDe Hx Hz Hex ltac:(lia)). lia.
Qed.

Lemma sorted_find_remove x z l :
  D x -> D z -> Forall D l ->
  sorted_find cmp z (sorted_remove cmp x l) =
  if cmp z x =? 0 then None else sorted_find cmp z l.
Proof.
  intros Hx Hz HD. induction HD as [|e l HDe HD IH]; [by case_goal|].
  rewrite sorted_remove_cons. pose proof (cmp_sides D cmp x e Hx HDe).
  pose proof (cmp_sides D cmp z x Hz Hx). pose proof (cmp_sides D cmp z e Hz HDe).
  assert (Heq : cmp x e = 0 -> (cmp z e = 0 <-> cmp z x = 0)).
  { intros H2. split; intros H3.
    - pose proof (cmp_trans (cmp := cmp) z e x Hz HDe Hx ltac:(lia) ltac:(lia)).
      pose proof (cmp_trans (cmp := cmp) x e z Hx HDe Hz ltac:(lia) ltac:(lia)). lia.
    - pose proof (cmp_trans (cmp := cmp) z x e Hz Hx HDe ltac:(lia) ltac:(lia)).
      pose proof (cmp_trans (cmp := cmp) e x z HDe Hx Hz ltac:(lia) ltac:(lia)). lia. }
  unfold sorted_find in *. cbn.
  destruct (cmp x e =? 0) eqn:E; zbool.
  - rewrite IH. destruct (cmp z x =? 0) eqn:Ex, (cmp z e =? 0) eqn:Ee; zbool; try done; lia.
  - cbn. rewrite IH. destruct (cmp z x =? 0) eqn:Ex; [|done].
    destruct (cmp z e =? 0) eqn:Ee; [|done]. zbool.
    pose proof (cmp_trans (cmp := cmp) x z e Hx Hz HDe ltac:(lia) ltac:(lia)).
    pose proof (cmp_trans (cmp := cmp) e z x HDe Hz Hx ltac:(lia) ltac:(lia)). lia.
Qed.

(** C14. [tree_insert] of a key that is not in the tree, at any priority:
    the assertion holds, the result is again a search tree and a heap, its
    traversal is the old one with the element put in its sorted place, and
    [tree_lookup] then finds the new element under its key and what it found
    before under every other key. *)
Theorem treap_insert T x y :
  D x -> tree_ok D cmp T -> tree_lookup cmp T x = None ->
  exists T', tree_insert cmp T x y = Ret T' /\ tree_ok D cmp T' /\
    inorder T' = sorted_insert cmp x (inorder T) /\
    forall z, D z ->
      tree_lookup cmp T' z = if cmp z x =? 0 then Some x else tree_lookup cmp T z.
Proof.
  intros Hx HT HF. rewrite (tree_lookup_ok D) in HF by done. apply sorted_find_fresh in HF.
  destruct (tree_insert_ok D cmp T x y) as (T' & E & HT' & Hin); [done..|].
  exists T'. split_and!; [done..|]. intros z Hz. rewrite !(tree_lookup_ok D), Hin by done.
  destruct HT. by apply sorted_find_insert.
Qed.

(** C15. [tree_delete] of a key that is in the tree removes it and nothing
    else, and keeps the invariant; of a key that is not in the tree it runs
    into [assert (T)]. *)
Theorem treap_delete T x :
  D x -> tree_ok D cmp T ->
  match tree_lookup cmp T x with
  | Some _ =>
      exists T', tree_delete cmp T x = Ret T' /\ tree_ok D cmp T' /\
        inorder T' = sorted_remove cmp x (inorder T) /\
        forall z, D z ->
          tree_lookup cmp T' z = if cmp z x =? 0 then None else tree_lookup cmp T z
  | None => tree_delete cmp T x = Fault AssertFailed
  end.
Proof.
  intros Hx HT. rewrite (tree_lookup_ok D) by done.
  destruct (sorted_find cmp x (inorder T)) eqn:HF.
  - destruct (tree_delete_ok D cmp T x) as (T' & E & HT' & Hin); [done..| |].
    { rewrite sorted_find_fresh. congruence. }
    exists T'. split_and!; [done..|]. intros z Hz. rewrite !(tree_lookup_ok D), Hin by done.
    destruct HT. by apply sorted_find_remove.
  - apply tree_delete_absent. by apply sorted_find_fresh.
Qed.

(** C33. Traversals do not depend on the random priorities or on the order
    of insertion: two runs of insertions of the same distinct keys both
    succeed, pass [tree_check], and [tree_act] then runs the same actions in
    the same order, so it produces the same effect. *)
Theorem treap_traversal_deterministic (l1 l2 : list (X * Z)) :
  Forall D (l1.*1) -> distinct cmp (l1.*1) -> distinct cmp (l2.*1) -> l1.*1 ≡ₚ l2.*1 ->
  exists T1 T2, insert_all cmp l1 Nil = Ret T1 /\ insert_all cmp l2 Nil = Ret T2 /\
    tree_check cmp T1 = Ret tt /\ tree_check cmp T2 = Ret tt /\
    tree_count T1 = Z.of_nat (length l1) /\
    forall S (act : X -> M S unit) s, tree_act act T1 s = tree_act act T2 s.
Proof.
  intros HD Hd1 Hd2 Hp. assert (HN : tree_ok D cmp Nil) by by repeat constructor.
  assert (HF : forall l : list X, Forall (fun x => fresh cmp x (inorder (@Nil X))) l)
    by (intros; apply Forall_forall; constructor).
  destruct (insert_all_ok D cmp l1 Nil) as (T1 & E1 & HT1 & Hp1); [done..|].
  destruct (insert_all_ok D cmp l2 Nil) as (T2 & E2 & HT2 & Hp2); [by rewrite <- Hp|done..|].
  rewrite app_nil_r in Hp1, Hp2.
  exists T1, T2. split_and!; [done|done|by eapply tree_check_ok|by eapply tree_check_ok| |].
  - rewrite tree_count_length. f_equal. rewrite Hp1. apply length_fmap.
  - intros S act s. rewrite !tree_act_inorder. f_equal.
    apply (inorder_unique D cmp); [done..|]. by rewrite Hp1, Hp2.
Qed.

End Contract.

(** *** Witnesses, on identifiers *)

(** The keys "int" and "long", with two priorities. *)
Definition key_int : list Z := [105; 110; 116].
Definition key_long : list Z := [108; 111; 110; 103].
Definition sample_tree : tree (list Z) := Node Nil key_int 5 Nil.

Lemma sample_ok : tree_ok (fun _ => True) strcmp sample_tree.
Proof. repeat constructor. Qed.

Lemma treap_insert_witness :
  exists T', tree_insert strcmp sample_tree key_long 9 = Ret T' /\ tree_lookup strcmp T' key_int = Some key_int.
Proof.
  destruct (treap_insert (fun _ => True) strcmp sample_tree key_long 9 I sample_ok eq_refl)
    as (T' & E & _ & _ & H).
  exists T'. split; [exact E|]. rewrite (H key_int I). reflexivity.
Defined.

Lemma treap_delete_witness :
  exists T', tree_delete strcmp sample_tree key_int = Ret T' /\ tree_lookup strcmp T' key_int = None.
Proof.
  destruct (treap_delete (fun _ => True) strcmp sample_tree key_int I sample_ok)
    as (T' & E & _ & _ & H).
  exists T'. split; [exact E|]. rewrite (H key_int I). reflexivity.
Defined.

Lemma distinct_pair a b : strcmp a b <> 0 -> strcmp b a <> 0 -> distinct strcmp [a; b].
Proof. intros H1 H2 [|[|i]] [|[|j]] x y Hx Hy Hc; cbn in *; simplify_eq; done. Qed.

Lemma treap_traversal_deterministic_witness :
  exists T1 T2, insert_all strcmp [(key_int, 3); (key_long, 8)] Nil = Ret T1 /\
    insert_all strcmp [(key_long, 8); (key_int, 1)] Nil = Ret T2 /\
    forall S (act : list Z -> M S unit) s, tree_act act T1 s = tree_act act T2 s.
Proof.
  destruct (treap_traversal_deterministic (fun _ => True) strcmp
    [(key_int, 3); (key_long, 8)] [(key_long, 8); (key_int, 1)])
    as (T1 & T2 & E1 & E2 & _ & _ & _ & H).
  - repeat constructor.
  - apply distinct_pair; vm_compute; congruence.
  - apply distinct_pair; vm_compute; congruence.
  - apply perm_swap.
  - exists T1, T2. split; [exact E1|]. split; [exact E2|exact H].
Defined.

(** ** The truncation of address differences *)

(** C38. A difference of addresses that is a multiple of 2^32 is truncated to
    0, so a tree keyed by [tl_var_value_cmp] takes two different nodes 4 GB
    apart for the same one; inside one 2 GB window this cannot happen. *)
Theorem ptr_cmp_truncates a b y :
  (b = a + 2 ^ 32 -> tree_lookup ptr_cmp (new_tree_node a y) b = Some a) /\
  (forall base, base <= a < base + 2 ^ 31 -> base <= b < base + 2 ^ 31 ->
     tree_lookup ptr_cmp (new_tree_node a y) b = Some a -> a = b).
Proof.
  split.
  - intros ->. unfold new_tree_node, tree_lookup, ptr_cmp.
    by replace (i32 (a + 2 ^ 32 - a)) with 0 by (unfold i32; zmod).
  - intros base Ha Hb. cbn. unfold ptr_cmp. rewrite i32_small by lia.
    case_goal; [zbool; lia|]. by case_goal.
Qed.

Lemma ptr_cmp_truncates_witness :
  tree_lookup ptr_cmp (new_tree_node 4096 1) (4096 + 2 ^ 32) = Some 4096.
Proof. apply (proj1 (ptr_cmp_truncates 4096 (4096 + 2 ^ 32) 1)). lia. Defined.
