(* ===== verification/Lexer.v ===== *)
(** * The lexer (tl-parser.c, lines 108 to 395)

    [struct parse] with the position, the line counters and the current
    lexeme, the character [curch] and the record of the last error are the
    state [lstate]; the text itself, which no function writes after
    [tl_init_parse_file], is the section's [text].  Characters are signed, as
    on the platforms the project builds for, so every byte above 127 is
    negative.  A lexeme pointer is null, [(void * ) -1] or an offset in the text.
    The loops carry fuel, one unit per iteration; [OutOfFuel] means the loop
    is still running. *)
From Stdlib Require Import ZArith Lia List Bool Ascii String.
From stdpp Require Import base list strings.
From S2P Require Import Prelude.
Open Scope tl_scope.

(** ** Data (tl-parser.h) *)

Inductive lex_type :=
| lex_error | lex_char | lex_triple_minus | lex_uc_ident | lex_lc_ident | lex_eof
| lex_final | lex_new | lex_none | lex_num | lex_empty.

#[export] Instance lex_type_eq_dec : EqDecision lex_type.
Proof. solve_decision. Defined.

Inductive lexptr := PNull | PMinus1 | POff (o : Z).

Record curlex := mk_curlex { lex_ptr : lexptr; lex_len : Z; lex_ty : lex_type; lex_flags : Z }.

Record parse := mk_parse { pos : Z; line : Z; line_pos : Z; lex : curlex }.

Record lstate := mk_lstate {
  ps : parse;
  curch : Z;
  last_error_pos : Z;
  last_error_line : Z;
  last_error_line_pos : Z;
  last_error : option string
}.

Definition set_lex (l : curlex) (s : lstate) : lstate :=
  mk_lstate (mk_parse (pos (ps s)) (line (ps s)) (line_pos (ps s)) l) (curch s)
    (last_error_pos s) (last_error_line s) (last_error_line_pos s) (last_error s).

(** ** Character classes *)

Definition is_whitespace (c : Z) : bool := c <=? 32.
Definition is_uletter (c : Z) : bool := (c >=? chr "A") && (c <=? chr "Z").
Definition is_lletter (c : Z) : bool := (c >=? chr "a") && (c <=? chr "z").
Definition is_letter (c : Z) : bool := is_uletter c || is_lletter c.
Definition is_digit (c : Z) : bool := (c >=? chr "0") && (c <=? chr "9").
Definition is_hexdigit (c : Z) : bool := is_digit c || (c >=? chr "a") && (c <=? chr "f").
Definition is_ident_char (c : Z) : bool := is_digit c || is_letter c || (c =? chr "_").

(** The single-character lexemes of the [switch]. *)
Definition punctuation : list Z := str ":;()[]{}=#?%<>+,*_!.".

Section Lexer.
Context (text : list Z).

(** [parse.len]. *)
Definition len : Z := Z.of_nat (List.length text).

(** [parse.text[i]] for an index the code has bounded. *)
Definition text_at (i : Z) : Z := nth (Z.to_nat i) text 0.

(** [parse.text[i]] where it has not. *)
Definition text_read (i : Z) : result Z :=
  if (0 <=? i) && (i <? len) then Ret (text_at i) else Fault OutOfBounds.

(** ** The code *)

(** The character read is [curch] of the state returned. *)
Definition nextch (s : lstate) : lstate :=
  let p := ps s in
  let '(pos1, c) := if pos p <? len - 1 then (pos p + 1, text_at (pos p + 1)) else (pos p, 0) in
  let '(line1, line_pos1) :=
    if c =? 10 then (line p + 1, 0)
    else if c =? 0 then (line p, line_pos p) else (line p, line_pos p + 1) in
  mk_lstate (mk_parse pos1 line1 line_pos1 (lex p)) c
    (last_error_pos s) (last_error_line s) (last_error_line_pos s) (last_error s).

Definition save_parse (s : lstate) : parse := ps s.

Definition load_parse (p : parse) (s : lstate) : result lstate :=
  do? c := if pos p >? len then Ret 0 else text_read (pos p) in
  Ret (mk_lstate p c (last_error_pos s) (last_error_line s) (last_error_line_pos s) (last_error s)).

Definition parse_error (e : string) (s : lstate) : lstate :=
  if pos (ps s) >? last_error_pos s
  then mk_lstate (ps s) (curch s) (pos (ps s)) (line (ps s)) (line_pos (ps s)) (Some e)
  else s.

(** The line and column that [tl_print_parse_error] prints, with the message. *)
Definition tl_print_parse_error (s : lstate) : Z * Z * option string :=
  (last_error_line s + 1, last_error_line_pos s + 1, last_error s).

(** [while (p (nextch ()));] *)
Fixpoint while_next (p : Z -> bool) (fuel : nat) (s : lstate) : result lstate :=
  match fuel with
  | O => OutOfFuel
  | S fuel => let s := nextch s in if p (curch s) then while_next p fuel s else Ret s
  end.

(** [while (curch && is_whitespace (curch)) { nextch (); }] *)
Fixpoint skip_whitespace (fuel : nat) (s : lstate) : result lstate :=
  match fuel with
  | O => OutOfFuel
  | S fuel =>
      if negb (curch s =? 0) && is_whitespace (curch s)
      then skip_whitespace fuel (nextch s) else Ret s
  end.

(** The outer [while (1)]: white space and comments. *)
Fixpoint skip_blank (fuel : nat) (s : lstate) : result lstate :=
  match fuel with
  | O => OutOfFuel
  | S fuel =>
      do? s := skip_whitespace fuel s in
      if curch s =? chr "/" then
        let s := nextch s in
        if curch s =? chr "/" then
          do? s := while_next (fun c => negb (c =? 10)) fuel s in
          skip_blank fuel (nextch s)
        else Ret s
      else Ret s
  end.

(** The writes to [parse.lex] that end [parse_lex]: a lexeme from [p] to the
    current position, the end of the text, an error (which leaves [len]). *)
Definition lex_ok (ty : lex_type) (flags p n : Z) (s : lstate) : lstate :=
  set_lex (mk_curlex (POff p) n ty flags) s.

Definition lex_end (s : lstate) : lstate :=
  set_lex (mk_curlex PNull 0 lex_eof (lex_flags (lex (ps s)))) s.

Definition lex_fail (e : string) (flags : Z) (s : lstate) : lstate :=
  let s := parse_error e s in
  set_lex (mk_curlex PMinus1 (lex_len (lex (ps s))) lex_error flags) s.

Definition memcmp_eq (p : Z) (w : string) : bool :=
  bool_decide (slice text p (Z.of_nat (String.length w)) = str w).

(** [case '-'] *)
Definition lex_minus (p : Z) (s : lstate) : lstate :=
  let s := nextch s in
  if negb (curch s =? chr "-") then lex_fail "Can not parse triple minus" 0 s
  else
    let s := nextch s in
    if negb (curch s =? chr "-") then lex_fail "Can not parse triple minus" 0 s
    else lex_ok lex_triple_minus 0 p 3 (nextch s).

(** An identifier that starts with an upper-case letter. *)
Definition lex_upper (fuel : nat) (p : Z) (s : lstate) : result lstate :=
  do? s := while_next is_ident_char fuel s in
  let n := pos (ps s) - p in
  let ty :=
    if (n =? 5) && memcmp_eq p "Final" then lex_final
    else if (n =? 3) && memcmp_eq p "New" then lex_new
    else if (n =? 5) && memcmp_eq p "Empty" then lex_empty
    else lex_uc_ident in
  Ret (lex_ok ty 0 p n s).

(** [while (curch == '.')]: the namespace parts.  [inl] is a return from
    [parse_lex], [inr] the flags with which it goes on. *)
Fixpoint lex_namespace (fuel : nat) (p flags : Z) (s : lstate) : result (lstate + Z * lstate) :=
  match fuel with
  | O => OutOfFuel
  | S fuel =>
      if curch s =? chr "." then
        let flags := Z.lor flags 1 in
        let s := nextch s in
        if is_uletter (curch s) then
          do? s := while_next is_ident_char fuel s in
          Ret (inl (lex_ok lex_uc_ident flags p (pos (ps s) - p) s))
        else if is_lletter (curch s) then
          do? s := while_next is_ident_char fuel s in
          lex_namespace fuel p flags s
        else Ret (inl (lex_fail "Expected letter" flags s))
      else Ret (inr (flags, s))
  end.

(** The loop over the hexadecimal digits after [#], [k] of the eight left and
    [i] read: [Some true] is [ok == 1], [Some false] is [ok == 2]. *)
Fixpoint lex_hex (k : nat) (i : Z) (s : lstate) : option bool * lstate :=
  match k with
  | O => (Some true, s)
  | S k =>
      let s := nextch s in
      if negb (is_hexdigit (curch s)) then
        if (curch s =? chr " ") && (i >=? 5) then (Some false, s) else (None, s)
      else lex_hex k (i + 1) s
  end.

(** [if (curch == '#')] and the end of a lower-case identifier. *)
Definition lex_magic (p flags : Z) (s : lstate) : lstate :=
  if curch s =? chr "#" then
    let flags := Z.lor flags 2 in
    match lex_hex 8 0 s with
    | (None, s) => lex_fail "Hex digit expected" flags s
    | (Some ok, s) =>
        let s := if ok then nextch s else s in
        lex_ok lex_lc_ident flags p (pos (ps s) - p) s
    end
  else lex_ok lex_lc_ident flags p (pos (ps s) - p) s.

(** An identifier that starts with a lower-case letter. *)
Definition lex_lower (fuel : nat) (p : Z) (s : lstate) : result lstate :=
  do? s := while_next is_ident_char fuel s in
  do? dot :=
    (if curch s =? chr "." then
       do? c := text_read (pos (ps s) + 1) in Ret (negb (is_letter c))
     else Ret false) in
  if dot : bool then Ret (lex_ok lex_lc_ident 0 p (pos (ps s) - p) s)
  else
    do? r := lex_namespace fuel p 0 s in
    match r with
    | inl s => Ret s
    | inr (flags, s) => Ret (lex_magic p flags s)
    end.

Definition lex_number (fuel : nat) (p : Z) (s : lstate) : result lstate :=
  do? s := while_next is_digit fuel s in
  Ret (lex_ok lex_num 0 p (pos (ps s) - p) s).

(** The [switch]: the labels are disjoint, so their order is immaterial. *)
Definition lex_switch (fuel : nat) (s : lstate) : result lstate :=
  let p := pos (ps s) in
  let c := curch s in
  if c =? chr "-" then Ret (lex_minus p s)
  else if bool_decide (c ∈ punctuation) then Ret (lex_ok lex_char 0 p 1 (nextch s))
  else if is_uletter c then lex_upper fuel p s
  else if is_lletter c then lex_lower fuel p s
  else if is_digit c then lex_number fuel p s
  else Ret (lex_fail "Unknown lexem" 0 s).

Definition parse_lex (fuel : nat) (s : lstate) : result lstate :=
  do? s := skip_blank fuel s in
  if curch s =? 0 then Ret (lex_end s) else lex_switch fuel s.

(** The bytes of the current lexeme. *)
Definition lexeme (l : curlex) : list Z :=
  match lex_ptr l with
  | POff p => slice text p (lex_len l)
  | _ => []
  end.

(** [expect]: whether it returned 1. *)
Definition expect (fuel : nat) (w : string) (s : lstate) : result (bool * lstate) :=
  let l := lex (ps s) in
  match lex_ptr l with
  | POff _ =>
      if bool_decide (lex_ty l = lex_error) || bool_decide (lex_ty l = lex_none)
         || negb (lex_len l =? Z.of_nat (String.length w)) || negb (bool_decide (lexeme l = str w))
      then Ret (false, parse_error ("Expected " ++ w) s)
      else do? s := parse_lex fuel s in Ret (true, s)
  | _ => Ret (false, parse_error ("Expected " ++ w) s)
  end.

(** [LEX_CHAR (c)]; a lexeme of type [lex_char] points into the text. *)
Definition LEX_CHAR (c : Z) (s : lstate) : bool :=
  bool_decide (lex_ty (lex (ps s)) = lex_char) &&
  match lex_ptr (lex (ps s)) with
  | POff p => text_at p =? c
  | _ => false
  end.

(** The state with which [tl_parse_lex] starts: the zero-initialised globals
    and the [save] of [tl_init_parse_file]. *)
Definition init_parse : parse := mk_parse 0 0 0 (mk_curlex (POff 0) 0 lex_none 0).
Definition init_state : lstate := mk_lstate init_parse 0 0 0 0 None.

End Lexer.

(** [tl_init_parse_file] on the bytes of a file: [None] is the null result for
    a file that is empty or longer than [INT_MAX]. *)
Definition tl_init_parse_file (bytes : list Z) : option (list Z * parse) :=
  let size := Z.of_nat (List.length bytes) in
  if (size <=? 0) || (size >? 2 ^ 31 - 1) then None
  else Some (map schar bytes, init_parse).

(** ** Specification of the lexemes *)

Section Spec.
Context (text : list Z).
Local Abbreviation len := (len text).
Local Abbreviation text_at := (text_at text).

(** Every character of [[i, j)] satisfies [p]. *)
Definition range_all (p : Z -> bool) (i j : Z) : Prop := forall k, i <= k < j -> p (text_at k) = true.

(** [[i, j)] is a maximal run of identifier characters that starts with a
    character in [first]. *)
Definition segment (first : Z -> bool) (i j : Z) : Prop :=
  i < j /\ first (text_at i) = true /\ range_all is_ident_char (i + 1) j /\
  is_ident_char (text_at j) = false.

(** [[i, j)] is a sequence of lower-case segments separated by dots. *)
Inductive lc_path (i : Z) : Z -> Prop :=
| lc_path_one j : segment is_lletter i j -> lc_path i j
| lc_path_dot d j : lc_path i d -> text_at d = chr "." -> segment is_lletter (d + 1) j -> lc_path i j.

(** [[i, j)] is the explicit name of a combinator: a number sign and eight
    hexadecimal digits, or five to seven of them before a space. *)
Definition magic (i j : Z) : Prop :=
  text_at i = chr "#" /\ range_all is_hexdigit (i + 1) j /\
  (j = i + 9 \/ i + 6 <= j < i + 9 /\ text_at j = chr " ").

(** A reserved word, not followed by an identifier character. *)
Definition word (w : string) (p n : Z) : Prop :=
  slice text p n = str w /\ n = Z.of_nat (String.length w) /\ is_ident_char (text_at (p + n)) = false.

(** The lexemes of each type, at [[p, p + n)]. *)
Definition token_ok (ty : lex_type) (flags p n : Z) : Prop :=
  match ty with
  | lex_char => n = 1 /\ text_at p ∈ punctuation /\ flags = 0
  | lex_triple_minus => n = 3 /\ range_all (Z.eqb (chr "-")) p (p + 3) /\ flags = 0
  | lex_num =>
      0 < n /\ range_all is_digit p (p + n) /\ is_digit (text_at (p + n)) = false /\ flags = 0
  | lex_final => word "Final" p n /\ flags = 0
  | lex_new => word "New" p n /\ flags = 0
  | lex_empty => word "Empty" p n /\ flags = 0
  | lex_uc_ident =>
      segment is_uletter p (p + n) /\ flags = 0 \/
      exists d, lc_path p d /\ text_at d = chr "." /\ segment is_uletter (d + 1) (p + n) /\ flags = 1
  | lex_lc_ident =>
      exists e, lc_path p e /\
        (e = p + n /\ Z.land flags 2 = 0 \/ magic e (p + n) /\ Z.land flags 2 = 2)
  | lex_eof | lex_error | lex_none => False
  end.

(** No lexeme starts at [p]: a minus that is not a triple minus; a lower-case
    identifier with a namespace whose last dot has no letter after it (after a
    first segment such a dot is a lexeme of its own), or with a number sign
    that no explicit name follows; or a character that begins no lexeme. *)
Definition no_lexeme (p : Z) : Prop :=
  text_at p = chr "-" /\ ~ (text_at (p + 1) = chr "-" /\ text_at (p + 2) = chr "-") \/
  (exists d, lc_path p d /\ ~ segment is_lletter p d /\ text_at d = chr "." /\
     is_letter (text_at (d + 1)) = false) \/
  (exists e, lc_path p e /\ text_at e = chr "#" /\ forall j, ~ magic e j) \/
  text_at p <> 0 /\ text_at p <> chr "-" /\ ~ (text_at p ∈ punctuation) /\
    is_letter (text_at p) = false /\ is_digit (text_at p) = false.

(** Nothing more belongs to the lower-case identifier at [[p, p + n)]: without
    an explicit name no number sign follows it, and a dot only after a first
    segment and without a letter behind it. *)
Definition longest (flags p n : Z) : Prop :=
  Z.land flags 2 = 0 -> text_at (p + n) <> chr "#" /\
    (text_at (p + n) = chr "." ->
     segment is_lletter p (p + n) /\ is_letter (text_at (p + n + 1)) = false).

(** What [parse_lex] leaves behind when it starts at position [i] and stops at
    [j]. A zero byte ends the text for the lexer, wherever it is. *)
Definition lexed (l : curlex) (i j : Z) : Prop :=
  match lex_ty l with
  | lex_eof => lex_ptr l = PNull /\ lex_len l = 0 /\ (j = len - 1 \/ text_at j = 0)
  | lex_error => lex_ptr l = PMinus1
  | ty => exists p, lex_ptr l = POff p /\ i <= p /\ 0 < lex_len l /\ p + lex_len l = j /\
            token_ok ty (lex_flags l) p (lex_len l)
  end.

(** [[i, p)] is white space and comments. *)
Inductive blank (i : Z) : Z -> Prop :=
| blank_nil : blank i i
| blank_space j :
    blank i j -> text_at j <> 0 -> is_whitespace (text_at j) = true -> blank i (j + 1)
| blank_comment j k :
    blank i j -> text_at j = chr "/" -> text_at (j + 1) = chr "/" -> j + 1 < k ->
    range_all (fun c => negb (c =? 10)) (j + 2) k -> text_at k = 10 -> blank i (k + 1).

(** What the lexer passes over before a lexeme: blanks, and after them one
    slash that does not begin a comment. *)
Definition skipped (i p : Z) : Prop :=
  blank i p \/ blank i (p - 1) /\ text_at (p - 1) = chr "/" /\ text_at p <> chr "/".

(** The offset of the next unread character, [len] once the last character
    has been passed. *)
Definition next_at (s : lstate) : Z :=
  if curch s =? text_at (pos (ps s)) then pos (ps s) else len.

(** The invariant of the lexer's state: [curch] is the character at the
    position, or 0 once the last character has been passed. *)
Record lex_inv (s : lstate) : Prop := {
  inv_pos : 0 <= pos (ps s) < len;
  inv_ch : curch s = text_at (pos (ps s)) \/ curch s = 0 /\ pos (ps s) = len - 1
}.

End Spec.

(** ** Proofs *)

Section Proofs.
Context (text : list Z).
Local Abbreviation len := (len text).
Local Abbreviation text_at := (text_at text).
Local Abbreviation nextch := (nextch text).
Local Abbreviation ppos s := (pos (ps s)).

Lemma nextch_lex s : lex (ps (nextch s)) = lex (ps s).
Proof. unfold nextch. repeat case_goal; done. Qed.

Lemma nextch_err s :
  last_error_pos (nextch s) = last_error_pos s /\ last_error (nextch s) = last_error s.
Proof. unfold nextch. repeat case_goal; done. Qed.

Lemma nextch_in s :
  0 <= ppos s < len - 1 -> ppos (nextch s) = ppos s + 1 /\ curch (nextch s) = text_at (ppos s + 1).
Proof.
  intros H. unfold nextch. rewrite (proj2 (Z.ltb_lt (ppos s) (len - 1))) by lia.
  repeat case_goal; done.
Qed.

Lemma nextch_end s : len - 1 <= ppos s -> ppos (nextch s) = ppos s /\ curch (nextch s) = 0.
Proof.
  intros H. unfold nextch. rewrite (proj2 (Z.ltb_ge (ppos s) (len - 1))) by lia. done.
Qed.

Lemma nextch_inv s : lex_inv text s -> lex_inv text (nextch s) /\ ppos s <= ppos (nextch s).
Proof.
  intros [Hp Hc]. destruct (Z.lt_ge_cases (ppos s) (len - 1)).
  - destruct (nextch_in s) as [E1 E2]; [lia|]. split; [|lia]. constructor; rewrite E1; [lia|auto].
  - destruct (nextch_end s) as [E1 E2]; [lia|]. split; [|lia].
    constructor; rewrite E1; [lia|]. right. lia.
Qed.

(** The text ends with a newline. *)
Hypothesis Hlast : last text = Some 10.

Lemma len_pos : 0 < len.
Proof. unfold Lexer.len. destruct text; cbn in *; [done|lia]. Qed.

Lemma text_last : text_at (len - 1) = 10.
Proof.
  unfold Lexer.text_at. rewrite nth_lookup. unfold Lexer.len.
  replace (Z.to_nat (Z.of_nat (Datatypes.length text) - 1)) with (pred (Datatypes.length text)) by lia.
  rewrite <- last_lookup, Hlast. done.
Qed.

(** A character other than the newline is not the last one. *)
Lemma not_last i : 0 <= i < len -> text_at i <> 10 -> i < len - 1.
Proof.
  intros Hi Hc. destruct (Z.eq_dec i (len - 1)) as [->|]; [|lia]. by rewrite text_last in Hc.
Qed.

Lemma inv_nonzero s :
  lex_inv text s -> curch s <> 0 -> curch s <> 10 ->
  0 <= ppos s < len - 1 /\ text_at (ppos s) = curch s.
Proof.
  intros [Hp [Hc|[Hc _]]] H0 H10; [|done]. split; [|done].
  pose proof (not_last (ppos s) Hp). rewrite <- Hc in H. lia.
Qed.

Lemma text_len : text_at len = 0.
Proof. unfold Lexer.text_at, Lexer.len. apply nth_overflow. lia. Qed.

Lemma curch_next_at s : lex_inv text s -> curch s = text_at (next_at text s).
Proof.
  intros [_ Hc]. unfold next_at. destruct (_ =? _) eqn:E; zbool; [done|].
  rewrite text_len. destruct Hc as [|[]]; congruence.
Qed.

Lemma next_at_pos s : curch s = text_at (ppos s) -> next_at text s = ppos s.
Proof. intros H. unfold next_at. by rewrite H, Z.eqb_refl. Qed.

Lemma next_at_nextch s :
  lex_inv text s -> curch s <> 0 -> next_at text (nextch s) = next_at text s + 1.
Proof.
  intros [Hp [Hc|[? _]]] H0; [|done]. rewrite (next_at_pos s Hc).
  destruct (Z.lt_ge_cases (ppos s) (len - 1)) as [Hlt|].
  - destruct (nextch_in s) as [E1 E2]; [lia|]. rewrite next_at_pos by congruence. lia.
  - destruct (nextch_end s) as [E1 E2]; [lia|]. unfold next_at. rewrite E1, E2.
    replace (ppos s) with (len - 1) by lia. rewrite text_last. cbn. lia.
Qed.

(** *** The loops *)

Lemma while_next_spec p fuel s :
  p 10 = false -> 0 <= ppos s < len - 1 -> (Z.to_nat (len - 1 - ppos s) <= fuel)%nat ->
  exists s', while_next text p fuel s = Ret s' /\ ppos s < ppos s' < len /\
    curch s' = text_at (ppos s') /\ p (curch s') = false /\
    range_all text p (ppos s + 1) (ppos s') /\ lex (ps s') = lex (ps s) /\
    last_error_pos s' = last_error_pos s.
Proof.
  intros Hp. revert s. induction fuel as [|fuel IH]; intros s Hs Hf; [lia|].
  cbn [while_next]. destruct (nextch_in s Hs) as [E1 E2]. pose proof (nextch_lex s) as E3.
  destruct (nextch_err s) as [E4 _].
  destruct (p (curch (nextch s))) eqn:Epc.
  - assert (ppos (nextch s) < len - 1).
    { rewrite E1. apply not_last; [lia|]. rewrite <- E2. intros E. congruence. }
    destruct (IH (nextch s)) as (s' & -> & Hp' & Hc & Hpf & Hr & Hl & He); [lia..|].
    exists s'. split_and!; try done; try lia; try congruence.
    intros k Hk. destruct (Z.eq_dec k (ppos s + 1)) as [->|]; [congruence|]. apply Hr. lia.
  - exists (nextch s). split_and!; try done; try lia; try congruence. intros k Hk. lia.
Qed.

Lemma skip_whitespace_spec fuel s :
  lex_inv text s -> (Z.to_nat (len - ppos s) < fuel)%nat ->
  exists s', skip_whitespace text fuel s = Ret s' /\ lex_inv text s' /\ ppos s <= ppos s' /\
    lex (ps s') = lex (ps s) /\ last_error_pos s' = last_error_pos s /\
    (curch s' = 0 \/ is_whitespace (curch s') = false) /\
    (forall i, blank text i (next_at text s) -> blank text i (next_at text s')).
Proof.
  revert s. induction fuel as [|fuel IH]; intros s Hs Hf; [lia|]. cbn [skip_whitespace].
  destruct (curch s =? 0) eqn:E0; zbool; cbn [negb andb].
  { exists s. split_and!; try done; try lia; by left. }
  destruct (is_whitespace (curch s)) eqn:Ew.
  - destruct (nextch_inv s Hs) as [Hn Hle]. pose proof (nextch_lex s). destruct (nextch_err s).
    assert (Hb : forall i, blank text i (next_at text s) -> blank text i (next_at text (nextch s))).
    { intros i Hi. rewrite next_at_nextch by done.
      apply blank_space; [done|by rewrite <- curch_next_at..]. }
    destruct (Z.eq_dec (ppos (nextch s)) (ppos s)) as [E|].
    + (* the last character: the next one is 0 *)
      destruct Hs as [Hp _]. destruct (Z.lt_ge_cases (ppos s) (len - 1)).
      { destruct (nextch_in s); lia. }
      destruct (nextch_end s) as [_ Ec]; [lia|]. destruct fuel as [|fuel]; [lia|].
      cbn [skip_whitespace]. rewrite Ec. exists (nextch s). split_and!; try done; try lia; by left.
    + destruct Hs as [Hp _].
      destruct (IH (nextch s)) as (s' & -> & ? & ? & ? & ? & ? & ?); [done|lia|].
      exists s'. split_and!; try done; try lia; try congruence. auto.
  - exists s. split_and!; try done; try lia; by right.
Qed.

Lemma skip_blank_spec fuel s :
  lex_inv text s -> (Z.to_nat (len - ppos s) + 1 < fuel)%nat ->
  exists s', skip_blank text fuel s = Ret s' /\ lex_inv text s' /\ ppos s <= ppos s' /\
    lex (ps s') = lex (ps s) /\ last_error_pos s' = last_error_pos s /\
    (forall i, blank text i (next_at text s) -> skipped text i (next_at text s')).
Proof.
  revert s. induction fuel as [|fuel IH]; intros s Hs Hf; [lia|]. cbn [skip_blank].
  destruct (skip_whitespace_spec fuel s Hs) as (s1 & -> & H1 & Hp1 & Hl1 & He1 & Hc1 & Hb1); [lia|].
  cbn [rbind]. destruct (curch s1 =? chr "/") eqn:E; zbool.
  2: { exists s1. split_and!; try done. left; auto. }
  destruct (inv_nonzero s1 H1) as [Hs1 Ht1]; [rewrite E; done..|].
  destruct (nextch_inv s1 H1) as [Hn Hle]. pose proof (nextch_lex s1) as Hl2.
  destruct (nextch_err s1) as [He2 _].
  pose proof (next_at_nextch s1 H1 ltac:(by rewrite E)) as Hx. pose proof (curch_next_at _ H1) as Hx1.
  pose proof (curch_next_at _ Hn) as Hx2.
  destruct (curch (nextch s1) =? chr "/") eqn:E2; zbool.
  2: { exists (nextch s1). split_and!; try done; try lia; try congruence.
       intros i Hi. right. rewrite Hx, Z.add_simpl_r. split_and!; [auto|congruence|].
       rewrite <- Hx. congruence. }
  destruct (inv_nonzero (nextch s1) Hn) as [Hs2 Ht2]; [rewrite E2; done..|].
  destruct (while_next_spec (fun c => negb (c =? 10)) fuel (nextch s1))
    as (s3 & -> & Hp3 & Hc3 & Hq3 & Hr3 & Hl3 & He3); [done|done|lia|].
  cbn [rbind]. assert (H3 : lex_inv text s3) by (constructor; [lia|by left]).
  destruct (nextch_inv s3 H3) as [Hn3 Hle3]. pose proof (nextch_lex s3) as Hl4.
  destruct (nextch_err s3) as [He4 _]. zbool.
  destruct (IH (nextch s3)) as (s4 & -> & ? & ? & ? & ? & Hb4); [done|lia|].
  exists s4. split_and!; try done; try lia; try congruence.
  intros i Hi. apply Hb4. rewrite next_at_nextch by (done || lia).
  rewrite (next_at_pos (nextch s1)) in Hx, Hx2 by done. rewrite (next_at_pos s3) by done.
  apply (blank_comment _ _ (next_at text s1)); [auto|congruence|congruence|lia| |congruence].
  intros k Hk. apply Hr3. lia.
Qed.

(** *** The lexemes *)

(** The outcome of [parse_lex] from position [i]. *)
Definition good (i : Z) (s : lstate) : Prop :=
  lex_inv text s /\ i <= ppos s /\ lexed text (lex (ps s)) i (ppos s).

Lemma inv_set_lex l s : lex_inv text s -> lex_inv text (set_lex l s).
Proof. intros []. by constructor. Qed.

Lemma parse_error_ps e s : ps (parse_error e s) = ps s /\ curch (parse_error e s) = curch s.
Proof. unfold parse_error. by case_goal. Qed.

Lemma good_fail i e flags s : lex_inv text s -> i <= ppos s -> good i (lex_fail e flags s).
Proof.
  intros [Hp Hc] Hi. unfold lex_fail. destruct (parse_error_ps e s) as [E1 E2].
  split_and!; [|by cbn; rewrite E1|done].
  apply inv_set_lex. constructor; by rewrite E1, ?E2.
Qed.

Lemma good_ok i ty flags p n s :
  lex_inv text s -> i <= p -> 0 < n -> p + n = ppos s -> token_ok text ty flags p n ->
  good i (lex_ok ty flags p n s).
Proof.
  intros Hs Hi Hn Hp Ht. split_and!; [by apply inv_set_lex|cbn; lia|].
  unfold lexed, lex_ok, set_lex; cbn. destruct ty; try done; by exists p.
Qed.

Lemma inv_at s : 0 <= ppos s < len -> curch s = text_at (ppos s) -> lex_inv text s.
Proof. constructor; auto. Qed.

Lemma lex_minus_good s : lex_inv text s -> curch s = chr "-" -> good (ppos s) (lex_minus text (ppos s) s).
Proof.
  intros Hs Hc. destruct (inv_nonzero s Hs) as [Hp Ht]; [by rewrite Hc..|].
  destruct (nextch_inv s Hs) as [H1 Hle1]. destruct (nextch_in s Hp) as [E1 F1].
  unfold lex_minus. destruct (curch (nextch s) =? chr "-") eqn:C1; zbool; cbn [negb];
    [|by apply good_fail].
  destruct (inv_nonzero (nextch s) H1) as [Hp1 Ht1]; [by rewrite C1..|].
  destruct (nextch_inv _ H1) as [H2 Hle2]. destruct (nextch_in _ Hp1) as [E2 F2].
  destruct (curch (nextch (nextch s)) =? chr "-") eqn:C2; zbool; cbn [negb];
    [|apply good_fail; [done|lia]].
  destruct (inv_nonzero _ H2) as [Hp2 Ht2]; [by rewrite C2..|].
  destruct (nextch_inv _ H2) as [H3 _]. destruct (nextch_in _ Hp2) as [E3 F3].
  apply good_ok; [done|lia|lia|lia|]. split_and!; [done| |done].
  intros k Hk. apply Z.eqb_eq. rewrite <- Hc at 1.
  assert (k = ppos s \/ k = ppos s + 1 \/ k = ppos s + 2) as [->|[->| ->]] by lia.
  - done.
  - by rewrite <- F1, C1, Hc.
  - replace (ppos s + 2) with (ppos (nextch s) + 1) by lia. by rewrite <- F2, C2, Hc.
Qed.

Lemma lex_punct_good s :
  lex_inv text s -> curch s ∈ punctuation -> curch s <> 10 -> curch s <> 0 ->
  good (ppos s) (lex_ok lex_char 0 (ppos s) 1 (nextch s)).
Proof.
  intros Hs Hc H10 H0. destruct (inv_nonzero s Hs) as [Hp Ht]; [done..|].
  destruct (nextch_inv s Hs) as [H1 Hle1]. destruct (nextch_in s Hp) as [E1 F1].
  apply good_ok; [done|lia|lia|lia|]. split_and!; [done|by rewrite Ht|done].
Qed.

(** A run of identifier characters after the current one is a segment. *)
Lemma ident_run first fuel s :
  first (curch s) = true -> curch s <> 0 -> curch s <> 10 -> lex_inv text s ->
  (Z.to_nat (len - ppos s) <= fuel)%nat ->
  exists s', while_next text is_ident_char fuel s = Ret s' /\ ppos s < ppos s' /\
    lex_inv text s' /\ curch s' = text_at (ppos s') /\ segment text first (ppos s) (ppos s').
Proof.
  intros Hf H0 H10 Hs Hfuel. destruct (inv_nonzero s Hs H0 H10) as [Hp Ht].
  destruct (while_next_spec is_ident_char fuel s) as (s' & E & Hp' & Hc' & Hn & Hr & _);
    [done|lia|lia|].
  exists s'. split_and!; [done|lia|by apply inv_at; [lia|]|done|].
  split_and!; [lia|by rewrite Ht|done|by rewrite <- Hc'].
Qed.

Lemma upper_nonzero c : is_uletter c = true -> c <> 0 /\ c <> 10.
Proof. unfold is_uletter. chars. lia. Qed.

Lemma lower_nonzero c : is_lletter c = true -> c <> 0 /\ c <> 10.
Proof. unfold is_lletter. chars. lia. Qed.

Lemma memcmp_eq_slice p w : memcmp_eq text p w = true -> slice text p (Z.of_nat (String.length w)) = str w.
Proof. unfold memcmp_eq. apply bool_decide_eq_true_1. Qed.

Lemma lex_upper_good fuel s :
  lex_inv text s -> is_uletter (curch s) = true -> (Z.to_nat (len - ppos s) <= fuel)%nat ->
  exists s', lex_upper text fuel (ppos s) s = Ret s' /\ good (ppos s) s'.
Proof.
  intros Hs Hu Hf. destruct (upper_nonzero _ Hu).
  destruct (ident_run is_uletter fuel s) as (s1 & E & Hlt & H1 & Hc & Hseg); [done..|].
  unfold lex_upper. rewrite E. cbn [rbind]. eexists. split; [done|].
  assert (Hend : is_ident_char (text_at (ppos s + (ppos s1 - ppos s))) = false).
  { replace (ppos s + (ppos s1 - ppos s)) with (ppos s1) by lia. apply Hseg. }
  apply good_ok; [done|lia|lia|lia|].
  destruct ((ppos s1 - ppos s =? 5) && memcmp_eq text (ppos s) "Final") eqn:E1; zbool.
  { split; [|done]. split_and!; [rewrite H2; by apply (memcmp_eq_slice _ "Final")|done|done]. }
  destruct ((ppos s1 - ppos s =? 3) && memcmp_eq text (ppos s) "New") eqn:E2; zbool.
  { split; [|done]. split_and!; [rewrite H2; by apply (memcmp_eq_slice _ "New")|done|done]. }
  destruct ((ppos s1 - ppos s =? 5) && memcmp_eq text (ppos s) "Empty") eqn:E3; zbool.
  { split; [|done]. split_and!; [rewrite H2; by apply (memcmp_eq_slice _ "Empty")|done|done]. }
  left. split; [|done]. by replace (ppos s + (ppos s1 - ppos s)) with (ppos s1) by lia.
Qed.

Lemma lex_number_good fuel s :
  lex_inv text s -> is_digit (curch s) = true -> (Z.to_nat (len - ppos s) <= fuel)%nat ->
  exists s', lex_number text fuel (ppos s) s = Ret s' /\ good (ppos s) s'.
Proof.
  intros Hs Hd Hf. assert (curch s <> 0 /\ curch s <> 10) as [H0 H10].
  { unfold is_digit in Hd. chars. lia. }
  destruct (inv_nonzero s Hs H0 H10) as [Hp Ht].
  destruct (while_next_spec is_digit fuel s) as (s1 & E & Hp' & Hc' & Hn & Hr & _); [done|lia|lia|].
  unfold lex_number. rewrite E. cbn [rbind]. eexists. split; [done|].
  apply good_ok; [by apply inv_at; [lia|]|lia|lia|lia|].
  cbn [token_ok]. replace (ppos s + (ppos s1 - ppos s)) with (ppos s1) by lia.
  split_and!; [lia| |by rewrite <- Hc'|done].
  intros k Hk. destruct (Z.eq_dec k (ppos s)) as [->|]; [by rewrite Ht|]. apply Hr. lia.
Qed.

Lemma hexdigit_nonzero c : is_hexdigit c = true -> c <> 0 /\ c <> 10.
Proof. unfold is_hexdigit, is_digit. chars. lia. Qed.

Lemma range_all_snoc p i j : range_all text p i j -> p (text_at j) = true -> range_all text p i (j + 1).
Proof. intros H Hj k Hk. destruct (Z.eq_dec k j) as [->|]; [done|]. apply H. lia. Qed.

Lemma lex_hex_spec k i s h :
  lex_inv text s -> ppos s = h + i -> 0 <= i -> ppos s < len - 1 ->
  range_all text is_hexdigit (h + 1) (ppos s + 1) ->
  match lex_hex text k i s with
  | (r, s') => lex_inv text s' /\ ppos s <= ppos s' /\
      match r with
      | Some true => ppos s' = h + i + Z.of_nat k /\ ppos s' < len - 1 /\
          range_all text is_hexdigit (h + 1) (ppos s' + 1)
      | Some false => h + 6 <= ppos s' <= h + i + Z.of_nat k /\ text_at (ppos s') = chr " " /\
          range_all text is_hexdigit (h + 1) (ppos s')
      | None => h + 1 <= ppos s' <= h + i + Z.of_nat k /\ range_all text is_hexdigit (h + 1) (ppos s') /\
          is_hexdigit (text_at (ppos s')) = false /\ (text_at (ppos s') <> chr " " \/ ppos s' < h + 6)
      end
  end.
Proof.
  revert i s. induction k as [|k IH]; intros i s Hs Hp Hi Hlt Hr; cbn [lex_hex].
  { split_and!; try done; lia. }
  destruct (nextch_inv s Hs) as [H1 Hle1].
  destruct (nextch_in s) as [E1 F1]; [destruct Hs; lia|].
  destruct (is_hexdigit (curch (nextch s))) eqn:Eh; cbn [negb].
  - destruct (hexdigit_nonzero _ Eh) as [H0 H10].
    destruct (inv_nonzero _ H1 H0 H10) as [Hp1 Ht1].
    specialize (IH (i + 1) (nextch s) H1 ltac:(lia) ltac:(lia) ltac:(lia)).
    destruct (lex_hex text k (i + 1) (nextch s)) as [r s'].
    destruct IH as (? & ? & Hm).
    { rewrite E1 in *. apply range_all_snoc; [done|congruence]. }
    split_and!; [done|lia|].
    destruct r as [[]|]; [|destruct Hm as (? & ? & ?)|destruct Hm as (? & ? & ? & ?)];
      split_and!; try done; try lia; apply Hm.
  - destruct ((curch (nextch s) =? chr " ") && (i >=? 5)) eqn:E.
    + zbool. split_and!; [done|done|lia|lia|congruence|by rewrite E1].
    + rewrite F1, <- E1 in E, Eh.
      split_and!; [done|done|lia|lia|by rewrite E1|done|].
      apply andb_false_iff in E as [E|E]; zbool; [by left|right; lia].
Qed.

(** The digits that [lex_hex] rejects are no explicit name. *)
Lemma not_magic h q :
  h + 1 <= q <= h + 8 -> range_all text is_hexdigit (h + 1) q -> is_hexdigit (text_at q) = false ->
  text_at q <> chr " " \/ q < h + 6 -> forall j, ~ magic text h j.
Proof.
  intros Hq Hr Hn Hs j (_ & Hj & Hend).
  assert (j <= q) as Hle.
  { destruct (Z.le_gt_cases j q); [done|]. rewrite Hj in Hn by lia. done. }
  destruct Hend as [->|[Hb E]]; [lia|]. destruct (Z.eq_dec j q) as [->|].
  { destruct Hs; [done|lia]. }
  assert (is_hexdigit (text_at j) = true) as Hd by (apply Hr; lia). by rewrite E in Hd.
Qed.

(** Why [parse_lex] stopped where it did: an error is justified, and a
    lower-case identifier complete. *)
Definition decided (p : Z) (s : lstate) : Prop :=
  match lex_ty (lex (ps s)) with
  | lex_error => no_lexeme text p
  | lex_lc_ident => longest text (lex_flags (lex (ps s))) p (lex_len (lex (ps s)))
  | _ => True
  end.

Lemma lex_namespace_good fuel p s flags i :
  lc_path text p (ppos s) -> i <= p -> p < ppos s -> lex_inv text s ->
  curch s = text_at (ppos s) -> (flags = 0 \/ flags = 1) ->
  (text_at (ppos s) = chr "." -> is_letter (text_at (ppos s + 1)) = true \/ ~ segment text is_lletter p (ppos s)) ->
  (Z.to_nat (len - ppos s) < fuel)%nat ->
  exists r, lex_namespace text fuel p flags s = Ret r /\
    match r with
    | inl s' => good i s' /\ decided p s'
    | inr (flags', s') => lc_path text p (ppos s') /\ p < ppos s' /\ lex_inv text s' /\
        curch s' = text_at (ppos s') /\ (flags' = 0 \/ flags' = 1) /\ text_at (ppos s') <> chr "."
    end.
Proof.
  revert s flags. induction fuel as [|fuel IH]; intros s flags Hpath Hi Hlt Hs Hc Hfl Hdot Hf; [lia|].
  cbn [lex_namespace]. destruct (curch s =? chr ".") eqn:Ed; zbool.
  2: { eexists. split; [done|]. split_and!; congruence || done. }
  destruct (inv_nonzero s Hs) as [Hp Ht]; [by rewrite Ed..|].
  destruct (nextch_inv s Hs) as [H1 Hle1]. destruct (nextch_in s Hp) as [E1 F1].
  assert (Hfl' : Z.lor flags 1 = 1) by (by destruct Hfl as [->| ->]). rewrite Hfl'.
  destruct (is_uletter (curch (nextch s))) eqn:Eu.
  { destruct (upper_nonzero _ Eu).
    destruct (ident_run is_uletter fuel (nextch s)) as (s2 & -> & Hlt2 & H2 & Hc2 & Hseg); [done..|lia|].
    cbn [rbind]. eexists. split; [done|]. split; [|done]. apply good_ok; [done|lia|lia|lia|].
    right. exists (ppos s). replace (p + (ppos s2 - p)) with (ppos s2) by lia.
    rewrite <- E1. split_and!; [done|congruence|done|done]. }
  destruct (is_lletter (curch (nextch s))) eqn:El.
  - destruct (lower_nonzero _ El).
    destruct (ident_run is_lletter fuel (nextch s)) as (s2 & -> & Hlt2 & H2 & Hc2 & Hseg); [done..|lia|].
    cbn [rbind]. apply IH; [|lia|lia|done|done|by right| |lia].
    { eapply lc_path_dot; [done|congruence|]. by rewrite <- E1. }
    intros _. right. intros (_ & _ & Hr & _). specialize (Hr (ppos s) ltac:(lia)).
    by rewrite <- Hc, Ed in Hr.
  - eexists. split; [done|]. split; [apply good_fail; [done|lia]|]. right. left. exists (ppos s).
    assert (is_letter (text_at (ppos s + 1)) = false) as Hnl.
    { unfold is_letter. by rewrite <- F1, Eu, El. }
    split_and!; [done| |congruence|done]. destruct Hdot as [?|?]; [congruence|congruence|done].
Qed.

Lemma lex_magic_good p s flags i :
  lc_path text p (ppos s) -> i <= p -> p < ppos s -> lex_inv text s ->
  curch s = text_at (ppos s) -> (flags = 0 \/ flags = 1) -> text_at (ppos s) <> chr "." ->
  good i (lex_magic text p flags s) /\ decided p (lex_magic text p flags s).
Proof.
  intros Hpath Hi Hlt Hs Hc Hfl Hnd. unfold lex_magic.
  destruct (curch s =? chr "#") eqn:E; zbool.
  2: { split.
       2: { unfold decided. cbn. intros _. replace (p + (ppos s - p)) with (ppos s) by lia.
            split; congruence. }
       apply good_ok; [done|lia|lia|lia|]. exists (ppos s). split; [done|]. left.
       split; [lia|]. by destruct Hfl as [->| ->]. }
  destruct (inv_nonzero s Hs) as [Hp Ht]; [by rewrite E..|].
  pose proof (lex_hex_spec 8 0 s (ppos s) Hs ltac:(lia) ltac:(lia) ltac:(lia)) as H.
  destruct (lex_hex text 8 0 s) as [r s1].
  destruct H as (H1 & Hle & Hm); [intros k Hk; lia|].
  assert (Hf2 : Z.land (Z.lor flags 2) 2 = 2) by by destruct Hfl as [->| ->].
  destruct r as [[]|].
  3: { split; [by apply good_fail; [|lia]|]. right. right. left. exists (ppos s).
       split_and!; [done|congruence|]. apply (not_magic _ (ppos s1)); try apply Hm; lia. }
  all: split; [|unfold decided; cbn; unfold longest; by rewrite Hf2].
  - destruct Hm as (Hm & Hm1 & Hm2). destruct (nextch_inv _ H1) as [H2 Hle2].
    destruct (nextch_in s1) as [E1 F1]; [destruct H1; lia|].
    apply good_ok; [done|lia|lia|lia|]. exists (ppos s). split; [done|]. right. split; [|done].
    replace (p + (ppos (nextch s1) - p)) with (ppos s1 + 1) by lia.
    split_and!; [congruence|done|left; lia].
  - destruct Hm as (Hm & Hm1 & Hm2).
    apply good_ok; [done|lia|lia|lia|]. exists (ppos s). split; [done|]. right. split; [|done].
    replace (p + (ppos s1 - p)) with (ppos s1) by lia.
    split_and!; [congruence|done|right; split; [lia|done]].
Qed.

Lemma lex_lower_good fuel s :
  lex_inv text s -> is_lletter (curch s) = true -> (Z.to_nat (len - ppos s) <= fuel)%nat ->
  exists s', lex_lower text fuel (ppos s) s = Ret s' /\ good (ppos s) s' /\ decided (ppos s) s'.
Proof.
  intros Hs Hl Hf. destruct (lower_nonzero _ Hl).
  destruct (ident_run is_lletter fuel s) as (s1 & E & Hlt & H1 & Hc & Hseg); [done..|].
  assert (Hpath : lc_path text (ppos s) (ppos s1)) by by constructor.
  unfold lex_lower. rewrite E. cbn [rbind].
  assert (exists b, (if curch s1 =? chr "." then
      do? c := text_read text (ppos s1 + 1) in Ret (negb (is_letter c)) else Ret false) = Ret b /\
      (b = true -> text_at (ppos s1) = chr "." /\ is_letter (text_at (ppos s1 + 1)) = false) /\
      (b = false -> text_at (ppos s1) = chr "." -> is_letter (text_at (ppos s1 + 1)) = true))
    as (dot & -> & Hdot & Hndot).
  { rewrite <- Hc. destruct (curch s1 =? chr ".") eqn:Ed; zbool; [|by eexists].
    destruct (inv_nonzero s1 H1) as [Hp1 _]; [by rewrite Ed..|].
    unfold text_read. rewrite (proj2 (Z.leb_le 0 _)), (proj2 (Z.ltb_lt _ len)) by lia. eexists.
    split; [done|]. split; [by intros ?%negb_true_iff|by intros ?%negb_false_iff]. }
  cbn [rbind]. destruct dot.
  { destruct Hdot as [Hd1 Hd2]; [done|]. eexists. split; [done|]. split.
    2: { unfold decided. cbn. intros _. replace (ppos s + (ppos s1 - ppos s)) with (ppos s1) by lia.
         by rewrite Hd1. }
    apply good_ok; [done|lia|lia|lia|].
    exists (ppos s1). split; [done|]. left. split; [lia|done]. }
  pose proof (inv_pos _ _ H1).
  destruct (lex_namespace_good fuel (ppos s) s1 0 (ppos s)) as (r & -> & Hr);
    [done|lia|lia|done|done|by left|by left; apply Hndot|lia|].
  cbn [rbind]. destruct r as [s2|[flags s2]]; [by eexists|].
  destruct Hr as (? & ? & ? & ? & ? & ?). eexists. split; [done|]. by apply lex_magic_good.
Qed.

Lemma punctuation_nonzero c : c ∈ punctuation -> c <> 0 /\ c <> 10.
Proof.
  intros H. assert (Hall : Forall (fun c => c <> 0 /\ c <> 10) punctuation) by by vm_compute; repeat constructor.
  rewrite Forall_forall in Hall. auto.
Qed.

Lemma lex_minus_decided s :
  lex_inv text s -> curch s = chr "-" -> decided (ppos s) (lex_minus text (ppos s) s).
Proof.
  intros Hs Hc. destruct (inv_nonzero s Hs) as [Hp Ht]; [by rewrite Hc..|].
  destruct (nextch_inv s Hs) as [H1 _]. destruct (nextch_in s Hp) as [E1 F1].
  unfold lex_minus. destruct (curch (nextch s) =? chr "-") eqn:C1; zbool; cbn [negb].
  2: { left. split; [congruence|]. intros [? _]. congruence. }
  destruct (inv_nonzero (nextch s) H1) as [Hp1 _]; [by rewrite C1..|].
  destruct (nextch_in _ Hp1) as [_ F2].
  destruct (curch (nextch (nextch s)) =? chr "-") eqn:C2; zbool; cbn [negb]; [done|].
  left. split; [congruence|]. intros [_ H]. replace (ppos s + 2) with (ppos (nextch s) + 1) in H by lia.
  congruence.
Qed.

Lemma lex_switch_good fuel s :
  lex_inv text s -> curch s <> 0 -> (Z.to_nat (len - ppos s) <= fuel)%nat ->
  exists s', lex_switch text fuel s = Ret s' /\ good (ppos s) s' /\ decided (ppos s) s'.
Proof.
  intros Hs H0 Hf. unfold lex_switch.
  destruct (curch s =? chr "-") eqn:E1; zbool.
  { eexists. split; [done|]. split; [by apply lex_minus_good|by apply lex_minus_decided]. }
  case_bool_decide as E2.
  { destruct (punctuation_nonzero _ E2). eexists. split; [done|]. split; [by apply lex_punct_good|done]. }
  destruct (is_uletter (curch s)) eqn:E3.
  { destruct (lex_upper_good fuel s Hs E3 Hf) as (s' & E & Hg). exists s'. split_and!; [done|done|].
    unfold lex_upper in E. destruct (while_next _ _ _ _); cbn [rbind] in E; [|done|done].
    injection E as <-. unfold decided. cbn. repeat case_goal; done. }
  destruct (is_lletter (curch s)) eqn:E4; [by apply lex_lower_good|].
  destruct (is_digit (curch s)) eqn:E5.
  { destruct (lex_number_good fuel s Hs E5 Hf) as (s' & E & Hg). exists s'. split_and!; [done|done|].
    unfold lex_number in E. destruct (while_next _ _ _ _); cbn [rbind] in E; [|done|done].
    by injection E as <-. }
  eexists. split; [done|]. split; [by apply good_fail|]. right. right. right.
  assert (text_at (ppos s) = curch s) as -> by (destruct Hs as [_ [|[]]]; congruence).
  unfold is_letter. rewrite E3, E4. done.
Qed.

Lemma lexed_mono l i i' j : i <= i' -> lexed text l i' j -> lexed text l i j.
Proof.
  unfold lexed. intros Hi. destruct (lex_ty l); try done; intros (p & ? & ? & H);
    exists p; split_and!; try done; lia || apply H.
Qed.

(** One call of [parse_lex] from a state that satisfies the invariant. *)
Lemma parse_lex_good fuel s :
  lex_inv text s -> (Z.to_nat (len - ppos s) + 1 < fuel)%nat ->
  exists s', parse_lex text fuel s = Ret s' /\ good (ppos s) s'.
Proof.
  intros Hs Hf. unfold parse_lex.
  destruct (skip_blank_spec fuel s Hs Hf) as (s1 & -> & H1 & Hle & _). cbn [rbind].
  destruct (curch s1 =? 0) eqn:E.
  - eexists. split; [done|]. split_and!; [by apply inv_set_lex|done|].
    zbool. split_and!; [done|done|]. cbn. destruct H1 as [_ [|[_ ?]]]; [right; congruence|by left].
  - destruct (lex_switch_good fuel s1) as (s2 & -> & (H2 & Hle2 & Hl2) & _); [done|by zbool|lia|].
    exists s2. split; [done|]. split_and!; [done|lia|by eapply lexed_mono].
Qed.

(** *** Where a lexeme starts *)



(** *** No lexeme starts where an error is reported *)












End Proofs.

(** ** Properties *)




(** *** Texts that do not end with a newline *)

Lemma not_punctuation (p : Z -> bool) c :
  forallb (fun c => negb (p c)) punctuation = true -> p c = true -> ~ (c ∈ punctuation).
Proof.
  rewrite forallb_forall. intros Hall Hp Hin. apply list_elem_of_In, Hall in Hin. by rewrite Hp in Hin.
Qed.

Section NoNewline.
Context (text : list Z).
Local Abbreviation len := (len text).
Local Abbreviation text_at := (text_at text).

Lemma while_next_forever p fuel s :
  p 0 = true -> range_all text p (pos (ps s) + 1) len -> 0 <= pos (ps s) ->
  while_next text p fuel s = OutOfFuel.
Proof.
  intros H0. revert s. induction fuel as [|fuel IH]; intros s Hr Hs; [done|]. cbn [while_next].
  destruct (Z.lt_ge_cases (pos (ps s)) (len - 1)) as [Hlt|Hge].
  - destruct (nextch_in text s) as [E1 E2]; [lia|].
    assert (p (curch (nextch text s)) = true) as -> by (rewrite E2; apply Hr; lia).
    apply IH; [|lia]. intros k Hk. apply Hr. lia.
  - destruct (nextch_end text s) as [E1 E2]; [lia|]. rewrite E2, H0.
    apply IH; [|lia]. intros k Hk. apply Hr. lia.
Qed.

(** The loop stops where the characters in [p] do: at [j], or at the last
    character with a 0 when they reach the end of the text. *)
Lemma while_next_run p fuel s j :
  0 <= pos (ps s) < j -> j <= len -> range_all text p (pos (ps s) + 1) j ->
  p (if j <? len then text_at j else 0) = false -> (Z.to_nat (j - pos (ps s)) <= fuel)%nat ->
  exists s', while_next text p fuel s = Ret s' /\ pos (ps s') = Z.min j (len - 1) /\
    curch s' = if j <? len then text_at j else 0.
Proof.
  revert s. induction fuel as [|fuel IH]; intros s Hs Hj Hr Hp Hf; [lia|]. cbn [while_next].
  destruct (Z.lt_ge_cases (pos (ps s)) (len - 1)) as [Hlt|Hge].
  - destruct (nextch_in text s) as [E1 E2]; [lia|].
    destruct (Z.eq_dec j (pos (ps s) + 1)) as [->|Hne].
    + rewrite E2. replace (_ <? len) with true in * by lia. rewrite Hp.
      eexists. split; [done|]. split; [lia|done].
    + assert (p (curch (nextch text s)) = true) as -> by (rewrite E2; apply Hr; lia).
      apply IH; try lia; [|done]. intros k Hk. apply Hr. lia.
  - assert (j = len) as -> by lia. rewrite Z.ltb_irrefl in *.
    destruct (nextch_end text s) as [E1 E2]; [lia|]. rewrite E2, Hp.
    eexists. split; [done|]. split; [lia|done].
Qed.

(** Where the current character is not blank, [parse_lex] goes straight to the
    [switch]. *)
Lemma parse_lex_switch fuel s :
  32 < curch s -> curch s <> chr "/" ->
  parse_lex text (S (S fuel)) s = lex_switch text (S (S fuel)) s.
Proof.
  intros Hw Hs. unfold parse_lex. cbn [skip_blank skip_whitespace]. unfold is_whitespace.
  replace (curch s <=? 32) with false by lia. rewrite andb_false_r. cbn [rbind].
  replace (curch s =? chr "/") with false by lia. cbn [rbind].
  by replace (curch s =? 0) with false by lia.
Qed.

Lemma ident_not_blank c : is_ident_char c = true -> 32 < c /\ c <> chr "/".
Proof.
  unfold is_ident_char, is_digit, is_letter, is_uletter, is_lletter. chars. lia.
Qed.
End NoNewline.

(** C39. A comment that the end of the file closes, instead of a newline, is
    never left: [parse_lex] loops forever. *)
Theorem parse_lex_open_comment text fuel s :
  0 <= pos (ps s) < len text - 1 -> curch s = chr "/" -> text_at text (pos (ps s) + 1) = chr "/" ->
  (forall i, text_at text i = 10 -> i <= pos (ps s)) ->
  parse_lex text fuel s = OutOfFuel.
Proof.
  intros Hs Hc Hc2 Hn. unfold parse_lex.
  destruct fuel as [|[|fuel]]; [done| |]; cbn [skip_blank skip_whitespace]; [done|].
  rewrite Hc. cbn [negb andb rbind Z.eqb]. change (is_whitespace (chr "/")) with false. cbn [andb rbind].
  rewrite andb_false_r. cbn [rbind]. rewrite Hc, Z.eqb_refl.
  destruct (nextch_in text s) as [E1 E2]; [lia|]. rewrite E2, Hc2, Z.eqb_refl.
  rewrite while_next_forever; [done|done| |lia].
  intros k Hk. apply negb_true_iff, Z.eqb_neq. intros E. apply Hn in E. lia.
Qed.

Lemma parse_lex_open_comment_witness :
  let s := mk_lstate init_parse (chr "/") 0 0 0 None in
  parse_lex (str "// end") 1000 s = OutOfFuel.
Proof.
  intros s. apply parse_lex_open_comment; [vm_compute; split; congruence|done|done|].
  intros i H. assert (i < 6) as Hi.
  { destruct (Z.lt_ge_cases i 6); [done|]. unfold text_at in H.
    rewrite nth_overflow in H; [done|]. cbn. lia. }
  destruct (Z.le_gt_cases i 0); [done|].
  assert (i = 1 \/ i = 2 \/ i = 3 \/ i = 4 \/ i = 5) as Hcases by lia.
  repeat destruct Hcases as [->|Hcases]; try done. by subst.
Defined.

(** A number that ends the file loses its last digit: the lexeme is the
    digits but the last one (so that a single digit is an empty lexeme, and
    the position does not move). *)
Theorem lex_number_at_end text fuel s :
  0 <= pos (ps s) < len text -> curch s = text_at text (pos (ps s)) ->
  range_all text is_digit (pos (ps s)) (len text) ->
  (Z.to_nat (len text - pos (ps s)) <= fuel)%nat ->
  exists s', parse_lex text (S (S fuel)) s = Ret s' /\ lex_ty (lex (ps s')) = lex_num /\
    lexeme text (lex (ps s')) = slice text (pos (ps s)) (len text - 1 - pos (ps s)).
Proof.
  intros Hs Hc Hr Hf. assert (Hd : is_digit (curch s) = true) by (rewrite Hc; apply Hr; lia).
  assert (curch s <> chr "-" /\ is_uletter (curch s) = false /\ is_lletter (curch s) = false)
    as (Hm & Hu & Hl).
  { unfold is_digit, is_uletter, is_lletter in *. chars. lia. }
  destruct (ident_not_blank (curch s)) as [Hb Hb']; [unfold is_ident_char; by rewrite Hd|].
  rewrite parse_lex_switch by done. unfold lex_switch.
  replace (curch s =? chr "-") with false by lia. rewrite bool_decide_eq_false_2, Hu, Hl, Hd.
  2: by apply (not_punctuation is_digit).
  unfold lex_number.
  destruct (while_next_run text is_digit (S (S fuel)) s (len text)) as (s1 & -> & Hp & _);
    [lia|lia|intros k Hk; apply Hr; lia|by rewrite Z.ltb_irrefl|lia|].
  cbn [rbind]. eexists. split; [done|]. split; [done|]. cbn. f_equal. lia.
Qed.

Lemma lex_number_at_end_witness :
  let s := mk_lstate init_parse (chr "1") 0 0 0 None in
  exists s', parse_lex (str "123") 10 s = Ret s' /\ lex_ty (lex (ps s')) = lex_num /\
    lexeme (str "123") (lex (ps s')) = str "12".
Proof.
  intros s. apply (lex_number_at_end (str "123") 8 s); [vm_compute; split; congruence|done| |vm_compute; lia].
  intros k Hk. change (0 <= k < 3) in Hk. assert (k = 0 \/ k = 1 \/ k = 2) as Hc by lia.
  repeat destruct Hc as [->|Hc]; try done. by subst.
Defined.

(** C40. A lower-case identifier followed by a dot that is the last character
    of the file makes the lexer read the byte after the text. *)
Theorem parse_lex_reads_past_end text fuel s :
  0 <= pos (ps s) < len text - 1 -> curch s = text_at text (pos (ps s)) ->
  is_lletter (curch s) = true -> range_all text is_ident_char (pos (ps s)) (len text - 1) ->
  text_at text (len text - 1) = chr "." -> (Z.to_nat (len text - pos (ps s)) <= fuel)%nat ->
  parse_lex text (S (S fuel)) s = Fault OutOfBounds.
Proof.
  intros Hs Hc Hl Hr Hd Hf.
  assert (curch s <> chr "-" /\ is_uletter (curch s) = false) as (Hm & Hu).
  { unfold is_uletter, is_lletter in *. chars. lia. }
  destruct (ident_not_blank (curch s)) as [Hb Hb'];
    [unfold is_ident_char, is_letter; by rewrite Hl, !orb_true_r|].
  rewrite parse_lex_switch by done. unfold lex_switch.
  replace (curch s =? chr "-") with false by lia. rewrite bool_decide_eq_false_2, Hu, Hl.
  2: by apply (not_punctuation is_lletter).
  unfold lex_lower.
  destruct (while_next_run text is_ident_char (S (S fuel)) s (len text - 1)) as (s1 & -> & Hp & Hc1);
    [lia|lia|intros k Hk; apply Hr; lia| |lia|].
  { replace (_ <? len text) with true by lia. by rewrite Hd. }
  cbn [rbind]. rewrite Hc1. replace (_ <? len text) with true by lia. rewrite Hd, Z.eqb_refl.
  unfold text_read. replace (pos (ps s1) + 1 <? len text) with false by lia.
  by rewrite andb_false_r.
Qed.

Lemma parse_lex_reads_past_end_witness :
  let s := mk_lstate init_parse (chr "a") 0 0 0 None in
  parse_lex (str "ab.") 10 s = Fault OutOfBounds.
Proof.
  intros s. apply (parse_lex_reads_past_end (str "ab.") 8 s); try by vm_compute.
  - intros k Hk. change (0 <= k < 2) in Hk. assert (k = 0 \/ k = 1) as [->| ->] by lia; done.
  - vm_compute. lia.
Defined.
