(* ===== verification/Parser.v ===== *)
(** * The parser (tl-parser.c, lines 68 to 100 and 397 to 949)

    Backtracking recursive descent over the lexer's state.  [struct tree] is
    [ptree]: every tree is owned by its parent, so it is a value; [nc] and [c]
    are the list of children and the capacity [size] of the array is not part
    of the value.  The macros [PARSE_INIT], [PARSE_FAIL], [EXPECT], ... are the
    combinators of the same name; [let?] is the early return they contain:
    [None] is the null result of the enclosing function, whose state has been
    reset by [load_parse] already.

    Fuel: every function takes the fuel for the loops and lexer calls in it;
    [parse_expr] and [parse_args], through which the recursion passes, use one
    unit per level. *)
From Stdlib Require Import ZArith Lia List Bool Ascii String.
From stdpp Require Import base list strings.
From S2P Require Import Prelude Lexer.
Open Scope tl_scope.

(** ** Trees (tl-parser.h) *)

Inductive tree_type :=
| type_tl_program | type_fun_declarations | type_constr_declarations | type_declaration
| type_combinator_decl | type_equals | type_partial_app_decl | type_final_decl
| type_full_combinator_id | type_opt_args | type_args | type_args1 | type_args2 | type_args3
| type_args4 | type_boxed_type_ident | type_subexpr | type_partial_comb_app_decl
| type_partial_type_app_decl | type_final_new | type_final_final | type_final_empty
| type_var_ident | type_var_ident_opt | type_multiplicity | type_type_term | type_term
| type_percent | type_result_type | type_expr | type_nat_term | type_combinator_id
| type_nat_const | type_type_ident | type_builtin_combinator_decl | type_exclam
| type_optional_arg_def.

#[export] Instance tree_type_eq_dec : EqDecision tree_type.
Proof. solve_decision. Defined.

Inductive ptree :=
  PTree (t_text : lexptr) (t_len : Z) (t_type : tree_type) (t_lex_line t_lex_line_pos : Z)
    (t_flags : Z) (t_c : list ptree).

Definition t_text (T : ptree) : lexptr := let 'PTree x _ _ _ _ _ _ := T in x.
Definition t_len (T : ptree) : Z := let 'PTree _ x _ _ _ _ _ := T in x.
Definition t_type (T : ptree) : tree_type := let 'PTree _ _ x _ _ _ _ := T in x.
Definition t_flags (T : ptree) : Z := let 'PTree _ _ _ _ _ x _ := T in x.
Definition t_c (T : ptree) : list ptree := let 'PTree _ _ _ _ _ _ x := T in x.

(** [tree_alloc] zeroes the node; the callers set the type. *)
Definition tree_alloc (ty : tree_type) : ptree := PTree PNull 0 ty 0 0 0 [].

Definition tree_add_child (P C : ptree) : ptree :=
  let 'PTree tx ln ty l lp f c := P in PTree tx ln ty l lp f (c ++ [C]).

(** [T->text = parse.lex.ptr; T->len = parse.lex.len; T->flags = parse.lex.flags]. *)
Definition tree_set_lex (T : ptree) (l : curlex) : ptree :=
  let 'PTree _ _ ty ln lp _ c := T in PTree (lex_ptr l) (lex_len l) ty ln lp (lex_flags l) c.

Notation "'let?' x ':=' m 'in' k" := (bind m (fun o => match o with None => ret None | Some x => k end))
  (at level 10, x pattern, m at level 100, k at level 200) : tl_scope.

Section Parser.
Context (text : list Z).

(** ** The macros *)

Definition lex_step (n : nat) : M lstate unit :=
  fun s => do? s := parse_lex text n s in Ret (tt, s).

Definition load (save : parse) : M lstate unit :=
  fun s => do? s := load_parse text save s in Ret (tt, s).

Definition error (e : string) : M lstate unit := modify (parse_error e).

Definition PARSE_INIT (ty : tree_type) : M lstate (parse * ptree) :=
  fun s => Ret ((save_parse s, PTree PNull 0 ty (line (ps s)) (line_pos (ps s)) 0 []), s).

(** [tree_delete (T)] frees a tree nothing else refers to. *)
Definition PARSE_FAIL {A} (save : parse) : M lstate (option A) := load save ;; ret None.

Definition PARSE_OK (T : ptree) : M lstate (option ptree) := ret (Some T).

Definition PARSE_TRY_PES (save : parse) (x : M lstate (option ptree)) (T : ptree)
  : M lstate (option ptree) :=
  let* N := x in
  match N with
  | None => PARSE_FAIL save
  | Some N => ret (Some (tree_add_child T N))
  end.

Definition PARSE_TRY_OPT (x : M lstate (option ptree)) (T : ptree) (k : M lstate (option ptree))
  : M lstate (option ptree) :=
  let* N := x in
  match N with
  | Some N => PARSE_OK (tree_add_child T N)
  | None => k
  end.

Definition PARSE_ADD (ty : tree_type) (T : ptree) : ptree := tree_add_child T (tree_alloc ty).

Definition EXPECT (n : nat) (save : parse) (w : string) (T : ptree) : M lstate (option ptree) :=
  let* ok := expect text n w in
  if ok : bool then ret (Some T) else PARSE_FAIL save.

(** [LEX_CHAR (c)] on the current state. *)
Definition at_char (c : ascii) : M lstate bool := fun s => Ret (LEX_CHAR text (chr c) s, s).

Definition cur_type : M lstate lex_type := fun s => Ret (lex_ty (lex (ps s)), s).

(** ** Tokens *)

(** The body the identifier and constant functions share: if the lexeme is
    acceptable, record it and go on to the next one. *)
Definition parse_token (ty : tree_type) (ok : lstate -> bool) (e : string) (n : nat)
  : M lstate (option ptree) :=
  let* (save, T) := PARSE_INIT ty in
  let* s := get in
  if ok s then
    let T := tree_set_lex T (lex (ps s)) in
    lex_step n ;; PARSE_OK T
  else error e ;; PARSE_FAIL save.

Definition lex_is (ty : lex_type) (s : lstate) : bool := bool_decide (lex_ty (lex (ps s)) = ty).
Definition no_flags (mask : Z) (s : lstate) : bool := Z.land (lex_flags (lex (ps s))) mask =? 0.

Definition parse_boxed_type_ident : nat -> M lstate (option ptree) :=
  parse_token type_boxed_type_ident (lex_is lex_uc_ident) "Can not parse boxed type".

Definition parse_full_combinator_id : nat -> M lstate (option ptree) :=
  parse_token type_full_combinator_id
    (fun s => lex_is lex_lc_ident s || LEX_CHAR text (chr "_") s) "Can not parse full combinator id".

Definition parse_combinator_id : nat -> M lstate (option ptree) :=
  parse_token type_combinator_id
    (fun s => lex_is lex_lc_ident s && no_flags 2 s) "Can not parse combinator id".

Definition parse_var_ident : nat -> M lstate (option ptree) :=
  parse_token type_var_ident
    (fun s => (lex_is lex_lc_ident s || lex_is lex_uc_ident s) && no_flags 3 s)
    "Can not parse var ident".

Definition parse_var_ident_opt : nat -> M lstate (option ptree) :=
  parse_token type_var_ident_opt
    (fun s => ((lex_is lex_lc_ident s || lex_is lex_uc_ident s) && no_flags 3 s)
              || LEX_CHAR text (chr "_") s)
    "Can not parse var ident opt".

Definition parse_nat_const : nat -> M lstate (option ptree) :=
  parse_token type_nat_const (lex_is lex_num) "Can not parse nat const".

Definition parse_type_ident : nat -> M lstate (option ptree) :=
  parse_token type_type_ident
    (fun s => lex_is lex_uc_ident s && no_flags 2 s || lex_is lex_lc_ident s && no_flags 2 s
              || LEX_CHAR text (chr "#") s)
    "Can not parse type ident".

(** ** Expressions *)

(** [while (LEX_CHAR ('%')) { EXPECT ("%") PARSE_ADD (type_percent); }] *)
Fixpoint percent_loop (k n : nat) (save : parse) (T : ptree) : M lstate (option ptree) :=
  match k with
  | O => out_of_fuel
  | S k =>
      let* b := at_char "%" in
      if b : bool then
        let? T := EXPECT n save "%" T in
        percent_loop k n save (PARSE_ADD type_percent T)
      else ret (Some T)
  end.

(** [while (1) { PARSE_TRY_PES (parse_expr); if (LEX_CHAR ('>')) { break; } EXPECT (","); }] *)
Fixpoint comma_loop (k n : nat) (save : parse) (T : ptree) (parse_expr : M lstate (option ptree))
  : M lstate (option ptree) :=
  match k with
  | O => out_of_fuel
  | S k =>
      let? T := PARSE_TRY_PES save parse_expr T in
      let* b := at_char ">" in
      if b : bool then ret (Some T)
      else
        let? T := EXPECT n save "," T in
        comma_loop k n save T parse_expr
  end.

Definition parse_term_body (n : nat) (parse_expr : M lstate (option ptree))
  : M lstate (option ptree) :=
  let* (save, T) := PARSE_INIT type_term in
  let? T := percent_loop n n save T in
  let* b := at_char "(" in
  if b : bool then
    let? T := EXPECT n save "(" T in
    let? T := PARSE_TRY_PES save parse_expr T in
    let? T := EXPECT n save ")" T in
    PARSE_OK T
  else
    let* N := parse_type_ident n in
    match N with
    | Some N =>
        let T := tree_add_child T N in
        let* b := at_char "<" in
        if b : bool then
          let? T := EXPECT n save "<" T in
          let? T := comma_loop n n save T parse_expr in
          let? T := EXPECT n save ">" T in
          PARSE_OK T
        else PARSE_OK T
    | None =>
        PARSE_TRY_OPT (parse_type_ident n) T (
        PARSE_TRY_OPT (parse_var_ident n) T (
        PARSE_TRY_OPT (parse_nat_const n) T (
        PARSE_FAIL save)))
    end.

(** The end of an iteration of [parse_subexpr]'s loop: [cc ++], leave the loop
    unless a plus follows, [EXPECT ("+")] and the next iteration [loop]. *)
Definition subexpr_next (n : nat) (save : parse)
  (loop : ptree -> bool -> Z -> M lstate (option (ptree * Z))) (T : ptree) (was_term : bool) (cc : Z)
  : M lstate (option (ptree * Z)) :=
  let cc := cc + 1 in
  let* b := at_char "+" in
  if negb b then ret (Some (T, cc))
  else
    let? T := EXPECT n save "+" T in
    loop T was_term cc.

(** The loop of [parse_subexpr]; [None] is a failed [EXPECT ("+")], otherwise
    the tree and [cc] at the [break]. *)
Fixpoint subexpr_loop (k n : nat) (save : parse) (parse_term : M lstate (option ptree))
  (T : ptree) (was_term : bool) (cc : Z) : M lstate (option (ptree * Z)) :=
  match k with
  | O => out_of_fuel
  | S k =>
      let loop := subexpr_loop k n save parse_term in
      let* N := parse_nat_const n in
      match N with
      | Some N => subexpr_next n save loop (tree_add_child T N) was_term cc
      | None =>
          if was_term then subexpr_next n save loop T was_term cc
          else
            let* N := parse_term in
            match N with
            | Some N => subexpr_next n save loop (tree_add_child T N) true cc
            | None => ret (Some (T, cc))
            end
      end
  end.

Definition parse_subexpr_body (n : nat) (parse_term : M lstate (option ptree))
  : M lstate (option ptree) :=
  let* (save, T) := PARSE_INIT type_subexpr in
  let? (T, cc) := subexpr_loop n n save parse_term T false 0 in
  if cc =? 0 then PARSE_FAIL save else PARSE_OK T.

Fixpoint expr_loop (k : nat) (save : parse) (T : ptree) (cc : Z)
  (parse_subexpr : M lstate (option ptree)) : M lstate (option ptree) :=
  match k with
  | O => out_of_fuel
  | S k =>
      let* N := parse_subexpr in
      match N with
      | Some N => expr_loop k save (tree_add_child T N) (cc + 1) parse_subexpr
      | None => if cc <? 1 then PARSE_FAIL save else PARSE_OK T
      end
  end.

Fixpoint parse_expr (n : nat) : M lstate (option ptree) :=
  match n with
  | O => out_of_fuel
  | S n =>
      let* (save, T) := PARSE_INIT type_expr in
      expr_loop n save T 0 (parse_subexpr_body n (parse_term_body n (parse_expr n)))
  end.

Definition parse_term (n : nat) : M lstate (option ptree) := parse_term_body n (parse_expr n).

Definition parse_subexpr (n : nat) : M lstate (option ptree) := parse_subexpr_body n (parse_term n).

Definition parse_nat_term (n : nat) : M lstate (option ptree) :=
  let* (save, T) := PARSE_INIT type_nat_term in
  let? T := PARSE_TRY_PES save (parse_term n) T in
  PARSE_OK T.

(** ** Final statements and partial applications *)

Definition parse_final_word (ty : tree_type) (w : string) (n : nat) : M lstate (option ptree) :=
  let* (save, T) := PARSE_INIT ty in
  let? T := EXPECT n save w T in
  let? T := PARSE_TRY_PES save (parse_boxed_type_ident n) T in
  PARSE_OK T.

Definition parse_final_empty : nat -> M lstate (option ptree) := parse_final_word type_final_empty "Empty".
Definition parse_final_new : nat -> M lstate (option ptree) := parse_final_word type_final_new "New".
Definition parse_final_final : nat -> M lstate (option ptree) := parse_final_word type_final_final "Final".

(** [while (1) { PARSE_TRY_PES (x); if (LEX_CHAR (c)) { break; } }] *)
Fixpoint until_loop (k : nat) (save : parse) (T : ptree) (x : M lstate (option ptree)) (c : ascii)
  : M lstate (option ptree) :=
  match k with
  | O => out_of_fuel
  | S k =>
      let? T := PARSE_TRY_PES save x T in
      let* b := at_char c in
      if b : bool then ret (Some T) else until_loop k save T x c
  end.

(** [while (1) { if (LEX_CHAR (c)) { break; } PARSE_TRY_PES (x); }] *)
Fixpoint while_not_loop (k : nat) (save : parse) (T : ptree) (x : M lstate (option ptree)) (c : ascii)
  : M lstate (option ptree) :=
  match k with
  | O => out_of_fuel
  | S k =>
      let* b := at_char c in
      if b : bool then ret (Some T)
      else
        let? T := PARSE_TRY_PES save x T in
        while_not_loop k save T x c
  end.

Definition parse_partial_comb_app_decl (n : nat) : M lstate (option ptree) :=
  let* (save, T) := PARSE_INIT type_partial_comb_app_decl in
  let? T := PARSE_TRY_PES save (parse_combinator_id n) T in
  let? T := until_loop n save T (parse_subexpr n) ";" in
  PARSE_OK T.

Definition parse_partial_type_app_decl (n : nat) : M lstate (option ptree) :=
  let* (save, T) := PARSE_INIT type_partial_type_app_decl in
  let? T := PARSE_TRY_PES save (parse_boxed_type_ident n) T in
  let* b := at_char "<" in
  if b : bool then
    let? T := EXPECT n save "<" T in
    let? T := comma_loop n n save T (parse_expr n) in
    let? T := EXPECT n save ">" T in
    PARSE_OK T
  else
    let? T := until_loop n save T (parse_subexpr n) ";" in
    PARSE_OK T.

(** ** Arguments *)

Definition parse_multiplicity (n : nat) : M lstate (option ptree) :=
  let* (save, T) := PARSE_INIT type_multiplicity in
  let? T := PARSE_TRY_PES save (parse_nat_term n) T in
  PARSE_OK T.

Definition parse_type_term (n : nat) : M lstate (option ptree) :=
  let* (save, T) := PARSE_INIT type_type_term in
  let? T := PARSE_TRY_PES save (parse_term n) T in
  PARSE_OK T.

Definition parse_optional_arg_def (n : nat) : M lstate (option ptree) :=
  let* (save, T) := PARSE_INIT type_optional_arg_def in
  let? T := PARSE_TRY_PES save (parse_var_ident n) T in
  let? T := EXPECT n save "." T in
  let? T := PARSE_TRY_PES save (parse_nat_const n) T in
  let? T := EXPECT n save "?" T in
  PARSE_OK T.

(** [so = save_parse (); PARSE_TRY (parse_optional_arg_def); ...]: the optional
    condition of a field, or the state as it was. *)
Definition try_optional_arg_def (n : nat) (T : ptree) : M lstate ptree :=
  let* s := get in
  let so := save_parse s in
  let* N := parse_optional_arg_def n in
  match N with
  | Some N => ret (tree_add_child T N)
  | None => load so ;; ret T
  end.

(** [if (LEX_CHAR ('!')) { PARSE_ADD (type_exclam); EXPECT ("!"); }] *)
Definition try_exclam (n : nat) (save : parse) (T : ptree) : M lstate (option ptree) :=
  let* b := at_char "!" in
  if b : bool then EXPECT n save "!" (PARSE_ADD type_exclam T) else ret (Some T).

Definition parse_args4 (n : nat) : M lstate (option ptree) :=
  let* (save, T) := PARSE_INIT type_args4 in
  let* T := try_optional_arg_def n T in
  let? T := try_exclam n save T in
  let? T := PARSE_TRY_PES save (parse_type_term n) T in
  PARSE_OK T.

Definition parse_args3 (n : nat) : M lstate (option ptree) :=
  let* (save, T) := PARSE_INIT type_args3 in
  let? T := PARSE_TRY_PES save (parse_var_ident_opt n) T in
  let? T := EXPECT n save ":" T in
  let* T := try_optional_arg_def n T in
  let? T := try_exclam n save T in
  let? T := PARSE_TRY_PES save (parse_type_term n) T in
  PARSE_OK T.

(** [PARSE_TRY (parse_var_ident_opt); if (S && LEX_CHAR (':')) { ... } else { load_parse (save); }] *)
Definition args2_name (n : nat) (save : parse) (T : ptree) : M lstate (option ptree) :=
  let* N := parse_var_ident_opt n in
  let* b := at_char ":" in
  match N, b with
  | Some N, true => EXPECT n save ":" (tree_add_child T N)
  | _, _ => load save ;; ret (Some T)
  end.

(** [save2 = save_parse (); PARSE_TRY (parse_multiplicity); if (S && LEX_CHAR ('*')) { ... }
    else { load_parse (save2); }] *)
Definition args2_multiplicity (n : nat) (save : parse) (T : ptree) : M lstate (option ptree) :=
  let* s := get in
  let save2 := save_parse s in
  let* N := parse_multiplicity n in
  let* b := at_char "*" in
  match N, b with
  | Some N, true => EXPECT n save "*" (tree_add_child T N)
  | _, _ => load save2 ;; ret (Some T)
  end.

Definition parse_args2_body (n : nat) (parse_args : M lstate (option ptree))
  : M lstate (option ptree) :=
  let* (save, T) := PARSE_INIT type_args2 in
  let? T := args2_name n save T in
  let* T := try_optional_arg_def n T in
  let? T := args2_multiplicity n save T in
  let? T := EXPECT n save "[" T in
  let? T := while_not_loop n save T parse_args "]" in
  let? T := EXPECT n save "]" T in
  PARSE_OK T.

Definition parse_args1 (n : nat) : M lstate (option ptree) :=
  let* (save, T) := PARSE_INIT type_args1 in
  let? T := EXPECT n save "(" T in
  let? T := until_loop n save T (parse_var_ident_opt n) ":" in
  let? T := EXPECT n save ":" T in
  let* T := try_optional_arg_def n T in
  let? T := try_exclam n save T in
  let? T := PARSE_TRY_PES save (parse_type_term n) T in
  let? T := EXPECT n save ")" T in
  PARSE_OK T.

Fixpoint parse_args (n : nat) : M lstate (option ptree) :=
  match n with
  | O => out_of_fuel
  | S n =>
      let* (save, T) := PARSE_INIT type_args in
      PARSE_TRY_OPT (parse_args1 n) T (
      PARSE_TRY_OPT (parse_args2_body n (parse_args n)) T (
      PARSE_TRY_OPT (parse_args3 n) T (
      PARSE_TRY_OPT (parse_args4 n) T (
      PARSE_FAIL save))))
  end.

Definition parse_args2 (n : nat) : M lstate (option ptree) := parse_args2_body n (parse_args n).

Definition parse_opt_args (n : nat) : M lstate (option ptree) :=
  let* (save, T) := PARSE_INIT type_opt_args in
  let? T := until_loop n save T (parse_var_ident n) ":" in
  let? T := EXPECT n save ":" T in
  let? T := PARSE_TRY_PES save (parse_type_term n) T in
  PARSE_OK T.

(** ** Declarations *)

Definition parse_final_decl (n : nat) : M lstate (option ptree) :=
  let* (save, T) := PARSE_INIT type_final_decl in
  PARSE_TRY_OPT (parse_final_new n) T (
  PARSE_TRY_OPT (parse_final_final n) T (
  PARSE_TRY_OPT (parse_final_empty n) T (
  PARSE_FAIL save))).

Definition parse_partial_app_decl (n : nat) : M lstate (option ptree) :=
  let* (save, T) := PARSE_INIT type_partial_app_decl in
  PARSE_TRY_OPT (parse_partial_type_app_decl n) T (
  PARSE_TRY_OPT (parse_partial_comb_app_decl n) T (
  PARSE_FAIL save)).

Definition parse_result_type (n : nat) : M lstate (option ptree) :=
  let* (save, T) := PARSE_INIT type_result_type in
  let? T := PARSE_TRY_PES save (parse_boxed_type_ident n) T in
  let* b := at_char "<" in
  if b : bool then
    let? T := EXPECT n save "<" T in
    let? T := comma_loop n n save T (parse_expr n) in
    let? T := EXPECT n save ">" T in
    PARSE_OK T
  else
    let? T := while_not_loop n save T (parse_subexpr n) ";" in
    PARSE_OK T.

(** [while (1) { if (LEX_CHAR ('{')) { parse_lex (); PARSE_TRY_PES (parse_opt_args);
    EXPECT ("}"); } else { break; } }] *)
Fixpoint opt_args_loop (k n : nat) (save : parse) (T : ptree) : M lstate (option ptree) :=
  match k with
  | O => out_of_fuel
  | S k =>
      let* b := at_char "{" in
      if b : bool then
        lex_step n ;;
        let? T := PARSE_TRY_PES save (parse_opt_args n) T in
        let? T := EXPECT n save "}" T in
        opt_args_loop k n save T
      else ret (Some T)
  end.

Definition parse_combinator_decl (n : nat) : M lstate (option ptree) :=
  let* (save, T) := PARSE_INIT type_combinator_decl in
  let? T := PARSE_TRY_PES save (parse_full_combinator_id n) T in
  let? T := opt_args_loop n n save T in
  let? T := while_not_loop n save T (parse_args n) "=" in
  let? T := EXPECT n save "=" T in
  let T := PARSE_ADD type_equals T in
  let? T := PARSE_TRY_PES save (parse_result_type n) T in
  PARSE_OK T.

Definition parse_builtin_combinator_decl (n : nat) : M lstate (option ptree) :=
  let* (save, T) := PARSE_INIT type_builtin_combinator_decl in
  let? T := PARSE_TRY_PES save (parse_full_combinator_id n) T in
  let? T := EXPECT n save "?" T in
  let? T := EXPECT n save "=" T in
  let? T := PARSE_TRY_PES save (parse_boxed_type_ident n) T in
  PARSE_OK T.

Definition parse_declaration (n : nat) : M lstate (option ptree) :=
  let* (save, T) := PARSE_INIT type_declaration in
  PARSE_TRY_OPT (parse_combinator_decl n) T (
  PARSE_TRY_OPT (parse_partial_app_decl n) T (
  PARSE_TRY_OPT (parse_final_decl n) T (
  PARSE_TRY_OPT (parse_builtin_combinator_decl n) T (
  PARSE_FAIL save)))).

(** ** The program *)

(** [parse.lex.type == lex_eof || parse.lex.type == lex_triple_minus] *)
Definition at_section_end : M lstate bool :=
  let* ty := cur_type in
  ret (bool_decide (ty = lex_eof) || bool_decide (ty = lex_triple_minus)).

Fixpoint declarations_loop (k n : nat) (save : parse) (T : ptree) : M lstate (option ptree) :=
  match k with
  | O => out_of_fuel
  | S k =>
      let? T := PARSE_TRY_PES save (parse_declaration n) T in
      let? T := EXPECT n save ";" T in
      let* b := at_section_end in
      if b : bool then PARSE_OK T else declarations_loop k n save T
  end.

(** [parse_constr_declarations] and [parse_fun_declarations] differ in the type
    of the node. *)
Definition parse_declarations (ty : tree_type) (n : nat) : M lstate (option ptree) :=
  let* (save, T) := PARSE_INIT ty in
  let* b := at_section_end in
  if b : bool then PARSE_OK T else declarations_loop n n save T.

Definition parse_constr_declarations : nat -> M lstate (option ptree) :=
  parse_declarations type_constr_declarations.
Definition parse_fun_declarations : nat -> M lstate (option ptree) :=
  parse_declarations type_fun_declarations.

(** [if (parse.lex.type == lex_error || expect ("---") < 0 || expect (w) < 0 ||
    expect ("---") < 0) { PARSE_FAIL; }] *)
Definition section_header (n : nat) (save : parse) (w : string) (T : ptree)
  : M lstate (option ptree) :=
  let* ty := cur_type in
  if bool_decide (ty = lex_error) then PARSE_FAIL save
  else
    let? T := EXPECT n save "---" T in
    let? T := EXPECT n save w T in
    EXPECT n save "---" T.

Fixpoint program_loop (k n : nat) (save : parse) (T : ptree) : M lstate (option ptree) :=
  match k with
  | O => out_of_fuel
  | S k =>
      let? T := PARSE_TRY_PES save (parse_constr_declarations n) T in
      let* ty := cur_type in
      if bool_decide (ty = lex_eof) then PARSE_OK T
      else
        let? T := section_header n save "functions" T in
        let? T := PARSE_TRY_PES save (parse_fun_declarations n) T in
        let* ty := cur_type in
        if bool_decide (ty = lex_eof) then PARSE_OK T
        else
          let? T := section_header n save "types" T in
          program_loop k n save T
  end.

Definition parse_program (n : nat) : M lstate (option ptree) :=
  let* (save, T) := PARSE_INIT type_tl_program in
  program_loop n n save T.

Definition tl_parse_lex (n : nat) (P : parse) : M lstate (option ptree) :=
  load P ;;
  let* ty := cur_type in
  (if bool_decide (ty = lex_none) then lex_step n else ret tt) ;;
  let* ty := cur_type in
  if bool_decide (ty = lex_error) then ret None else parse_program n.

(** The front end on a text: read, then parse from the initial globals. *)
Definition parse_text (n : nat) : result (option ptree * lstate) :=
  tl_parse_lex n init_parse init_state.

End Parser.
