(* ===== verification/Grammar.v ===== *)
(** * Correctness of the parser

    The grammar of the trees that [parse_program] builds, as a predicate on
    [ptree], and the theorem that on every text that ends with a newline the
    parser returns, without a fault, either the null tree or a tree of the
    grammar; where it accepts, it has stopped at the end of the text or at a
    zero byte, which the lexer takes for the end. *)
From Stdlib Require Import ZArith Lia List Bool Ascii String.
From stdpp Require Import base list strings.
From S2P Require Import Prelude Lexer Parser.
Open Scope tl_scope.

(** ** The grammar *)

Definition types (T : ptree) : list tree_type := map t_type (t_c T).

(** [n] copies of one type of child. *)
Abbreviation many := (@repeat tree_type).

(** The optional parts of an argument: its condition, its mark, its type. *)
Definition arg_tail (cs : list tree_type) : Prop :=
  exists o e : bool,
    cs = (if o then [type_optional_arg_def] else []) ++ (if e then [type_exclam] else []) ++ [type_type_term].

(** Sections of constructors and of functions in turn. *)
Definition section (b : bool) : tree_type :=
  if b then type_constr_declarations else type_fun_declarations.

Fixpoint alternate (b : bool) (k : nat) : list tree_type :=
  match k with
  | O => []
  | S k => section b :: alternate (negb b) k
  end.

(** The children that a node of each type can have. *)
Definition shape (ty : tree_type) (cs : list tree_type) : Prop :=
  match ty with
  | type_tl_program => exists k, (0 < k)%nat /\ cs = alternate true k
  | type_fun_declarations | type_constr_declarations => exists n, cs = many type_declaration n
  | type_declaration =>
      cs = [type_combinator_decl] \/ cs = [type_partial_app_decl] \/ cs = [type_final_decl] \/
      cs = [type_builtin_combinator_decl]
  | type_combinator_decl =>
      exists n m, cs = type_full_combinator_id :: many type_opt_args n ++ many type_args m ++
                       [type_equals; type_result_type]
  | type_partial_app_decl =>
      cs = [type_partial_type_app_decl] \/ cs = [type_partial_comb_app_decl]
  | type_final_decl => cs = [type_final_new] \/ cs = [type_final_final] \/ cs = [type_final_empty]
  | type_opt_args => exists n, (0 < n)%nat /\ cs = many type_var_ident n ++ [type_type_term]
  | type_args =>
      cs = [type_args1] \/ cs = [type_args2] \/ cs = [type_args3] \/ cs = [type_args4]
  | type_args1 =>
      exists n l, (0 < n)%nat /\ arg_tail l /\ cs = many type_var_ident_opt n ++ l
  | type_args2 =>
      exists (v o m : bool) n, cs = (if v then [type_var_ident_opt] else []) ++
        (if o then [type_optional_arg_def] else []) ++ (if m then [type_multiplicity] else []) ++
        many type_args n
  | type_args3 => exists l, arg_tail l /\ cs = type_var_ident_opt :: l
  | type_args4 => arg_tail cs
  | type_subexpr =>
      cs <> [] /\ Forall (fun t => t = type_nat_const \/ t = type_term) cs
  | type_partial_comb_app_decl =>
      exists n, (0 < n)%nat /\ cs = type_combinator_id :: many type_subexpr n
  | type_partial_type_app_decl =>
      exists n, (0 < n)%nat /\
        (cs = type_boxed_type_ident :: many type_expr n \/
         cs = type_boxed_type_ident :: many type_subexpr n)
  | type_final_new | type_final_final | type_final_empty => cs = [type_boxed_type_ident]
  | type_multiplicity => cs = [type_nat_term]
  | type_type_term | type_nat_term => cs = [type_term]
  | type_term =>
      exists n l, cs = many type_percent n ++ l /\
        (l = [type_expr] \/ (exists k, l = type_type_ident :: many type_expr k) \/
         l = [type_var_ident] \/ l = [type_nat_const])
  | type_result_type =>
      exists n, (0 < n)%nat /\ cs = type_boxed_type_ident :: many type_expr n \/
                cs = type_boxed_type_ident :: many type_subexpr n
  | type_expr => exists n, (0 < n)%nat /\ cs = many type_subexpr n
  | type_builtin_combinator_decl => cs = [type_full_combinator_id; type_boxed_type_ident]
  | type_optional_arg_def => cs = [type_var_ident; type_nat_const]
  | type_equals | type_percent | type_exclam
  | type_full_combinator_id | type_boxed_type_ident | type_var_ident | type_var_ident_opt
  | type_combinator_id | type_nat_const | type_type_ident => cs = []
  end.

(** The nodes that carry a lexeme. *)
Definition is_leaf (ty : tree_type) : bool :=
  match ty with
  | type_full_combinator_id | type_boxed_type_ident | type_var_ident | type_var_ident_opt
  | type_combinator_id | type_nat_const | type_type_ident => true
  | _ => false
  end.

(** The lexemes that a leaf of each type can carry, by their type and their
    first character. *)
Definition leaf_kind (ty : tree_type) (l : lex_type) (c : Z) : bool :=
  match ty, l with
  | type_boxed_type_ident, lex_uc_ident => true
  | type_full_combinator_id, lex_lc_ident => true
  | type_full_combinator_id, lex_char => c =? chr "_"
  | type_combinator_id, lex_lc_ident => true
  | type_var_ident, (lex_lc_ident | lex_uc_ident) => true
  | type_var_ident_opt, (lex_lc_ident | lex_uc_ident) => true
  | type_var_ident_opt, lex_char => c =? chr "_"
  | type_nat_const, lex_num => true
  | type_type_ident, (lex_uc_ident | lex_lc_ident) => true
  | type_type_ident, lex_char => c =? chr "#"
  | _, _ => false
  end.

Section Grammar.
Context (text : list Z).
Local Abbreviation len := (len text).

(** A leaf's lexeme lies inside the text and is of the right kind. *)
Definition leaf_ok (T : ptree) : Prop :=
  is_leaf (t_type T) = true ->
  exists p l, t_text T = POff p /\ 0 <= p /\ 0 < t_len T /\ p + t_len T <= len /\
    token_ok text l (t_flags T) p (t_len T) /\ leaf_kind (t_type T) l (text_at text p) = true.

Inductive wf_tree : ptree -> Prop :=
| wf_node T : shape (t_type T) (types T) -> leaf_ok T -> Forall wf_tree (t_c T) -> wf_tree T.

(** A finished tree of type [ty]. *)
Definition tree_of (ty : tree_type) (T : ptree) : Prop := t_type T = ty /\ wf_tree T.

(** A tree under construction: its type, and what its children are so far. *)
Definition building (ty : tree_type) (cs : list tree_type) (T : ptree) : Prop :=
  t_type T = ty /\ types T = cs /\ Forall wf_tree (t_c T) /\ is_leaf ty = false.

Lemma building_add ty cs T N ty' :
  building ty cs T -> tree_of ty' N -> building ty (cs ++ [ty']) (tree_add_child T N).
Proof.
  intros (Ht & Hc & HF & Hl) [Ht' Hw]. destruct T as [tx ln ty0 a b f c]. unfold types in *. cbn in *.
  split_and!; [done| |by apply Forall_app_2; [|constructor]|done].
  rewrite <- Hc, <- Ht'. apply map_app.
Qed.

Lemma building_done ty cs T : building ty cs T -> shape ty cs -> tree_of ty T.
Proof.
  intros (Ht & Hc & HF & Hl) Hs. split; [done|]. constructor; [|unfold leaf_ok|done].
  - by rewrite Ht, Hc.
  - by rewrite Ht, Hl.
Qed.

Lemma tree_of_alloc ty : is_leaf ty = false -> shape ty [] -> tree_of ty (tree_alloc ty).
Proof. intros Hl Hs. apply (building_done ty []); [|done]. by repeat constructor. Qed.

Lemma building_init ty l lp : is_leaf ty = false -> building ty [] (PTree PNull 0 ty l lp 0 []).
Proof. by repeat constructor. Qed.

Lemma building_ADD ty cs T ty' :
  building ty cs T -> is_leaf ty' = false -> shape ty' [] ->
  building ty (cs ++ [ty']) (PARSE_ADD ty' T).
Proof. intros H Hl Hs. by apply building_add; [|apply tree_of_alloc]. Qed.

End Grammar.

(** ** Total correctness *)

Section Total.
Context (text : list Z).
Hypothesis Hlast : last text = Some 10.
Local Abbreviation len := (len text).

(** The current lexeme is neither the end of the text nor an error. *)
Definition is_token (ty : lex_type) : bool :=
  match ty with
  | lex_eof | lex_error | lex_none => false
  | _ => true
  end.

(** What is left to read. *)
Definition mu (s : lstate) : nat :=
  if is_token (lex_ty (lex (ps s))) then S (Z.to_nat (len - pos (ps s))) else 0%nat.

(** The invariant of the parser's states: the lexer's, and a lexeme that
    [parse_lex] has produced. *)
Definition pinv (s : lstate) : Prop :=
  lex_inv text s /\ lexed text (lex (ps s)) 0 (pos (ps s)).

(** A saved [struct parse] that [load_parse] can restore. *)
Definition save_ok (p : parse) : Prop := 0 <= pos p < len /\ lexed text (lex p) 0 (pos p).

(** Fuel for every loop and lexer call from [s] on. *)
Definition enough (n : nat) (s : lstate) : Prop := (Z.to_nat len + 3 + mu s <= n)%nat.

Lemma pinv_save s : pinv s -> save_ok (ps s).
Proof. intros [[] ?]. by split. Qed.

Lemma enough_mono n s s' : enough n s -> (mu s' <= mu s)%nat -> enough n s'.
Proof. unfold enough. lia. Qed.

Lemma mu_ps s s' : ps s' = ps s -> mu s' = mu s.
Proof. unfold mu. by intros ->. Qed.

Lemma wp_load save s (Q : unit -> lstate -> Prop) :
  save_ok save -> (forall s', pinv s' -> ps s' = save -> Q tt s') -> wp (load text save) s Q.
Proof.
  intros [Hp Hl] HQ. unfold wp, load, load_parse, text_read.
  replace (pos save >? len) with false by lia.
  replace ((0 <=? pos save) && (pos save <? len)) with true by lia.
  cbn [rbind]. do 2 eexists. split; [done|]. apply HQ; [|done].
  split; [|done]. constructor; cbn; [done|by left].
Qed.

Lemma wp_lex_step n s (Q : unit -> lstate -> Prop) :
  pinv s -> enough n s -> is_token (lex_ty (lex (ps s))) = true ->
  (forall s', pinv s' -> (mu s' < mu s)%nat -> Q tt s') -> wp (lex_step text n) s Q.
Proof.
  intros [Hs Hl] Hn Ht HQ. unfold enough in Hn.
  destruct (parse_lex_good text Hlast n s Hs) as (s' & E & H1 & Hle & Hl1);
    [destruct Hs; lia|].
  exists tt, s'. split; [unfold lex_step; by rewrite E|].
  apply HQ; [split; [done|eapply lexed_mono; [|done]; destruct Hs; lia]|].
  unfold mu. rewrite Ht. destruct (is_token (lex_ty (lex (ps s')))) eqn:E2; [|lia].
  destruct H1 as [Hp1 _]. unfold lexed in Hl1.
  destruct (lex_ty (lex (ps s'))); try done; destruct Hl1 as (p & _ & ? & ? & ? & _); lia.
Qed.

Lemma wp_error e s (Q : unit -> lstate -> Prop) :
  pinv s -> (forall s', pinv s' -> ps s' = ps s -> Q tt s') -> wp (error e) s Q.
Proof.
  intros [[Hp Hc] Hl] HQ. apply wp_modify. destruct (parse_error_ps e s) as [E1 E2].
  apply HQ; [|done]. split; [constructor|]; by rewrite E1, ?E2.
Qed.

Lemma wp_FAIL {A} save s (Q : option A -> lstate -> Prop) :
  save_ok save -> (forall s', pinv s' -> ps s' = save -> Q None s') ->
  wp (PARSE_FAIL text save) s Q.
Proof. intros Hs HQ. apply wp_bind, wp_load; [done|]. intros s' H1 H2. apply wp_ret. auto. Qed.

Lemma wp_expect n w s (Q : bool -> lstate -> Prop) :
  pinv s -> enough n s ->
  (forall s', pinv s' -> (mu s' < mu s)%nat -> Q true s') ->
  (forall s', pinv s' -> ps s' = ps s -> Q false s') -> wp (expect text n w) s Q.
Proof.
  intros Hs Hn HQ1 HQ2.
  assert (Hfail : wp (fun s => Ret (false, parse_error ("Expected " ++ w) s)) s Q).
  { destruct (wp_error ("Expected " ++ w) s (fun _ s' => Q false s')) as ([] & s' & E & H);
      [done|done|]. exists false, s'. by injection E as <-. }
  unfold wp, expect in *. destruct (lex_ptr (lex (ps s))) eqn:Ep; [exact Hfail..|].
  case_goal; [exact Hfail|].
  destruct (wp_lex_step n s (fun _ s' => Q true s')) as ([] & s' & E & H); [done|done| |auto|].
  - destruct Hs as [_ Hl]. unfold lexed in Hl. repeat apply orb_false_iff in Heqb as [Heqb _].
    apply bool_decide_eq_false_1 in Heqb.
    destruct (lex_ty (lex (ps s))) eqn:Et; try done; try congruence.
    + by rewrite Ep in Hl; destruct Hl.
    + destruct Hl as (? & _ & _ & _ & _ & []).
  - exists true, s'. split; [|done]. unfold lex_step in E. revert E.
    destruct (parse_lex text n s); cbn; congruence.
Qed.

Lemma wp_EXPECT n save w T s (Q : option ptree -> lstate -> Prop) :
  pinv s -> save_ok save -> enough n s ->
  (forall s', pinv s' -> (mu s' < mu s)%nat -> Q (Some T) s') ->
  (forall s', pinv s' -> ps s' = save -> Q None s') -> wp (EXPECT text n save w T) s Q.
Proof.
  intros Hs Hsv Hn HQ1 HQ2. apply wp_bind, wp_expect; [done|done|..].
  - intros s' H1 H2. apply wp_ret. auto.
  - intros s' H1 H2. by apply wp_FAIL.
Qed.

(** The contract of a parsing function that builds trees of type [ty]: it
    returns, having read at least one lexeme, or it fails where it started. *)
Definition parses (ty : tree_type) (x : M lstate (option ptree)) (s : lstate) : Prop :=
  wp x s (fun r s' => pinv s' /\
    match r with
    | Some T => (mu s' < mu s)%nat /\ tree_of text ty T
    | None => ps s' = ps s
    end).

Lemma wp_TRY_PES ty' save x T s ty cs (Q : option ptree -> lstate -> Prop) :
  parses ty' x s -> save_ok save -> building text ty cs T ->
  (forall T' s', pinv s' -> (mu s' < mu s)%nat -> building text ty (cs ++ [ty']) T' -> Q (Some T') s') ->
  (forall s', pinv s' -> ps s' = save -> Q None s') ->
  wp (PARSE_TRY_PES text save x T) s Q.
Proof.
  intros Hx Hsv HT HQ1 HQ2. apply wp_bind. eapply wp_mono; [exact Hx|].
  intros [N|] s' [H1 H2]; [|by apply wp_FAIL].
  destruct H2 as [H2 H3]. apply wp_ret, HQ1; [done|done|]. by apply building_add.
Qed.

Lemma wp_TRY_OPT ty' x T k s ty cs (Q : option ptree -> lstate -> Prop) :
  parses ty' x s -> building text ty cs T ->
  (forall T' s', pinv s' -> (mu s' < mu s)%nat -> building text ty (cs ++ [ty']) T' -> Q (Some T') s') ->
  (forall s', pinv s' -> ps s' = ps s -> wp k s' Q) ->
  wp (PARSE_TRY_OPT x T k) s Q.
Proof.
  intros Hx HT HQ1 HQ2. apply wp_bind. eapply wp_mono; [exact Hx|].
  intros [N|] s' [H1 H2]; [|by apply HQ2].
  destruct H2 as [H2 H3]. apply wp_ret, HQ1; [done|done|]. by apply building_add.
Qed.

Lemma wp_INIT ty s (Q : parse * ptree -> lstate -> Prop) :
  is_leaf ty = false -> pinv s ->
  (forall T, save_ok (ps s) -> building text ty [] T -> Q (ps s, T) s) -> wp (PARSE_INIT ty) s Q.
Proof.
  intros Hl Hs HQ. do 2 eexists. split; [done|]. apply HQ; [by apply pinv_save|by apply building_init].
Qed.

Lemma LEX_CHAR_token c s : LEX_CHAR text c s = true -> is_token (lex_ty (lex (ps s))) = true.
Proof.
  unfold LEX_CHAR. intros [H _]%andb_true_iff. apply bool_decide_eq_true_1 in H. by rewrite H.
Qed.

Lemma wp_at_char c s (Q : bool -> lstate -> Prop) :
  (LEX_CHAR text (chr c) s = true -> Q true s) -> (LEX_CHAR text (chr c) s = false -> Q false s) ->
  wp (at_char text c) s Q.
Proof. intros H1 H2. do 2 eexists. split; [done|]. destruct (LEX_CHAR text (chr c) s); auto. Qed.

(** ** Tokens *)

Lemma parse_token_ok ty ok e n s :
  is_leaf ty = true -> shape ty [] ->
  (forall s p, lex_ptr (lex (ps s)) = POff p -> ok s = true ->
     leaf_kind ty (lex_ty (lex (ps s))) (text_at text p) = true) ->
  (forall s, ok s = true -> is_token (lex_ty (lex (ps s))) = true) ->
  pinv s -> enough n s -> parses ty (parse_token text ty ok e n) s.
Proof.
  intros Hl Hsh Hk Hok Hs Hn. unfold parses, parse_token.
  apply wp_bind. do 2 eexists. split; [done|]. apply wp_bind, wp_get.
  destruct (ok s) eqn:E.
  - apply wp_bind, wp_lex_step; [done|done|by apply Hok|]. intros s' H1 H2. apply wp_ret.
    split_and!; [done|done|]. split; [done|]. constructor; [done| |constructor].
    intros _. destruct Hs as [[Hp _] Hl']. unfold lexed in Hl'. pose proof (Hok s E) as Ht.
    assert (exists p, lex_ptr (lex (ps s)) = POff p /\ 0 <= p /\ 0 < lex_len (lex (ps s)) /\
      p + lex_len (lex (ps s)) = pos (ps s) /\
      token_ok text (lex_ty (lex (ps s))) (lex_flags (lex (ps s))) p (lex_len (lex (ps s))))
      as (p & Hptr & Hp0 & Hlen & Hend & Htok) by (destruct (lex_ty (lex (ps s))); done).
    exists p, (lex_ty (lex (ps s))). cbn. split_and!; try done; [lia|]. by apply Hk.
  - apply wp_bind, wp_error; [done|]. intros s' H1 H2. apply wp_FAIL; [by apply pinv_save|].
    intros s'' H3 H4. by split.
Qed.

Lemma lex_is_token ty s : is_token ty = true -> lex_is ty s = true -> is_token (lex_ty (lex (ps s))) = true.
Proof. unfold lex_is. intros H E. apply bool_decide_eq_true_1 in E. by rewrite E. Qed.

(** Reduce a test on the lexeme to the lexeme types it accepts. *)
Ltac token_cases H :=
  repeat match goal with
  | H : (_ || _)%bool = true |- _ => apply orb_true_iff in H as [H|H]
  | H : (_ && _)%bool = true |- _ => apply andb_true_iff in H as [H _]
  end.

Ltac token_test :=
  intros ? H; token_cases H;
  first [eapply LEX_CHAR_token; exact H | eapply lex_is_token; [|exact H]; done].

Lemma LEX_CHAR_kind c s p :
  lex_ptr (lex (ps s)) = POff p -> LEX_CHAR text c s = true ->
  lex_ty (lex (ps s)) = lex_char /\ (text_at text p =? c) = true.
Proof.
  unfold LEX_CHAR. intros -> [H1 H2]%andb_true_iff. by apply bool_decide_eq_true_1 in H1.
Qed.

Ltac kind_test :=
  intros ? ? Hp H; token_cases H;
  first [destruct (LEX_CHAR_kind _ _ _ Hp H) as [-> ?]; done
        | unfold lex_is in H; apply bool_decide_eq_true_1 in H; by rewrite H].

Lemma parse_boxed_type_ident_ok n s :
  pinv s -> enough n s -> parses type_boxed_type_ident (parse_boxed_type_ident text n) s.
Proof. apply parse_token_ok; [done|done|kind_test|token_test]. Qed.

Lemma parse_full_combinator_id_ok n s :
  pinv s -> enough n s -> parses type_full_combinator_id (parse_full_combinator_id text n) s.
Proof. apply parse_token_ok; [done|done|kind_test|token_test]. Qed.

Lemma parse_combinator_id_ok n s :
  pinv s -> enough n s -> parses type_combinator_id (parse_combinator_id text n) s.
Proof. apply parse_token_ok; [done|done|kind_test|token_test]. Qed.

Lemma parse_var_ident_ok n s :
  pinv s -> enough n s -> parses type_var_ident (parse_var_ident text n) s.
Proof. apply parse_token_ok; [done|done|kind_test|token_test]. Qed.

Lemma parse_var_ident_opt_ok n s :
  pinv s -> enough n s -> parses type_var_ident_opt (parse_var_ident_opt text n) s.
Proof. apply parse_token_ok; [done|done|kind_test|token_test]. Qed.

Lemma parse_nat_const_ok n s :
  pinv s -> enough n s -> parses type_nat_const (parse_nat_const text n) s.
Proof. apply parse_token_ok; [done|done|kind_test|token_test]. Qed.

Lemma parse_type_ident_ok n s :
  pinv s -> enough n s -> parses type_type_ident (parse_type_ident text n) s.
Proof. apply parse_token_ok; [done|done|kind_test|token_test]. Qed.

Create HintDb parses.

#[local] Hint Resolve parse_boxed_type_ident_ok parse_full_combinator_id_ok parse_combinator_id_ok
  parse_var_ident_ok parse_var_ident_opt_ok parse_nat_const_ok parse_type_ident_ok : parses.

(** *** Stepping through a parsing function *)

Ltac fuel := solve [eassumption | unfold enough in *; lia].

#[local] Hint Extern 1 (enough _ _) => fuel : parses.

Ltac sub := solve [eauto 3 with parses].

(** The null result: the state is the one saved. *)
Ltac p_none := solve [intros; apply wp_ret; split; [assumption|congruence]
                     |intros; split; [assumption|congruence] | auto].

Ltac pstep :=
  lazymatch goal with
  | |- wp (bind (PARSE_INIT _) _) _ _ =>
      apply wp_bind, wp_INIT; [done|assumption|]; intros ? ? ?; cbv beta iota
  | |- wp (bind (EXPECT _ _ _ _ _) _) _ _ =>
      apply wp_bind, wp_EXPECT; [assumption|assumption|fuel|intros ? ? ?; cbv beta iota|p_none]
  | |- wp (bind (PARSE_TRY_PES _ _ _ _) _) _ _ =>
      apply wp_bind; eapply wp_TRY_PES;
        [sub|assumption|eassumption|intros ? ? ? ? ?; cbv beta iota|p_none]
  | |- wp (PARSE_TRY_OPT _ _ _) _ _ =>
      eapply wp_TRY_OPT; [sub|eassumption|intros ? ? ? ? ?|
        let Hps := fresh "Hps" in intros ? ? Hps; pose proof (mu_ps _ _ Hps)]
  | |- wp (bind (at_char _ _) _) _ _ =>
      apply wp_bind, wp_at_char; intros ?; cbv beta iota
  | |- wp (PARSE_FAIL _ _) _ _ => apply wp_FAIL; [assumption|p_none]
  end.

Lemma many_snoc t n : many t n ++ [t] = many t (S n).
Proof. symmetry. apply repeat_cons. Qed.

Lemma app_many_snoc cs t n : (cs ++ many t n) ++ [t] = cs ++ many t (S n).
Proof. by rewrite <- app_assoc, many_snoc. Qed.

(** *** The loops *)

(** The result of a loop that keeps adding children to a tree: after it the
    tree has the children [cs'] some [j] determines. *)
Definition loop_post (save : parse) (s : lstate) (ty : tree_type) (cs' : nat -> list tree_type)
  (r : option ptree) (s' : lstate) : Prop :=
  pinv s' /\
  match r with
  | Some T' => (mu s' <= mu s)%nat /\ exists j, building text ty (cs' j) T'
  | None => ps s' = save
  end.

Lemma loop_weaken save s s1 ty cs1 cs2 m :
  wp m s1 (loop_post save s1 ty cs1) -> (mu s1 <= mu s)%nat ->
  (forall j, exists j', cs1 j = cs2 j') -> wp m s1 (loop_post save s ty cs2).
Proof.
  intros H Hle Hcs. eapply wp_mono; [exact H|]. intros [T|] s' [H1 H2]; split; try done.
  destruct H2 as [H2 [j H3]]. split; [lia|]. destruct (Hcs j) as [j' E]. exists j'. by rewrite <- E.
Qed.

Lemma percent_loop_ok k n save T s ty cs :
  pinv s -> save_ok save -> enough n s -> (mu s < k)%nat -> building text ty cs T ->
  wp (percent_loop text k n save T) s (loop_post save s ty (fun j => cs ++ many type_percent j)).
Proof.
  revert T s cs. induction k as [|k IH]; intros T s cs Hs Hsv Hn Hk HT; [lia|].
  cbn [percent_loop]. pstep.
  - pstep. eapply loop_weaken; [eapply IH|..]; [done|done|fuel|lia|by eapply building_ADD|lia|].
    intros j. exists (S j). by rewrite <- app_assoc.
  - apply wp_ret. split_and!; [done|done|]. exists 0%nat. by rewrite app_nil_r.
Qed.

Lemma comma_loop_ok k n save T s ty cs x :
  (forall s', pinv s' -> (mu s' <= mu s)%nat -> parses type_expr x s') ->
  pinv s -> save_ok save -> enough n s -> (mu s < k)%nat -> building text ty cs T ->
  wp (comma_loop text k n save T x) s (loop_post save s ty (fun j => cs ++ many type_expr (S j))).
Proof.
  revert T s cs. induction k as [|k IH]; intros T s cs Hx Hs Hsv Hn Hk HT; [lia|].
  cbn [comma_loop]. apply wp_bind. eapply wp_TRY_PES; [by apply Hx|done|done| |p_none].
  intros T1 s1 Hs1 Hmu1 HT1. cbv beta iota. pstep.
  - apply wp_ret. split_and!; [done|lia|]. by exists 0%nat.
  - pstep. eapply loop_weaken; [eapply IH|..]; [|done|done|fuel|lia|done|lia|].
    + intros sx H1' H2'. apply Hx; [done|lia].
    + intros j. exists (S j). by rewrite <- app_assoc.
Qed.

Lemma until_loop_ok ty' k save T s ty cs x c :
  (forall s', pinv s' -> (mu s' <= mu s)%nat -> parses ty' x s') ->
  pinv s -> save_ok save -> (mu s < k)%nat -> building text ty cs T ->
  wp (until_loop text k save T x c) s (loop_post save s ty (fun j => cs ++ many ty' (S j))).
Proof.
  revert T s cs. induction k as [|k IH]; intros T s cs Hx Hs Hsv Hk HT; [lia|].
  cbn [until_loop]. apply wp_bind. eapply wp_TRY_PES; [by apply Hx|done|done| |p_none].
  intros T1 s1 Hs1 Hmu1 HT1. cbv beta iota. pstep.
  - apply wp_ret. split_and!; [done|lia|]. by exists 0%nat.
  - eapply loop_weaken; [eapply IH|..]; [|done|done|lia|done|lia|].
    + intros sx H1' H2'. apply Hx; [done|lia].
    + intros j. exists (S j). by rewrite <- app_assoc.
Qed.

Lemma while_not_loop_ok ty' k save T s ty cs x c :
  (forall s', pinv s' -> (mu s' <= mu s)%nat -> parses ty' x s') ->
  pinv s -> save_ok save -> (mu s < k)%nat -> building text ty cs T ->
  wp (while_not_loop text k save T x c) s (loop_post save s ty (fun j => cs ++ many ty' j)).
Proof.
  revert T s cs. induction k as [|k IH]; intros T s cs Hx Hs Hsv Hk HT; [lia|].
  cbn [while_not_loop]. pstep.
  - apply wp_ret. split_and!; [done|lia|]. exists 0%nat. by rewrite app_nil_r.
  - apply wp_bind. eapply wp_TRY_PES; [by apply Hx|done|done| |p_none].
    intros T1 s1 Hs1 Hmu1 HT1. cbv beta iota.
    eapply loop_weaken; [eapply IH|..]; [|done|done|lia|done|lia|].
    + intros sx H1' H2'. apply Hx; [done|lia].
    + intros j. exists (S j). by rewrite <- app_assoc.
Qed.

(** ** Expressions *)

Lemma enough_loop n s : enough n s -> (mu s < n)%nat.
Proof. unfold enough. lia. Qed.

(** Close a function: its tree is finished. *)
Ltac p_ok := try apply wp_ret; split; [assumption|split; [lia|eapply building_done; [eassumption|]]].

Lemma parse_term_body_ok n x s :
  (forall s', pinv s' -> (mu s' < mu s)%nat -> parses type_expr x s') ->
  pinv s -> enough n s -> parses type_term (parse_term_body text n x) s.
Proof.
  intros Hx Hs Hn. unfold parses, parse_term_body. pstep.
  apply wp_bind. eapply wp_mono; [by eapply percent_loop_ok, H0; auto using enough_loop|].
  intros [T1|] s1 [Hs1 K1]; cbv beta iota; [destruct K1 as [Hle [j HT1]]|p_none].
  cbn [app] in HT1. pstep.
  { pstep. apply wp_bind. eapply wp_TRY_PES; [apply Hx; [done|lia]|done|done| |p_none].
    intros T2 s2 Hs2 Hmu2 HT2. cbv beta iota. pstep. p_ok. exists j, [type_expr]. auto. }
  apply wp_bind. eapply wp_mono; [apply parse_type_ident_ok; [done|fuel]|].
  intros [N|] s2 [Hs2 K2]; cbv beta iota.
  - destruct K2 as [Hmu2 HN]. pose proof (building_add _ _ _ _ _ _ HT1 HN) as HT2. pstep.
    + pstep. apply wp_bind. eapply wp_mono; [eapply comma_loop_ok, HT2; try done|].
      { intros sx Hsx Hmx. apply Hx; [done|lia]. }
      { fuel. } { apply enough_loop. fuel. }
      intros [T3|] s3 [Hs3 K3]; cbv beta iota; [destruct K3 as [Hle3 [i HT3]]|p_none].
      pstep. p_ok. exists j, (type_type_ident :: many type_expr (S i)).
      split; [by rewrite <- app_assoc|eauto].
    + p_ok. exists j, [type_type_ident]. split; [done|]. right. left. by exists 0%nat.
  - assert (mu s2 = mu s1) by (by apply mu_ps).
    pstep; [p_ok; exists j, [type_type_ident]; split; [done|right; left; by exists 0%nat]|].
    pstep; [p_ok; exists j, [type_var_ident]; auto|].
    pstep; [p_ok; exists j, [type_nat_const]; auto|].
    pstep.
Qed.

(** The children of a sub-expression. *)
Definition summands (cs : list tree_type) : Prop :=
  Forall (fun t => t = type_nat_const \/ t = type_term) cs.

Lemma summands_snoc cs t :
  summands cs -> t = type_nat_const \/ t = type_term -> summands (cs ++ [t]) /\ cs ++ [t] <> [].
Proof.
  intros H1 H2. split; [apply Forall_app_2; [done|by constructor]|].
  intros E. by apply app_eq_nil in E as [_ ?].
Qed.

Definition subexpr_post (save : parse) (m0 : nat) (r : option (ptree * Z)) (s : lstate) : Prop :=
  pinv s /\
  match r with
  | Some (T, cc) => 0 <= cc /\ (0 < cc -> (mu s < m0)%nat /\
      exists cs, cs <> [] /\ summands cs /\ building text type_subexpr cs T)
  | None => ps s = save
  end.

Lemma subexpr_loop_ok m0 k n save T s w cc cs x :
  (forall s', pinv s' -> (mu s' <= m0)%nat -> parses type_term x s') ->
  pinv s -> save_ok save -> enough n s -> (mu s < k)%nat -> (mu s <= m0)%nat ->
  0 <= cc -> (w = true -> 0 < cc) -> (0 < cc -> (mu s < m0)%nat /\ cs <> []) ->
  building text type_subexpr cs T -> summands cs ->
  wp (subexpr_loop text k n save x T w cc) s (subexpr_post save m0).
Proof.
  intros Hx. revert T s w cc cs. induction k as [|k IH]; intros T s w cc cs Hs Hsv Hn Hk Hm Hc Hw Hp HT Hcs; [lia|].
  cbn [subexpr_loop]. cbv zeta. set (next := subexpr_next text n save _).
  assert (Hnext : forall T1 w1 s1 cs1, pinv s1 -> (mu s1 <= mu s)%nat -> (mu s1 < m0)%nat ->
    cs1 <> [] -> summands cs1 -> building text type_subexpr cs1 T1 ->
    wp (next T1 w1 cc) s1 (subexpr_post save m0)).
  { intros T1 w1 s1 cs1 Hs1 Hle1 Hlt1 Hne1 Hcs1 HT1. unfold next, subexpr_next. pstep; cbn [negb].
    - pstep. eapply (IH _ _ _ _ cs1); auto with lia; fuel.
    - apply wp_ret. split_and!; [done|lia|]. eauto. }
  clearbody next. apply wp_bind. eapply wp_mono; [by apply parse_nat_const_ok|].
  intros [N|] s1 [Hs1 H1]; cbv beta iota.
  - destruct H1 as [H1 HN]. destruct (summands_snoc cs type_nat_const); [done|by left|].
    eapply Hnext; try done; try lia. by apply building_add.
  - assert (Hmu : mu s1 = mu s) by (by apply mu_ps). destruct w.
    + destruct Hp as [? ?]; [by apply Hw|]. eapply Hnext; try done; lia.
    + apply wp_bind. eapply wp_mono; [apply Hx; [done|lia]|].
      intros [N|] s2 [Hs2 H2]; cbv beta iota.
      * destruct H2 as [H2 HN]. destruct (summands_snoc cs type_term); [done|by right|].
        eapply Hnext; try done; try lia. by apply building_add.
      * assert (Hmu2 : mu s2 = mu s1) by (by apply mu_ps).
        apply wp_ret. split_and!; [done|done|]. intros Hcc. destruct (Hp Hcc).
        split; [lia|]. by exists cs.
Qed.

Lemma parse_subexpr_body_ok n x s :
  (forall s', pinv s' -> (mu s' <= mu s)%nat -> parses type_term x s') ->
  pinv s -> enough n s -> parses type_subexpr (parse_subexpr_body text n x) s.
Proof.
  intros Hx Hs Hn. unfold parses, parse_subexpr_body. pstep.
  apply wp_bind. eapply wp_mono.
  { eapply (subexpr_loop_ok (mu s) n n _ _ s false 0 []); try done; [by apply enough_loop|by constructor]. }
  intros [[T1 cc]|] s1 [Hs1 H1]; cbv beta iota; [|p_none].
  destruct H1 as [Hcc H1]. destruct (cc =? 0) eqn:E; zbool; [by pstep|].
  destruct H1 as [Hlt (cs & Hne & Hcs & HT)]; [lia|]. p_ok. by split.
Qed.

Lemma expr_loop_ok m0 k save T s cc j x :
  (forall s', pinv s' -> (mu s' <= m0)%nat -> parses type_subexpr x s') ->
  pinv s -> save_ok save -> (mu s < k)%nat -> (mu s <= m0)%nat ->
  cc = Z.of_nat j -> ((0 < j)%nat -> (mu s < m0)%nat) ->
  building text type_expr (many type_subexpr j) T ->
  wp (expr_loop text k save T cc x) s (fun r s' => pinv s' /\
    match r with
    | Some T' => (mu s' < m0)%nat /\ tree_of text type_expr T'
    | None => ps s' = save
    end).
Proof.
  intros Hx. revert T s cc j. induction k as [|k IH]; intros T s cc j Hs Hsv Hk Hm Hcc Hj HT; [lia|].
  cbn [expr_loop]. apply wp_bind. eapply wp_mono; [by apply Hx|].
  intros [N|] s1 [Hs1 H1]; cbv beta iota.
  - destruct H1 as [H1 HN]. apply (IH _ _ _ (S j)); try done; try lia.
    rewrite <- many_snoc. by apply building_add.
  - assert (mu s1 = mu s) by (by apply mu_ps). destruct (cc <? 1) eqn:E; zbool; [by pstep|].
    apply wp_ret. split_and!; [done|lia|]. eapply building_done; [done|].
    exists j. split; [lia|done].
Qed.

Lemma parse_expr_ok n s : pinv s -> enough (pred n) s -> parses type_expr (parse_expr text n) s.
Proof.
  revert s. induction n as [|n IH]; intros s Hs Hn; [unfold enough in Hn; cbn in Hn; lia|].
  cbn [pred] in Hn. cbn [parse_expr]. unfold parses. pstep.
  apply (expr_loop_ok (mu s) n _ _ s 0 0); try done; try lia; [|by apply enough_loop].
  intros s1 Hs1 Hle1. apply parse_subexpr_body_ok; [|done|fuel].
  intros s2 Hs2 Hle2. apply parse_term_body_ok; [|done|fuel].
  intros s3 Hs3 Hle3. apply IH; [done|]. unfold enough in *. lia.
Qed.

Lemma parse_term_ok n s : pinv s -> enough n s -> parses type_term (parse_term text n) s.
Proof.
  intros Hs Hn. apply parse_term_body_ok; [|done..]. intros s' Hs' Hlt.
  apply parse_expr_ok; [done|]. unfold enough in *. lia.
Qed.

Lemma parse_subexpr_ok n s : pinv s -> enough n s -> parses type_subexpr (parse_subexpr text n) s.
Proof.
  intros Hs Hn. apply parse_subexpr_body_ok; [|done..]. intros s' Hs' Hle.
  apply parse_term_ok; [done|fuel].
Qed.

#[local] Hint Resolve parse_term_ok parse_subexpr_ok : parses.

#[local] Hint Resolve parse_expr_ok : parses.

(** Run a loop, naming the tree it leaves. *)
Ltac p_loop lem :=
  apply wp_bind; eapply wp_mono;
  [ eapply lem; [intros; sub|assumption|assumption|..]; try eassumption; try fuel; try (apply enough_loop; fuel)
  | let T := fresh "T" in let s := fresh "s" in let Hs := fresh "Hs" in let K := fresh "K" in
    intros [T|] s [Hs K]; cbv beta iota;
    [let j := fresh "j" in let Hle := fresh "Hle" in let HT := fresh "HT" in destruct K as [Hle [j HT]]|p_none] ].

Lemma parse_nat_term_ok n s : pinv s -> enough n s -> parses type_nat_term (parse_nat_term text n) s.
Proof. intros Hs Hn. unfold parses, parse_nat_term. do 2 pstep. by p_ok. Qed.

Lemma parse_type_term_ok n s : pinv s -> enough n s -> parses type_type_term (parse_type_term text n) s.
Proof. intros Hs Hn. unfold parses, parse_type_term. do 2 pstep. by p_ok. Qed.

#[local] Hint Resolve parse_nat_term_ok parse_type_term_ok : parses.

Lemma parse_multiplicity_ok n s :
  pinv s -> enough n s -> parses type_multiplicity (parse_multiplicity text n) s.
Proof. intros Hs Hn. unfold parses, parse_multiplicity. do 2 pstep. by p_ok. Qed.

Lemma parse_final_word_ok ty w n s :
  is_leaf ty = false -> shape ty [type_boxed_type_ident] ->
  pinv s -> enough n s -> parses ty (parse_final_word text ty w n) s.
Proof.
  intros Hl Hsh Hs Hn. unfold parses, parse_final_word.
  apply wp_bind, wp_INIT; [done..|]. intros T ? ?. cbv beta iota. do 2 pstep. by p_ok.
Qed.

Lemma parse_partial_comb_app_decl_ok n s :
  pinv s -> enough n s -> parses type_partial_comb_app_decl (parse_partial_comb_app_decl text n) s.
Proof.
  intros Hs Hn. unfold parses, parse_partial_comb_app_decl. do 2 pstep.
  p_loop (until_loop_ok type_subexpr). p_ok. exists (S j). split; [lia|done].
Qed.

Lemma parse_partial_type_app_decl_ok n s :
  pinv s -> enough n s -> parses type_partial_type_app_decl (parse_partial_type_app_decl text n) s.
Proof.
  intros Hs Hn. unfold parses, parse_partial_type_app_decl. do 3 pstep.
  - pstep. p_loop comma_loop_ok. pstep. p_ok. exists (S j). split; [lia|by left].
  - p_loop (until_loop_ok type_subexpr). p_ok. exists (S j). split; [lia|by right].
Qed.

Lemma parse_optional_arg_def_ok n s :
  pinv s -> enough n s -> parses type_optional_arg_def (parse_optional_arg_def text n) s.
Proof. intros Hs Hn. unfold parses, parse_optional_arg_def. do 5 pstep. by p_ok. Qed.

#[local] Hint Resolve parse_multiplicity_ok parse_partial_comb_app_decl_ok
  parse_partial_type_app_decl_ok parse_optional_arg_def_ok : parses.

(** ** Arguments *)

Definition opt_child (b : bool) (t : tree_type) : list tree_type := if b then [t] else [].

Lemma try_optional_arg_def_ok n T s ty cs (Q : ptree -> lstate -> Prop) :
  pinv s -> enough n s -> building text ty cs T ->
  (forall (b : bool) T' s', pinv s' -> (mu s' <= mu s)%nat ->
     building text ty (cs ++ opt_child b type_optional_arg_def) T' -> Q T' s') ->
  wp (try_optional_arg_def text n T) s Q.
Proof.
  intros Hs Hn HT HQ. apply wp_bind, wp_get. apply wp_bind.
  eapply wp_mono; [by apply parse_optional_arg_def_ok|].
  intros [N|] s1 [Hs1 K1]; cbv beta iota.
  - destruct K1 as [K1 HN]. apply wp_ret, (HQ true); [done|lia|]. by apply building_add.
  - apply wp_bind, wp_load; [by apply pinv_save|]. intros s2 Hs2 E2. apply wp_ret, (HQ false).
    + done.
    + by rewrite (mu_ps s s2).
    + by rewrite app_nil_r.
Qed.

Lemma try_exclam_ok n save T s ty cs (Q : option ptree -> lstate -> Prop) :
  pinv s -> enough n s -> save_ok save -> building text ty cs T ->
  (forall (b : bool) T' s', pinv s' -> (mu s' <= mu s)%nat ->
     building text ty (cs ++ opt_child b type_exclam) T' -> Q (Some T') s') ->
  (forall s', pinv s' -> ps s' = save -> Q None s') ->
  wp (try_exclam text n save T) s Q.
Proof.
  intros Hs Hn Hsv HT HQ HF. unfold try_exclam. pstep.
  - apply wp_EXPECT; [done..| |done]. intros s' Hs' Hlt. apply (HQ true); [done|lia|].
    by apply building_ADD.
  - apply wp_ret, (HQ false); [done|lia|]. by rewrite app_nil_r.
Qed.

(** The tail of an argument: condition, mark, type. *)
Ltac p_arg_tail :=
  apply wp_bind; eapply try_optional_arg_def_ok; [assumption|fuel|eassumption|];
  let o := fresh "o" in intros o ? ? ? ? ?; cbv beta iota;
  apply wp_bind; eapply try_exclam_ok; [assumption|fuel|assumption|eassumption| |p_none];
  let e := fresh "e" in intros e ? ? ? ? ?; cbv beta iota; pstep.

Lemma parse_args4_ok n s : pinv s -> enough n s -> parses type_args4 (parse_args4 text n) s.
Proof.
  intros Hs Hn. unfold parses, parse_args4. pstep. p_arg_tail. p_ok.
  exists o, e. by rewrite <- app_assoc.
Qed.

Lemma parse_args3_ok n s : pinv s -> enough n s -> parses type_args3 (parse_args3 text n) s.
Proof.
  intros Hs Hn. unfold parses, parse_args3. do 3 pstep. p_arg_tail. p_ok.
  eexists. split; [by exists o, e|]. by rewrite <- !app_assoc.
Qed.

Lemma parse_args1_ok n s : pinv s -> enough n s -> parses type_args1 (parse_args1 text n) s.
Proof.
  intros Hs Hn. unfold parses, parse_args1. do 2 pstep.
  p_loop (until_loop_ok type_var_ident_opt). pstep. p_arg_tail. pstep. p_ok.
  exists (S j). eexists. split_and!; [lia|by exists o, e|]. by rewrite <- !app_assoc.
Qed.

(** [args2_name] and [args2_multiplicity]: try [x], keep its tree if the
    character follows, otherwise go back. *)
Lemma args2_part_ok x ty' c w n save back T s ty cs (Q : option ptree -> lstate -> Prop) :
  parses ty' x s -> pinv s -> enough n s -> save_ok save -> back = ps s -> building text ty cs T ->
  (forall (b : bool) T' s', pinv s' -> (mu s' <= mu s)%nat ->
     building text ty (cs ++ opt_child b ty') T' -> Q (Some T') s') ->
  (forall s', pinv s' -> ps s' = save -> Q None s') ->
  wp (let* N := x in
      let* b := at_char text c in
      match N, b with
      | Some N, true => EXPECT text n save w (tree_add_child T N)
      | _, _ => load text back ;; ret (Some T)
      end) s Q.
Proof.
  intros Hx Hs Hn Hsv -> HT HQ HF.
  assert (Hback : forall s1, wp (load text (ps s) ;; ret (Some T)) s1 Q).
  { intros s1. apply wp_bind, wp_load; [by apply pinv_save|]. intros s2 Hs2 E2.
    apply wp_ret, (HQ false); [done|by rewrite (mu_ps s s2)|by rewrite app_nil_r]. }
  apply wp_bind. eapply wp_mono; [exact Hx|]. intros [N|] s1 [Hs1 K1]; cbv beta iota; pstep;
    try apply Hback.
  destruct K1 as [K1 HN]. apply wp_EXPECT; [done|done|fuel| |done].
  intros s2 Hs2 Hlt. apply (HQ true); [done|lia|]. by apply building_add.
Qed.

Lemma parse_args2_body_ok n x s :
  (forall s', pinv s' -> (mu s' < mu s)%nat -> parses type_args x s') ->
  pinv s -> enough n s -> parses type_args2 (parse_args2_body text n x) s.
Proof.
  intros Hx Hs Hn. unfold parses, parse_args2_body. pstep.
  apply wp_bind. eapply args2_part_ok; [sub|done|done|done|done|done| |p_none].
  intros v T1 s1 Hs1 Hle1 HT1. cbv beta iota. apply wp_bind.
  eapply try_optional_arg_def_ok; [done|fuel|done|]. intros o T2 s2 Hs2 Hle2 HT2.
  apply wp_bind, wp_bind, wp_get. cbv zeta.
  eapply args2_part_ok; [sub|done|fuel|done|done|done| |p_none].
  intros m T3 s3 Hs3 Hle3 HT3. cbv beta iota. pstep.
  apply wp_bind. eapply wp_mono.
  { eapply (while_not_loop_ok type_args); [|done|done|apply enough_loop; fuel|done].
    intros sx Hsx Hmx. apply Hx; [done|lia]. }
  intros [T4|] s4 [Hs4 K4]; cbv beta iota; [destruct K4 as [Hle4 [j HT4]]|p_none].
  pstep. p_ok. exists v, o, m, j. unfold opt_child. by rewrite <- !app_assoc.
Qed.

#[local] Hint Resolve parse_args1_ok parse_args3_ok parse_args4_ok : parses.

Lemma parse_args_ok n s : pinv s -> enough (pred n) s -> parses type_args (parse_args text n) s.
Proof.
  revert s. induction n as [|n IH]; intros s Hs Hn; [unfold enough in Hn; cbn in Hn; lia|].
  cbn [pred] in Hn. cbn [parse_args]. unfold parses.
  assert (H2 : forall s1, pinv s1 -> mu s1 = mu s ->
    parses type_args2 (parse_args2_body text n (parse_args text n)) s1).
  { intros s1 Hs1 E1. apply parse_args2_body_ok; [|done|fuel].
    intros s2 Hs2 Hlt. apply IH; [done|fuel]. }
  do 2 pstep; [by p_ok; left|].
  eapply wp_TRY_OPT; [by apply H2|eassumption|intros ? ? ? ? ?; p_ok; by right; left|].
  intros ? ? Hps'. pose proof (mu_ps _ _ Hps').
  pstep; [by p_ok; right; right; left|]. pstep; [by p_ok; right; right; right|]. pstep.
Qed.

#[local] Hint Resolve parse_args_ok : parses.

Lemma parse_opt_args_ok n s : pinv s -> enough n s -> parses type_opt_args (parse_opt_args text n) s.
Proof.
  intros Hs Hn. unfold parses, parse_opt_args. pstep.
  p_loop (until_loop_ok type_var_ident). do 2 pstep. p_ok. exists (S j). split; [lia|done].
Qed.

#[local] Hint Resolve parse_opt_args_ok : parses.

(** ** Declarations *)

Lemma parse_final_decl_ok n s : pinv s -> enough n s -> parses type_final_decl (parse_final_decl text n) s.
Proof.
  intros Hs Hn. unfold parses, parse_final_decl. pstep.
  eapply wp_TRY_OPT; [by apply parse_final_word_ok|eassumption|by intros; p_ok; left|].
  intros s1 Hs1 E1. pose proof (mu_ps _ _ E1).
  eapply wp_TRY_OPT; [apply parse_final_word_ok; done || fuel|eassumption|by intros; p_ok; right; left|].
  intros s2 Hs2 E2. pose proof (mu_ps _ _ E2).
  eapply wp_TRY_OPT; [apply parse_final_word_ok; done || fuel|eassumption|by intros; p_ok; right; right|].
  intros s3 Hs3 E3. pstep.
Qed.

Lemma parse_partial_app_decl_ok n s :
  pinv s -> enough n s -> parses type_partial_app_decl (parse_partial_app_decl text n) s.
Proof.
  intros Hs Hn. unfold parses, parse_partial_app_decl. pstep.
  pstep; [by p_ok; left|]. pstep; [by p_ok; right|]. pstep.
Qed.

Lemma parse_result_type_ok n s :
  pinv s -> enough n s -> parses type_result_type (parse_result_type text n) s.
Proof.
  intros Hs Hn. unfold parses, parse_result_type. do 3 pstep.
  - pstep. p_loop comma_loop_ok. pstep. p_ok. exists (S j). left. split; [lia|done].
  - p_loop (while_not_loop_ok type_subexpr). p_ok. exists j. by right.
Qed.

Lemma opt_args_loop_ok k n save T s ty cs :
  pinv s -> save_ok save -> enough n s -> (mu s < k)%nat -> building text ty cs T ->
  wp (opt_args_loop text k n save T) s (loop_post save s ty (fun j => cs ++ many type_opt_args j)).
Proof.
  revert T s cs. induction k as [|k IH]; intros T s cs Hs Hsv Hn Hk HT; [lia|].
  cbn [opt_args_loop]. pstep.
  - apply wp_bind, wp_lex_step; [done|done|by eapply LEX_CHAR_token|]. intros s1 Hs1 Hlt1.
    do 2 pstep. eapply loop_weaken; [eapply IH|..]; [done|done|fuel|lia|done|lia|].
    intros j. exists (S j). by rewrite <- app_assoc.
  - apply wp_ret. split_and!; [done|done|]. exists 0%nat. by rewrite app_nil_r.
Qed.

#[local] Hint Resolve parse_final_decl_ok parse_partial_app_decl_ok parse_result_type_ok : parses.

Lemma parse_combinator_decl_ok n s :
  pinv s -> enough n s -> parses type_combinator_decl (parse_combinator_decl text n) s.
Proof.
  intros Hs Hn. unfold parses, parse_combinator_decl. do 2 pstep.
  apply wp_bind. eapply wp_mono; [eapply opt_args_loop_ok; try done; [fuel|apply enough_loop; fuel]|].
  intros [T1|] s1 [Hs1 K1]; cbv beta iota; [destruct K1 as [Hle1 [i HT1]]|p_none].
  p_loop (while_not_loop_ok type_args). pstep.
  apply wp_bind. eapply wp_TRY_PES; [sub|done|by apply building_ADD| |p_none].
  intros T2 s2 Hs2 Hlt2 HT2. cbv beta iota. p_ok. exists i, j. by rewrite <- !app_assoc.
Qed.

Lemma parse_builtin_combinator_decl_ok n s :
  pinv s -> enough n s ->
  parses type_builtin_combinator_decl (parse_builtin_combinator_decl text n) s.
Proof. intros Hs Hn. unfold parses, parse_builtin_combinator_decl. do 5 pstep. by p_ok. Qed.

#[local] Hint Resolve parse_combinator_decl_ok parse_builtin_combinator_decl_ok : parses.

Lemma parse_declaration_ok n s :
  pinv s -> enough n s -> parses type_declaration (parse_declaration text n) s.
Proof.
  intros Hs Hn. unfold parses, parse_declaration. pstep.
  pstep; [by p_ok; left|]. pstep; [by p_ok; right; left|].
  pstep; [by p_ok; right; right; left|]. pstep; [by p_ok; right; right; right|]. pstep.
Qed.

#[local] Hint Resolve parse_declaration_ok : parses.

(** ** The program *)

Lemma alternate_snoc b k : alternate b k ++ [section (xorb b (Nat.odd k))] = alternate b (S k).
Proof.
  revert b. induction k as [|k IH]; intros b; [by destruct b|].
  change (section b :: (alternate (negb b) k ++ [section (xorb b (Nat.odd (S k)))]) =
    section b :: alternate (negb b) (S k)).
  rewrite <- (IH (negb b)). do 4 f_equal.
  rewrite Nat.odd_succ, <- Nat.negb_odd. by destruct b, (Nat.odd k).
Qed.

(** At the end of a section the lexeme is the end of the text or [---]. *)
Definition at_end (s : lstate) : Prop :=
  lex_ty (lex (ps s)) = lex_eof \/ lex_ty (lex (ps s)) = lex_triple_minus.

Definition sections_post (ty : tree_type) (save : parse) (m0 : nat)
  (r : option ptree) (s' : lstate) : Prop :=
  pinv s' /\
  match r with
  | Some T => (mu s' <= m0)%nat /\ at_end s' /\ tree_of text ty T
  | None => ps s' = save
  end.

Lemma wp_at_section_end s (Q : bool -> lstate -> Prop) :
  (at_end s -> Q true s) -> Q false s -> wp at_section_end s Q.
Proof.
  intros H1 H2. apply wp_bind. do 2 eexists. split; [done|]. apply wp_ret.
  destruct (bool_decide _ || bool_decide _) eqn:E; [|done]. apply H1.
  apply orb_true_iff in E as [E|E]; apply bool_decide_eq_true_1 in E; [by left|by right].
Qed.

Lemma declarations_loop_ok m0 k n save T s ty j :
  ty = type_constr_declarations \/ ty = type_fun_declarations ->
  pinv s -> save_ok save -> enough n s -> (mu s < k)%nat -> (mu s <= m0)%nat ->
  building text ty (many type_declaration j) T ->
  wp (declarations_loop text k n save T) s (sections_post ty save m0).
Proof.
  intros Hty. revert T s j.
  induction k as [|k IH]; intros T s j Hs Hsv Hn Hk Hm HT; [lia|].
  cbn [declarations_loop]. do 2 pstep. rewrite many_snoc in *.
  apply wp_bind, wp_at_section_end; cbv beta iota.
  - intros He. apply wp_ret. split_and!; [done|lia|done|]. eapply building_done; [done|].
    destruct Hty as [->| ->]; by eexists.
  - eapply IH; [done|done|fuel|lia|lia|done].
Qed.

Lemma parse_declarations_ok n s ty :
  ty = type_constr_declarations \/ ty = type_fun_declarations ->
  pinv s -> enough n s -> wp (parse_declarations text ty n) s (sections_post ty (ps s) (mu s)).
Proof.
  intros Hty Hs Hn. unfold parse_declarations.
  assert (is_leaf ty = false) by by destruct Hty as [->| ->].
  apply wp_bind, wp_INIT; [done..|]. intros T Hsv HT. cbv beta iota.
  apply wp_bind, wp_at_section_end; cbv beta iota.
  - intros He. apply wp_ret. split_and!; [done|done|done|]. eapply building_done; [done|].
    destruct Hty as [->| ->]; by exists 0%nat.
  - eapply (declarations_loop_ok _ _ _ _ _ _ _ 0); try done. by apply enough_loop.
Qed.

(** The outcome of the program loop: the lexeme is the end of the text. *)
Definition program_post (r : option ptree) (s' : lstate) : Prop :=
  pinv s' /\
  match r with
  | Some T => lex_ty (lex (ps s')) = lex_eof /\ tree_of text type_tl_program T
  | None => True
  end.

Lemma wp_cur_type s (Q : lex_type -> lstate -> Prop) : Q (lex_ty (lex (ps s))) s -> wp cur_type s Q.
Proof. intros H. by do 2 eexists. Qed.

(** One section: its declarations, then the end of the text or the header of
    the next section and the continuation [k]. *)
Lemma section_ok n save T s b j w (k : ptree -> M lstate (option ptree)) :
  pinv s -> save_ok save -> enough n s -> xorb true (Nat.odd j) = b ->
  building text type_tl_program (alternate true j) T ->
  (forall T' s', pinv s' -> (mu s' < mu s)%nat ->
     building text type_tl_program (alternate true (S j)) T' -> wp (k T') s' program_post) ->
  wp (let? T := PARSE_TRY_PES text save (parse_declarations text (section b) n) T in
      let* ty := cur_type in
      if bool_decide (ty = lex_eof) then PARSE_OK T
      else let? T := section_header text n save w T in k T) s program_post.
Proof.
  intros Hs Hsv Hn Hb HT Hk.
  apply wp_bind, wp_bind. eapply wp_mono; [apply parse_declarations_ok; [by destruct b; auto|done..]|].
  intros [N|] s1 [Hs1 K1]; cbv beta iota.
  2: { apply wp_FAIL; [done|]. intros. by apply wp_ret. }
  destruct K1 as (Hle & He & HN). apply wp_ret. cbv beta iota.
  pose proof (building_add _ _ _ _ _ _ HT HN) as HT1. rewrite <- Hb, alternate_snoc in HT1.
  apply wp_bind, wp_cur_type. case_bool_decide as E.
  - apply wp_ret. split_and!; [done|done|]. eapply building_done; [done|].
    exists (S j). split; [lia|done].
  - unfold section_header. apply wp_bind, wp_bind, wp_cur_type.
    rewrite bool_decide_eq_false_2 by (destruct He; congruence).
    apply wp_bind, wp_EXPECT; [done|done|fuel| |by intros; repeat apply wp_ret].
    intros s2 Hs2 Hlt2. cbv beta iota.
    apply wp_bind, wp_EXPECT; [done|done|fuel| |by intros; repeat apply wp_ret].
    intros s3 Hs3 Hlt3. cbv beta iota.
    apply wp_EXPECT; [done|done|fuel| |by intros; repeat apply wp_ret].
    intros s4 Hs4 Hlt4. cbv beta iota. apply Hk; [done|lia|done].
Qed.

Lemma program_loop_ok k n save T s j :
  pinv s -> save_ok save -> enough n s -> (mu s < k)%nat -> Nat.odd j = false ->
  building text type_tl_program (alternate true j) T ->
  wp (program_loop text k n save T) s program_post.
Proof.
  revert T s j. induction k as [|k IH]; intros T s j Hs Hsv Hn Hk Hj HT; [lia|].
  cbn [program_loop]. apply (section_ok n save T s true j); [done|done|done|by rewrite Hj|done|].
  intros T1 s1 Hs1 Hlt1 HT1.
  apply (section_ok n save T1 s1 false (S j)); [done|done|fuel| |done|].
  { by rewrite Nat.odd_succ, <- Nat.negb_odd, Hj. }
  intros T2 s2 Hs2 Hlt2 HT2. apply (IH _ _ (S (S j))); [done|done|fuel|lia|done|done].
Qed.

Lemma parse_program_ok n s : pinv s -> enough n s -> wp (parse_program text n) s program_post.
Proof.
  intros Hs Hn. unfold parse_program. pstep.
  apply (program_loop_ok _ _ _ _ _ 0); try done. by apply enough_loop.
Qed.

(** The whole front end, from the initial state. *)
Lemma parse_text_ok n :
  (2 * List.length text + 4 <= n)%nat ->
  wp (tl_parse_lex text n init_parse) init_state (fun r s => pinv s /\
    match r with
    | Some T => lex_ty (lex (ps s)) = lex_eof /\ tree_of text type_tl_program T
    | None => True
    end).
Proof.
  intros Hn. pose proof (len_pos text Hlast) as Hlen. unfold Lexer.len in Hlen.
  unfold tl_parse_lex. apply wp_bind. unfold wp, load, load_parse, text_read, Lexer.len. cbn [pos init_parse].
  replace (0 >? Z.of_nat (List.length text)) with false by lia.
  replace ((0 <=? 0) && (0 <? Z.of_nat (List.length text))) with true by lia.
  cbn [rbind]. do 2 eexists. split; [done|].
  apply wp_bind, wp_cur_type. cbn [ps lex lex_ty init_parse]. cbn [bool_decide decide].
  set (s0 := mk_lstate _ _ _ _ _ _).
  assert (H0 : lex_inv text s0) by (constructor; cbn; [unfold Lexer.len; lia|by left]).
  destruct (parse_lex_good text Hlast n s0 H0) as (s1 & E1 & H1 & Hle & Hl1).
  { cbn. unfold Lexer.len. lia. }
  apply wp_bind. exists tt, s1. split; [rewrite bool_decide_eq_true_2 by done; unfold lex_step; rewrite E1; done|].
  apply wp_bind, wp_cur_type. case_bool_decide; [by apply wp_ret|].
  eapply wp_mono; [apply parse_program_ok; [by split|]|].
  - unfold enough, mu, Lexer.len. destruct H1. case_goal; lia.
  - intros r s [? K]. by destruct r.
Qed.
End Total.

(** ** Properties *)

(** C2. The front end is total on files that end with a newline: with fuel
    linear in the length of the text, reading and parsing it neither loops nor
    faults, and a non-null result is a tree of the grammar whose leaves are
    lexemes inside the text. The parser has then stopped at the last character,
    the newline that ends the text, or at a zero byte before it: the lexer
    takes a zero byte for the end of the text, so what follows one is never
    looked at. *)
Theorem parse_text_total text n :
  last text = Some 10 -> (2 * List.length text + 4 <= n)%nat ->
  exists r s, parse_text text n = Ret (r, s) /\
    match r with
    | Some T => lex_ty (lex (ps s)) = lex_eof /\ t_type T = type_tl_program /\ wf_tree text T /\
        (pos (ps s) = len text - 1 \/ 0 <= pos (ps s) < len text - 1 /\ text_at text (pos (ps s)) = 0)
    | None => True
    end.
Proof.
  intros Hlast Hn. destruct (parse_text_ok text Hlast n Hn) as (r & s & E & [Hs Hl] & H).
  exists r, s. split; [done|]. destruct r as [T|]; [|done]. destruct H as [He []]. split_and!; try done.
  unfold lexed in Hl. rewrite He in Hl. destruct Hl as (_ & _ & [?|Hz]); [by left|right].
  split; [|done]. destruct Hs as [Hp _]. pose proof (not_last text Hlast (pos (ps s)) Hp) as Hn'.
  rewrite Hz in Hn'. lia.
Qed.

Lemma parse_text_total_witness :
  let text := str "null = Null;" ++ [10] ++ str "---functions---" ++ [10] ++
              str "get {t:Type} id:int !t = Null;" ++ [10] in
  (exists r s, parse_text text 200 = Ret (r, s) /\
    match r with
    | Some T => lex_ty (lex (ps s)) = lex_eof /\ t_type T = type_tl_program /\ wf_tree text T /\
        (pos (ps s) = len text - 1 \/ 0 <= pos (ps s) < len text - 1 /\ text_at text (pos (ps s)) = 0)
    | None => True
    end) /\
  (exists T s, parse_text text 200 = Ret (Some T, s)).
Proof.
  intros text. split.
  - apply parse_text_total; [reflexivity|vm_compute; lia].
  - vm_compute. do 2 eexists. reflexivity.
Defined.

(** The text after a zero byte is not read: unbalanced parentheses behind it
    are accepted. *)
Example parse_text_zero_byte :
  let text := str "a = A;" ++ [10; 0] ++ str "(((" ++ [10] in
  match parse_text text 200 with
  | Ret (Some T, s) => pos (ps s) = 7 /\ len text = 12
  | _ => False
  end.
Proof. by vm_compute. Qed.

(** Where the front end fails before the first character, nothing records it. *)
Definition begins_no_lexeme (c : Z) : Prop :=
  32 < c /\ c <> chr "/" /\ c <> chr "-" /\ ~ (c ∈ punctuation) /\ is_ident_char c = false.

(** A file whose first character begins no lexeme is rejected without a
    message: the error at offset 0 is not after the initial [last_error_pos],
    so [last_error] is still null when [tl_print_parse_error] passes it to
    [%s]. *)
Theorem parse_text_first_error c rest n :
  begins_no_lexeme c -> exists s, parse_text (c :: rest) (S (S n)) = Ret (None, s) /\
    tl_print_parse_error s = (1, 1, None).
Proof.
  intros (Hc & Hs & Hm & Hp & Hi). unfold is_ident_char, is_letter in Hi.
  apply orb_false_iff in Hi as [Hi _]. apply orb_false_iff in Hi as [Hd Hi].
  apply orb_false_iff in Hi as [Hu Hl].
  set (text := c :: rest). assert (0 < Lexer.len text) as Hlen by (unfold Lexer.len; cbn; lia).
  assert (load text init_parse init_state = Ret (tt, mk_lstate init_parse c 0 0 0 None)) as E.
  { unfold load, load_parse, text_read. cbn [pos init_parse].
    replace (0 >? Lexer.len text) with false by lia. by replace (0 <? Lexer.len text) with true by lia. }
  assert (lex_step text (S (S n)) (mk_lstate init_parse c 0 0 0 None) =
    Ret (tt, lex_fail "Unknown lexem" 0 (mk_lstate init_parse c 0 0 0 None))) as E2.
  { unfold lex_step. rewrite parse_lex_switch by done. unfold lex_switch. cbn [curch].
    replace (c =? chr "-") with false by lia. by rewrite bool_decide_eq_false_2, Hu, Hl, Hd by done. }
  eexists. unfold parse_text, tl_parse_lex, bind. rewrite E. cbn -[bool_decide lex_step lex_fail].
  rewrite bool_decide_eq_true_2 by done. rewrite E2. cbn. split; [reflexivity|done].
Qed.

Lemma parse_text_first_error_witness :
  exists s, parse_text (str "$a = A;") 2 = Ret (None, s) /\ tl_print_parse_error s = (1, 1, None).
Proof.
  apply (parse_text_first_error (chr "$") (str "a = A;") 0).
  split_and!; try by vm_compute. refine (bool_decide_eq_false_1 _ _). done.
Defined.
