(* ===== verification/Symbols.v ===== *)
(** * The compiler's state and its symbol tables (tl-parser.c, lines 944 to 1298)

    The second phase works on four kinds of heap objects, which point to each
    other: the nodes of combinator trees, types, constructors (and functions)
    and variables.  Each kind is a finite map from addresses to records; a
    pointer is a [ptr], so that the sentinels [(void * ) -1] and [-2] that the
    code stores and tests are values too.  Strings are copied and never
    written after that, so a [char *] is the characters it points to.

    The tables are the treaps of [Treap]: an element of the trees of types,
    constructors and variables is the identifier it is compared by with the
    address of the object.  The globals ([vars], [fields], the counters, [buf],
    [__ok] and [__tok]) are the fields of [sstate], the output file and the
    lines printed with [-E] among them; the other messages on [stderr] are not
    modelled.

    Parameters: the priorities [lrand48] returns, the address [malloc] gives
    to each node (the unifier compares addresses), what an uninitialised
    [long long] holds, the bytes that follow a string literal, the number of
    [-E] options, and a bound [fuel] on the depth of recursions over the heap. *)
From Stdlib Require Import ZArith Lia List Bool Ascii String.
From stdpp Require Import base list strings gmap.
From S2P Require Import Prelude Treap Lexer Parser.
Open Scope tl_scope.

(** ** Data (tl-parser.h) *)

Inductive combinator_tree_action :=
| act_var | act_field | act_plus | act_type | act_nat_const | act_array | act_question_mark
| act_union | act_arg | act_opt_field.

Inductive combinator_tree_type := type_num | type_num_value | type_type | type_list_item | type_list.

#[export] Instance combinator_tree_action_eq_dec : EqDecision combinator_tree_action.
Proof. solve_decision. Defined.
#[export] Instance combinator_tree_type_eq_dec : EqDecision combinator_tree_type.
Proof. solve_decision. Defined.

Inductive ptr := Null | Neg1 | Neg2 | ToNode (a : positive) | ToType (a : positive) | ToStr (s : list Z).

#[export] Instance ptr_eq_dec : EqDecision ptr.
Proof. solve_decision. Defined.

Definition is_null (p : ptr) : bool := bool_decide (p = Null).

(** [struct tl_combinator_tree], less its field [name], which nothing uses. *)
Record tl_combinator_tree := mk_node {
  c_act : combinator_tree_action;
  c_left : ptr;
  c_right : ptr;
  c_data : ptr;
  c_flags : Z;
  c_type : combinator_tree_type;
  c_type_len : Z;
  c_type_flags : Z
}.

(** [constructors_num] is the length of [ty_constructors]. *)
Record tl_type := mk_type {
  ty_id : list Z;
  ty_print_id : list Z;
  ty_real_id : option (list Z);
  ty_name : Z;
  ty_flags : Z;
  ty_params_num : Z;
  ty_params_types : Z;
  ty_constructors : list positive
}.

Record tl_constructor := mk_constructor {
  k_id : list Z;
  k_print_id : list Z;
  k_real_id : option (list Z);
  k_name : Z;
  k_type : option positive;
  k_left : ptr;
  k_right : ptr
}.

Record tl_var := mk_var { v_id : list Z; v_ptr : ptr; v_type : Z; v_flags : Z }.

(** An element of a tree ordered by [tl_type_cmp]. *)
Definition entry : Type := list Z * positive.
Definition tl_type_cmp (a b : entry) : Z := strcmp (fst a) (fst b).

Record sstate := mk_sstate {
  nodes : gmap positive tl_combinator_tree;
  tys : gmap positive tl_type;
  constructors : gmap positive tl_constructor;
  variables : gmap positive tl_var;
  brk : positive;                       (* the next address *)
  tl_type_tree : tree entry;
  tl_constructor_tree : tree entry;
  tl_function_tree : tree entry;
  total_types_num : Z;
  total_constructors_num : Z;
  total_functions_num : Z;
  namespace_level : Z;
  vars : list (tree entry);             (* [vars[10]], [fields[10]], [last_num_var[10]] *)
  fields : list (tree (list Z));
  last_num_var : list (option positive);
  draws : nat;                          (* calls of [lrand48] so far *)
  buf : list Z;                         (* the first [buf_pos] characters of [buf] *)
  g_ok : bool;                          (* [__ok] *)
  g_tok : bool;                         (* [__tok] *)
  printed : list (list Z);
  file : list Z                         (* the bytes written to [__f] *)
}.

(** The zero-initialised globals. *)
Definition init_sstate : sstate :=
  mk_sstate ∅ ∅ ∅ ∅ 1 Nil Nil Nil 0 0 0 0 (repeat Nil 10) (repeat Nil 10) (repeat None 10)
    0 [] false false [] [].

(** ** Field updates *)

Definition set_nodes x s := let 'mk_sstate _ b c d e f g h i j k l m n o p q r t u v := s in mk_sstate x b c d e f g h i j k l m n o p q r t u v.
Definition set_types x s := let 'mk_sstate a _ c d e f g h i j k l m n o p q r t u v := s in mk_sstate a x c d e f g h i j k l m n o p q r t u v.
Definition set_constructors x s := let 'mk_sstate a b _ d e f g h i j k l m n o p q r t u v := s in mk_sstate a b x d e f g h i j k l m n o p q r t u v.
Definition set_variables x s := let 'mk_sstate a b c _ e f g h i j k l m n o p q r t u v := s in mk_sstate a b c x e f g h i j k l m n o p q r t u v.
Definition set_brk x s := let 'mk_sstate a b c d _ f g h i j k l m n o p q r t u v := s in mk_sstate a b c d x f g h i j k l m n o p q r t u v.
Definition set_type_tree x s := let 'mk_sstate a b c d e _ g h i j k l m n o p q r t u v := s in mk_sstate a b c d e x g h i j k l m n o p q r t u v.
Definition set_constructor_tree x s := let 'mk_sstate a b c d e f _ h i j k l m n o p q r t u v := s in mk_sstate a b c d e f x h i j k l m n o p q r t u v.
Definition set_function_tree x s := let 'mk_sstate a b c d e f g _ i j k l m n o p q r t u v := s in mk_sstate a b c d e f g x i j k l m n o p q r t u v.
Definition set_total_types x s := let 'mk_sstate a b c d e f g h _ j k l m n o p q r t u v := s in mk_sstate a b c d e f g h x j k l m n o p q r t u v.
Definition set_total_constructors x s := let 'mk_sstate a b c d e f g h i _ k l m n o p q r t u v := s in mk_sstate a b c d e f g h i x k l m n o p q r t u v.
Definition set_total_functions x s := let 'mk_sstate a b c d e f g h i j _ l m n o p q r t u v := s in mk_sstate a b c d e f g h i j x l m n o p q r t u v.
Definition set_level x s := let 'mk_sstate a b c d e f g h i j k _ m n o p q r t u v := s in mk_sstate a b c d e f g h i j k x m n o p q r t u v.
Definition set_vars x s := let 'mk_sstate a b c d e f g h i j k l _ n o p q r t u v := s in mk_sstate a b c d e f g h i j k l x n o p q r t u v.
Definition set_fields x s := let 'mk_sstate a b c d e f g h i j k l m _ o p q r t u v := s in mk_sstate a b c d e f g h i j k l m x o p q r t u v.
Definition set_last_num_var x s := let 'mk_sstate a b c d e f g h i j k l m n _ p q r t u v := s in mk_sstate a b c d e f g h i j k l m n x p q r t u v.
Definition set_draws x s := let 'mk_sstate a b c d e f g h i j k l m n o _ q r t u v := s in mk_sstate a b c d e f g h i j k l m n o x q r t u v.
Definition set_buf x s := let 'mk_sstate a b c d e f g h i j k l m n o p _ r t u v := s in mk_sstate a b c d e f g h i j k l m n o p x r t u v.
Definition set_ok x s := let 'mk_sstate a b c d e f g h i j k l m n o p q _ t u v := s in mk_sstate a b c d e f g h i j k l m n o p q x t u v.
Definition set_tok x s := let 'mk_sstate a b c d e f g h i j k l m n o p q r _ u v := s in mk_sstate a b c d e f g h i j k l m n o p q r x u v.
Definition set_printed x s := let 'mk_sstate a b c d e f g h i j k l m n o p q r t _ v := s in mk_sstate a b c d e f g h i j k l m n o p q r t x v.
Definition set_file x s := let 'mk_sstate a b c d e f g h i j k l m n o p q r t u _ := s in mk_sstate a b c d e f g h i j k l m n o p q r t u x.

Definition n_set_act x n := let 'mk_node _ b c d e f g h := n in mk_node x b c d e f g h.
Definition n_set_left x n := let 'mk_node a _ c d e f g h := n in mk_node a x c d e f g h.
Definition n_set_right x n := let 'mk_node a b _ d e f g h := n in mk_node a b x d e f g h.
Definition n_set_data x n := let 'mk_node a b c _ e f g h := n in mk_node a b c x e f g h.
Definition n_set_flags x n := let 'mk_node a b c d _ f g h := n in mk_node a b c d x f g h.
Definition n_set_type x n := let 'mk_node a b c d e _ g h := n in mk_node a b c d e x g h.
Definition n_set_type_len x n := let 'mk_node a b c d e f _ h := n in mk_node a b c d e f x h.
Definition n_set_type_flags x n := let 'mk_node a b c d e f g _ := n in mk_node a b c d e f g x.

Definition ty_set_name x t := let 'mk_type a b c _ e f g h := t in mk_type a b c x e f g h.
Definition ty_set_flags x t := let 'mk_type a b c d _ f g h := t in mk_type a b c d x f g h.
Definition ty_set_params x y t := let 'mk_type a b c d e _ _ h := t in mk_type a b c d e x y h.
Definition ty_set_constructors x t := let 'mk_type a b c d e f g _ := t in mk_type a b c d e f g x.

Definition k_set_real_id x k := let 'mk_constructor a b _ d e f g := k in mk_constructor a b x d e f g.
Definition k_set_name x k := let 'mk_constructor a b c _ e f g := k in mk_constructor a b c x e f g.
Definition k_set_trees x y k := let 'mk_constructor a b c d e _ _ := k in mk_constructor a b c d e x y.

Definition v_set_flags x v := let 'mk_var a b c _ := v in mk_var a b c x.

(** ** The heap *)

Definition C : Type -> Type := M sstate.

Definition load_at {A} (h : sstate -> gmap positive A) (a : positive) : C A :=
  fun s => match h s !! a with Some x => Ret (x, s) | None => Fault BadPointer end.

Definition store_at {A} (h : sstate -> gmap positive A)
  (set : gmap positive A -> sstate -> sstate) (a : positive) (f : A -> A) : C unit :=
  fun s => match h s !! a with
           | Some x => Ret (tt, set (<[a := f x]> (h s)) s)
           | None => Fault BadPointer
           end.

Definition alloc {A} (h : sstate -> gmap positive A)
  (set : gmap positive A -> sstate -> sstate) (x : A) : C positive :=
  fun s => Ret (brk s, set_brk (Pos.succ (brk s)) (set (<[brk s := x]> (h s)) s)).

(** [*p] for a node pointer, and [p->field = ...]. *)
Definition node (p : ptr) : C tl_combinator_tree :=
  match p with ToNode a => load_at nodes a | _ => fail BadPointer end.
Definition set_node (p : ptr) (f : tl_combinator_tree -> tl_combinator_tree) : C unit :=
  match p with ToNode a => store_at nodes set_nodes a f | _ => fail BadPointer end.
Definition new_node (n : tl_combinator_tree) : C ptr :=
  let* a := alloc nodes set_nodes n in ret (ToNode a).

Definition get_type : positive -> C tl_type := load_at tys.
Definition set_type : positive -> (tl_type -> tl_type) -> C unit := store_at tys set_types.
Definition get_constructor : positive -> C tl_constructor := load_at constructors.
Definition set_constructor : positive -> (tl_constructor -> tl_constructor) -> C unit :=
  store_at constructors set_constructors.
Definition get_variable : positive -> C tl_var := load_at variables.
Definition set_variable : positive -> (tl_var -> tl_var) -> C unit := store_at variables set_variables.

(** The object behind a [void *data]. *)
Definition as_type (p : ptr) : C positive :=
  match p with ToType a => ret a | _ => fail BadPointer end.
Definition as_str (p : ptr) : C (list Z) :=
  match p with ToStr x => ret x | _ => fail BadPointer end.

(** A tree operation inside the state. *)
Definition lift {A} (r : result A) : C A := fun s => do? a := r in Ret (a, s).

(** An element of an array of ten. *)
Definition elem {A} (l : list A) (i : Z) : C A :=
  match (if 0 <=? i then l !! Z.to_nat i else None) with
  | Some x => ret x
  | None => fail OutOfBounds
  end.

(** ** Strings *)

(** [strncmp (b, a, len)] with the [len] characters of [b], then [a[len]]:
    past the terminator of [a] that is the byte [beyond a len] of whatever
    follows the literal in memory. *)
Definition mystrcmp2 (beyond : list Z -> nat -> Z) (b a : list Z) : Z :=
  let len := List.length b in
  let c := strcmp b (take len a) in
  let a_len := if (len <=? List.length a)%nat then nth len a 0 else beyond a len in
  if negb (c =? 0) then if negb (a_len =? 0) then -1 else 0 else c.

Definition hash : Z := chr "#".
Definition dollar : Z := chr "$".

(** The loop that makes a [print_id]. *)
Definition print_id (id : list Z) : list Z :=
  map (fun c => if (c =? chr ".") || (c =? hash) || (c =? chr " ") then dollar else c) id.

Fixpoint tl_is_type_name_loop (id : list Z) (ok : bool) : bool :=
  match id with
  | c :: ((d :: _) as id') =>
      tl_is_type_name_loop id' (if c =? chr "." then is_uletter d else ok)
  | _ => ok
  end.

Definition tl_is_type_name (id : list Z) : bool :=
  if bool_decide (id = [hash]) then true
  else tl_is_type_name_loop id (is_uletter (nth 0 id 0)).

(** The characters before the number sign (all of them with [force_magic]),
    and the rest. *)
Fixpoint split_magic (force_magic : bool) (id : list Z) : list Z * list Z :=
  match id with
  | [] => ([], [])
  | c :: id' =>
      if negb (c =? hash) || force_magic
      then let '(x, y) := split_magic force_magic id' in (c :: x, y)
      else ([], id)
  end.

Definition hex_digit (c : Z) : Z := if c <=? chr "9" then c - chr "0" else c - chr "a" + 10.

Definition hex_value (l : list Z) : Z :=
  fold_left (fun magic c => u32 (u32 (Z.shiftl magic 4) + hex_digit c)) l 0.

(** [magic] of [tl_add_constructor] and [tl_add_function]: the digits after the
    number sign, if there is one. *)
Definition explicit_magic (rest : list Z) : C Z :=
  match rest with
  | [] => ret 0
  | _ :: digits =>
      let n := Z.of_nat (List.length rest) in
      assert ((6 <=? n) && (n <=? 9)) ;;
      let magic := hex_value digits in
      assert (negb (magic =? 0) && negb (magic =? u32 (-1))) ;;
      ret magic
  end.

Section Tables.
Context (lrand48 : nat -> Z) (garbage : Z).

Definition draw : C Z := fun s => Ret (lrand48 (draws s), set_draws (S (draws s)) s).

(** ** Fields and variables *)

Definition tl_add_field (id : list Z) : C bool :=
  let* s := get in
  let l := namespace_level s in
  assert (l <? 10) ;;
  assert (l >=? 0) ;;
  let* T := elem (fields s) l in
  match tree_lookup strcmp T id with
  | Some _ => ret false
  | None =>
      let* y := draw in
      let* T := lift (tree_insert strcmp T id y) in
      modify (fun s => set_fields (<[Z.to_nat l := T]> (fields s)) s) ;;
      ret true
  end.

Definition tl_clear_fields : C unit :=
  let* s := get in
  let* T := elem (fields s) (namespace_level s) in
  modify (fun s => set_fields (<[Z.to_nat (namespace_level s) := tree_clear T]> (fields s)) s).

(** The end of [tl_add_var]: enter the variable in [vars[l]], which is [T]. *)
Definition new_var (l : Z) (T : tree entry) (id : list Z) (p : ptr) (type : Z) : C (option positive) :=
  let* v := alloc variables set_variables (mk_var id p type 0) in
  let* y := draw in
  let* T := lift (tree_insert tl_type_cmp T (id, v) y) in
  modify (fun s => set_vars (<[Z.to_nat l := T]> (vars s)) s) ;;
  (if type =? 0 then ret tt
   else modify (fun s => set_last_num_var (<[Z.to_nat l := Some v]> (last_num_var s)) s)) ;;
  ret (Some v).

(** [None] is the null result for a variable that is declared already. *)
Definition tl_add_var (id : list Z) (p : ptr) (type : Z) : C (option positive) :=
  let* s := get in
  let l := namespace_level s in
  let* T := elem (vars s) l in
  match tree_lookup tl_type_cmp T (id, 1%positive) with
  | Some _ => ret None
  | None => new_var l T id p type
  end.

(** [tfree (v)]. *)
Definition tl_del_var (e : entry) : C unit :=
  modify (fun s => set_variables (delete (snd e) (variables s)) s).

Definition tl_clear_vars : C unit :=
  let* s := get in
  let l := namespace_level s in
  let* T := elem (vars s) l in
  tree_act tl_del_var T ;;
  modify (fun s => set_vars (<[Z.to_nat l := tree_clear T]> (vars s)) s) ;;
  modify (fun s => set_last_num_var (<[Z.to_nat l := None]> (last_num_var s)) s).

Definition tl_get_last_num_var : C (option positive) :=
  let* s := get in elem (last_num_var s) (namespace_level s).

(** [for (i = namespace_level; i >= 0; i--)]: [k] is [i + 1]. *)
Fixpoint tl_get_var_loop (k : nat) (id : list Z) (s : sstate) : C (option positive) :=
  match k with
  | O => ret None
  | S i =>
      let* T := elem (vars s) (Z.of_nat i) in
      match tree_lookup tl_type_cmp T (id, 1%positive) with
      | Some w => ret (Some (snd w))
      | None => tl_get_var_loop i id s
      end
  end.

Definition tl_get_var (id : list Z) : C (option positive) :=
  let* s := get in tl_get_var_loop (Z.to_nat (namespace_level s + 1)) id s.

Definition namespace_push : C unit :=
  modify (fun s => set_level (namespace_level s + 1) s) ;;
  let* s := get in
  assert (namespace_level s <? 10) ;;
  tl_clear_vars ;;
  tl_clear_fields.

Definition namespace_pop : C unit :=
  modify (fun s => set_level (namespace_level s - 1) s) ;;
  let* s := get in
  assert (namespace_level s >=? 0).

(** ** Types *)

Definition lookup_entry (T : tree entry) (id : list Z) : option positive :=
  option_map snd (tree_lookup tl_type_cmp T (id, 1%positive)).

Definition tl_get_type (id : list Z) : C (option positive) :=
  let* s := get in ret (lookup_entry (tl_type_tree s) id).

(** [T = tree_insert (T, t, lrand48 ())] for the table [tree_of]. *)
Definition enter (tree_of : sstate -> tree entry) (set_tree : tree entry -> sstate -> sstate)
  (id : list Z) (a : positive) : C unit :=
  let* y := draw in
  let* s := get in
  let* T := lift (tree_insert tl_type_cmp (tree_of s) (id, a) y) in
  modify (set_tree T).

(** [None] is the null result after "Wrong params_num or types". *)
Definition tl_add_type (id : list Z) (params_num params_types : Z) : C (option positive) :=
  let* s := get in
  match lookup_entry (tl_type_tree s) id with
  | Some r =>
      let* t := get_type r in
      if (params_num >=? 0) &&
         (negb (ty_params_num t =? params_num) || negb (ty_params_types t =? params_types))
      then ret None else ret (Some r)
  | None =>
      let* (flags, num, ptypes) :=
        (if params_num >=? 0 then
           assert (params_num <=? 64) ;; ret (0, params_num, params_types)
         else ret (4, -1, garbage)) in
      let* a := alloc tys set_types (mk_type id (print_id id) None 0 flags num ptypes []) in
      enter tl_type_tree set_type_tree id a ;;
      modify (fun s => set_total_types (i32 (total_types_num s + 1)) s) ;;
      ret (Some a)
  end.

Definition tl_add_type_param (a : positive) (x : bool) : C unit :=
  let* t := get_type a in
  assert (negb (Z.land (ty_flags t) 4 =? 0)) ;;
  assert (ty_params_num t <=? 64) ;;
  let n := ty_params_num t in
  if x then
    set_type a (ty_set_params (n + 1) (i64 (Z.lor (ty_params_types t) (u64 (Z.shiftl 1 n)))))
  else set_type a (ty_set_params (n + 1) (ty_params_types t)).

Definition tl_type_set_params (a : positive) (x y : Z) : C bool :=
  let* t := get_type a in
  if negb (Z.land (ty_flags t) 4 =? 0) then
    set_type a (fun t => ty_set_flags (Z.land (ty_flags t) (Z.lnot 4)) (ty_set_params x y t)) ;;
    ret true
  else ret ((ty_params_num t =? x) && (ty_params_types t =? y)).

Definition tl_type_finalize (a : positive) : C unit :=
  set_type a (fun t => ty_set_flags (Z.land (ty_flags t) (Z.lnot 4)) t).

(** ** Constructors and functions *)

Definition tl_get_constructor (id : list Z) : C (option positive) :=
  let* s := get in ret (lookup_entry (tl_constructor_tree s) id).

Definition tl_get_function (id : list Z) : C (option positive) :=
  let* s := get in ret (lookup_entry (tl_function_tree s) id).

Definition FLAG_DEFAULT_CONSTRUCTOR : Z := Z.shiftl 1 25.

Definition starts_underscore (id : list Z) : bool := nth 0 id 0 =? chr "_".

Definition tl_add_constructor (a : positive) (id0 : list Z) (force_magic : bool)
  : C (option positive) :=
  let* t := get_type a in
  if negb (Z.land (ty_flags t) 1 =? 0) then ret None
  else
    let '(id, rest) := split_magic force_magic id0 in
    let* magic := explicit_magic rest in
    let* s := get in
    if negb (starts_underscore id) && bool_decide (is_Some (lookup_entry (tl_constructor_tree s) id))
    then ret None
    else
      (if starts_underscore id then assert (Z.of_nat (List.length id) =? 1) else ret tt) ;;
      let* k := alloc constructors set_constructors
                  (mk_constructor id (print_id id) None magic (Some a) Null Null) in
      set_type a (fun t => ty_set_constructors (ty_constructors t ++ [k]) t) ;;
      (if negb (starts_underscore id) then enter tl_constructor_tree set_constructor_tree id k
       else set_type a (fun t => ty_set_flags (Z.lor (ty_flags t) FLAG_DEFAULT_CONSTRUCTOR) t)) ;;
      modify (fun s => set_total_constructors (i32 (total_constructors_num s + 1)) s) ;;
      ret (Some k).

Definition tl_add_function (a : option positive) (id0 : list Z) (force_magic : bool)
  : C (option positive) :=
  let '(id, rest) := split_magic force_magic id0 in
  let* magic := explicit_magic rest in
  let* s := get in
  match lookup_entry (tl_function_tree s) id with
  | Some _ => ret None
  | None =>
      let* k := alloc constructors set_constructors
                  (mk_constructor id (print_id id) None magic a Null Null) in
      enter tl_function_tree set_function_tree id k ;;
      modify (fun s => set_total_functions (i32 (total_functions_num s + 1)) s) ;;
      ret (Some k)
  end.

End Tables.
