(* ===== verification/Tables.v ===== *)
(** * Correctness of the symbol tables

    The invariant of the tables and the heap behind them, what each operation
    does to them on every branch, and the scopes of variables. *)
From Stdlib Require Import ZArith Lia List Bool Ascii String.
From stdpp Require Import base list strings gmap.
From S2P Require Import Prelude Treap Lexer Parser Symbols.
Open Scope tl_scope.

#[export] Instance tl_type_cmp_laws : CmpLaws (fun _ => True) tl_type_cmp.
Proof.
  constructor; unfold tl_type_cmp; intros.
  - by apply (cmp_refl (cmp := strcmp)).
  - by apply (cmp_flip (cmp := strcmp)).
  - by eapply (cmp_trans (cmp := strcmp)).
Qed.

Abbreviation entries_ok := (tree_ok (fun _ : entry => True) tl_type_cmp).

Lemma entry_lookup T x :
  entries_ok T -> tree_lookup tl_type_cmp T x = sorted_find tl_type_cmp x (inorder T).
Proof. exact (tree_lookup_ok (fun _ => True) tl_type_cmp T x I). Qed.

(** The lookup of an identifier does not depend on the address in the key. *)
Lemma lookup_entry_key T id a :
  lookup_entry T id = option_map snd (tree_lookup tl_type_cmp T (id, a)).
Proof.
  unfold lookup_entry. f_equal. induction T as [|l IHl x y r IHr]; cbn; [done|]. by rewrite IHl, IHr.
Qed.

Lemma lookup_entry_None T id a : lookup_entry T id = None -> tree_lookup tl_type_cmp T (id, a) = None.
Proof. rewrite (lookup_entry_key T id a). by destruct (tree_lookup _ _ _). Qed.

(** Entering a new identifier at any priority. *)
Lemma insert_entry T id a y :
  entries_ok T -> lookup_entry T id = None ->
  exists T', tree_insert tl_type_cmp T (id, a) y = Ret T' /\ entries_ok T' /\
    inorder T' = sorted_insert tl_type_cmp (id, a) (inorder T) /\
    forall id', lookup_entry T' id' = if strcmp id' id =? 0 then Some a else lookup_entry T id'.
Proof.
  intros HT HF. apply (lookup_entry_None T id a) in HF as HF'. rewrite entry_lookup in HF' by done.
  destruct (tree_insert_ok (fun _ => True) tl_type_cmp T (id, a) y) as (T' & E & HT' & HI);
    [done|done|by apply sorted_find_fresh|].
  exists T'. split_and!; [done|done|done|]. intros id'. unfold lookup_entry. rewrite !entry_lookup, HI by done.
  rewrite (sorted_find_insert (fun _ => True) tl_type_cmp (id, a));
    [|done|done|by apply Forall_forall|by apply sorted_find_fresh|apply HT].
  unfold tl_type_cmp at 1. cbn [fst]. by destruct (strcmp id' id =? 0).
Qed.

Lemma sorted_insert_in {X} (c : X -> X -> Z) x l e : e ∈ sorted_insert c x l <-> e = x \/ e ∈ l.
Proof.
  induction l as [|z l IH]; cbn; [by rewrite elem_of_cons|].
  case_goal; rewrite !elem_of_cons; [done|]. rewrite IH. tauto.
Qed.

(** ** The invariant *)

(** Every entry of a table is the identifier of an object on the heap. *)
Definition entries_valid {A} (T : tree entry) (h : gmap positive A) (id : A -> list Z) : Prop :=
  forall e, e ∈ inorder T -> exists x, h !! snd e = Some x /\ id x = fst e.

Record tables_ok (s : sstate) : Prop := {
  tab_types : entries_ok (tl_type_tree s);
  tab_constructors : entries_ok (tl_constructor_tree s);
  tab_functions : entries_ok (tl_function_tree s);
  tab_vars : Forall entries_ok (vars s);
  tab_fields : Forall (tree_ok (fun _ => True) strcmp) (fields s);
  tab_sizes : List.length (vars s) = 10%nat /\ List.length (fields s) = 10%nat /\
              List.length (last_num_var s) = 10%nat;
  tab_level : 0 <= namespace_level s < 10;
  tab_types_valid : entries_valid (tl_type_tree s) (tys s) ty_id;
  tab_constructors_valid : entries_valid (tl_constructor_tree s) (constructors s) k_id;
  tab_functions_valid : entries_valid (tl_function_tree s) (constructors s) k_id;
  tab_fresh_types : forall a, (brk s <= a)%positive -> tys s !! a = None;
  tab_fresh_constructors : forall a, (brk s <= a)%positive -> constructors s !! a = None;
  tab_total_types : total_types_num s = i32 (tree_count (tl_type_tree s));
  tab_total_functions : total_functions_num s = i32 (tree_count (tl_function_tree s))
}.

Lemma init_tables_ok : tables_ok init_sstate.
Proof.
  constructor; cbn; try done; try (by repeat constructor); intros; try apply lookup_empty; intros e He; by apply not_elem_of_nil in He.
Qed.

Lemma entries_valid_insert {A} T T' (h : gmap positive A) f id a x :
  entries_valid T h f -> h !! a = None -> f x = id ->
  inorder T' = sorted_insert tl_type_cmp (id, a) (inorder T) -> entries_valid T' (<[a := x]> h) f.
Proof.
  intros HV Ha Hx HI e He. rewrite HI in He. apply sorted_insert_in in He as [->|He]; cbn.
  - exists x. by rewrite lookup_insert_eq.
  - destruct (HV e He) as (z & Hz & Hid). exists z. split; [|done].
    rewrite lookup_insert_ne; [done|]. intros ->. congruence.
Qed.

Lemma entries_valid_new {A} T (h : gmap positive A) f a x :
  entries_valid T h f -> h !! a = None -> entries_valid T (<[a := x]> h) f.
Proof.
  intros HV Ha e He. destruct (HV e He) as (z & Hz & Hid). exists z. split; [|done].
  rewrite lookup_insert_ne; [done|]. intros ->. congruence.
Qed.

Lemma tree_count_insert T T' (x : entry) :
  inorder T' = sorted_insert tl_type_cmp x (inorder T) -> tree_count T' = tree_count T + 1.
Proof.
  intros HI. rewrite !tree_count_length, HI.
  assert (forall l, List.length (sorted_insert tl_type_cmp x l) = S (List.length l)) as H.
  { induction l as [|e l IH]; cbn; [done|]. case_goal; cbn; by rewrite ?IH. }
  rewrite H. lia.
Qed.

Lemma i32_succ a b : a = i32 b -> i32 (a + 1) = i32 (b + 1).
Proof. intros ->. unfold i32. zmod. Qed.

(** ** Types *)

Section Ops.
Context (lrand48 : nat -> Z) (garbage : Z).

(** What [tl_add_type] stores for a type it has not seen. *)
Definition new_type (id : list Z) (num ptypes : Z) : tl_type :=
  if num >=? 0 then mk_type id (print_id id) None 0 0 num ptypes []
  else mk_type id (print_id id) None 0 4 (-1) garbage [].

(** C16. [tl_add_type]: a known type is returned as it is, or null if its
    parameters are given and differ; a new one is entered under its
    identifier, so that [tl_get_type] finds it and what it found before under
    every other identifier.  Nothing faults, and the tables stay well formed. *)
Theorem tl_add_type_correct id num ptypes s :
  tables_ok s -> num <= 64 ->
  match lookup_entry (tl_type_tree s) id with
  | Some a => exists t, tys s !! a = Some t /\ strcmp id (ty_id t) = 0 /\
      tl_add_type lrand48 garbage id num ptypes s =
      Ret (if (num >=? 0) && (negb (ty_params_num t =? num) || negb (ty_params_types t =? ptypes))
           then None else Some a, s)
  | None => exists a s', tl_add_type lrand48 garbage id num ptypes s = Ret (Some a, s') /\
      tables_ok s' /\ tys s' = <[a := new_type id num ptypes]> (tys s) /\ tys s !! a = None /\
      total_types_num s' = i32 (total_types_num s + 1) /\
      (forall id', lookup_entry (tl_type_tree s') id' =
                   if strcmp id' id =? 0 then Some a else lookup_entry (tl_type_tree s) id')
  end.
Proof.
  intros Hs Hnum. unfold tl_add_type, bind at 1, get. cbn [rbind].
  destruct (lookup_entry (tl_type_tree s) id) as [a|] eqn:E.
  - unfold lookup_entry in E. rewrite entry_lookup in E by apply Hs.
    destruct (sorted_find _ _ _) as [e|] eqn:Ef; [|done]. injection E as <-.
    apply find_some in Ef as [Hin Heq]. apply list_elem_of_In in Hin.
    destruct (tab_types_valid _ Hs e Hin) as (t & Ht & Hid). exists t.
    split_and!; [done|rewrite Hid; by zbool|].
    unfold bind, get_type, load_at. rewrite Ht. cbn. by case_goal.
  - set (a := brk s).
    destruct (insert_entry (tl_type_tree s) id a (lrand48 (draws s))) as (T' & ET & HT & HI & HL);
      [apply Hs|done|].
    exists a, (set_total_types (i32 (total_types_num s + 1)) (set_type_tree T' (set_draws (S (draws s))
      (set_brk (Pos.succ a) (set_types (<[a := new_type id num ptypes]> (tys s)) s))))).
    assert (Ha : tys s !! a = None) by by apply Hs.
    assert (Hid : ty_id (new_type id num ptypes) = id) by (unfold new_type; by case_goal).
    destruct Hs. destruct s; cbn in *. split_and!; try done.
    + unfold new_type, bind, alloc, enter, draw, get, lift, modify, bind.
      destruct (num >=? 0); [rewrite (proj2 (Z.leb_le num 64)) by done|]; cbn; rewrite E; cbn; by rewrite ET.
    + constructor; cbn; try done.
      * by eapply entries_valid_insert.
      * intros b Hb. rewrite lookup_insert_ne by (subst a; lia). apply tab_fresh_types0. lia.
      * intros b Hb. apply tab_fresh_constructors0. lia.
      * rewrite (tree_count_insert _ _ _ HI). by apply i32_succ.
Qed.

(** ** Constructors *)

(** *** What the name of a constructor means *)

(** [id0] is the identifier [id] followed by [rest]: nothing, or a number sign
    and hexadecimal digits, as the lexer leaves them. With [force_magic] a
    number sign is a character of the identifier like any other. *)
Definition named (force : bool) (id0 id rest : list Z) : Prop :=
  id0 = id ++ rest /\
  if force then rest = []
  else Forall (fun c => c <> hash) id /\
       (rest = [] \/ exists digits, rest = hash :: digits /\ Forall (fun c => is_hexdigit c = true) digits).

(** The value of hexadecimal digits, the most significant first. *)
Definition digit_of (c : Z) : Z :=
  match list_find (eq c) (str "0123456789abcdef") with Some (i, _) => Z.of_nat i | None => 0 end.

Definition number_of (digits : list Z) : Z := fold_left (fun n c => 16 * n + digit_of c) digits 0.

(** The explicit number: 0 when there is none, otherwise what five to eight
    digits say, the two values 0 and 2^32 - 1 excluded. *)
Definition number_given (rest : list Z) : option Z :=
  match rest with
  | [] => Some 0
  | _ :: digits =>
      if (5 <=? List.length digits)%nat && (List.length digits <=? 8)%nat &&
         negb (number_of digits =? 0) && negb (number_of digits =? 2 ^ 32 - 1)
      then Some (number_of digits) else None
  end.

Lemma named_split force id0 id rest : named force id0 id rest -> split_magic force id0 = (id, rest).
Proof.
  intros [-> H]. destruct force.
  - subst rest. rewrite app_nil_r. induction id as [|c id IH]; cbn; [done|]. by rewrite orb_true_r, IH.
  - destruct H as [Hid Hr]. induction Hid as [|c id Hc _ IH]; cbn.
    + by destruct Hr as [->|(ds & -> & _)].
    + rewrite (proj2 (Z.eqb_neq c hash)) by done. cbn. by rewrite IH.
Qed.

Lemma digit_of_range c : is_hexdigit c = true -> hex_digit c = digit_of c /\ 0 <= digit_of c < 16.
Proof.
  intros Hc. assert (exists k, (k < 16)%nat /\ c = nth k (str "0123456789abcdef") 0) as (k & Hk & ->).
  { unfold is_hexdigit, is_digit in Hc. destruct (c <=? chr "9") eqn:E.
    - exists (Z.to_nat (c - 48)). chars. zbool. split; [lia|].
      assert (c = 48 \/ c = 49 \/ c = 50 \/ c = 51 \/ c = 52 \/ c = 53 \/ c = 54 \/ c = 55 \/ c = 56 \/ c = 57) as H by lia.
      repeat destruct H as [->|H]; try done. by subst.
    - exists (Z.to_nat (c - 87)). chars. zbool. split; [lia|].
      assert (c = 97 \/ c = 98 \/ c = 99 \/ c = 100 \/ c = 101 \/ c = 102) as H by lia.
      repeat destruct H as [->|H]; try done. by subst. }
  do 16 (destruct k as [|k]; [by vm_compute|]). lia.
Qed.

(** Eight digits fit in an [unsigned], so the code's sum does not wrap. *)
Lemma hex_value_number l :
  Forall (fun c => is_hexdigit c = true) l -> (List.length l <= 8)%nat ->
  hex_value l = number_of l /\ 0 <= number_of l < 2 ^ (4 * Z.of_nat (List.length l)).
Proof.
  induction l as [|c l IH] using rev_ind; [by vm_compute|]. intros [Hl Hc]%Forall_app Hn.
  rewrite length_app in Hn. cbn in Hn. destruct IH as [IH Hr]; [done|lia|].
  apply Forall_inv in Hc. destruct (digit_of_range c Hc) as [Ed Hd].
  assert (2 ^ (4 * Z.of_nat (List.length l)) <= 2 ^ 28) by (apply Z.pow_le_mono_r; lia).
  unfold hex_value, number_of in *. rewrite !fold_left_app. cbn [fold_left]. rewrite IH, Ed.
  rewrite length_app, Nat2Z.inj_add, Z.mul_add_distr_l, Z.pow_add_r by lia. cbn [List.length].
  change (2 ^ (4 * Z.of_nat 1)) with 16. clear IH.
  set (n := fold_left (fun n c => 16 * n + digit_of c) l 0) in *.
  change (2 ^ 28) with 268435456 in *. rewrite Z.shiftl_mul_pow2 by lia. change (2 ^ 4) with 16.
  unfold u32. change (2 ^ 32) with 4294967296.
  rewrite (Z.mod_small (n * 16)) by lia. rewrite Z.mod_small by lia. lia.
Qed.

Lemma explicit_magic_number force id0 id rest s :
  named force id0 id rest ->
  explicit_magic rest s =
  match number_given rest with Some n => Ret (n, s) | None => Fault AssertFailed end.
Proof.
  intros [_ H]. assert (rest = [] \/ exists ds, rest = hash :: ds /\ Forall (fun c => is_hexdigit c = true) ds)
    as [->|(ds & -> & Hds)] by (destruct force; tauto); [done|].
  unfold explicit_magic, number_given, bind, assert. cbn [List.length].
  replace (6 <=? Z.of_nat (S (List.length ds))) with (5 <=? List.length ds)%nat
    by (apply eq_true_iff_eq; rewrite Nat.leb_le, Z.leb_le; lia).
  replace (Z.of_nat (S (List.length ds)) <=? 9) with (List.length ds <=? 8)%nat
    by (apply eq_true_iff_eq; rewrite Nat.leb_le, Z.leb_le; lia).
  destruct ((5 <=? List.length ds)%nat && (List.length ds <=? 8)%nat) eqn:E; cbn [andb rbind ret fail]; [|done].
  apply andb_true_iff in E as [_ E%Nat.leb_le]. destruct (hex_value_number ds Hds E) as [-> _].
  change (u32 (-1)) with (2 ^ 32 - 1). by case_goal.
Qed.

(** *** Adding a constructor *)

(** The type [t] with one more constructor, and with a default one. *)
Definition with_constructor (t : tl_type) (k : positive) : tl_type :=
  ty_set_constructors (ty_constructors t ++ [k]) t.

Definition with_default (t : tl_type) (k : positive) : tl_type :=
  ty_set_flags (Z.lor (ty_flags t) (2 ^ 25)) (with_constructor t k).

(** The tables after a new constructor [c] of the type at [a], which is entered
    in the tree [T'] or not. *)
Lemma tables_ok_constructor s a t t' c T' d :
  tables_ok s -> tys s !! a = Some t -> ty_id t' = ty_id t -> entries_ok T' ->
  T' = tl_constructor_tree s \/
    inorder T' = sorted_insert tl_type_cmp (k_id c, brk s) (inorder (tl_constructor_tree s)) ->
  tables_ok (set_total_constructors (i32 (total_constructors_num s + 1)) (set_constructor_tree T'
    (set_draws d (set_types (<[a := t']> (tys s))
      (set_brk (Pos.succ (brk s)) (set_constructors (<[brk s := c]> (constructors s)) s)))))).
Proof.
  intros Hs Ht Hid HT HI. assert (Hk : constructors s !! brk s = None) by by apply Hs.
  assert (Hak : (a < brk s)%positive).
  { destruct (decide (brk s <= a)%positive) as [Hge|]; [|lia]. pose proof (tab_fresh_types _ Hs a Hge). congruence. }
  destruct Hs. destruct s; cbn in *. constructor; cbn; try done.
  - intros e He. destruct (tab_types_valid0 e He) as (z & Hz & Hz').
    destruct (decide (a = snd e)) as [->|]; [|exists z; by rewrite lookup_insert_ne].
    exists t'. rewrite lookup_insert_eq. split; [done|]. congruence.
  - destruct HI as [->|HI]; [by apply entries_valid_new|].
    by apply (entries_valid_insert tl_constructor_tree T' constructors k_id (k_id c) brk c).
  - by apply entries_valid_new.
  - intros b Hb. rewrite lookup_insert_ne by lia. apply tab_fresh_types0. lia.
  - intros b Hb. rewrite lookup_insert_ne by lia. apply tab_fresh_constructors0. lia.
Qed.

(** The start of [tl_add_constructor], up to the check of the identifier. *)
Lemma add_constructor_start a t id0 id rest force magic s :
  tys s !! a = Some t -> Z.land (ty_flags t) 1 = 0 -> named force id0 id rest -> number_given rest = Some magic ->
  tl_add_constructor lrand48 a id0 force s =
  (if negb (starts_underscore id) && bool_decide (is_Some (lookup_entry (tl_constructor_tree s) id))
   then ret None
   else
      (if starts_underscore id then assert (Z.of_nat (List.length id) =? 1) else ret tt) ;;
      let* k := alloc constructors set_constructors
                  (mk_constructor id (print_id id) None magic (Some a) Null Null) in
      set_type a (fun t => ty_set_constructors (ty_constructors t ++ [k]) t) ;;
      (if negb (starts_underscore id) then enter lrand48 tl_constructor_tree set_constructor_tree id k
       else set_type a (fun t => ty_set_flags (Z.lor (ty_flags t) FLAG_DEFAULT_CONSTRUCTOR) t)) ;;
      modify (fun s => set_total_constructors (i32 (total_constructors_num s + 1)) s) ;;
      ret (Some k)) s.
Proof.
  intros Ht Hf Hn Hm. unfold tl_add_constructor, bind at 1, get_type, load_at. rewrite Ht. cbn [rbind].
  rewrite Hf, (named_split _ _ _ _ Hn). cbn [negb Z.eqb]. unfold bind at 1.
  rewrite (explicit_magic_number _ _ _ _ s Hn), Hm. done.
Qed.

(** C17. [tl_add_constructor] on every branch, for an identifier with or
    without an explicit number. Null after a final statement, with nothing
    changed; the assertion when the number does not have five to eight digits
    or is 0 or 2^32 - 1. The identifier [_] makes a default constructor: it is
    appended to its type, which gets the flag, and entered in no table; any
    other identifier that starts with an underscore fails the assertion. For
    the remaining ones, null for a duplicate, with nothing changed, and
    otherwise a new constructor with that number at the end of its type's list,
    which [tl_get_constructor] finds under the identifier. The tables stay well
    formed. *)
Theorem tl_add_constructor_correct a t id0 force s id rest :
  tables_ok s -> tys s !! a = Some t -> named force id0 id rest ->
  if negb (Z.land (ty_flags t) 1 =? 0) then tl_add_constructor lrand48 a id0 force s = Ret (None, s)
  else
    match number_given rest with
    | None => tl_add_constructor lrand48 a id0 force s = Fault AssertFailed
    | Some magic =>
        let added (t' : tl_type) (k : positive) (s' : sstate) :=
          tl_add_constructor lrand48 a id0 force s = Ret (Some k, s') /\
          tables_ok s' /\ constructors s !! k = None /\
          constructors s' = <[k := mk_constructor id (print_id id) None magic (Some a) Null Null]>
                              (constructors s) /\
          tys s' = <[a := t']> (tys s) /\ total_constructors_num s' = i32 (total_constructors_num s + 1) in
        if nth 0 id 0 =? chr "_" then
          if (List.length id =? 1)%nat
          then exists k s', added (with_default t k) k s' /\ tl_constructor_tree s' = tl_constructor_tree s
          else tl_add_constructor lrand48 a id0 force s = Fault AssertFailed
        else
          match lookup_entry (tl_constructor_tree s) id with
          | Some _ => tl_add_constructor lrand48 a id0 force s = Ret (None, s)
          | None => exists k s', added (with_constructor t k) k s' /\
              forall id', lookup_entry (tl_constructor_tree s') id' =
                          if strcmp id' id =? 0 then Some k else lookup_entry (tl_constructor_tree s) id'
          end
    end.
Proof.
  intros Hs Ht Hn. destruct (Z.land (ty_flags t) 1 =? 0) eqn:Efl; zbool; cbn [negb].
  2: { unfold tl_add_constructor, bind at 1, get_type, load_at. rewrite Ht. cbn [rbind].
       by rewrite (proj2 (Z.eqb_neq _ 0)) by done. }
  destruct (number_given rest) as [magic|] eqn:Em.
  2: { unfold tl_add_constructor, bind at 1, get_type, load_at. rewrite Ht. cbn [rbind].
       rewrite Efl, (named_split _ _ _ _ Hn). cbn [negb Z.eqb]. unfold bind at 1.
       by rewrite (explicit_magic_number _ _ _ _ s Hn), Em. }
  cbv zeta. rewrite !(add_constructor_start _ _ _ _ _ _ _ _ Ht Efl Hn Em).
  change (starts_underscore id) with (nth 0 id 0 =? chr "_").
  assert (Hk : constructors s !! brk s = None) by by apply Hs.
  destruct (nth 0 id 0 =? chr "_") eqn:Eu; cbn [negb andb].
  - replace (Z.of_nat (List.length id) =? 1) with (List.length id =? 1)%nat
      by (apply eq_true_iff_eq; rewrite Nat.eqb_eq, Z.eqb_eq; lia).
    destruct (List.length id =? 1)%nat; [|done].
    exists (brk s), (set_total_constructors (i32 (total_constructors_num s + 1))
      (set_constructor_tree (tl_constructor_tree s) (set_draws (draws s) (set_types (<[a := with_default t (brk s)]> (tys s))
        (set_brk (Pos.succ (brk s)) (set_constructors (<[brk s := mk_constructor id (print_id id) None magic (Some a) Null Null]>
          (constructors s)) s)))))).
    split; [|by destruct s]. split_and!; [|eapply (tables_ok_constructor s a t); [done|done|by destruct t|apply Hs|by left]|done|by destruct s..].
    unfold bind, alloc, set_type, store_at, get, modify, assert, ret. destruct s; cbn in *.
    rewrite Ht. cbn. rewrite lookup_insert_eq. cbn. rewrite insert_insert_eq. by destruct t.
  - destruct (lookup_entry (tl_constructor_tree s) id) as [k0|] eqn:E.
    { by rewrite bool_decide_eq_true_2. }
    rewrite !bool_decide_eq_false_2 by (by intros [? ?]).
    destruct (insert_entry (tl_constructor_tree s) id (brk s) (lrand48 (draws s))) as (T' & ET & HT & HI & HL);
      [apply Hs|done|].
    exists (brk s), (set_total_constructors (i32 (total_constructors_num s + 1)) (set_constructor_tree T'
      (set_draws (S (draws s)) (set_types (<[a := with_constructor t (brk s)]> (tys s))
        (set_brk (Pos.succ (brk s)) (set_constructors (<[brk s := mk_constructor id (print_id id) None magic (Some a) Null Null]>
          (constructors s)) s)))))).
    split; [|by destruct s].
    split_and!; [|eapply (tables_ok_constructor s a t); [done|done|by destruct t|done|by right]|done|by destruct s..].
    unfold bind, alloc, enter, draw, set_type, store_at, get, lift, modify, ret, bind. destruct s; cbn in *.
    rewrite Ht. cbn. by rewrite ET.
Qed.

(** ** Scopes *)

(** The variable an identifier refers to: the first one from the innermost
    scope outwards. *)
Fixpoint visible_from (k : nat) (l : list (tree entry)) (id : list Z) : option positive :=
  match k with
  | O => None
  | S i =>
      match lookup_entry (nth i l Nil) id with
      | Some a => Some a
      | None => visible_from i l id
      end
  end.

Definition visible (s : sstate) (id : list Z) : option positive :=
  visible_from (Z.to_nat (namespace_level s + 1)) (vars s) id.

Lemma elem_nth (l : list (tree entry)) i s :
  0 <= i < Z.of_nat (List.length l) -> elem l i s = Ret (nth (Z.to_nat i) l Nil, s).
Proof.
  intros Hi. unfold elem. rewrite (proj2 (Z.leb_le 0 i)) by lia.
  destruct (lookup_lt_is_Some_2 l (Z.to_nat i)) as [x Hx]; [lia|].
  rewrite Hx. by rewrite (nth_lookup_Some _ _ _ _ Hx).
Qed.

Lemma tl_get_var_visible id s : tables_ok s -> tl_get_var id s = Ret (visible s id, s).
Proof.
  intros Hs. unfold tl_get_var, visible, bind, get. cbn [rbind].
  destruct (tab_sizes _ Hs) as [Hlen _]. pose proof (tab_level _ Hs).
  assert (forall k, (k <= 10)%nat -> tl_get_var_loop k id s s = Ret (visible_from k (vars s) id, s)) as H1.
  { induction k as [|k IH]; intros Hk; [done|]. cbn [tl_get_var_loop visible_from].
    unfold bind. rewrite elem_nth by lia. cbn [rbind]. rewrite Nat2Z.id. unfold lookup_entry.
    destruct (tree_lookup _ _ _); [done|]. cbn. apply IH. lia. }
  apply H1. lia.
Qed.

Lemma visible_from_ext k l1 l2 id :
  (forall i, (i < k)%nat -> lookup_entry (nth i l1 Nil) id = lookup_entry (nth i l2 Nil) id) ->
  visible_from k l1 id = visible_from k l2 id.
Proof.
  induction k as [|k IH]; intros H; [done|]. cbn. rewrite H by lia. case_match; [done|].
  apply IH. intros i Hi. apply H. lia.
Qed.

Lemma nth_set (l : list (tree entry)) i j T :
  (i < List.length l)%nat -> nth j (<[i := T]> l) Nil = if (j =? i)%nat then T else nth j l Nil.
Proof.
  intros Hi. destruct (j =? i)%nat eqn:E.
  - apply Nat.eqb_eq in E as ->. rewrite nth_lookup, list_lookup_insert_eq by done. done.
  - apply Nat.eqb_neq in E. by rewrite !nth_lookup, list_lookup_insert_ne by done.
Qed.

Lemma del_vars l s :
  each tl_del_var l s = Ret (tt, set_variables (foldr (fun e m => delete (snd e) m) (variables s) (rev l)) s).
Proof.
  revert s. induction l as [|e l IH]; intros s; cbn [each rev].
  - by destruct s.
  - unfold bind, tl_del_var at 1, modify. cbn [rbind]. rewrite IH.
    f_equal. f_equal. rewrite foldr_app. by destruct s.
Qed.

(** A scope is opened empty; the tables of the other scopes stay. *)
Lemma namespace_push_ok s :
  tables_ok s -> namespace_level s < 9 ->
  exists s', namespace_push s = Ret (tt, s') /\ tables_ok s' /\
    namespace_level s' = namespace_level s + 1 /\
    vars s' = <[Z.to_nat (namespace_level s + 1) := Nil]> (vars s).
Proof.
  intros Hs Hl. pose proof (tab_level _ Hs). destruct (tab_sizes _ Hs) as (Hv & Hf & Hn).
  set (l := namespace_level s + 1).
  assert (exists T, vars s !! Z.to_nat l = Some T) as [T HT] by (apply lookup_lt_is_Some_2; lia).
  assert (exists F, fields s !! Z.to_nat l = Some F) as [F HF] by (apply lookup_lt_is_Some_2; lia).
  destruct s; cbn in *. eexists. split.
  - unfold namespace_push, tl_clear_vars, tl_clear_fields, bind, modify, get, elem, assert. cbn.
    fold l. replace (l <? 10) with true by lia. cbn.
    replace (0 <=? l) with true by lia. rewrite HT. cbn. rewrite tree_act_inorder, del_vars. cbn.
    replace (0 <=? l) with true by lia. rewrite HF. cbn. rewrite !tree_clear_Nil. reflexivity.
  - destruct Hs. cbn in *. split_and!; [|done|done]. constructor; cbn; try done.
    + apply Forall_insert; [done|]. by repeat constructor.
    + apply Forall_insert; [done|]. by repeat constructor.
    + by rewrite !length_insert.
    + lia.
Qed.

(** Declaring a variable that is new in the current scope. *)
Lemma tl_add_var_ok id p ty s :
  tables_ok s -> lookup_entry (nth (Z.to_nat (namespace_level s)) (vars s) Nil) id = None ->
  exists v s', tl_add_var lrand48 id p ty s = Ret (Some v, s') /\ tables_ok s' /\
    namespace_level s' = namespace_level s /\ variables s' !! v = Some (mk_var id p ty 0) /\
    (forall id', visible s' id' = if strcmp id' id =? 0 then Some v else visible s id') /\
    (forall i, (i < Z.to_nat (namespace_level s))%nat -> nth i (vars s') Nil = nth i (vars s) Nil).
Proof.
  intros Hs HF. pose proof (tab_level _ Hs). destruct (tab_sizes _ Hs) as (Hv & Hf & Hn).
  set (l := namespace_level s) in *.
  destruct (lookup_lt_is_Some_2 (vars s) (Z.to_nat l)) as [T HT]; [lia|].
  rewrite (nth_lookup_Some _ _ _ _ HT) in HF.
  destruct (insert_entry T id (brk s) (lrand48 (draws s))) as (T' & ET & HT' & HI & HL);
    [by eapply Forall_lookup_1; [apply Hs|]|done|].
  exists (brk s), (set_last_num_var (if ty =? 0 then last_num_var s
                       else <[Z.to_nat l := Some (brk s)]> (last_num_var s))
    (set_vars (<[Z.to_nat l := T']> (vars s)) (set_draws (S (draws s)) (set_brk (Pos.succ (brk s))
      (set_variables (<[brk s := mk_var id p ty 0]> (variables s)) s))))).
  split.
  - unfold tl_add_var, new_var, bind, get, elem. cbn [rbind]. fold l.
    rewrite (proj2 (Z.leb_le 0 l)) by lia. rewrite HT. cbn.
    rewrite (lookup_entry_None T id 1 HF). unfold alloc, draw, lift, modify. destruct s; cbn in *.
    rewrite ET. cbn. by destruct (ty =? 0).
  - assert (Hvis : forall id', visible_from (Z.to_nat (l + 1)) (<[Z.to_nat l := T']> (vars s)) id' =
      if strcmp id' id =? 0 then Some (brk s) else visible_from (Z.to_nat (l + 1)) (vars s) id').
    { intros id'. replace (Z.to_nat (l + 1)) with (S (Z.to_nat l)) by lia. cbn [visible_from].
      rewrite nth_set, Nat.eqb_refl, HL by lia. destruct (strcmp id' id =? 0); [done|].
      rewrite (nth_lookup_Some _ _ _ _ HT). case_match; [done|]. apply visible_from_ext. intros i Hi.
      rewrite nth_set by lia. by rewrite (proj2 (Nat.eqb_neq i (Z.to_nat l))) by lia. }
    destruct Hs. unfold visible. destruct s; cbn in *. split_and!; try done.
    + constructor; cbn; try done.
      * apply Forall_insert; [done|exact HT'].
      * rewrite length_insert. destruct (ty =? 0); rewrite ?length_insert; done.
      * intros b Hb. apply tab_fresh_types0. lia.
      * intros b Hb. apply tab_fresh_constructors0. lia.
    + apply lookup_insert_eq.
    + intros i Hi. rewrite nth_set by lia. destruct (i =? _)%nat eqn:Ei; [|done].
      apply Nat.eqb_eq in Ei. subst l. lia.
Qed.

(** C18. Block scope: after [namespace_push] every variable is still visible; a
    variable declared then is the one its name refers to, whatever it meant
    outside, and other names keep their meaning; [namespace_pop] restores the
    meaning of every name. *)
Theorem scope_block id p ty s :
  tables_ok s -> namespace_level s < 9 ->
  exists s1 v s2 s3,
    namespace_push s = Ret (tt, s1) /\ (forall x, tl_get_var x s1 = Ret (visible s x, s1)) /\
    tl_add_var lrand48 id p ty s1 = Ret (Some v, s2) /\
    (forall x, tl_get_var x s2 = Ret (if strcmp x id =? 0 then Some v else visible s x, s2)) /\
    namespace_pop s2 = Ret (tt, s3) /\ tables_ok s3 /\
    (forall x, tl_get_var x s3 = Ret (visible s x, s3)).
Proof.
  intros Hs Hl. pose proof (tab_level _ Hs). destruct (tab_sizes _ Hs) as (Hv & _ & _).
  destruct (namespace_push_ok s Hs Hl) as (s1 & E1 & H1 & L1 & V1).
  assert (Hvis1 : forall x, visible s1 x = visible s x).
  { intros x. unfold visible. rewrite L1, V1.
    replace (Z.to_nat (namespace_level s + 1 + 1)) with (S (Z.to_nat (namespace_level s + 1))) by lia.
    cbn [visible_from]. rewrite nth_set, Nat.eqb_refl by lia. cbn. apply visible_from_ext. intros i Hi.
    rewrite nth_set by lia. by rewrite (proj2 (Nat.eqb_neq i (Z.to_nat (namespace_level s + 1)))) by lia. }
  destruct (tl_add_var_ok id p ty s1 H1) as (v & s2 & E2 & H2 & L2 & _ & Hvis2 & Hlow).
  { rewrite L1, V1, nth_set, Nat.eqb_refl by lia. done. }
  assert (H3 : tables_ok (set_level (namespace_level s2 - 1) s2)).
  { destruct H2. destruct s2; cbn in *. constructor; cbn; try done. lia. }
  exists s1, v, s2, (set_level (namespace_level s2 - 1) s2). split_and!; try done.
  - intros x. by rewrite tl_get_var_visible, Hvis1.
  - intros x. by rewrite tl_get_var_visible, Hvis2, Hvis1.
  - unfold namespace_pop, bind, modify, get, assert. destruct s2; cbn in *.
    by replace (_ >=? 0) with true by lia.
  - intros x. rewrite tl_get_var_visible by done. f_equal. f_equal. unfold visible.
    assert (forall z, vars (set_level z s2) = vars s2) as -> by by destruct s2.
    assert (forall z, namespace_level (set_level z s2) = z) as -> by by destruct s2.
    rewrite L2, L1 in *. rewrite V1 in Hlow.
    replace (namespace_level s + 1 - 1 + 1) with (namespace_level s + 1) by lia.
    apply visible_from_ext. intros i Hi. rewrite Hlow, nth_set by lia.
    by rewrite (proj2 (Nat.eqb_neq i (Z.to_nat (namespace_level s + 1)))) by lia.
Qed.

End Ops.

(** ** Witnesses *)

Definition some_draws (n : nat) : Z := (Z.of_nat n * 7919) mod 1000.

Lemma tl_add_type_correct_witness :
  exists a s', tl_add_type some_draws 0 (str "Int") 0 0 init_sstate = Ret (Some a, s') /\
    tables_ok s' /\ lookup_entry (tl_type_tree s') (str "Int") = Some a.
Proof.
  destruct (tl_add_type_correct some_draws 0 (str "Int") 0 0 init_sstate init_tables_ok ltac:(lia))
    as (a & s' & E & Hs & _ & _ & _ & Hl).
  exists a, s'. split; [exact E|]. split; [exact Hs|]. rewrite Hl. reflexivity.
Defined.

(** The type [Int] at address 1. *)
Definition Int_type : tl_type := mk_type (str "Int") (str "Int") None 0 0 0 0 [].
Definition Int_state : sstate := set_brk 2 (set_types {[1%positive := Int_type]} init_sstate).

Lemma Int_state_ok : tables_ok Int_state.
Proof.
  destruct init_tables_ok. constructor; try done.
  - intros e He. by apply not_elem_of_nil in He.
  - intros a Ha. apply lookup_singleton_ne. intros <-. cbn in Ha. lia.
Qed.

Lemma tl_add_constructor_correct_witness :
  (exists k s', tl_add_constructor some_draws 1 (str "int#a8509bda") false Int_state = Ret (Some k, s') /\
    tables_ok s' /\ lookup_entry (tl_constructor_tree s') (str "int") = Some k) /\
  tl_add_constructor some_draws 1 (str "int#a850") false Int_state = Fault AssertFailed /\
  exists k s', tl_add_constructor some_draws 1 (str "_") false Int_state = Ret (Some k, s') /\
    tys s' = <[1%positive := with_default Int_type k]> (tys Int_state).
Proof.
  assert (Hn : forall id digits, forallb (fun c => negb (c =? hash)) id = true -> forallb is_hexdigit digits = true ->
    named false (id ++ hash :: digits) id (hash :: digits)).
  { intros id digits Hid Hd. split; [reflexivity|]. split.
    - apply Forall_forall. intros c Hc. rewrite forallb_forall in Hid. apply list_elem_of_In, Hid in Hc. by zbool.
    - right. exists digits. split; [reflexivity|]. apply Forall_forall. intros c Hc.
      rewrite forallb_forall in Hd. by apply list_elem_of_In, Hd in Hc. }
  split; [|split].
  - destruct (tl_add_constructor_correct some_draws 1 Int_type (str "int#a8509bda") false Int_state
      (str "int") (str "#a8509bda") Int_state_ok eq_refl (Hn (str "int") (str "a8509bda") eq_refl eq_refl))
      as (k & s' & (E & Hs & _) & Hl).
    exists k, s'. split; [exact E|]. split; [exact Hs|]. rewrite Hl. reflexivity.
  - exact (tl_add_constructor_correct some_draws 1 Int_type (str "int#a850") false Int_state
      (str "int") (str "#a850") Int_state_ok eq_refl (Hn (str "int") (str "a850") eq_refl eq_refl)).
  - destruct (tl_add_constructor_correct some_draws 1 Int_type (str "_") false Int_state
      (str "_") [] Int_state_ok eq_refl) as (k & s' & (E & _ & _ & _ & Ht & _) & _).
    { split; [reflexivity|]. split; [repeat constructor; done|by left]. }
    exists k, s'. split; [exact E|exact Ht].
Defined.

Lemma scope_block_witness :
  exists s1 v s2 s3,
    namespace_push init_sstate = Ret (tt, s1) /\ tl_add_var some_draws (str "x") Null 1 s1 = Ret (Some v, s2) /\
    tl_get_var (str "x") s2 = Ret (Some v, s2) /\ namespace_pop s2 = Ret (tt, s3) /\
    tl_get_var (str "x") s3 = Ret (None, s3).
Proof.
  destruct (scope_block some_draws (str "x") Null 1 init_sstate init_tables_ok ltac:(cbn; lia))
    as (s1 & v & s2 & s3 & E1 & _ & E2 & H2 & E3 & _ & H3).
  exists s1, v, s2, s3. split; [exact E1|]. split; [exact E2|]. split; [apply (H2 (str "x"))|].
  split; [exact E3|]. apply (H3 (str "x")).
Defined.
