(* ===== verification/Combinator.v ===== *)
(** * Combinator trees (tl-parser.c, lines 1300 to 1592)

    Allocation and copying of nodes, the arity bookkeeping of types, the
    canonical text in [buf] from which a combinator's name is computed, and
    [tl_union], which applies a type expression to an argument or appends to a
    list of fields.  Recursion over the heap takes a fuel argument, one unit
    per level. *)
From Stdlib Require Import ZArith Lia List Bool Ascii String.
From stdpp Require Import base list strings gmap.
From S2P Require Import Prelude Crc32 Treap Lexer Parser Symbols.
Open Scope tl_scope.

(** ** Numbers in text *)

Fixpoint digits (fuel : nat) (n : Z) (acc : list Z) : list Z :=
  match fuel with
  | O => acc
  | S fuel =>
      let acc := (chr "0" + n mod 10) :: acc in
      if n <? 10 then acc else digits fuel (n / 10) acc
  end.

(** [%lld] *)
Definition lld (z : Z) : list Z :=
  if z <? 0 then chr "-" :: digits 20 (- z) [] else digits 20 z [].

Definition hex_char (d : Z) : Z := if d <? 10 then chr "0" + d else chr "a" + d - 10.

(** [%08x] *)
Definition x08 (u : Z) : list Z :=
  map (fun i => hex_char (Z.land (Z.shiftr u (4 * Z.of_nat i)) 15)) (rev (seq 0 8)).

(** A C integer as a truth value, and the test of a mask. *)
Definition has (flags mask : Z) : bool := negb (Z.land flags mask =? 0).

Definition is_num (t : combinator_tree_type) : bool :=
  bool_decide (t = type_num) || bool_decide (t = type_num_value).

(** ** Nodes *)

(** [memset] to 0: the constants [act_var] and [type_num] are 0. *)
Definition zero_node : tl_combinator_tree := mk_node act_var Null Null Null 0 type_num 0 0.

Definition alloc_ctree_node : C ptr := new_node zero_node.

Fixpoint tl_tree_dup (n : nat) (T : ptr) : C ptr :=
  match n with
  | O => out_of_fuel
  | S n =>
      if is_null T then ret Null
      else
        let* t := node T in
        let* p := new_node t in
        let* l := tl_tree_dup n (c_left t) in
        set_node p (n_set_left l) ;;
        let* r := tl_tree_dup n (c_right t) in
        set_node p (n_set_right r) ;;
        ret p
  end.

(** The loop of [tl_tree_get_type] and what follows it. *)
Fixpoint tl_tree_get_type_loop (n : nat) (T : ptr) : C (option positive) :=
  match n with
  | O => out_of_fuel
  | S n =>
      let* t := node T in
      if negb (is_null (c_left t)) then
        let* l := node (c_left t) in
        if bool_decide (c_act l = act_array) then ret None
        else assert (bool_decide (c_type l = type_type)) ;; tl_tree_get_type_loop n (c_left t)
      else
        assert (bool_decide (c_act t = act_type) || bool_decide (c_act t = act_var) ||
                bool_decide (c_act t = act_array)) ;;
        match c_act t, c_data t with
        | act_type, ToType a => ret (Some a)
        | act_type, Null => ret None
        | act_type, _ => fail BadPointer
        | _, _ => ret None
        end
  end.

Definition tl_tree_get_type (n : nat) (T : ptr) : C (option positive) :=
  let* t := node T in
  assert (bool_decide (c_type t = type_type)) ;;
  if bool_decide (c_act t = act_array) then ret None else tl_tree_get_type_loop n T.

Fixpoint tl_tree_set_len (n : nat) (H : ptr) : C unit :=
  match n with
  | O => out_of_fuel
  | S n =>
      let* h := node H in
      if negb (is_null (c_left h)) then
        set_node (c_left h) (n_set_type_len (c_type_len h + 1)) ;;
        tl_tree_set_len n (c_left h)
      else
        assert (bool_decide (c_type h = type_type)) ;;
        assert (negb (is_null (c_data h))) ;;
        let* a := as_type (c_data h) in
        let* t := get_type a in
        assert (c_type_len h =? ty_params_num t)
  end.

(** ** The canonical text *)

Definition BUF_SIZE : Z := Z.shiftl 1 20.

(** Append to [buf] and terminate it; the code does not check the bound. *)
Definition buf_write (x : list Z) : C unit :=
  fun s =>
    let b := buf s ++ x in
    if Z.of_nat (List.length b) <? BUF_SIZE then Ret (tt, set_buf b s) else Fault OutOfBounds.

Definition tl_buf_reset : C unit := modify (set_buf []).
Definition tl_buf_add_string (x : list Z) : C unit := buf_write (chr " " :: x).
Definition tl_buf_add_string_nospace (x : list Z) : C unit := buf_write x.
Definition tl_buf_add_string_q (x : list Z) (q : bool) : C unit :=
  if q then tl_buf_add_string x else tl_buf_add_string_nospace x.

(** [real_id ? real_id : id] *)
Definition shown_id (real_id : option (list Z)) (id : list Z) : list Z := default id real_id.

(** [case act_type] *)
Definition buf_add_type (t : tl_combinator_tree) (x : bool) : C unit :=
  let mark := has (c_flags t) 1 && negb (has (c_flags t) 4) in
  (if mark then tl_buf_add_string_q (str "%") x else ret tt) ;;
  let x := if mark then false else x in
  if has (c_flags t) 2 then
    let* name := as_str (c_data t) in tl_buf_add_string_q name x
  else
    let* a := as_type (c_data t) in
    let* ty := get_type a in
    if has (c_flags t) 4 then
      match ty_constructors ty with
      | [k] => let* c := get_constructor k in tl_buf_add_string_q (shown_id (k_real_id c) (k_id c)) x
      | _ => fail AssertFailed
      end
    else tl_buf_add_string_q (shown_id (ty_real_id ty) (ty_id ty)) x.

(** The name of the variable a node's [data] points to. *)
Definition var_name (p : ptr) : C (list Z) :=
  let* v := node p in as_str (c_data v).

Fixpoint tl_buf_add_tree (n : nat) (T : ptr) (x : bool) : C unit :=
  match n with
  | O => out_of_fuel
  | S n =>
      match T with
      | Null => ret tt
      | Neg1 | Neg2 => fail AssertFailed
      | _ =>
          let* t := node T in
          match c_act t with
          | act_question_mark => tl_buf_add_string_q (str "?") x
          | act_type => buf_add_type t x
          | act_field =>
              let* x :=
                (if negb (is_null (c_data t)) then
                   let* name := as_str (c_data t) in
                   tl_buf_add_string_q name x ;;
                   tl_buf_add_string_q (str ":") false ;;
                   ret false
                 else ret x) in
              tl_buf_add_tree n (c_left t) x ;;
              tl_buf_add_tree n (c_right t) true
          | act_union | act_arg =>
              tl_buf_add_tree n (c_left t) x ;;
              tl_buf_add_tree n (c_right t) true
          | act_var =>
              if bool_decide (c_data t = Neg1) then ret tt
              else
                let* name := var_name (c_data t) in
                tl_buf_add_string_q name x ;;
                if bool_decide (c_type t = type_num) && negb (c_type_flags t =? 0)
                then tl_buf_add_string_q (chr "+" :: lld (c_type_flags t)) false
                else ret tt
          | act_array =>
              let* x :=
                (if negb (is_null (c_left t)) then
                   let* l := node (c_left t) in
                   if negb (has (c_flags l) 128) then
                     tl_buf_add_tree n (c_left t) x ;;
                     tl_buf_add_string_q (str "*") false ;;
                     ret false
                   else ret x
                 else ret x) in
              tl_buf_add_string_q (str "[") x ;;
              tl_buf_add_tree n (c_right t) true ;;
              tl_buf_add_string_q (str "]") true
          | act_plus =>
              tl_buf_add_tree n (c_left t) x ;;
              tl_buf_add_string_q (str "+") false ;;
              tl_buf_add_tree n (c_right t) false
          | act_nat_const => tl_buf_add_string_q (lld (c_type_flags t)) x
          | act_opt_field =>
              let* l := node (c_left t) in
              let* name := var_name (c_data l) in
              tl_buf_add_string_q name x ;;
              tl_buf_add_string_q (str ".") false ;;
              tl_buf_add_string_q (lld (c_type_flags l)) false ;;
              tl_buf_add_string_q (str "?") false ;;
              tl_buf_add_tree n (c_right t) false
          end
      end
  end.

(** The text of the right-hand side of both functions below. *)
Definition buf_add_sides (n : nat) (c : tl_constructor) : C unit :=
  tl_buf_add_tree n (k_left c) true ;;
  tl_buf_add_string (str "=") ;;
  tl_buf_add_tree n (k_right c) true.

Definition tl_count_combinator_name (n : nat) (k : positive) : C Z :=
  let* c := get_constructor k in
  tl_buf_reset ;;
  tl_buf_add_string_nospace (shown_id (k_real_id c) (k_id c)) ;;
  buf_add_sides n c ;;
  let* s := get in
  (if k_name c =? 0 then
     set_constructor k
       (k_set_name (compute_crc32 (map uchar (buf s)) (Z.of_nat (List.length (buf s)))))
   else ret tt) ;;
  let* c := get_constructor k in ret (i32 (k_name c)).

Definition tl_print_combinator (output_expressions : Z) (n : nat) (k : positive) : C Z :=
  let* c := get_constructor k in
  tl_buf_reset ;;
  tl_buf_add_string_nospace (shown_id (k_real_id c) (k_id c)) ;;
  tl_buf_add_string_nospace (hash :: x08 (k_name c)) ;;
  buf_add_sides n c ;;
  (if output_expressions >=? 1
   then modify (fun s => set_printed (printed s ++ [buf s]) s) else ret tt) ;;
  ret (i32 (k_name c)).

(** ** Arity *)

Fixpoint _tl_finish_subtree (n : nat) (R : ptr) (x y : Z) : C bool :=
  match n with
  | O => out_of_fuel
  | S n =>
      let* r := node R in
      assert (bool_decide (c_type r = type_type)) ;;
      assert (c_type_len r <? 0) ;;
      assert (bool_decide (c_act r = act_arg) || bool_decide (c_act r = act_type)) ;;
      set_node R (fun r => n_set_type_flags y (n_set_type_len x r)) ;;
      if bool_decide (c_act r = act_type) then
        assert (negb (is_null (c_data r))) ;;
        let* a := as_type (c_data r) in
        tl_type_set_params a x y
      else
        let* rr := node (c_right r) in
        assert ((bool_decide (c_type rr = type_type) && (c_type_len rr =? 0)) || is_num (c_type rr)) ;;
        _tl_finish_subtree n (c_left r) (x + 1) (i64 (y * 2 + (if is_num (c_type rr) then 1 else 0)))
  end.

Definition tl_finish_subtree (n : nat) (R : ptr) : C bool :=
  assert (negb (is_null R)) ;;
  let* r := node R in
  if negb (bool_decide (c_type r = type_type)) then ret true
  else if c_type_len r >=? 0 then ret (negb (c_type_len r >? 0))
  else _tl_finish_subtree n R 0 0.

(** The null result is an error. *)
Definition tl_union (n : nat) (L R : ptr) : C ptr :=
  if is_null L then ret R
  else if is_null R then ret L
  else
    let* l := node L in
    let* r := node R in
    match c_type l with
    | type_num =>
        if negb (bool_decide (c_type r = type_num_value)) then ret Null
        else
          set_node L (fun l => n_set_type_flags (i64 (c_type_flags l + c_type_flags r)) l) ;;
          ret L
    | type_num_value =>
        if negb (is_num (c_type r)) then ret Null
        else
          set_node R (fun r => n_set_type_flags (i64 (c_type_flags r + c_type_flags l)) r) ;;
          ret R
    | type_list_item | type_list =>
        if negb (bool_decide (c_type r = type_list_item)) then ret Null
        else new_node (mk_node act_union L R Null 0 type_list 0 0)
    | type_type =>
        if c_type_len l =? 0 then ret Null
        else if negb (is_num (c_type r) || bool_decide (c_type r = type_type)) then ret Null
        else
          let* ok := (if c_type_len r <? 0 then tl_finish_subtree n R else ret true) in
          if negb ok then ret Null
          else
            let* r := node R in
            let* l := node L in
            if c_type_len r >? 0 then ret Null
            else if (c_type_len l >? 0) && negb (Bool.eqb (has (c_type_flags l) 1) (is_num (c_type r)))
            then ret Null
            else
              new_node (mk_node act_arg L R Null 0 type_type
                (if c_type_len l >? 0 then c_type_len l - 1 else -1)
                (Z.shiftr (c_type_flags l) 1))
    end.
