(* ===== verification/Unify.v ===== *)
(** * Substitutions and unification (tl-parser.c, lines 969 to 1014, 2119 to 2284, 2577 to 2716)

    A substitution is a treap from variables (addresses of field nodes) to a
    value and an offset; the functions that take a [struct tree_var_value **]
    return the new tree.  [address] is the address of an object, which is what
    [tl_var_value_cmp] compares. *)
From Stdlib Require Import ZArith Lia List Bool Ascii String.
From stdpp Require Import base list strings gmap.
From S2P Require Import Prelude Treap Lexer Parser Symbols Combinator.
Open Scope tl_scope.

Record tl_var_value := mk_value { vv_ptr : ptr; vv_val : ptr; vv_num_val : Z }.

Section Unify.
Context (lrand48 : nat -> Z) (address : ptr -> Z).
Local Abbreviation vtree := (tree tl_var_value).

Definition tl_var_value_cmp (a b : tl_var_value) : Z := ptr_cmp (address (vv_ptr a)) (address (vv_ptr b)).

(** ** Substitutions *)

(** [tree_lookup_var_value (T, t)] when its [ptr] is not null. *)
Definition lookup_var_value (T : vtree) (var : ptr) : option tl_var_value :=
  match tree_lookup tl_var_value_cmp T (mk_value var Null 0) with
  | Some r => if is_null (vv_ptr r) then None else Some r
  | None => None
  end.

Definition tl_set_var_value_num (T : vtree) (var value : ptr) (num_value : Z) : C vtree :=
  let t := mk_value var value (i32 num_value) in
  let* T :=
    match lookup_var_value T var with
    | Some _ => lift (tree_delete tl_var_value_cmp T t)
    | None => ret T
    end in
  let* y := draw lrand48 in
  lift (tree_insert tl_var_value_cmp T t y).

Definition tl_set_var_value (T : vtree) (var value : ptr) : C vtree :=
  tl_set_var_value_num T var value 0.

Definition tl_get_var_value (T : vtree) (var : ptr) : ptr :=
  match lookup_var_value T var with Some r => vv_val r | None => Null end.

Definition tl_get_var_value_num (T : vtree) (var : ptr) : Z :=
  match lookup_var_value T var with Some r => vv_num_val r | None => 0 end.

(** ** Copies and their variables *)

Definition is_hash (id : list Z) : bool := strcmp id (str "#") =? 0.
Definition is_Type (id : list Z) : bool := strcmp id (str "Type") =? 0.

(** [!strcmp (t->id, ...)] for the type [tl_tree_get_type] finds, if any: 1 for
    [#], 0 for [Type], -1 otherwise. *)
Definition var_kind (t : option positive) : C Z :=
  match t with
  | None => ret (-1)
  | Some a =>
      let* t := get_type a in
      ret (if is_hash (ty_id t) then 1 else if is_Type (ty_id t) then 0 else -1)
  end.

Fixpoint change_var_ptrs (n : nat) (O D : ptr) (V : vtree) : C vtree :=
  match n with
  | O => out_of_fuel
  | S n =>
      if is_null O || is_null D then assert (is_null O && is_null D) ;; ret V
      else
        let* o := node O in
        let* V :=
          (if bool_decide (c_act o = act_field) then
             let* t := tl_tree_get_type n (c_left o) in
             let* kind := var_kind t in
             if kind >=? 0 then tl_set_var_value V O D else ret V
           else ret V) in
        (if bool_decide (c_act o = act_var) then
           let* d := node D in
           assert (bool_decide (c_data d = c_data o)) ;;
           let v := tl_get_var_value V (c_data o) in
           set_node D (n_set_data v) ;;
           assert (negb (is_null v))
         else ret tt) ;;
        let* d := node D in
        let* V := change_var_ptrs n (c_left o) (c_left d) V in
        let* d := node D in
        change_var_ptrs n (c_right o) (c_right d) V
  end.

(** The result and [*X].  Null is an error, -1 says that the node is to be
    removed, -2 that there is none. *)
Fixpoint change_first_var (n : nat) (O X Y : ptr) : C (ptr * ptr) :=
  match n with
  | O => out_of_fuel
  | S n =>
      if is_null O then ret (Neg2, X)
      else
        let* o := node O in
        let* kind :=
          (if bool_decide (c_act o = act_field) && is_null X then
             let* t := tl_tree_get_type n (c_left o) in var_kind t
           else ret (-1)) in
        if kind =? 1 then
          let* y := node Y in
          if negb (is_num (c_type y)) then ret (Null, X) else ret (Neg1, O)
        else if kind =? 0 then
          let* y := node Y in
          if negb (bool_decide (c_type y = type_type)) || negb (c_type_len y =? 0)
          then ret (Null, X) else ret (Neg1, O)
        else if bool_decide (c_act o = act_var) && bool_decide (c_data o = X) then
          let* R := tl_tree_dup n Y in
          (if is_num (c_type o) then
             set_node R (fun r => n_set_type_flags (i64 (c_type_flags r + c_type_flags o)) r)
           else ret tt) ;;
          ret (R, X)
        else
          let* (t, X) := change_first_var n (c_left o) X Y in
          match t with
          | Null => ret (Null, X)
          | Neg1 =>
              let* (t, X) := change_first_var n (c_right o) X Y in
              match t with
              | Null => ret (Null, X)
              | Neg1 | Neg2 => ret (Neg1, X)
              | t => ret (t, X)
              end
          | _ =>
              (if bool_decide (t = Neg2) then ret tt else set_node O (n_set_left t)) ;;
              let* o := node O in
              let* (t, X) := change_first_var n (c_right o) X Y in
              match t with
              | Null => ret (Null, X)
              | Neg1 => let* o := node O in ret (c_left o, X)
              | Neg2 => ret (O, X)
              | t => set_node O (n_set_right t) ;; ret (O, X)
              end
          end
  end.

Fixpoint reduce_type (n : nat) (A : ptr) (t : positive) : C ptr :=
  match n with
  | O => out_of_fuel
  | S n =>
      assert (negb (is_null A)) ;;
      let* a := node A in
      let* ty := get_type t in
      if c_type_len a =? ty_params_num ty then
        assert (c_type_flags a =? ty_params_types ty) ;;
        set_node A (fun a => mk_node act_type Null Null (ToType t) (c_flags a) type_type
                               (c_type_len a) (c_type_flags a)) ;;
        ret A
      else
        let* l := reduce_type n (c_left a) t in
        set_node A (n_set_left l) ;;
        ret A
  end.

(** [while (O->act == act_var)] of [change_value_var]. *)
Fixpoint change_value_loop (n : nat) (O : ptr) (X : vtree) : C ptr :=
  match n with
  | O => out_of_fuel
  | S n =>
      let* o := node O in
      if bool_decide (c_act o = act_var) then
        assert (negb (is_null (c_data o))) ;;
        let T := tl_get_var_value X (c_data o) in
        if is_null T then ret O
        else if bool_decide (c_type o = type_type) then
          let* O := tl_tree_dup n T in change_value_loop n O X
        else
          let num := tl_get_var_value_num X (c_data o) in
          let* t := node T in
          set_node O (fun o => mk_node (c_act t) (c_left o) (c_right o) (c_data t) (c_flags o) (c_type t)
                                 (c_type_len o) (i64 (c_type_flags o + num + c_type_flags t))) ;;
          change_value_loop n O X
      else ret O
  end.

Fixpoint change_value_var (n : nat) (O : ptr) (X : vtree) : C ptr :=
  match n with
  | O => out_of_fuel
  | S n =>
      if is_null O then ret Neg2
      else
        let* O := change_value_loop n O X in
        let* o := node O in
        if bool_decide (c_act o = act_field) && negb (is_null (tl_get_var_value X O)) then ret Neg1
        else
          let* t := change_value_var n (c_left o) X in
          match t with
          | Null => ret Null
          | Neg1 =>
              let* t := change_value_var n (c_right o) X in
              match t with
              | Null => ret Null
              | Neg1 | Neg2 => ret Neg1
              | t => ret t
              end
          | _ =>
              (if bool_decide (t = Neg2) then ret tt else set_node O (n_set_left t)) ;;
              let* o := node O in
              let* t := change_value_var n (c_right o) X in
              match t with
              | Null => ret Null
              | Neg1 => let* o := node O in ret (c_left o)
              | Neg2 => ret O
              | t => set_node O (n_set_right t) ;; ret O
              end
          end
  end.

(** ** Unification *)

(** -1: [var] does not occur; 0: the tree is [var]; 1: it occurs inside. *)
Fixpoint tl_tree_lookup_value (n : nat) (L var : ptr) (T : vtree) : C Z :=
  match n with
  | O => out_of_fuel
  | S n =>
      if is_null L then ret (-1)
      else
        let* l := node L in
        if bool_decide (c_act l = act_var) then
          if bool_decide (c_data l = var) then ret 0
          else
            let E := tl_get_var_value T (c_data l) in
            if is_null E then ret (-1) else tl_tree_lookup_value n E var T
        else
          let* x := tl_tree_lookup_value n (c_left l) var T in
          if x >=? 0 then ret 1
          else
            let* x := tl_tree_lookup_value n (c_right l) var T in
            ret (if x >=? 0 then 1 else -1)
  end.

Fixpoint tl_tree_lookup_value_nat (n : nat) (L var : ptr) (x : Z) (T : vtree) : C Z :=
  match n with
  | O => out_of_fuel
  | S n =>
      assert (negb (is_null L)) ;;
      let* l := node L in
      if bool_decide (c_type l = type_num_value) then ret (-1)
      else
        assert (bool_decide (c_type l = type_num)) ;;
        assert (bool_decide (c_act l = act_var)) ;;
        if bool_decide (c_data l = var) then ret (if x =? c_type_flags l then 0 else 1)
        else
          let E := tl_get_var_value T (c_data l) in
          if is_null E then ret (-1)
          else
            tl_tree_lookup_value_nat n E var (i64 (x + tl_get_var_value_num T (c_data l))) T
  end.

(** The two [while (1)] of [uniformize]: follow the bindings of [K], adding up
    [x].  [inl] is a return from [uniformize]. *)
Fixpoint nat_chain (n : nat) (K : ptr) (x : Z) (other : ptr) (T : vtree) : C (bool + ptr * Z) :=
  match n with
  | O => out_of_fuel
  | S n =>
      let* k := node K in
      let x := i64 (x + c_type_flags k) in
      if bool_decide (c_type k = type_num_value) then ret (inr (K, x))
      else
        let E := tl_get_var_value T (c_data k) in
        if is_null E then
          let* s := tl_tree_lookup_value_nat n other (c_data k) (c_type_flags k) T in
          if s >? 0 then ret (inl false)
          else if s =? 0 then ret (inl true)
          else ret (inr (K, x))
        else nat_chain n E (i64 (x + tl_get_var_value_num T (c_data k))) other T
  end.

(** The part of [uniformize] for natural numbers. *)
Definition uniformize_nat (n : nat) (L R : ptr) (T : vtree) : C (bool * vtree) :=
  let* l := node L in
  let* r := node R in
  assert (is_num (c_type l)) ;;
  if negb (is_num (c_type r)) then ret (false, T)
  else if bool_decide (c_data r = Neg1) || bool_decide (c_data l = Neg1) then ret (true, T)
  else
    let* o := nat_chain n L 0 R T in
    match o with
    | inl b => ret (b, T)
    | inr (K, x) =>
        let* o := nat_chain n R 0 L T in
        match o with
        | inl b => ret (b, T)
        | inr (M, y) =>
            let* k := node K in
            let* m := node M in
            let kv := bool_decide (c_type k = type_num_value) in
            let mv := bool_decide (c_type m = type_num_value) in
            if kv && mv then ret (x =? y, T)
            else if mv || negb kv && (x >=? y) then
              let* T := tl_set_var_value_num T (c_data k) M (- (x - y + c_type_flags m)) in
              ret (true, T)
            else
              let* T := tl_set_var_value_num T (c_data m) K (- (y - x + c_type_flags k)) in
              ret (true, T)
        end
    end.

Fixpoint uniformize (n : nat) (L R : ptr) (T : vtree) : C (bool * vtree) :=
  match n with
  | O => out_of_fuel
  | S n =>
      if is_null L || is_null R then assert (is_null L && is_null R) ;; ret (true, T)
      else
        let* r := node R in
        let '(L, R) := if bool_decide (c_act r = act_var) then (R, L) else (L, R) in
        let* l := node L in
        let* r := node R in
        if bool_decide (c_type l = type_type) then
          if negb (bool_decide (c_type r = type_type)) || negb (c_type_len l =? c_type_len r) ||
             negb (c_type_flags l =? c_type_flags r)
          then ret (false, T)
          else if bool_decide (c_data r = Neg1) || bool_decide (c_data l = Neg1) then ret (true, T)
          else if bool_decide (c_act l = act_var) then
            let* x := tl_tree_lookup_value n R (c_data l) T in
            if x >? 0 then ret (false, T)
            else if x =? 0 then ret (true, T)
            else
              let E := tl_get_var_value T (c_data l) in
              if is_null E then
                let* T := tl_set_var_value T (c_data l) R in ret (true, T)
              else uniformize n E R T
          else if negb (bool_decide (c_act l = c_act r)) || negb (bool_decide (c_data l = c_data r))
          then ret (false, T)
          else
            let* (b, T) := uniformize n (c_left l) (c_left r) T in
            if b : bool then uniformize n (c_right l) (c_right r) T else ret (false, T)
        else uniformize_nat n L R T
  end.

(** The [while (1)] of [check_nat_val]; [V] is the global [_T]. *)
Fixpoint check_nat_loop (n : nat) (V : vtree) (L : ptr) (x : Z) : C unit :=
  match n with
  | O => out_of_fuel
  | S n =>
      let* l := node L in
      if bool_decide (c_type l = type_num_value) then
        if i64 (x + c_type_flags l) <? 0 then modify (set_tok false) else ret tt
      else
        assert (bool_decide (c_type l = type_num)) ;;
        let x := i64 (x + c_type_flags l) in
        let x := i64 (x + tl_get_var_value_num V (c_data l)) in
        let L := tl_get_var_value V (c_data l) in
        if is_null L then ret tt else check_nat_loop n V L x
  end.

Definition check_nat_val (n : nat) (V : vtree) (v : tl_var_value) : C unit :=
  let* s := get in
  if negb (g_tok s) then ret tt
  else
    let* l := node (vv_val v) in
    if bool_decide (c_type l = type_type) then ret tt
    else check_nat_loop n V (vv_val v) (vv_num_val v).

Definition check_constructors_equal (n : nat) (L R : ptr) (T : vtree) : C (bool * vtree) :=
  let* (b, T) := uniformize n L R T in
  if negb b then ret (false, T)
  else
    modify (set_tok true) ;;
    tree_act (check_nat_val n T) T ;;
    let* s := get in ret (g_tok s, T).

End Unify.
