(* ===== verification/Values.v ===== *)
(** * Substitutions as finite maps

    The treap of variable values is used by the unifier, by the copies of
    combinators and by the writer's numbering of variables.  As long as the
    addresses of the nodes lie within 2 GB of each other, so that the
    comparison of addresses as [int]s is exact, it is a map from addresses to
    values. *)
From Stdlib Require Import ZArith Lia List Bool.
From stdpp Require Import base list gmap.
From S2P Require Import Prelude Treap Lexer Parser Symbols Combinator Unify.
Open Scope tl_scope.

Section Values.
Context (lrand48 : nat -> Z) (address : ptr -> Z) (base : Z).
Hypothesis Hwindow : forall p, base <= address p < base + 2 ^ 31.
Local Abbreviation cmp := (tl_var_value_cmp address).

#[export] Instance tl_var_value_cmp_laws : CmpLaws (fun _ => True) cmp.
Proof using Hwindow.
  constructor; unfold tl_var_value_cmp; intros.
  - by apply (ptr_cmp_laws base).
  - by apply (ptr_cmp_laws base).
  - by eapply (ptr_cmp_laws base).
Qed.

Lemma value_lookup T x :
  tree_ok (fun _ => True) cmp T -> tree_lookup cmp T x = sorted_find cmp x (inorder T).
Proof using Hwindow. exact (tree_lookup_ok (fun _ => True) cmp T x I). Qed.

(** A search tree whose variables are not null. *)
Definition values_ok (V : tree tl_var_value) : Prop :=
  tree_ok (fun _ => True) cmp V /\ Forall (fun v => vv_ptr v <> Null) (inorder V).

Lemma values_ok_Nil : values_ok Nil.
Proof. by repeat constructor. Qed.

Lemma lookup_same_key T a b : vv_ptr a = vv_ptr b -> tree_lookup cmp T a = tree_lookup cmp T b.
Proof.
  intros E. induction T as [|l IHl x y r IHr]; cbn; [done|]. rewrite IHl, IHr.
  unfold tl_var_value_cmp. by rewrite E.
Qed.

Lemma values_not_null V x r : values_ok V -> tree_lookup cmp V x = Some r -> is_null (vv_ptr r) = false.
Proof using Hwindow.
  intros [HV HN] E. rewrite value_lookup in E by done. apply find_some in E as [Hin _].
  rewrite Forall_forall in HN. apply bool_decide_eq_false_2, HN. by apply list_elem_of_In.
Qed.

Lemma lookup_values V p :
  values_ok V -> lookup_var_value address V p = sorted_find cmp (mk_value p Null 0) (inorder V).
Proof using Hwindow.
  intros HV. unfold lookup_var_value. destruct (tree_lookup _ _ _) as [r|] eqn:E.
  - rewrite (values_not_null V _ r HV E). rewrite value_lookup in E by apply HV. done.
  - rewrite value_lookup in E by apply HV. done.
Qed.

Lemma cmp_address p a q b c d :
  (cmp (mk_value p a b) (mk_value q c d) =? 0) = (address p =? address q).
Proof using Hwindow.
  unfold tl_var_value_cmp, ptr_cmp. cbn [vv_ptr]. pose proof (Hwindow p). pose proof (Hwindow q).
  rewrite i32_small by lia. apply eq_true_iff_eq. rewrite !Z.eqb_eq. lia.
Qed.

Lemma sorted_insert_Forall {X} (c : X -> X -> Z) (Q : X -> Prop) x l :
  Q x -> Forall Q l -> Forall Q (sorted_insert c x l).
Proof.
  intros Hx Hl. induction Hl as [|e l He Hl IH]; cbn; [by repeat constructor|].
  case_goal; by repeat constructor.
Qed.

(** Setting the value of a variable: nothing but the count of random numbers
    changes in the state, and the result is the updated map. *)
Lemma set_value_ok V var value num s :
  values_ok V -> var <> Null ->
  exists V', tl_set_var_value_num lrand48 address V var value num s = Ret (V', set_draws (S (draws s)) s) /\
    values_ok V' /\
    forall q, lookup_var_value address V' q =
      if address q =? address var then Some (mk_value var value (i32 num)) else lookup_var_value address V q.
Proof using Hwindow.
  intros HV Hvar. unfold tl_set_var_value_num. cbv zeta. set (t := mk_value var value (i32 num)).
  assert (exists W, (match lookup_var_value address V var return M sstate (tree tl_var_value) with
                     | Some _ => lift (tree_delete cmp V t) | None => ret V end) s = Ret (W, s) /\
     tree_ok (fun _ => True) cmp W /\ Forall (fun v => vv_ptr v <> Null) (inorder W) /\
     fresh cmp t (inorder W) /\
     forall q, sorted_find cmp (mk_value q Null 0) (inorder W) =
       if address q =? address var then None else lookup_var_value address V q) as (W & EW & HW & HN & HF & HL).
  { rewrite lookup_values by done. destruct HV as [HT HN].
    assert (Hk : sorted_find cmp (mk_value var Null 0) (inorder V) = sorted_find cmp t (inorder V)) by done.
    rewrite Hk. destruct (sorted_find cmp t (inorder V)) eqn:E.
    - destruct (tree_delete_ok (fun _ => True) cmp V t) as (W & EW & HW & IW);
        [done|done|by rewrite sorted_find_fresh, E|].
      exists W. unfold lift. rewrite EW. split; [done|]. split; [done|]. rewrite IW.
      split; [by apply sorted_remove_Forall|]. split.
      + apply sorted_find_fresh.
        rewrite (sorted_find_remove (fun _ => True) cmp t t) by (done || by apply Forall_forall).
        by rewrite (cmp_refl (CmpLaws := tl_var_value_cmp_laws)).
      + intros q. rewrite lookup_values by done.
        rewrite (sorted_find_remove (fun _ => True) cmp t) by (done || by apply Forall_forall).
        unfold t. by rewrite cmp_address.
    - exists V. split; [done|]. split; [done|]. split; [done|].
      split; [by apply sorted_find_fresh|]. intros q. rewrite lookup_values by done.
      destruct (address q =? address var) eqn:Eq; [|done]. zbool. etransitivity; [|exact E].
      unfold sorted_find, tl_var_value_cmp. cbn. by rewrite Eq. }
  unfold bind. rewrite EW. cbn [rbind]. unfold draw. cbn [rbind].
  destruct (tree_insert_ok (fun _ => True) cmp W t (lrand48 (draws s)) I HW HF) as (V' & EV & HV' & IV).
  exists V'. unfold lift. rewrite EV. split; [done|].
  assert (values_ok V') as HV2 by (split; [done|rewrite IV; by apply sorted_insert_Forall]).
  split; [done|]. intros q. rewrite lookup_values, IV by done.
  rewrite (sorted_find_insert (fun _ => True) cmp t); try done; try (by apply Forall_forall); try apply HW.
  unfold t at 1. rewrite cmp_address, HL. by destruct (address q =? address var).
Qed.

End Values.
