(* ===== verification/Sema.v ===== *)
(** * From the parse tree to the program (tl-parser.c, lines 1594 to 2117, 2286 to 2575, 2719 to 2785)

    The [tl_parse_*] functions turn the trees of [Parser] into combinator trees
    on the heap, fill the symbol tables and compute the names.  A null result
    is [Null] (or [None] where the value may be null on success); an [assert]
    that fails stops the run with [AssertFailed], a dereference of a null
    pointer with [BadPointer].  The recursion over the parse tree is
    structural. *)
From Stdlib Require Import ZArith Lia List Bool Ascii String.
From stdpp Require Import base list strings gmap.
From S2P Require Import Prelude Treap Lexer Parser Symbols Combinator Unify.
Open Scope tl_scope.

Notation "'let!' x ':=' m 'in' k" := (bind m (fun x => if is_null x then ret Null else k))
  (at level 10, x name, m at level 100, k at level 200) : tl_scope.

Section Sema.
Context (text : list Z) (lrand48 : nat -> Z) (garbage : Z) (address : ptr -> Z).
Context (beyond : list Z -> nat -> Z) (output_expressions : Z) (fuel : nat).

Local Abbreviation union := (tl_union fuel).
Local Abbreviation tl_get_var_value := (tl_get_var_value address).
Local Abbreviation tl_add_type := (tl_add_type lrand48 garbage).

(** The characters [T->text .. T->text + T->len]. *)
Definition t_string (T : ptree) : C (list Z) :=
  match t_text T with
  | POff p => ret (slice text p (t_len T))
  | _ => fail BadPointer
  end.

Definition has_type (T : ptree) (ty : tree_type) : bool := bool_decide (t_type T = ty).
Definition nc (T : ptree) : Z := Z.of_nat (List.length (t_c T)).

Definition TL_TRY (f : C ptr) (x : ptr) : C ptr := let! t := f in union x t.

(** ** Expressions *)

(** [while (i < T->nc) { TL_TRY (f (T->c[i], s), L); s = 0; i ++; }] *)
Fixpoint try_all (f : ptree -> Z -> C ptr) (c : list ptree) (s : Z) (L : ptr) : C ptr :=
  match c with
  | [] => ret L
  | T :: c => let! L := TL_TRY (f T s) L in try_all f c 0 L
  end.

Fixpoint term_children (f : ptree -> Z -> C ptr) (c : list ptree) (s : Z) : C ptr :=
  match c with
  | [] => fail AssertFailed
  | T :: c' => if has_type T type_percent then term_children f c' (s + 1) else try_all f c s Null
  end.

Definition tl_parse_term_with (f : ptree -> Z -> C ptr) (T : ptree) (s : Z) : C ptr :=
  assert (has_type T type_term) ;; term_children f (t_c T) s.

Definition tl_parse_type_term_with (f : ptree -> Z -> C ptr) (T : ptree) (s : Z) : C ptr :=
  assert (has_type T type_type_term) ;;
  match t_c T with
  | [X] =>
      let! Z := tl_parse_term_with f X s in
      let* z := node Z in
      if bool_decide (c_type z = type_type) then ret Z else ret Null
  | _ => fail AssertFailed
  end.

Definition tl_parse_nat_term_with (f : ptree -> Z -> C ptr) (T : ptree) (s : Z) : C ptr :=
  assert (has_type T type_nat_term) ;;
  match t_c T with
  | [X] =>
      let! Z := tl_parse_term_with f X s in
      let* z := node Z in
      if is_num (c_type z) then ret Z else ret Null
  | _ => fail AssertFailed
  end.

Definition tl_parse_subexpr_with (f : ptree -> Z -> C ptr) (T : ptree) (s : Z) : C ptr :=
  assert (has_type T type_subexpr) ;;
  assert (nc T >=? 1) ;;
  try_all f (t_c T) s Null.

Definition tl_parse_expr_with (f : ptree -> Z -> C ptr) (T : ptree) (s : Z) : C ptr :=
  assert (has_type T type_expr) ;;
  assert (nc T >=? 1) ;;
  try_all (tl_parse_subexpr_with f) (t_c T) s Null.

(** The value of a run of decimal digits, in a [long long]. *)
Definition decimal (l : list Z) : Z := fold_left (fun x c => i64 (i64 (i64 (x * 10) + c) - chr "0")) l 0.

Definition tl_parse_nat_const (T : ptree) (s : Z) : C ptr :=
  assert (has_type T type_nat_const) ;;
  assert (nc T =? 0) ;;
  if s >? 0 then ret Null
  else
    let* l := t_string T in
    new_node (mk_node act_nat_const Null Null Null 0 type_num_value 0 (decimal l)).

Definition tl_parse_ident (T : ptree) (s : Z) : C ptr :=
  assert (has_type T type_type_ident || has_type T type_var_ident || has_type T type_boxed_type_ident) ;;
  assert (nc T =? 0) ;;
  let* id := t_string T in
  let* v := tl_get_var id in
  match v with
  | Some a =>
      let* v := get_variable a in
      let type := if v_type v =? 0 then type_type else type_num in
      if bool_decide (type = type_num) && negb (s =? 0) then ret Null
      else
        new_node (mk_node act_var Null Null (v_ptr v) (if s =? 0 then 0 else 1) type 0 0)
  | None =>
      let* c := tl_get_constructor id in
      match c with
      | Some k =>
          let* c := get_constructor k in
          match k_type c with
          | None => fail AssertFailed
          | Some a =>
              let* t := get_type a in
              if negb (Z.of_nat (List.length (ty_constructors t)) =? 1) then ret Null
              else
                set_type a (fun t => ty_set_flags (Z.lor (ty_flags t) 1) t) ;;
                new_node (mk_node act_type Null Null (ToType a) 5 type_type
                            (ty_params_num t) (ty_params_types t))
          end
      | None =>
          if tl_is_type_name id then
            let* r := tl_add_type id (-1) 0 in
            match r with
            | None => fail BadPointer
            | Some a =>
                (if s =? 0 then ret tt
                 else set_type a (fun t => ty_set_flags (Z.lor (ty_flags t) 8) t)) ;;
                let* t := get_type a in
                new_node (mk_node act_type Null Null (ToType a) (if s =? 0 then 0 else 1) type_type
                            (ty_params_num t) (ty_params_types t))
            end
          else ret Null
      end
  end.

Fixpoint tl_parse_any_term (T : ptree) (s : Z) {struct T} : C ptr :=
  match t_type T with
  | type_type_term => tl_parse_type_term_with tl_parse_any_term T s
  | type_nat_term => tl_parse_nat_term_with tl_parse_any_term T s
  | type_term => tl_parse_term_with tl_parse_any_term T s
  | type_expr => tl_parse_expr_with tl_parse_any_term T s
  | type_subexpr => tl_parse_subexpr_with tl_parse_any_term T s
  | type_nat_const => tl_parse_nat_const T s
  | type_type_ident | type_var_ident => tl_parse_ident T s
  | _ => fail AssertFailed
  end.

Definition tl_parse_term : ptree -> Z -> C ptr := tl_parse_term_with tl_parse_any_term.
Definition tl_parse_type_term : ptree -> Z -> C ptr := tl_parse_type_term_with tl_parse_any_term.
Definition tl_parse_nat_term : ptree -> Z -> C ptr := tl_parse_nat_term_with tl_parse_any_term.
Definition tl_parse_subexpr : ptree -> Z -> C ptr := tl_parse_subexpr_with tl_parse_any_term.
Definition tl_parse_expr : ptree -> Z -> C ptr := tl_parse_expr_with tl_parse_any_term.

Definition tl_parse_multiplicity (T : ptree) : C ptr :=
  assert (has_type T type_multiplicity) ;;
  match t_c T with
  | [X] => tl_parse_nat_term X 0
  | _ => fail AssertFailed
  end.

(** ** Arguments *)

(** Variable names may not be an underscore. *)
Definition is_underscore (id : list Z) : bool := bool_decide (id = [chr "_"]).

Fixpoint opt_names_ok (names : list ptree) : C bool :=
  match names with
  | [] => ret true
  | X :: names =>
      if negb (has_type X type_var_ident) then ret false
      else
        let* id := t_string X in
        if is_underscore id then ret false else opt_names_ok names
  end.

(** The loop that declares the variables of an [{...}] argument. *)
Fixpoint opt_fields (names : list ptree) (R : ptr) (kind : Z) (H : ptr) : C ptr :=
  match names with
  | [] => ret H
  | X :: names =>
      let* F := new_node (mk_node act_field Null Null Null 0 type_list_item 0 0) in
      let* l := match names with [] => ret R | _ => tl_tree_dup fuel R end in
      let* id := t_string X in
      set_node F (fun n => n_set_data (ToStr id) (n_set_left l n)) ;;
      let* _ := tl_add_var lrand48 id F kind in
      set_node F (n_set_flags 33) ;;
      let* H := union H F in
      opt_fields names R kind H
  end.

Definition tl_parse_opt_args (T : ptree) : C ptr :=
  assert (has_type T type_opt_args) ;;
  assert (nc T >=? 2) ;;
  match last (t_c T) with
  | None => fail AssertFailed
  | Some X =>
      let! R := TL_TRY (tl_parse_type_term X 0) Null in
      let* r := node R in
      assert (bool_decide (c_type r = type_type) && (c_type_len r =? 0)) ;;
      let* ok := tl_finish_subtree fuel R in
      assert ok ;;
      let* t := tl_tree_get_type fuel R in
      let* kind := var_kind t in
      if kind <? 0 then ret Null
      else
        let names := removelast (t_c T) in
        let* ok := opt_names_ok names in
        if negb ok then ret Null else opt_fields names R kind Null
  end.

(** The loop of [tl_parse_args2]. *)
Fixpoint args_all (f : ptree -> C ptr) (c : list ptree) (R : ptr) : C (option ptr) :=
  match c with
  | [] => ret (Some R)
  | T :: c =>
      let* t := TL_TRY (f T) R in
      if is_null t then ret None else args_all f c t
  end.

(** The end of [tl_parse_args2], from [namespace_push] on. *)
Definition args2_items (f : ptree -> C ptr) (c : list ptree) (L field_name : ptr) : C ptr :=
  namespace_push ;;
  let* r := args_all f c Null in
  match r with
  | None => ret Null
  | Some R =>
      namespace_pop ;;
      let* A := new_node (mk_node act_array L R Null 0 type_type 0 0) in
      new_node (mk_node act_field A Null field_name 0 type_list_item 0 0)
  end.

(** From [if (T->c[x]->type == type_multiplicity)] on. *)
Definition args2_rest (f : ptree -> C ptr) (c : list ptree) (field_name : ptr) : C ptr :=
  match c with
  | [] => fail OutOfBounds
  | X :: c' =>
      if has_type X type_multiplicity then
        let! L := tl_parse_multiplicity X in args2_items f c' L field_name
      else
        let* v := tl_get_last_num_var in
        match v with
        | None => ret Null
        | Some a =>
            let* v := get_variable a in
            let* L := new_node (mk_node act_var Null Null (v_ptr v) 128 type_num 0 0) in
            set_node (v_ptr v) (fun n => n_set_flags (Z.lor (c_flags n) 256) n) ;;
            args2_items f c L field_name
        end
  end.

Definition tl_parse_args2_with (f : ptree -> C ptr) (T : ptree) : C ptr :=
  assert (has_type T type_args2) ;;
  match t_c T with
  | [] => fail AssertFailed
  | X :: c' =>
      if has_type X type_var_ident_opt || has_type X type_var_ident then
        let* id := t_string X in
        let* ok := tl_add_field lrand48 id in
        if negb ok then ret Null else args2_rest f c' (ToStr id)
      else args2_rest f (t_c T) Null
  end.

Fixpoint tl_mark_vars (n : nat) (T : ptr) : C unit :=
  match n with
  | O => out_of_fuel
  | S n =>
      if is_null T then ret tt
      else
        let* t := node T in
        (if bool_decide (c_act t = act_var) then
           let* id := var_name (c_data t) in
           let* v := tl_get_var id in
           match v with
           | None => fail AssertFailed
           | Some a => set_variable a (fun v => v_set_flags (Z.lor (v_flags v) 1) v)
           end
         else ret tt) ;;
        tl_mark_vars n (c_left t) ;;
        tl_mark_vars n (c_right t)
  end.

Definition FLAG_EXCL : Z := Z.shiftl 1 18.

(** [type_optional_arg_def]: the node [E] around [R]. *)
Definition optional_field (X : ptree) (R : ptr) : C ptr :=
  match t_c X with
  | [X0; X1] =>
      let* E := new_node (mk_node act_opt_field Null Null Null 0 type_type 0 0) in
      let* l := tl_parse_ident X0 0 in
      set_node E (n_set_left l) ;;
      let* digits := t_string X1 in
      set_node l (n_set_type_flags (decimal digits)) ;;
      let* r := node R in
      set_node E (fun e => n_set_right R (n_set_type_len (c_type_len r) (n_set_type_flags (c_type_flags r) e))) ;;
      ret E
  | _ => fail AssertFailed
  end.

(** The name of an unnamed variable: a random number in decimal. *)
Definition random_name : C (list Z) :=
  let* a := draw lrand48 in
  let* b := draw lrand48 in
  ret (lld (i64 (a * 2 ^ 32 + b))).

(** The loop that declares the fields; [None] is the iteration [i == -1]. *)
Fixpoint arg_fields (names : list (option ptree)) (R : ptr) (kind : Z) (excl : bool) (H : ptr) : C ptr :=
  match names with
  | [] => ret H
  | X :: names =>
      let* F := new_node (mk_node act_field Null Null Null 0 type_list_item 0 0) in
      let* l := match names with [] => ret R | _ => tl_tree_dup fuel R end in
      let* data := match X with Some X => let* id := t_string X in ret (Some id) | None => ret None end in
      set_node F (fun n => n_set_data (match data with Some id => ToStr id | None => Null end)
                             (n_set_left l n)) ;;
      (if excl then set_node F (fun n => n_set_flags (Z.lor (c_flags n) FLAG_EXCL) n) else ret tt) ;;
      let* ok :=
        match data with
        | Some id => if is_underscore id then ret true else tl_add_field lrand48 id
        | None => ret true
        end in
      if negb ok then ret Null
      else
        let* ok :=
          (if kind >=? 0 then
             let* name := match data with Some id => ret id | None => random_name end in
             let* v := tl_add_var lrand48 name F kind in
             match v with
             | None => ret false
             | Some a => set_variable a (fun v => v_set_flags (Z.lor (v_flags v) 2) v) ;; ret true
             end
           else ret true) in
        if negb ok then ret Null
        else
          let* H := union H F in
          arg_fields names R kind excl H
  end.

(** [T->c[last]], when [last >= 0], if it has type [ty]. *)
Definition last_is (c : list ptree) (ty : tree_type) : option ptree :=
  match last c with
  | Some X => if has_type X ty then Some X else None
  | None => None
  end.

Definition is_var_name (X : ptree) : bool :=
  has_type X type_var_ident || has_type X type_var_ident_opt.

Definition tl_parse_args134 (T : ptree) : C ptr :=
  assert (has_type T type_args1 || has_type T type_args3 || has_type T type_args4) ;;
  match last (t_c T) with
  | None => fail AssertFailed
  | Some X =>
      let! R := TL_TRY (tl_parse_type_term X 0) Null in
      let* ok := tl_finish_subtree fuel R in
      assert ok ;;
      let* r := node R in
      assert (bool_decide (c_type r = type_type) && (c_type_len r =? 0)) ;;
      let* t := tl_tree_get_type fuel R in
      let* kind := var_kind t in
      let names := removelast (t_c T) in
      let* (names, excl) :=
        match last_is names type_exclam with
        | Some _ => tl_mark_vars fuel R ;; ret (removelast names, true)
        | None => ret (names, false)
        end in
      let* (names, R) :=
        match last_is names type_optional_arg_def with
        | Some X => let* E := optional_field X R in ret (removelast names, E)
        | None => ret (names, R)
        end in
      if negb (forallb is_var_name (removelast names)) then ret Null
      else arg_fields (match names with [] => [None] | _ => map Some names end) R kind excl Null
  end.

Fixpoint tl_parse_args (T : ptree) : C ptr :=
  assert (has_type T type_args) ;;
  match t_c T with
  | [X] =>
      match t_type X with
      | type_args1 | type_args3 | type_args4 => tl_parse_args134 X
      | type_args2 => tl_parse_args2_with tl_parse_args X
      | _ => fail AssertFailed
      end
  | _ => fail AssertFailed
  end.

Definition tl_parse_args2 : ptree -> C ptr := tl_parse_args2_with tl_parse_args.

(** ** Combinators *)

(** [for (i = 1; i < T->nc; i++)] of [tl_parse_result_type]. *)
Fixpoint result_args (c : list ptree) (L : ptr) : C ptr :=
  match c with
  | [] => ret L
  | T :: c =>
      let! L := TL_TRY (tl_parse_any_term T 0) L in
      let* l := node L in
      assert (negb (is_null (c_right l))) ;;
      let* r := node (c_right l) in
      assert (is_num (c_type r) || bool_decide (c_type r = type_type) && (c_type_len r =? 0)) ;;
      result_args c L
  end.

Definition tl_parse_result_type (T : ptree) : C ptr :=
  assert (has_type T type_result_type) ;;
  assert (nc T <=? 64) ;;
  match t_c T with
  | [] => fail AssertFailed
  | X :: args =>
      let* id := t_string X in
      let* v := tl_get_var id in
      let! L :=
        match v with
        | Some a =>
            if negb (nc T =? 1) then ret Null
            else
              let* v := get_variable a in
              if negb (v_type v =? 0) then ret Null
              else new_node (mk_node act_var Null Null (v_ptr v) 0 type_type 0 0)
        | None =>
            let* r := tl_add_type id (-1) 0 in
            match r with
            | None => fail AssertFailed
            | Some a =>
                let* t := get_type a in
                let* L := new_node (mk_node act_type Null Null (ToType a) 0 type_type
                                      (ty_params_num t) (ty_params_types t)) in
                result_args args L
            end
        end in
      let* ok := tl_finish_subtree fuel L in
      if negb ok then ret Null else tl_mark_vars fuel L ;; ret L
  end.

(** [tl_var_check_used] *)
Definition tl_var_check_used (e : entry) : C unit :=
  let* v := get_variable (snd e) in
  modify (fun s => set_ok (g_ok s && has (v_flags v) 3) s).

(** [while (i < T->nc - 2 && T->c[i]->type == ty) { TL_TRY (f (T->c[i]), L); i ++; }]:
    the children left and [L]. *)
Fixpoint try_while (ty : tree_type) (f : ptree -> C ptr) (c : list ptree) (L : ptr)
  : C (option (list ptree * ptr)) :=
  match c with
  | T :: c' =>
      if has_type T ty then
        let* t := TL_TRY (f T) L in
        if is_null t then ret None else try_while ty f c' t
      else ret (Some (c, L))
  | [] => ret (Some (c, L))
  end.

(** The last part of the functions that make a combinator: store the trees,
    compute the name unless it was given, print. *)
Definition finish_combinator (k : positive) (L R : ptr) : C unit :=
  set_constructor k (k_set_trees L R) ;;
  let* c := get_constructor k in
  (if k_name c =? 0 then let* _ := tl_count_combinator_name fuel k in ret tt else ret tt) ;;
  let* _ := tl_print_combinator output_expressions fuel k in
  ret tt.

Definition tl_parse_combinator_decl (T : ptree) (fun_ : bool) : C Z :=
  assert (has_type T type_combinator_decl) ;;
  assert (nc T >=? 3) ;;
  modify (set_level 0) ;;
  tl_clear_vars ;;
  tl_clear_fields ;;
  let inner := take (List.length (t_c T) - 3) (drop 1 (t_c T)) in
  let* r := try_while type_opt_args tl_parse_opt_args inner Null in
  match r with
  | None => ret 0
  | Some (inner, L) =>
      let* r := try_while type_args tl_parse_args inner L in
      match r, t_c T, drop (List.length (t_c T) - 2) (t_c T) with
      | None, _, _ => ret 0
      | Some (inner, L), X :: _, [E; Y] =>
          assert (bool_decide (inner = []) && has_type E type_equals) ;;
          let* R := tl_parse_result_type Y in
          if is_null R then ret 0
          else
            let* t := tl_tree_get_type fuel R in
            assert (bool_decide (is_Some t) || fun_) ;;
            let* s := get in
            assert (namespace_level s =? 0) ;;
            modify (set_ok true) ;;
            let* V := elem (vars s) 0 in
            tree_act tl_var_check_used V ;;
            let* s := get in
            if negb (g_ok s) then ret 0
            else
              let* id := t_string X in
              let* c := tl_get_constructor id in
              let* f := tl_get_function id in
              if bool_decide (is_Some c) || bool_decide (is_Some f) then ret 0
              else
                let* k :=
                  (if fun_ then tl_add_function lrand48 t id false
                   else match t with
                        | Some a => tl_add_constructor lrand48 a id false
                        | None => fail AssertFailed
                        end) in
                match k with
                | None => ret 0
                | Some k => finish_combinator k L R ;; ret 1
                end
      | _, _, _ => fail AssertFailed
      end
  end.

(** ** Partial applications *)

(** [snprintf (_buf, 100000, "%s%.*s", id, buf_pos, buf)] *)
Definition applied_id (id : list Z) : C (list Z) :=
  let* s := get in ret (take (Z.to_nat 99999) (id ++ buf s)).

Fixpoint app_args (c : list ptree) (L : ptr) : C ptr :=
  match c with
  | [] => ret L
  | T :: c =>
      let! L := TL_TRY (tl_parse_any_term T 0) L in
      let* l := node L in
      tl_buf_add_tree fuel (c_right l) true ;;
      app_args c L
  end.

(** [while (L->type_len)]: wild cards for the arguments that are left. *)
Fixpoint app_wild (n : nat) (L : ptr) : C ptr :=
  match n with
  | O => out_of_fuel
  | S n =>
      let* l := node L in
      if c_type_len l =? 0 then ret L
      else
        let* W := new_node (mk_node act_var Null Null Neg1 0
                              (if has (c_type_flags l) 1 then type_num else type_type) 0 0) in
        let! L := union L W in
        app_wild n L
  end.

(** The body of the loop over the constructors of the type. *)
Definition app_constructor (nt : positive) (L : ptr) (k : positive) : C unit :=
  let* c := get_constructor k in
  let* A := tl_tree_dup fuel (k_left c) in
  let* B := tl_tree_dup fuel (k_right c) in
  let* W := change_var_ptrs lrand48 address fuel (k_left c) A Nil in
  let* _ := change_var_ptrs lrand48 address fuel (k_right c) B W in
  let* (ok, V) := check_constructors_equal lrand48 address fuel B L Nil in
  if negb ok then ret tt
  else
    let* B := reduce_type fuel B nt in
    let* A := change_value_var address fuel A V in
    let A := if bool_decide (A = Neg1) then Null else A in
    let* B := change_value_var address fuel B V in
    assert (negb (bool_decide (B = Neg1))) ;;
    let* id := applied_id (k_id c) in
    let* r := tl_add_constructor lrand48 nt id true in
    match r with
    | None => fail BadPointer
    | Some r =>
        set_constructor r (k_set_real_id (Some (take (Z.to_nat 99999) (k_id c)))) ;;
        finish_combinator r A B
    end.

Fixpoint app_constructors (n : nat) (i : nat) (t nt : positive) (L : ptr) : C unit :=
  match n with
  | O => out_of_fuel
  | S n =>
      let* ty := get_type t in
      match ty_constructors ty !! i with
      | None => ret tt
      | Some k => app_constructor nt L k ;; app_constructors n (S i) t nt L
      end
  end.

Definition tl_parse_partial_type_app_decl (T : ptree) : C Z :=
  assert (has_type T type_partial_type_app_decl) ;;
  match t_c T with
  | [] => fail AssertFailed
  | X :: args =>
      assert (has_type X type_boxed_type_ident) ;;
      let* id := t_string X in
      let* t := tl_get_type id in
      match t with
      | None => ret 0
      | Some t =>
          tl_type_finalize t ;;
          let* L := tl_parse_ident X 0 in
          assert (negb (is_null L)) ;;
          tl_buf_reset ;;
          let cc := Z.of_nat (List.length args) in
          let* L := app_args args L in
          if is_null L then ret 0
          else
            let* L := app_wild fuel L in
            if is_null L then ret 0
            else
              let* ty := get_type t in
              let* id := applied_id (ty_id ty) in
              let* nt := tl_add_type id (ty_params_num ty - cc) (Z.shiftr (ty_params_types ty) cc) in
              match nt with
              | None => fail AssertFailed
              | Some nt => app_constructors fuel 0 t nt L ;; ret 1
              end
      end
  end.

(** The loop over the arguments of [tl_parse_partial_comb_app_decl]; [None] is
    [TL_FAIL], otherwise [L] at the end. *)
Fixpoint comb_args (c : list ptree) (L R : ptr) : C (option ptr) :=
  match c with
  | [] => ret (Some L)
  | T :: c =>
      let* X := tl_parse_any_term T 0 in
      let* (Z, K) := change_first_var fuel L Null X in
      if is_null Z then ret None
      else
        let L := Z in
        if is_null K then ret None
        else
          let* (Z, K) := change_first_var fuel R K X in
          if is_null Z then ret None
          else
            assert (bool_decide (Z = R)) ;;
            tl_buf_add_tree fuel X true ;;
            comb_args c L R
  end.

Definition tl_parse_partial_comb_app_decl (T : ptree) (fun_ : bool) : C Z :=
  assert (has_type T type_partial_comb_app_decl) ;;
  match t_c T with
  | [] => fail OutOfBounds
  | X :: args =>
      let* id := t_string X in
      let* k := (if fun_ then tl_get_function id else tl_get_constructor id) in
      match k with
      | None => ret 0
      | Some k =>
          let* c := get_constructor k in
          let* L := tl_tree_dup fuel (k_left c) in
          let* R := tl_tree_dup fuel (k_right c) in
          let* V := change_var_ptrs lrand48 address fuel (k_left c) L Nil in
          let* _ := change_var_ptrs lrand48 address fuel (k_right c) R V in
          tl_buf_reset ;;
          let* r := comb_args args L R in
          match r with
          | None => ret 0
          | Some L =>
              let* id := applied_id (k_id c) in
              let* r :=
                (if fun_ then tl_add_function lrand48 (k_type c) id true
                 else match k_type c with
                      | Some a => tl_add_constructor lrand48 a id true
                      | None => fail AssertFailed
                      end) in
              match r with
              | None => fail BadPointer
              | Some r =>
                  set_constructor r (k_set_real_id (Some (take (Z.to_nat 99999) (k_id c)))) ;;
                  finish_combinator r L R ;;
                  ret 1
              end
          end
      end
  end.

Definition tl_parse_partial_app_decl (T : ptree) (fun_ : bool) : C Z :=
  assert (has_type T type_partial_app_decl) ;;
  match t_c T with
  | [X] =>
      if has_type X type_partial_comb_app_decl then tl_parse_partial_comb_app_decl X fun_
      else if fun_ then ret 0 else tl_parse_partial_type_app_decl X
  | _ => fail AssertFailed
  end.

(** ** Final statements and built-in types *)

Definition FLAG_EMPTY : Z := Z.shiftl 1 10.

(** The only child of a final statement, and the type it names. *)
Definition final_child (T : ptree) (ty : tree_type) : C (list Z * option positive) :=
  assert (has_type T ty) ;;
  match t_c T with
  | [X] => let* id := t_string X in let* t := tl_get_type id in ret (id, t)
  | _ => fail AssertFailed
  end.

Definition tl_parse_final_final (T : ptree) : C Z :=
  let* (_, t) := final_child T type_final_final in
  match t with
  | Some a => set_type a (fun t => ty_set_flags (Z.lor (ty_flags t) 1) t) ;; ret 1
  | None => ret 0
  end.

Definition tl_parse_final_new (T : ptree) : C Z :=
  let* (_, t) := final_child T type_final_new in
  match t with
  | Some _ => ret 0
  | None => ret 1
  end.

Definition tl_parse_final_empty (T : ptree) : C Z :=
  let* (id, t) := final_child T type_final_empty in
  match t with
  | Some _ => ret 0
  | None =>
      let* t := tl_add_type id 0 0 in
      match t with
      | None => fail AssertFailed
      | Some a =>
          set_type a (fun t => ty_set_flags (Z.lor (ty_flags t) (Z.lor 1 FLAG_EMPTY)) t) ;; ret 1
      end
  end.

Definition tl_parse_final_decl (T : ptree) (fun_ : bool) : C Z :=
  assert (has_type T type_final_decl) ;;
  assert (negb fun_) ;;
  match t_c T with
  | [X] =>
      match t_type X with
      | type_final_new => tl_parse_final_new X
      | type_final_final => tl_parse_final_final X
      | type_final_empty => tl_parse_final_empty X
      | _ => fail AssertFailed
      end
  | _ => fail AssertFailed
  end.

Definition builtins : list (string * string) :=
  [("int", "Int"); ("long", "Long"); ("double", "Double"); ("object", "Object");
   ("function", "Function"); ("string", "String")]%string.

(** The condition of the [if]. *)
Definition is_builtin_pair (c t : list Z) : bool :=
  existsb (fun '(x, y) => (mystrcmp2 beyond c (str x) =? 0) && (mystrcmp2 beyond t (str y) =? 0)) builtins.

Definition tl_parse_builtin_combinator_decl (T : ptree) (fun_ : bool) : C Z :=
  if fun_ then ret (-1)
  else
    assert (has_type T type_builtin_combinator_decl) ;;
    match t_c T with
    | [X; Y] =>
        assert (has_type X type_full_combinator_id) ;;
        assert (has_type Y type_boxed_type_ident) ;;
        let* c := t_string X in
        let* t := t_string Y in
        if negb (is_builtin_pair c t) then ret 0
        else
          let* a := tl_add_type t 0 0 in
          match a with
          | None => ret 0
          | Some a =>
              let* k := tl_add_constructor lrand48 a c false in
              match k with
              | None => ret 0
              | Some k =>
                  let* L := new_node (mk_node act_question_mark Null Null Null 0 type_list_item 0 0) in
                  let* R := new_node (mk_node act_type Null Null (ToType a) 0 type_type 0 0) in
                  finish_combinator k L R ;;
                  ret 1
              end
          end
    | _ => fail AssertFailed
    end.

(** ** The program *)

Definition tl_parse_declaration (T : ptree) (fun_ : bool) : C Z :=
  assert (has_type T type_declaration) ;;
  match t_c T with
  | [X] =>
      match t_type X with
      | type_combinator_decl => tl_parse_combinator_decl X fun_
      | type_partial_app_decl => tl_parse_partial_app_decl X fun_
      | type_final_decl => tl_parse_final_decl X fun_
      | type_builtin_combinator_decl => tl_parse_builtin_combinator_decl X fun_
      | _ => fail AssertFailed
      end
  | _ => fail AssertFailed
  end.

(** [for (...) { TL_TRY_PES (f (T->c[i])); } return 1;] *)
Fixpoint try_pes (f : ptree -> C Z) (c : list ptree) : C Z :=
  match c with
  | [] => ret 1
  | T :: c => let* r := f T in if r =? 0 then ret 0 else try_pes f c
  end.

Definition tl_parse_constr_declarations (T : ptree) : C Z :=
  assert (has_type T type_constr_declarations) ;;
  try_pes (fun X => tl_parse_declaration X false) (t_c T).

Definition tl_parse_fun_declarations (T : ptree) : C Z :=
  assert (has_type T type_fun_declarations) ;;
  try_pes (fun X => tl_parse_declaration X true) (t_c T).

(** [t->name ^= t->constructors[i]->name] *)
Fixpoint xor_names (l : list positive) (x : Z) : C Z :=
  match l with
  | [] => ret x
  | k :: l => let* c := get_constructor k in xor_names l (Z.lxor x (k_name c))
  end.

(** The double loop that compares the right sides of the constructors. *)
Fixpoint overlap_with (a k : positive) (l : list positive) : C unit :=
  match l with
  | [] => ret tt
  | k2 :: l =>
      let* c1 := get_constructor k in
      let* c2 := get_constructor k2 in
      let* (b, _) := check_constructors_equal lrand48 address fuel (k_right c1) (k_right c2) Nil in
      (if b : bool then set_type a (fun t => ty_set_flags (Z.lor (ty_flags t) 16) t) else ret tt) ;;
      overlap_with a k l
  end.

Fixpoint overlaps (a : positive) (l : list positive) : C unit :=
  match l with
  | [] => ret tt
  | k :: l => overlap_with a k l ;; overlaps a l
  end.

(** [z] and [sid]: the number of default constructors and the index of the
    last one. *)
Fixpoint default_constructors (l : list positive) (i : nat) (z : Z) (sid : nat) : C (Z * nat) :=
  match l with
  | [] => ret (z, sid)
  | k :: l =>
      let* c := get_constructor k in
      if starts_underscore (k_id c) then default_constructors l (S i) (z + 1) i
      else default_constructors l (S i) z sid
  end.

(** [constructors[sid]] and the last element change places. *)
Definition swap_last (sid : nat) (l : list positive) : list positive :=
  match l !! sid, last l with
  | Some c, Some e => <[pred (List.length l) := c]> (<[sid := e]> l)
  | _, _ => l
  end.

Definition tl_type_check (e : entry) : C unit :=
  let a := snd e in
  let* s := get in
  if negb (g_ok s) then ret tt
  else
    let* t := get_type a in
    if is_hash (ty_id t) then set_type a (ty_set_name 0x70659eff)
    else if is_Type (ty_id t) then set_type a (ty_set_name 0x2cecf817)
    else if (Z.of_nat (List.length (ty_constructors t)) <=? 0) && negb (has (ty_flags t) FLAG_EMPTY)
    then modify (set_ok false)
    else
      let* x := xor_names (ty_constructors t) 0 in
      set_type a (ty_set_name x) ;;
      overlaps a (ty_constructors t) ;;
      let* (z, sid) := default_constructors (ty_constructors t) 0 0 0 in
      let* t := get_type a in
      if z >? 1 then modify (set_ok false)
      else if (z =? 1) && has (ty_flags t) 8 then modify (set_ok false)
      else if negb (z =? 0) then
        set_type a (fun t => ty_set_constructors (swap_last sid (ty_constructors t)) t)
      else ret tt.

(** The program is built ([true]) or the result is null. *)
Definition tl_parse (T : ptree) : C bool :=
  assert (has_type T type_tl_program) ;;
  let* _ := tl_add_type (str "#") 0 0 in
  let* _ := tl_add_type (str "Type") 0 0 in
  let* r := try_pes (fun X => if has_type X type_constr_declarations
                              then tl_parse_constr_declarations X
                              else tl_parse_fun_declarations X) (t_c T) in
  if r =? 0 then ret false
  else
    modify (set_ok true) ;;
    let* s := get in
    tree_act tl_type_check (tl_type_tree s) ;;
    let* s := get in
    ret (g_ok s).

End Sema.
