(* ===== verification/Invariant.v ===== *)
(** * What the second phase keeps

    The invariant of the whole program that [tl_parse] builds: the symbol
    tables are well formed ([tables_ok]), every type on the heap is in its
    table, the list of constructors of a type holds exactly constructors of that
    type, without repetition, and the counters that the writer writes are the
    sizes of what it writes after them.  Every function of the second phase
    keeps it, partial applications and failing declarations included. *)
From Stdlib Require Import ZArith Lia List Bool Ascii String.
From stdpp Require Import base list strings gmap fin_maps sorting.
From S2P Require Import Prelude Crc32 Treap Lexer Parser Symbols Tables Combinator Unify Sema.
Open Scope tl_scope.

(** ** The invariant *)

(** The number of constructors in the lists of all types. *)
Definition listed (T : gmap positive tl_type) : Z :=
  map_fold (fun _ t n => Z.of_nat (List.length (ty_constructors t)) + n) 0 T.

Record prog_ok (s : sstate) : Prop := {
  ok_tables : tables_ok s;
  ok_types : forall a t, tys s !! a = Some t -> (ty_id t, a) ∈ inorder (tl_type_tree s);
  ok_linked : forall a t k, tys s !! a = Some t -> k ∈ ty_constructors t ->
    exists c, constructors s !! k = Some c /\ k_type c = Some a;
  ok_once : forall a t, tys s !! a = Some t -> NoDup (ty_constructors t);
  ok_owned : forall e, e ∈ inorder (tl_constructor_tree s) -> exists a t,
    tys s !! a = Some t /\ snd e ∈ ty_constructors t;
  ok_total_constructors : total_constructors_num s = i32 (listed (tys s));
  ok_file : file s = []
}.

Lemma init_prog_ok : prog_ok init_sstate.
Proof.
  constructor; try done; [apply init_tables_ok|]. intros e He. by apply not_elem_of_nil in He.
Qed.

Lemma listed_insert T a t : T !! a = None ->
  listed (<[a := t]> T) = Z.of_nat (List.length (ty_constructors t)) + listed T.
Proof. intros Ha. unfold listed. rewrite map_fold_insert_L; [done|lia|done]. Qed.

Lemma listed_update T a t t' : T !! a = Some t ->
  listed (<[a := t']> T) =
  listed T - Z.of_nat (List.length (ty_constructors t)) + Z.of_nat (List.length (ty_constructors t')).
Proof.
  intros Ha. rewrite <- (insert_delete_id T a t Ha) at 1 2. rewrite insert_insert_eq.
  rewrite !listed_insert by apply lookup_delete_eq. lia.
Qed.

(** ** The logic *)

Definition keeps {A} (m : C A) : Prop := forall s a s', prog_ok s -> m s = Ret (a, s') -> prog_ok s'.

Create HintDb keeps.

Section Rules.
Context {A B : Type}.

Lemma keeps_ret (x : A) : keeps (ret x).
Proof. intros s a s' Hs [= <- <-]. exact Hs. Qed.

Lemma keeps_fail f : keeps (A := A) (fail f).
Proof. done. Qed.

Lemma keeps_out_of_fuel : keeps (A := A) out_of_fuel.
Proof. done. Qed.

Lemma keeps_bind (m : C A) (k : A -> C B) : keeps m -> (forall x, keeps (k x)) -> keeps (bind m k).
Proof. intros Hm Hk s b s' Hs (x & s1 & E1 & E2)%bind_Ret. eapply Hk, E2. by eapply Hm. Qed.

Lemma keeps_get : keeps get.
Proof. intros s a s' Hs [= <- <-]. exact Hs. Qed.

Lemma keeps_assert b : keeps (assert b).
Proof. destruct b; [|done]. intros s a s' Hs [= <- <-]. exact Hs. Qed.

Lemma keeps_lift (r : result A) : keeps (lift r).
Proof. intros s a s' Hs. unfold lift. destruct r; [|done..]. intros [= <- <-]. exact Hs. Qed.

Lemma keeps_load (h : sstate -> gmap positive A) p : keeps (load_at h p).
Proof. intros s a s' Hs. unfold load_at. destruct (h s !! p); [|done]. intros [= <- <-]. exact Hs. Qed.

Lemma keeps_elem (l : list A) i : keeps (elem l i).
Proof. unfold elem. destruct (if 0 <=? i then _ else _) as [y|]; [|done]. intros s a s' Hs [= <- <-]. exact Hs. Qed.

Lemma keeps_each (act : A -> C unit) l : (forall x, keeps (act x)) -> keeps (each act l).
Proof.
  intros Ha. induction l as [|x l IH]; cbn [each].
  - intros s a s' Hs [= <- <-]. exact Hs.
  - intros s b s' Hs (y & s1 & E1 & E2)%bind_Ret. eapply IH, E2. by eapply Ha.
Qed.

Lemma keeps_tree_act (act : A -> C unit) T : (forall x, keeps (act x)) -> keeps (tree_act act T).
Proof. intros Ha s x s' Hs. rewrite tree_act_inorder. by apply keeps_each. Qed.
End Rules.

#[export] Hint Resolve keeps_ret keeps_fail keeps_out_of_fuel keeps_get keeps_assert keeps_lift
  keeps_load keeps_elem : keeps.

(** Walk over the code: sequences, branches, and the operations in the database. *)
Ltac keep :=
  repeat (intros; cbv beta zeta;
    first
    [ solve [auto with keeps nocore]
    | match goal with
      | |- keeps (bind _ _) => apply keeps_bind; [|intros ?; cbv beta zeta]
      | |- keeps (tree_act _ _) => apply keeps_tree_act
      | |- keeps (each _ _) => apply keeps_each
      | |- keeps (match ?x with _ => _ end) => destruct x
      end ]).

(** ** The heap *)

(** Changes that the invariant does not see. *)
Lemma prog_ok_same s s' :
  prog_ok s ->
  tys s' = tys s -> constructors s' = constructors s -> (brk s <= brk s')%positive ->
  tl_type_tree s' = tl_type_tree s -> tl_constructor_tree s' = tl_constructor_tree s ->
  tl_function_tree s' = tl_function_tree s -> total_types_num s' = total_types_num s ->
  total_constructors_num s' = total_constructors_num s -> total_functions_num s' = total_functions_num s ->
  file s' = file s ->
  0 <= namespace_level s' < 10 -> Forall entries_ok (vars s') -> Forall (tree_ok (fun _ => True) strcmp) (fields s') ->
  (List.length (vars s') = 10 /\ List.length (fields s') = 10 /\ List.length (last_num_var s') = 10)%nat ->
  prog_ok s'.
Proof.
  intros [[] ? ? ? ? ? ?] Ht Hc Hb HT HK HF Hn1 Hn2 Hn3 Hfile Hl Hv Hf Hsz.
  constructor; [constructor|..]; rewrite ?Ht, ?Hc, ?HT, ?HK, ?HF, ?Hn1, ?Hn2, ?Hn3, ?Hfile; try done.
  - intros a Ha. apply tab_fresh_types. lia.
  - intros a Ha. apply tab_fresh_constructors. lia.
Qed.

(** The same when the scopes do not change either. *)
Ltac same_scopes Hs :=
  destruct (ok_tables _ Hs); eapply (prog_ok_same _ _ Hs); cbn in *; try done; try lia.

Lemma keeps_modify_same (f : sstate -> sstate) :
  (forall s, prog_ok s -> prog_ok (f s)) -> keeps (modify f).
Proof. intros Hf s a s' Hs [= <- <-]. by apply Hf. Qed.

Lemma keeps_node p : keeps (node p).
Proof. destruct p; cbn; keep. Qed.

Lemma keeps_get_type a : keeps (get_type a).
Proof. apply keeps_load. Qed.
Lemma keeps_get_constructor a : keeps (get_constructor a).
Proof. apply keeps_load. Qed.
Lemma keeps_get_variable a : keeps (get_variable a).
Proof. apply keeps_load. Qed.

Lemma keeps_new_node n : keeps (new_node n).
Proof.
  intros s a s' Hs. unfold new_node, alloc, bind, ret. cbn. intros [= <- <-].
  destruct s. same_scopes Hs.
Qed.

Lemma keeps_set_node p f : keeps (set_node p f).
Proof.
  destruct p; try done. intros s x s' Hs. cbn. unfold store_at. destruct (nodes s !! a); [|done].
  intros [= <- <-]. destruct s. same_scopes Hs.
Qed.

Lemma keeps_set_variable a f : keeps (set_variable a f).
Proof.
  intros s x s' Hs. unfold set_variable, store_at. destruct (variables s !! a); [|done].
  intros [= <- <-]. destruct s. same_scopes Hs.
Qed.

Lemma keeps_draw rnd : keeps (draw rnd).
Proof. intros s x s' Hs [= <- <-]. destruct s. same_scopes Hs. Qed.

Lemma keeps_set_ok b : keeps (modify (set_ok b)).
Proof. apply keeps_modify_same. intros s Hs. destruct s. same_scopes Hs. Qed.

Lemma keeps_set_tok b : keeps (modify (set_tok b)).
Proof. apply keeps_modify_same. intros s Hs. destruct s. same_scopes Hs. Qed.

Lemma keeps_set_level : keeps (modify (set_level 0)).
Proof. apply keeps_modify_same. intros s Hs. destruct s. same_scopes Hs. Qed.

Lemma keeps_check_used g : keeps (modify (fun s => set_ok (g s) s)).
Proof. apply keeps_modify_same. intros s Hs. destruct s. same_scopes Hs. Qed.

Lemma keeps_print : keeps (modify (fun s => set_printed (printed s ++ [buf s]) s)).
Proof. apply keeps_modify_same. intros s Hs. destruct s. same_scopes Hs. Qed.

Lemma keeps_buf_reset : keeps tl_buf_reset.
Proof. apply keeps_modify_same. intros s Hs. destruct s. same_scopes Hs. Qed.

Lemma keeps_buf_write x : keeps (buf_write x).
Proof.
  intros s a s' Hs. unfold buf_write. destruct (_ <? _); [|done]. intros [= <- <-].
  destruct s. same_scopes Hs.
Qed.

(** A type that keeps its identifier and its constructors, in any order. *)
Lemma keeps_set_type a f :
  (forall t, ty_id (f t) = ty_id t /\ ty_constructors (f t) ≡ₚ ty_constructors t) -> keeps (set_type a f).
Proof.
  intros Hf s x s' Hs. unfold set_type, store_at. destruct (tys s !! a) as [t|] eqn:Et; [|done].
  intros [= <- <-]. destruct (Hf t) as [Hid Hc]. destruct Hs as [[] HT HL HO HW HN HF]. destruct s; cbn in *.
  assert (Hlook : forall b u, <[a := f t]> tys !! b = Some u -> exists u0, tys !! b = Some u0 /\
    ty_id u = ty_id u0 /\ ty_constructors u ≡ₚ ty_constructors u0).
  { intros b u Hb. destruct (decide (a = b)) as [<-|]; [|rewrite lookup_insert_ne in Hb by done; eauto].
    rewrite lookup_insert_eq in Hb. injection Hb as <-. eauto. }
  constructor; [constructor|..]; cbn; try done.
  - intros e He. destruct (tab_types_valid e He) as (u & Hu & Hue).
    destruct (decide (a = snd e)) as [->|]; [|exists u; by rewrite lookup_insert_ne].
    exists (f t). rewrite lookup_insert_eq. split; [done|]. congruence.
  - intros b Hb. rewrite lookup_insert_ne; [by apply tab_fresh_types|].
    intros <-. rewrite tab_fresh_types in Et; done.
  - intros b u Hb. destruct (Hlook b u Hb) as (u0 & Hu0 & -> & _). by apply HT.
  - intros b u k Hb Hk. destruct (Hlook b u Hb) as (u0 & Hu0 & _ & Hp). rewrite Hp in Hk. by eapply HL.
  - intros b u Hb. destruct (Hlook b u Hb) as (u0 & Hu0 & _ & Hp). rewrite Hp. by eapply HO.
  - intros e He. destruct (HW e He) as (b & u & Hb & Hk).
    destruct (decide (a = b)) as [<-|]; [|exists b, u; by rewrite lookup_insert_ne].
    exists a, (f t). rewrite lookup_insert_eq, Hc. split; [done|]. congruence.
  - by rewrite (listed_update _ _ t), Hc, HN by done; f_equal; lia.
Qed.

(** A constructor that keeps its identifier and its type. *)
Lemma keeps_set_constructor k f :
  (forall c, k_id (f c) = k_id c /\ k_type (f c) = k_type c) -> keeps (set_constructor k f).
Proof.
  intros Hf s x s' Hs. unfold set_constructor, store_at. destruct (constructors s !! k) as [c|] eqn:Ec; [|done].
  intros [= <- <-]. destruct (Hf c) as [Hid Ht]. destruct Hs as [[] HT HL HO HW HN HF]. destruct s; cbn in *.
  assert (Hval : forall T, entries_valid T constructors k_id -> entries_valid T (<[k := f c]> constructors) k_id).
  { intros T HV e He. destruct (HV e He) as (u & Hu & Hue).
    destruct (decide (k = snd e)) as [->|]; [|exists u; by rewrite lookup_insert_ne].
    exists (f c). rewrite lookup_insert_eq. split; [done|]. congruence. }
  constructor; [constructor|..]; cbn; try done; try by apply Hval.
  - intros b Hb. rewrite lookup_insert_ne; [by apply tab_fresh_constructors|].
    intros <-. rewrite tab_fresh_constructors in Ec; done.
  - intros b u j Hb Hj. destruct (HL b u j Hb Hj) as (d & Hd & Hdt).
    destruct (decide (k = j)) as [<-|]; [|exists d; by rewrite lookup_insert_ne].
    exists (f c). rewrite lookup_insert_eq. split; [done|]. congruence.
Qed.

#[export] Hint Resolve keeps_node keeps_get_type keeps_get_constructor keeps_get_variable keeps_new_node keeps_set_node keeps_set_variable keeps_draw keeps_set_ok
  keeps_set_tok keeps_set_level keeps_check_used keeps_print keeps_buf_reset keeps_buf_write : keeps.

(** ** Scopes *)

Lemma elem_Ret {A} (l : list A) i x s s' :
  elem l i s = Ret (x, s') -> s' = s /\ 0 <= i /\ l !! Z.to_nat i = Some x.
Proof.
  unfold elem. destruct (0 <=? i) eqn:E; [|done]. destruct (l !! Z.to_nat i); [|done].
  intros [= <- <-]. zbool. done.
Qed.

(** Take a run that returned apart. *)
Ltac inv_Ret H := first [injection H as <- <- | injection H; clear H; intros; subst].
Ltac inv_run :=
  repeat match goal with
  | H : bind _ _ _ = Ret _ |- _ => apply bind_Ret in H; destruct H as (? & ? & ? & H)
  | H : ret _ _ = Ret _ |- _ => inv_Ret H
  | H : get _ = Ret _ |- _ => inv_Ret H
  | H : modify _ _ = Ret _ |- _ => inv_Ret H
  | H : draw _ _ = Ret _ |- _ => inv_Ret H
  | H : assert ?b _ = Ret _ |- _ => destruct b eqn:?; [inv_Ret H|discriminate H]
  | H : lift ?r _ = Ret _ |- _ =>
      unfold lift in H; destruct r eqn:?; [inv_Ret H|discriminate H|discriminate H]
  | H : elem _ _ _ = Ret _ |- _ => apply elem_Ret in H; destruct H as (-> & ? & ?)
  | H : fail _ _ = Ret _ |- _ => discriminate H
  | H : out_of_fuel _ = Ret _ |- _ => discriminate H
  end.

Section Scopes.
Context (lrand48 : nat -> Z).

Lemma keeps_add_field id : keeps (tl_add_field lrand48 id).
Proof.
  intros s a s' Hs. unfold tl_add_field. intros H. inv_run.
  destruct (tree_lookup _ _ _) eqn:Ef; inv_run; [done|].
  pose proof (ok_tables _ Hs) as Ht. match goal with H : fields s !! _ = Some ?X |- _ => rename X into T, H into HT end.
  assert (HX : tree_ok (fun _ => True) strcmp T) by (eapply Forall_lookup_1; [apply Ht|done]).
  rewrite (tree_lookup_ok (fun _ => True) strcmp) in Ef by done.
  destruct (tree_insert_ok (fun _ => True) strcmp T id (lrand48 (draws s))) as (T' & E & HT' & _);
    [done|done|by apply sorted_find_fresh|]. rewrite E in Heqr. injection Heqr as <-.
  destruct s. same_scopes Hs; [|by rewrite length_insert]. by apply Forall_insert.
Qed.

Lemma keeps_clear_fields : keeps tl_clear_fields.
Proof.
  intros s a s' Hs. unfold tl_clear_fields. intros H. inv_run.
  rewrite tree_clear_Nil. destruct s. same_scopes Hs; [|by rewrite length_insert].
  apply Forall_insert; [done|]. by repeat constructor.
Qed.

Lemma keeps_add_var id p ty : keeps (tl_add_var lrand48 id p ty).
Proof.
  intros s a s' Hs. unfold tl_add_var. intros H. inv_run.
  pose proof (ok_tables _ Hs) as Ht. match goal with H : vars s !! _ = Some ?X |- _ => rename X into T, H into HT end.
  assert (HX : entries_ok T) by (eapply Forall_lookup_1; [apply Ht|done]).
  destruct (tree_lookup _ _ _) eqn:Ef; inv_run; [done|]. unfold new_var, alloc in H. inv_run. simplify_eq.
  assert (Hn : lookup_entry T id = None) by (unfold lookup_entry; by rewrite Ef).
  match goal with H : tree_insert _ _ _ _ = Ret _ |- _ =>
    destruct (insert_entry T id (brk s) (lrand48 (draws s)) HX Hn) as (T' & E & HT' & _) end.
  destruct (ty =? 0); inv_run; destruct s; cbn in *; rewrite E in *; simplify_eq; same_scopes Hs;
    rewrite ?length_insert; try done; by apply Forall_insert.
Qed.

Lemma keeps_clear_vars : keeps tl_clear_vars.
Proof.
  intros s a s' Hs. unfold tl_clear_vars. intros H. inv_run.
  match goal with H : tree_act _ _ _ = Ret _ |- _ =>
    rewrite tree_act_inorder, del_vars in H; injection H as <- <- end. rewrite tree_clear_Nil.
  destruct s. same_scopes Hs; rewrite ?length_insert; try done.
  apply Forall_insert; [done|]. by repeat constructor.
Qed.

Lemma keeps_namespace_push : keeps namespace_push.
Proof.
  intros s a s' Hs. unfold namespace_push. intros H. inv_run. zbool.
  eapply keeps_clear_fields; [|done]. eapply keeps_clear_vars; [|done]. destruct s. same_scopes Hs.
Qed.

Lemma keeps_namespace_pop : keeps namespace_pop.
Proof.
  intros s a s' Hs. unfold namespace_pop. intros H. inv_run. destruct s. same_scopes Hs.
Qed.

Lemma keeps_get_var id : keeps (tl_get_var id).
Proof.
  unfold tl_get_var. apply keeps_bind; [apply keeps_get|]. intros s.
  induction (Z.to_nat (namespace_level s + 1)) as [|k IH]; cbn [tl_get_var_loop]; keep.
Qed.
End Scopes.

#[export] Hint Resolve keeps_add_field keeps_clear_fields keeps_add_var keeps_clear_vars keeps_namespace_push
  keeps_namespace_pop keeps_get_var : keeps.

(** ** Types, constructors, functions *)

Lemma enter_Ret lrand48 tree_of set_tree id a s x s' :
  tree_of (set_draws (S (draws s)) s) = tree_of s ->
  entries_ok (tree_of s) -> lookup_entry (tree_of s) id = None ->
  enter lrand48 tree_of set_tree id a s = Ret (x, s') ->
  exists T, s' = set_tree T (set_draws (S (draws s)) s) /\ entries_ok T /\
    inorder T = sorted_insert tl_type_cmp (id, a) (inorder (tree_of s)).
Proof.
  intros Ht Hok Hn H. unfold enter in H. inv_run. rewrite Ht in Heqr.
  destruct (insert_entry _ id a (lrand48 (draws s)) Hok Hn) as (T & E & HT & HI & _).
  rewrite E in Heqr. injection Heqr as <-. by exists T.
Qed.

(** A new type. *)
Lemma prog_ok_type s t T d :
  prog_ok s -> ty_constructors t = [] -> entries_ok T ->
  inorder T = sorted_insert tl_type_cmp (ty_id t, brk s) (inorder (tl_type_tree s)) ->
  prog_ok (set_total_types (i32 (total_types_num s + 1)) (set_type_tree T (set_draws d
    (set_brk (Pos.succ (brk s)) (set_types (<[brk s := t]> (tys s)) s))))).
Proof.
  intros [[] HT HL HO HW HN HF] Ht HTok HI. destruct s; cbn in *.
  assert (Hb : tys !! brk = None) by (apply tab_fresh_types; lia).
  constructor; [constructor|..]; cbn; try done.
  - by eapply entries_valid_insert.
  - intros b Hlt. rewrite lookup_insert_ne by lia. apply tab_fresh_types. lia.
  - intros b Hlt. apply tab_fresh_constructors. lia.
  - rewrite (tree_count_insert _ _ _ HI). by apply i32_succ.
  - intros a u. rewrite HI. destruct (decide (brk = a)) as [<-|].
    + rewrite lookup_insert_eq. intros [= <-]. apply sorted_insert_in. by left.
    + rewrite lookup_insert_ne by done. intros Hu. apply sorted_insert_in. right. by apply HT.
  - intros a u k. destruct (decide (brk = a)) as [<-|].
    + rewrite lookup_insert_eq. intros [= <-]. rewrite Ht. by intros Hk%not_elem_of_nil.
    + rewrite lookup_insert_ne by done. apply HL.
  - intros a u. destruct (decide (brk = a)) as [<-|].
    + rewrite lookup_insert_eq. intros [= <-]. rewrite Ht. constructor.
    + rewrite lookup_insert_ne by done. apply HO.
  - intros e He. destruct (HW e He) as (a & u & Hu & Hk). exists a, u.
    rewrite lookup_insert_ne; [done|]. intros ->. congruence.
  - by rewrite listed_insert, Ht, Z.add_0_l.
Qed.

(** A new constructor [c] at the end of the list of its type, which is now [t']. *)
Lemma prog_ok_constructor s a t t' c K d :
  prog_ok s -> tys s !! a = Some t -> ty_id t' = ty_id t -> ty_constructors t' = ty_constructors t ++ [brk s] ->
  k_type c = Some a ->
  (K = tl_constructor_tree s \/
   entries_ok K /\ inorder K = sorted_insert tl_type_cmp (k_id c, brk s) (inorder (tl_constructor_tree s))) ->
  prog_ok (set_total_constructors (i32 (total_constructors_num s + 1)) (set_constructor_tree K
    (set_types (<[a := t']> (tys s)) (set_draws d (set_brk (Pos.succ (brk s))
      (set_constructors (<[brk s := c]> (constructors s)) s)))))).
Proof.
  intros [[] HT HL HO HW HN HF] Ha Hid Hc Hk HK. destruct s; cbn in *.
  assert (Hnew : constructors !! brk = None) by (apply tab_fresh_constructors; lia).
  assert (Hab : (a < brk)%positive).
  { destruct (decide (brk <= a)%positive) as [Hge|]; [|lia]. rewrite tab_fresh_types in Ha; done. }
  assert (Hlist : forall u k, tys !! a = Some u -> k ∈ ty_constructors t' <-> k ∈ ty_constructors u \/ k = brk).
  { intros u k Hu. assert (u = t) as -> by congruence. rewrite Hc, elem_of_app, list_elem_of_singleton. done. }
  assert (Hold : forall e u k, tys !! e = Some u -> k ∈ ty_constructors u ->
    exists u', <[a := t']> tys !! e = Some u' /\ k ∈ ty_constructors u').
  { intros e u k Hu Hin. destruct (decide (a = e)) as [<-|]; [|exists u; by rewrite lookup_insert_ne].
    exists t'. rewrite lookup_insert_eq. split; [done|]. apply (Hlist u); auto. }
  constructor; [constructor|..]; cbn; try done.
  - by destruct HK as [->|[? _]].
  - intros e He. destruct (tab_types_valid e He) as (u & Hu & Hue).
    destruct (decide (a = snd e)) as [->|]; [|exists u; by rewrite lookup_insert_ne].
    exists t'. rewrite lookup_insert_eq. split; [done|]. congruence.
  - destruct HK as [->|[_ HI]]; [by apply entries_valid_new|].
    by eapply (entries_valid_insert tl_constructor_tree).
  - by apply entries_valid_new.
  - intros b Hb. rewrite lookup_insert_ne by lia. apply tab_fresh_types. lia.
  - intros b Hb. rewrite lookup_insert_ne by lia. apply tab_fresh_constructors. lia.
  - intros e u. destruct (decide (a = e)) as [<-|].
    + rewrite lookup_insert_eq. intros [= <-]. rewrite Hid. by apply HT.
    + rewrite lookup_insert_ne by done. apply HT.
  - intros e u k. destruct (decide (a = e)) as [<-|].
    + rewrite lookup_insert_eq. intros [= <-]. rewrite (Hlist t k Ha).
      intros [Hin| ->]; [|exists c; by rewrite lookup_insert_eq].
      destruct (HL a t k Ha Hin) as (x & Hx & Hxt). exists x. rewrite lookup_insert_ne; [done|]. congruence.
    + rewrite lookup_insert_ne by done. intros Hu Hin. destruct (HL e u k Hu Hin) as (x & Hx & Hxt).
      exists x. rewrite lookup_insert_ne; [done|]. congruence.
  - intros e u. destruct (decide (a = e)) as [<-|]; [|rewrite lookup_insert_ne by done; apply HO].
    rewrite lookup_insert_eq. intros [= <-]. rewrite Hc. apply NoDup_app. split_and!; [by eapply HO| |].
    + intros k Hin ->%list_elem_of_singleton. destruct (HL a t brk Ha Hin) as (x & Hx & _). congruence.
    + apply NoDup_singleton.
  - destruct HK as [->|[_ HI]]; intros e He.
    + destruct (HW e He) as (b & u & Hu & Hin). destruct (Hold b u _ Hu Hin) as (u' & ? & ?). eauto.
    + rewrite HI in He. apply sorted_insert_in in He as [->|He]; cbn.
      * exists a, t'. rewrite lookup_insert_eq. split; [done|]. apply (Hlist t); auto.
      * destruct (HW e He) as (b & u & Hu & Hin). destruct (Hold b u _ Hu Hin) as (u' & ? & ?). eauto.
  - rewrite (listed_update _ _ t), Hc, length_app by done. cbn.
    replace (listed tys - _ + _) with (listed tys + 1) by lia. by apply i32_succ.
Qed.

(** A new function. *)
Lemma prog_ok_function s c K d :
  prog_ok s -> entries_ok K ->
  inorder K = sorted_insert tl_type_cmp (k_id c, brk s) (inorder (tl_function_tree s)) ->
  prog_ok (set_total_functions (i32 (total_functions_num s + 1)) (set_function_tree K (set_draws d
    (set_brk (Pos.succ (brk s)) (set_constructors (<[brk s := c]> (constructors s)) s))))).
Proof.
  intros [[] HT HL HO HW HN HF] HK HI. destruct s; cbn in *.
  assert (Hnew : constructors !! brk = None) by (apply tab_fresh_constructors; lia).
  constructor; [constructor|..]; cbn; try done.
  - by apply entries_valid_new.
  - by eapply (entries_valid_insert tl_function_tree).
  - intros b Hb. apply tab_fresh_types. lia.
  - intros b Hb. rewrite lookup_insert_ne by lia. apply tab_fresh_constructors. lia.
  - rewrite (tree_count_insert _ _ _ HI). by apply i32_succ.
  - intros e u k Hu Hin. destruct (HL e u k Hu Hin) as (x & Hx & Hxt).
    exists x. rewrite lookup_insert_ne; [done|]. congruence.
Qed.

Section Ops.
Context (lrand48 : nat -> Z) (garbage : Z).

Lemma keeps_add_type id num ptypes : keeps (tl_add_type lrand48 garbage id num ptypes).
Proof.
  unfold tl_add_type. intros s a s' Hs H. apply bind_Ret in H as (s0 & s1 & [= <- <-] & H).
  destruct (lookup_entry (tl_type_tree s) id) eqn:E.
  - unfold get_type, load_at in H. apply bind_Ret in H as (t & s1 & E1 & H).
    destruct (tys s !! p); [|done]. injection E1 as -> <-. destruct (_ && _); by inv_run.
  - apply bind_Ret in H as ([[fl n] pt] & s1 & E1 & H).
    assert (s1 = s) as -> by (destruct (num >=? 0); inv_run; done). unfold alloc in H. inv_run. simplify_eq.
    match goal with H : enter _ _ _ _ _ _ = Ret _ |- _ => apply enter_Ret in H as (T & -> & HT & HI) end;
      [|by destruct s|destruct s; apply (ok_tables _ Hs)|by destruct s].
    assert (HP : prog_ok (set_total_types (i32 (total_types_num s + 1)) (set_type_tree T (set_draws (S (draws s))
      (set_brk (Pos.succ (brk s)) (set_types (<[brk s := mk_type id (print_id id) None 0 fl n pt []]> (tys s)) s)))))).
    { apply prog_ok_type; try done. by destruct s. }
    destruct s; exact HP.
Qed.

Lemma keeps_add_constructor a id0 force : keeps (tl_add_constructor lrand48 a id0 force).
Proof.
  intros s r s' Hs H. unfold tl_add_constructor, get_type, load_at in H.
  apply bind_Ret in H as (t & s1 & E & H). destruct (tys s !! a) as [t0|] eqn:Et; [|done]. injection E as -> <-.
  destruct (negb (Z.land (ty_flags t) 1 =? 0)); [by inv_run|].
  destruct (split_magic force id0) as [id rest]. apply bind_Ret in H as (magic & s1 & E & H).
  assert (s1 = s) as ->.
  { unfold explicit_magic in E. destruct rest; inv_run; done. }
  apply bind_Ret in H as (s1 & s2 & [= <- <-] & H).
  destruct (negb (starts_underscore id) && _) eqn:Eu; [by inv_run|].
  assert (Hn : starts_underscore id = false -> lookup_entry (tl_constructor_tree s) id = None).
  { intros E0. rewrite E0 in Eu. cbn in Eu. apply bool_decide_eq_false in Eu. by apply eq_None_not_Some. }
  apply bind_Ret in H as (u & s1 & E1 & H).
  assert (s1 = s) as -> by (destruct (starts_underscore id); inv_run; done). clear E1 Eu.
  unfold alloc, set_type, store_at in H. inv_run. simplify_eq.
  assert (Hty : forall c k b, tys (set_brk b (set_constructors (<[k := c]> (constructors s)) s)) = tys s)
    by by destruct s.
  rewrite Hty, Et in *. simplify_eq.
  set (c := mk_constructor id (print_id id) None magic (Some a) Null Null) in *.
  destruct (starts_underscore id); cbn [negb] in *.
  - assert (Hty' : forall x, tys (set_types x (set_brk (Pos.succ (brk s)) (set_constructors
      (<[brk s := c]> (constructors s)) s))) = x) by by destruct s.
    rewrite Hty', lookup_insert_eq in *. simplify_eq.
    pose proof (prog_ok_constructor s a t (ty_set_flags (Z.lor (ty_flags t) FLAG_DEFAULT_CONSTRUCTOR)
      (ty_set_constructors (ty_constructors t ++ [brk s]) t)) c (tl_constructor_tree s) (draws s) Hs Et) as HP.
    destruct s, t; cbn in *. rewrite insert_insert_eq. apply HP; auto.
  - match goal with H : enter _ _ _ _ _ _ = Ret _ |- _ => apply enter_Ret in H as (T & -> & HT & HI) end;
      [|by destruct s|destruct s; apply (ok_tables _ Hs)|destruct s; by apply Hn].
    pose proof (prog_ok_constructor s a t (ty_set_constructors (ty_constructors t ++ [brk s]) t) c
      T (S (draws s)) Hs Et) as HP.
    destruct s, t; cbn in *. apply HP; auto.
Qed.

Lemma keeps_add_function a id0 force : keeps (tl_add_function lrand48 a id0 force).
Proof.
  intros s r s' Hs H. unfold tl_add_function in H. destruct (split_magic force id0) as [id rest].
  apply bind_Ret in H as (magic & s1 & E & H).
  assert (s1 = s) as ->.
  { unfold explicit_magic in E. destruct rest; inv_run; done. }
  apply bind_Ret in H as (s1 & s2 & [= <- <-] & H).
  destruct (lookup_entry (tl_function_tree s) id) eqn:El; [by inv_run|].
  unfold alloc in H. inv_run. simplify_eq.
  match goal with H : enter _ _ _ _ _ _ = Ret _ |- _ => apply enter_Ret in H as (T & -> & HT & HI) end;
    [|by destruct s|destruct s; apply (ok_tables _ Hs)|by destruct s].
  pose proof (prog_ok_function s (mk_constructor id (print_id id) None magic a Null Null) T (S (draws s)) Hs HT) as HP.
  destruct s; cbn in *. by apply HP.
Qed.
End Ops.

(** The changes of single fields of a type or a constructor. *)
Lemma keeps_type_flags a f : keeps (set_type a (fun t => ty_set_flags (f t) t)).
Proof. apply keeps_set_type. by intros []. Qed.

Lemma keeps_type_name a x : keeps (set_type a (ty_set_name x)).
Proof. apply keeps_set_type. by intros []. Qed.

Lemma keeps_type_params a x y : keeps (tl_type_set_params a x y).
Proof.
  unfold tl_type_set_params. keep. apply keeps_set_type. by intros [].
Qed.

Lemma keeps_type_finalize a : keeps (tl_type_finalize a).
Proof. apply keeps_set_type. by intros []. Qed.

Lemma swap_last_perm sid (l : list positive) : swap_last sid l ≡ₚ l.
Proof.
  unfold swap_last. destruct (l !! sid) as [c|] eqn:Ec; [|done]. destruct (last l) as [e|] eqn:Ee; [|done].
  rewrite last_lookup in Ee. by apply Permutation_insert_swap.
Qed.

Lemma keeps_swap a sid : keeps (set_type a (fun t => ty_set_constructors (swap_last sid (ty_constructors t)) t)).
Proof. apply keeps_set_type. intros []. cbn. split; [done|]. apply swap_last_perm. Qed.

Lemma keeps_set_real_id k x : keeps (set_constructor k (k_set_real_id x)).
Proof. apply keeps_set_constructor. by intros []. Qed.

Lemma keeps_set_name k x : keeps (set_constructor k (k_set_name x)).
Proof. apply keeps_set_constructor. by intros []. Qed.

Lemma keeps_set_trees k x y : keeps (set_constructor k (k_set_trees x y)).
Proof. apply keeps_set_constructor. by intros []. Qed.

#[export] Hint Resolve keeps_add_type keeps_add_constructor keeps_add_function keeps_type_flags keeps_type_name
  keeps_type_params keeps_type_finalize keeps_swap keeps_set_real_id keeps_set_name keeps_set_trees : keeps.

(** A lemma [keeps f] for a function whose recursion takes fuel, and for one
    that only calls others. *)
Ltac keep_fuel n f := induction n; intros; cbn [f]; keep.

(** ** Combinator trees *)

Lemma keeps_as_type p : keeps (as_type p).
Proof. unfold as_type. keep. Qed.
Lemma keeps_as_str p : keeps (as_str p).
Proof. unfold as_str. keep. Qed.
#[export] Hint Resolve keeps_as_type keeps_as_str : keeps.

Lemma keeps_tree_dup n T : keeps (tl_tree_dup n T).
Proof. revert T. keep_fuel n tl_tree_dup. Qed.
Lemma keeps_tree_get_type_loop n T : keeps (tl_tree_get_type_loop n T).
Proof. revert T. keep_fuel n tl_tree_get_type_loop. Qed.
#[export] Hint Resolve keeps_tree_dup keeps_tree_get_type_loop : keeps.
Lemma keeps_tree_get_type n T : keeps (tl_tree_get_type n T).
Proof. unfold tl_tree_get_type. keep. Qed.
Lemma keeps_buf_q x q : keeps (tl_buf_add_string_q x q).
Proof. unfold tl_buf_add_string_q, tl_buf_add_string, tl_buf_add_string_nospace. keep. Qed.
#[export] Hint Resolve keeps_tree_get_type keeps_buf_q : keeps.
Lemma keeps_buf_add_type t x : keeps (buf_add_type t x).
Proof. unfold buf_add_type. keep. Qed.
Lemma keeps_var_name p : keeps (var_name p).
Proof. unfold var_name. keep. Qed.
#[export] Hint Resolve keeps_buf_add_type keeps_var_name : keeps.
Lemma keeps_buf_add_tree n T x : keeps (tl_buf_add_tree n T x).
Proof. revert T x. keep_fuel n tl_buf_add_tree. Qed.
#[export] Hint Resolve keeps_buf_add_tree : keeps.
Lemma keeps_buf_add_sides n c : keeps (buf_add_sides n c).
Proof. unfold buf_add_sides, tl_buf_add_string. keep. Qed.
#[export] Hint Resolve keeps_buf_add_sides : keeps.
Lemma keeps_count_name n k : keeps (tl_count_combinator_name n k).
Proof. unfold tl_count_combinator_name, tl_buf_add_string_nospace. keep. Qed.
Lemma keeps_print_combinator oe n k : keeps (tl_print_combinator oe n k).
Proof. unfold tl_print_combinator, tl_buf_add_string_nospace. keep. Qed.
Lemma keeps__finish_subtree n R x y : keeps (_tl_finish_subtree n R x y).
Proof. revert R x y. keep_fuel n _tl_finish_subtree. Qed.
#[export] Hint Resolve keeps_count_name keeps_print_combinator keeps__finish_subtree : keeps.
Lemma keeps_finish_subtree n R : keeps (tl_finish_subtree n R).
Proof. unfold tl_finish_subtree. keep. Qed.
#[export] Hint Resolve keeps_finish_subtree : keeps.
Lemma keeps_union n L R : keeps (tl_union n L R).
Proof. unfold tl_union. keep. Qed.
#[export] Hint Resolve keeps_union : keeps.

(** ** Unification *)

Section UnifyKeeps.
Context (lrand48 : nat -> Z) (address : ptr -> Z).

Lemma keeps_set_value_num T var v x : keeps (tl_set_var_value_num lrand48 address T var v x).
Proof. unfold tl_set_var_value_num. keep. Qed.
Lemma keeps_set_value T var v : keeps (tl_set_var_value lrand48 address T var v).
Proof. apply keeps_set_value_num. Qed.
Lemma keeps_var_kind t : keeps (var_kind t).
Proof. unfold var_kind. keep. Qed.
Hint Resolve keeps_set_value_num keeps_set_value keeps_var_kind : keeps.
Lemma keeps_change_var_ptrs n O D V : keeps (change_var_ptrs lrand48 address n O D V).
Proof. revert O D V. keep_fuel n change_var_ptrs. Qed.
Lemma keeps_change_first_var n O X Y : keeps (change_first_var n O X Y).
Proof. revert O X Y. keep_fuel n change_first_var. Qed.
Lemma keeps_reduce_type n A t : keeps (reduce_type n A t).
Proof. revert A. keep_fuel n reduce_type. Qed.
Lemma keeps_change_value_loop n O X : keeps (change_value_loop address n O X).
Proof. revert O X. keep_fuel n change_value_loop. Qed.
Hint Resolve keeps_change_value_loop : keeps.
Lemma keeps_change_value_var n O X : keeps (change_value_var address n O X).
Proof. revert O X. keep_fuel n change_value_var. Qed.
Lemma keeps_lookup_value n L var T : keeps (tl_tree_lookup_value address n L var T).
Proof. revert L var T. keep_fuel n tl_tree_lookup_value. Qed.
Lemma keeps_lookup_value_nat n L var x T : keeps (tl_tree_lookup_value_nat address n L var x T).
Proof. revert L var x T. keep_fuel n tl_tree_lookup_value_nat. Qed.
Hint Resolve keeps_lookup_value keeps_lookup_value_nat : keeps.
Lemma keeps_nat_chain n K x o T : keeps (nat_chain address n K x o T).
Proof. revert K x o T. keep_fuel n nat_chain. Qed.
Hint Resolve keeps_nat_chain : keeps.
Lemma keeps_uniformize_nat n L R T : keeps (uniformize_nat lrand48 address n L R T).
Proof. unfold uniformize_nat. keep. Qed.
Hint Resolve keeps_uniformize_nat : keeps.
Lemma keeps_uniformize n L R T : keeps (uniformize lrand48 address n L R T).
Proof. revert L R T. keep_fuel n uniformize. Qed.
Lemma keeps_check_nat_loop n V L x : keeps (check_nat_loop address n V L x).
Proof. revert V L x. keep_fuel n check_nat_loop. Qed.
Hint Resolve keeps_uniformize keeps_check_nat_loop : keeps.
Lemma keeps_check_nat_val n V v : keeps (check_nat_val address n V v).
Proof. unfold check_nat_val. keep. Qed.
Hint Resolve keeps_check_nat_val : keeps.
Lemma keeps_check_equal n L R T : keeps (check_constructors_equal lrand48 address n L R T).
Proof. unfold check_constructors_equal. keep. Qed.
End UnifyKeeps.

#[export] Hint Resolve keeps_var_kind keeps_change_var_ptrs keeps_change_first_var keeps_reduce_type
  keeps_change_value_var keeps_check_equal : keeps.

(** ** Induction over parse trees *)

Fixpoint tree_size (T : ptree) : nat :=
  let 'PTree _ _ _ _ _ _ c := T in S (fold_right (fun X n => tree_size X + n)%nat O c).

Lemma child_size T X : X ∈ t_c T -> (tree_size X < tree_size T)%nat.
Proof.
  destruct T as [? ? ? ? ? ? c]. cbn. induction 1 as [X c|X Y c _ IH]; cbn; lia.
Qed.

(** A property of a tree may be assumed of its children and of theirs. *)
Lemma ptree_descend (P : ptree -> Prop) :
  (forall T, (forall X, X ∈ t_c T -> P X) -> (forall X Y, X ∈ t_c T -> Y ∈ t_c X -> P Y) -> P T) ->
  forall T, P T.
Proof.
  intros H. assert (forall n T, (tree_size T < n)%nat -> P T) as Hn; [|intros T; apply (Hn (S (tree_size T))); lia].
  induction n as [|n IH]; intros T HT; [lia|]. apply H.
  - intros X HX%child_size. apply IH. lia.
  - intros X Y HX%child_size HY%child_size. apply IH. lia.
Qed.

(** ** The second phase *)

Section SemaKeeps.
Context (text : list Z) (lrand48 : nat -> Z) (garbage : Z) (address : ptr -> Z).
Context (beyond : list Z -> nat -> Z) (output_expressions : Z) (fuel : nat).

Lemma keeps_t_string T : keeps (t_string text T).
Proof. unfold t_string. keep. Qed.
Lemma keeps_try (f : C ptr) x : keeps f -> keeps (TL_TRY fuel f x).
Proof. unfold TL_TRY. keep. Qed.
Hint Resolve keeps_t_string keeps_try : keeps.

Lemma keeps_try_all f c s L : (forall T s, T ∈ c -> keeps (f T s)) -> keeps (try_all fuel f c s L).
Proof.
  intros Hf. revert s L. induction c as [|T c IH]; intros s L; cbn [try_all]; keep.
  - apply keeps_try, Hf. left.
  - apply IH. intros T' s' HT. apply Hf. by right.
Qed.
Lemma keeps_term_children f c s : (forall T s, T ∈ c -> keeps (f T s)) -> keeps (term_children fuel f c s).
Proof.
  intros Hf. revert s. induction c as [|T c IH]; intros s; cbn [term_children]; [keep|].
  destruct (has_type T type_percent); [|by apply keeps_try_all].
  apply IH. intros T' s' HT. apply Hf. by right.
Qed.
Lemma keeps_get_constructor_id id : keeps (tl_get_constructor id).
Proof. unfold tl_get_constructor. keep. Qed.
Lemma keeps_get_function_id id : keeps (tl_get_function id).
Proof. unfold tl_get_function. keep. Qed.
Lemma keeps_get_type_id id : keeps (tl_get_type id).
Proof. unfold tl_get_type. keep. Qed.
Hint Resolve keeps_get_constructor_id keeps_get_function_id keeps_get_type_id : keeps.
Lemma keeps_parse_ident T s : keeps (tl_parse_ident text lrand48 garbage T s).
Proof. unfold tl_parse_ident. keep. Qed.
Hint Resolve keeps_parse_ident : keeps.

Local Abbreviation any_term := (tl_parse_any_term text lrand48 garbage fuel).

Lemma keeps_any_term T s : keeps (any_term T s).
Proof.
  revert s. induction T as [T IHc IHg] using ptree_descend. intros s.
  assert (Hterm : forall X s, X ∈ t_c T -> keeps (tl_parse_term_with fuel any_term X s)).
  { intros X s0 HX. unfold tl_parse_term_with. keep. apply keeps_term_children. eauto. }
  destruct T as [x l t ll lp fl c]. cbn [t_c] in *.
  destruct t; cbn [tl_parse_any_term t_type]; try (by keep).
  - unfold tl_parse_subexpr_with. keep. apply keeps_try_all. eauto.
  - unfold tl_parse_type_term_with. cbn [t_c]. keep. apply Hterm. left.
  - unfold tl_parse_term_with. keep. apply keeps_term_children. eauto.
  - unfold tl_parse_expr_with. keep. apply keeps_try_all. intros X s0 HX.
    unfold tl_parse_subexpr_with. keep. apply keeps_try_all. eauto.
  - unfold tl_parse_nat_term_with. cbn [t_c]. keep. apply Hterm. left.
  - unfold tl_parse_nat_const. keep.
Qed.
Hint Resolve keeps_any_term : keeps.

Lemma keeps_parse_term T s : keeps (tl_parse_term text lrand48 garbage fuel T s).
Proof. unfold tl_parse_term, tl_parse_term_with. keep. apply keeps_term_children. auto with keeps. Qed.
Lemma keeps_type_term T s : keeps (tl_parse_type_term text lrand48 garbage fuel T s).
Proof. unfold tl_parse_type_term, tl_parse_type_term_with. keep. apply keeps_parse_term. Qed.
Lemma keeps_nat_term T s : keeps (tl_parse_nat_term text lrand48 garbage fuel T s).
Proof. unfold tl_parse_nat_term, tl_parse_nat_term_with. keep. apply keeps_parse_term. Qed.
Hint Resolve keeps_type_term keeps_nat_term : keeps.
Lemma keeps_multiplicity T : keeps (tl_parse_multiplicity text lrand48 garbage fuel T).
Proof. unfold tl_parse_multiplicity. keep. Qed.
Hint Resolve keeps_multiplicity : keeps.

(** *** Arguments *)

Lemma keeps_opt_names l : keeps (opt_names_ok text l).
Proof. induction l; cbn [opt_names_ok]; keep. Qed.
Lemma keeps_opt_fields l R k H : keeps (opt_fields text lrand48 fuel l R k H).
Proof. revert H. induction l; intros H; cbn [opt_fields]; keep. Qed.
Hint Resolve keeps_opt_names keeps_opt_fields : keeps.
Lemma keeps_opt_args T : keeps (tl_parse_opt_args text lrand48 garbage fuel T).
Proof. unfold tl_parse_opt_args. keep. Qed.
Lemma keeps_args_all f c R : (forall T, T ∈ c -> keeps (f T)) -> keeps (args_all fuel f c R).
Proof.
  intros Hf. revert R. induction c as [|T c IH]; intros R; cbn [args_all]; [keep|].
  apply keeps_bind; [apply keeps_try, Hf; left|]. intros x. destruct (is_null x); [keep|].
  apply IH. intros T' HT. apply Hf. by right.
Qed.
Lemma keeps_args2_items f c L x : (forall T, T ∈ c -> keeps (f T)) -> keeps (args2_items fuel f c L x).
Proof. intros Hf. unfold args2_items. keep. by apply keeps_args_all. Qed.
Lemma keeps_last_num_var : keeps tl_get_last_num_var.
Proof. unfold tl_get_last_num_var. keep. Qed.
Hint Resolve keeps_last_num_var : keeps.
Lemma keeps_args2_rest f c x :
  (forall T, T ∈ c -> keeps (f T)) -> keeps (args2_rest text lrand48 garbage fuel f c x).
Proof.
  intros Hf. unfold args2_rest. keep; apply keeps_args2_items; [|done].
  intros T HT. apply Hf. by right.
Qed.
Lemma keeps_args2_with f T :
  (forall X, X ∈ t_c T -> keeps (f X)) -> keeps (tl_parse_args2_with text lrand48 garbage fuel f T).
Proof.
  intros Hf. unfold tl_parse_args2_with. keep; apply keeps_args2_rest; [|done].
  intros X HX. apply Hf. rewrite elem_of_cons. auto.
Qed.
Lemma keeps_mark_vars n T : keeps (tl_mark_vars n T).
Proof. revert T. keep_fuel n tl_mark_vars. Qed.
Lemma keeps_optional_field X R : keeps (optional_field text lrand48 garbage X R).
Proof. unfold optional_field. keep. Qed.
Lemma keeps_random_name : keeps (random_name lrand48).
Proof. unfold random_name. keep. Qed.
Hint Resolve keeps_mark_vars keeps_optional_field keeps_random_name : keeps.
Lemma keeps_arg_fields l R k e H : keeps (arg_fields text lrand48 fuel l R k e H).
Proof. revert H. induction l; intros H; cbn [arg_fields]; keep. Qed.
Hint Resolve keeps_arg_fields : keeps.
Lemma keeps_args134 T : keeps (tl_parse_args134 text lrand48 garbage fuel T).
Proof. unfold tl_parse_args134. keep. Qed.
Hint Resolve keeps_args134 : keeps.
Lemma keeps_parse_args T : keeps (tl_parse_args text lrand48 garbage fuel T).
Proof.
  induction T as [T IHc IHg] using ptree_descend. destruct T as [x l t ll lp fl c]. cbn [t_c] in *.
  cbn [tl_parse_args t_c]. keep. apply keeps_args2_with. intros Y HY. eapply IHg; [left|done].
Qed.
Hint Resolve keeps_opt_args keeps_parse_args : keeps.

(** *** Declarations *)

Lemma keeps_result_args c L : keeps (result_args text lrand48 garbage fuel c L).
Proof. revert L. induction c; intros L; cbn [result_args]; keep. Qed.
Hint Resolve keeps_result_args : keeps.
Lemma keeps_result_type T : keeps (tl_parse_result_type text lrand48 garbage fuel T).
Proof. unfold tl_parse_result_type. keep. Qed.
Lemma keeps_var_check e : keeps (tl_var_check_used e).
Proof.
  unfold tl_var_check_used. keep.
Qed.
Lemma keeps_try_while ty f c L : (forall T, keeps (f T)) -> keeps (try_while fuel ty f c L).
Proof. intros Hf. revert L. induction c; intros L; cbn [try_while]; keep. Qed.
Lemma keeps_finish k L R : keeps (finish_combinator output_expressions fuel k L R).
Proof. unfold finish_combinator. keep. Qed.
Hint Resolve keeps_result_type keeps_var_check keeps_try_while keeps_finish : keeps.
Lemma keeps_combinator_decl T b :
  keeps (tl_parse_combinator_decl text lrand48 garbage output_expressions fuel T b).
Proof. unfold tl_parse_combinator_decl. keep. Qed.

Lemma keeps_applied_id id : keeps (applied_id id).
Proof. unfold applied_id. keep. Qed.
Lemma keeps_app_args c L : keeps (app_args text lrand48 garbage fuel c L).
Proof. revert L. induction c; intros L; cbn [app_args]; keep. Qed.
Lemma keeps_app_wild n L : keeps (app_wild fuel n L).
Proof. revert L. keep_fuel n app_wild. Qed.
Hint Resolve keeps_applied_id keeps_app_args keeps_app_wild : keeps.
Lemma keeps_app_constructor nt L k :
  keeps (app_constructor lrand48 address output_expressions fuel nt L k).
Proof. unfold app_constructor. keep. Qed.
Hint Resolve keeps_app_constructor : keeps.
Lemma keeps_app_constructors n i t nt L :
  keeps (app_constructors lrand48 address output_expressions fuel n i t nt L).
Proof. revert i. keep_fuel n app_constructors. Qed.
Hint Resolve keeps_app_constructors : keeps.
Lemma keeps_partial_type T :
  keeps (tl_parse_partial_type_app_decl text lrand48 garbage address output_expressions fuel T).
Proof. unfold tl_parse_partial_type_app_decl. keep. Qed.
Lemma keeps_comb_args c L R : keeps (comb_args text lrand48 garbage fuel c L R).
Proof. revert L. induction c; intros L; cbn [comb_args]; keep. Qed.
Hint Resolve keeps_comb_args : keeps.
Lemma keeps_partial_comb T b :
  keeps (tl_parse_partial_comb_app_decl text lrand48 garbage address output_expressions fuel T b).
Proof. unfold tl_parse_partial_comb_app_decl. keep. Qed.
Hint Resolve keeps_combinator_decl keeps_partial_type keeps_partial_comb : keeps.
Lemma keeps_partial_app T b :
  keeps (tl_parse_partial_app_decl text lrand48 garbage address output_expressions fuel T b).
Proof. unfold tl_parse_partial_app_decl. keep. Qed.
Lemma keeps_final_child T ty : keeps (final_child text T ty).
Proof. unfold final_child. keep. Qed.
Hint Resolve keeps_partial_app keeps_final_child : keeps.
Lemma keeps_final_decl T b : keeps (tl_parse_final_decl text lrand48 garbage T b).
Proof.
  unfold tl_parse_final_decl, tl_parse_final_new, tl_parse_final_final, tl_parse_final_empty. keep.
Qed.
Lemma keeps_builtin_decl T b :
  keeps (tl_parse_builtin_combinator_decl text lrand48 garbage beyond output_expressions fuel T b).
Proof. unfold tl_parse_builtin_combinator_decl. keep. Qed.
Hint Resolve keeps_final_decl keeps_builtin_decl : keeps.
Lemma keeps_declaration T b :
  keeps (tl_parse_declaration text lrand48 garbage address beyond output_expressions fuel T b).
Proof. unfold tl_parse_declaration. keep. Qed.
Hint Resolve keeps_declaration : keeps.
Lemma keeps_try_pes f c : (forall T, keeps (f T)) -> keeps (try_pes f c).
Proof. intros Hf. induction c; cbn [try_pes]; keep. Qed.
Hint Resolve keeps_try_pes : keeps.

(** *** The check of the types *)

Lemma keeps_xor_names l x : keeps (xor_names l x).
Proof. revert x. induction l; intros x; cbn [xor_names]; keep. Qed.
Lemma keeps_overlap_with a k l : keeps (overlap_with lrand48 address fuel a k l).
Proof. induction l; cbn [overlap_with]; keep. Qed.
Hint Resolve keeps_xor_names keeps_overlap_with : keeps.
Lemma keeps_overlaps a l : keeps (overlaps lrand48 address fuel a l).
Proof. induction l; cbn [overlaps]; keep. Qed.
Lemma keeps_default_constructors l i z sid : keeps (default_constructors l i z sid).
Proof. revert i z sid. induction l; intros i z sid; cbn [default_constructors]; keep. Qed.
Hint Resolve keeps_overlaps keeps_default_constructors : keeps.
Lemma keeps_type_check e : keeps (tl_type_check lrand48 address fuel e).
Proof. unfold tl_type_check. keep. Qed.
Hint Resolve keeps_type_check : keeps.

Lemma keeps_tl_parse T : keeps (tl_parse text lrand48 garbage address beyond output_expressions fuel T).
Proof. unfold tl_parse, tl_parse_constr_declarations, tl_parse_fun_declarations. keep. apply keeps_try_pes. keep. Qed.
End SemaKeeps.

(** ** The types of the table *)

Definition constructors_of (T : gmap positive tl_type) (a : positive) : list positive :=
  match T !! a with Some t => ty_constructors t | None => [] end.

Definition sum_lengths {A B} (f : A -> list B) (l : list A) : Z :=
  foldr (fun x n => Z.of_nat (List.length (f x)) + n) 0 l.

Lemma sum_lengths_perm {A B} (f : A -> list B) l l' : l ≡ₚ l' -> sum_lengths f l = sum_lengths f l'.
Proof. unfold sum_lengths. induction 1; cbn; lia. Qed.

Lemma listed_sum T : listed T = sum_lengths (constructors_of T) (map_to_list T).*1.
Proof.
  unfold listed, sum_lengths. rewrite map_fold_foldr.
  assert (forall l, (forall p, p ∈ l -> T !! p.1 = Some p.2) ->
    foldr (uncurry (fun (_ : positive) t n => Z.of_nat (List.length (ty_constructors t)) + n)) 0 l =
    foldr (fun x n => Z.of_nat (List.length (constructors_of T x)) + n) 0 l.*1) as H.
  { induction l as [|[a t] l IH]; intros Hl; [done|]. cbn. rewrite IH by (intros p Hp; apply Hl; by right).
    unfold constructors_of. pose proof (Hl (a, t) ltac:(left)) as Ha. cbn in Ha. by rewrite Ha. }
  apply H. intros [a t] Hp. by apply elem_of_map_to_list.
Qed.

Lemma strcmp_self_false (e : entry) l : sorted tl_type_cmp (e :: l) -> e ∉ l.
Proof.
  intros [_ Hlt]%StronglySorted_inv Hin. rewrite Forall_forall in Hlt. specialize (Hlt e Hin).
  pose proof (cmp_refl (cmp := tl_type_cmp) e I). lia.
Qed.

(** The table holds every type once. *)
Lemma type_ids_perm s : prog_ok s -> map snd (inorder (tl_type_tree s)) ≡ₚ (map_to_list (tys s)).*1.
Proof.
  intros Hs. pose proof (tab_types_valid _ (ok_tables _ Hs)) as HV.
  apply NoDup_Permutation; [|apply NoDup_fst_map_to_list|].
  - pose proof (ok_sorted _ _ _ (tab_types _ (ok_tables _ Hs))) as Hso. revert HV Hso.
    unfold entries_valid. induction (inorder (tl_type_tree s)) as [|e l IH]; intros HV Hso; cbn; constructor.
    + rewrite list_elem_of_fmap. intros (e' & Ee & He'). apply (strcmp_self_false e l Hso).
      destruct (HV e) as (t & Ht & Hid); [left|]. destruct (HV e') as (t' & Ht' & Hid'); [by right|].
      rewrite Ee, Ht' in Ht. injection Ht as ->. destruct e, e'. cbn in *. by subst.
    + apply IH; [intros e' He'; apply HV; by right|]. by apply StronglySorted_inv in Hso as [? _].
  - intros a. rewrite !list_elem_of_fmap. split.
    + intros (e & -> & He). destruct (HV e He) as (t & Ht & _). exists (e.2, t). split; [done|].
      by apply elem_of_map_to_list.
    + intros ([b t] & -> & Hb%elem_of_map_to_list). exists (ty_id t, b). split; [done|]. by apply (ok_types _ Hs).
Qed.

Lemma listed_table s :
  prog_ok s -> listed (tys s) = sum_lengths (constructors_of (tys s)) (map snd (inorder (tl_type_tree s))).
Proof. intros Hs. rewrite listed_sum. symmetry. by apply sum_lengths_perm, type_ids_perm. Qed.

(** ** The theorem *)

(** C3. Whatever the program, partial applications included, and whether it is
    accepted or not: when [tl_parse] returns, the symbol tables are well formed,
    every type is in its table, the list of constructors of a type holds, once
    each, constructors that belong to it, every named constructor is in such a
    list, and the three counters are the sizes of the tables and lists. *)
Theorem tl_parse_invariant text lrand48 garbage address beyond output_expressions fuel T b s :
  tl_parse text lrand48 garbage address beyond output_expressions fuel T init_sstate = Ret (b, s) -> prog_ok s.
Proof. apply keeps_tl_parse, init_prog_ok. Qed.

Definition two_constructors : list Z :=
  str ("int ? = Int;" ++ String (Ascii.ascii_of_nat 10) ("none = Maybe;" ++ String (Ascii.ascii_of_nat 10)
       ("some x:int = Maybe;" ++ String (Ascii.ascii_of_nat 10) EmptyString)))%string.

(** Its parse tree and the state after it. *)
Definition two_tree : ptree :=
  match parse_text two_constructors 200 with
  | Ret (Some T, _) => T
  | _ => PTree PNull 0 type_tl_program 0 0 0 []
  end.

Definition two_state : sstate :=
  match tl_parse two_constructors some_draws 0 (fun _ => 0) (fun _ _ => 0) 0 20 two_tree init_sstate with
  | Ret (_, s) => s
  | _ => init_sstate
  end.

Lemma tl_parse_invariant_witness : prog_ok two_state /\ total_constructors_num two_state = 3.
Proof.
  split; [|vm_compute; reflexivity].
  apply (tl_parse_invariant two_constructors some_draws 0 (fun _ => 0) (fun _ _ => 0) 0 20 two_tree true two_state).
  vm_compute. reflexivity.
Defined.
