(* ===== verification/Checked.v ===== *)
(** * The check of the types

    What holds of the types when [tl_parse] has accepted a program: the number
    of a type is the exclusive or of the numbers of its constructors, no type is
    without constructors unless it was declared empty, and a default
    constructor is the last one of its type, which is then never used bare. *)
From Stdlib Require Import ZArith Lia List Bool Ascii String.
From stdpp Require Import base list strings gmap fin_maps.
From S2P Require Import Prelude Crc32 Treap Lexer Parser Symbols Tables Combinator Unify Sema Invariant.
Open Scope tl_scope.

(** ** The specification *)

Definition name_of (K : gmap positive tl_constructor) (k : positive) : Z :=
  match K !! k with Some c => k_name c | None => 0 end.

Definition xor_all (l : list Z) : Z := foldr Z.lxor 0 l.

Definition is_default (K : gmap positive tl_constructor) (k : positive) : bool :=
  match K !! k with Some c => starts_underscore (k_id c) | None => false end.

Definition checked (K : gmap positive tl_constructor) (t : tl_type) : Prop :=
  if is_hash (ty_id t) then ty_name t = 0x70659eff
  else if is_Type (ty_id t) then ty_name t = 0x2cecf817
  else
    (ty_constructors t <> [] \/ has (ty_flags t) FLAG_EMPTY = true) /\
    ty_name t = xor_all (map (name_of K) (ty_constructors t)) /\
    forall i k, ty_constructors t !! i = Some k -> is_default K k = true ->
      S i = List.length (ty_constructors t) /\ has (ty_flags t) 8 = false.

(** ** Lists *)

Lemma xor_all_perm l l' : l ≡ₚ l' -> xor_all l = xor_all l'.
Proof.
  unfold xor_all. induction 1 as [|x l l' _ IH|x y l|]; cbn; [done|by rewrite IH| |congruence].
  rewrite <- !Z.lxor_assoc. f_equal. apply Z.lxor_comm.
Qed.

(** The number of default constructors in a list. *)
Definition defaults (K : gmap positive tl_constructor) (l : list positive) : nat :=
  List.length (List.filter (is_default K) l).

Lemma defaults_none K l i k : defaults K l = 0%nat -> l !! i = Some k -> is_default K k = false.
Proof.
  unfold defaults. revert i. induction l as [|x l IH]; intros i H Hi; [done|]. cbn in H.
  destruct (is_default K x) eqn:E; [done|]. destruct i as [|i]; cbn in Hi; [congruence|]. by eapply IH.
Qed.

(** A list with one default constructor has no other. *)
Lemma defaults_one K l i j k k' :
  defaults K l = 1%nat -> l !! i = Some k -> l !! j = Some k' -> is_default K k = true ->
  is_default K k' = true -> i = j.
Proof.
  unfold defaults. revert i j. induction l as [|x l IH]; intros i j H Hi Hj Hk Hk'; [done|]. cbn in H.
  destruct (is_default K x) eqn:E.
  - injection H as H. destruct i as [|i], j as [|j]; cbn in Hi, Hj; [done| | |].
    + by rewrite (defaults_none K l j k') in Hk'.
    + by rewrite (defaults_none K l i k) in Hk.
    + by rewrite (defaults_none K l i k) in Hk.
  - destruct i as [|i], j as [|j]; cbn in Hi, Hj; simplify_eq; [congruence..|]. f_equal. by eapply IH.
Qed.

Lemma swap_last_default K l sid k i k' :
  defaults K l = 1%nat -> l !! sid = Some k -> is_default K k = true ->
  swap_last sid l !! i = Some k' -> is_default K k' = true -> S i = List.length (swap_last sid l).
Proof.
  intros H1 Hk Hd Hi Hd'. assert (Hlen : (sid < List.length l)%nat) by by eapply lookup_lt_Some.
  unfold swap_last in *. rewrite Hk in *. destruct (last l) as [e|] eqn:El.
  2: { apply last_None in El. by subst. }
  rewrite !length_insert. set (m := pred (List.length l)) in *.
  assert (Hm : (m < List.length l)%nat) by (unfold m; lia). rewrite last_lookup in El. fold m in El.
  destruct (decide (i = m)) as [->|Hne]; [unfold m; lia|]. exfalso.
  rewrite list_lookup_insert_ne in Hi by done. destruct (decide (i = sid)) as [->|Hne'].
  - rewrite list_lookup_insert_eq in Hi by done. injection Hi as ->.
    by apply Hne, (defaults_one K l sid m k k').
  - rewrite list_lookup_insert_ne in Hi by done. by apply Hne', (defaults_one K l i sid k' k).
Qed.

(** ** Code that does not touch the tables *)

(** The types, the constructors and the verdict stay. *)
Definition calm {A} (m : C A) : Prop :=
  forall s x s', m s = Ret (x, s') -> tys s' = tys s /\ constructors s' = constructors s /\ g_ok s' = g_ok s.

Create HintDb calm.

Section CalmRules.
Context {A B : Type}.
Lemma calm_ret (x : A) : calm (ret x).
Proof. by intros s y s' [= _ <-]. Qed.
Lemma calm_fail f : calm (A := A) (fail f).
Proof. done. Qed.
Lemma calm_out_of_fuel : calm (A := A) out_of_fuel.
Proof. done. Qed.
Lemma calm_bind (m : C A) (k : A -> C B) : calm m -> (forall x, calm (k x)) -> calm (bind m k).
Proof.
  intros Hm Hk s y s' (x & s1 & E1 & E2)%bind_Ret. destruct (Hm _ _ _ E1) as (? & ? & ?).
  destruct (Hk _ _ _ _ E2) as (? & ? & ?). split_and!; congruence.
Qed.
Lemma calm_get : calm get.
Proof. by intros s y s' [= _ <-]. Qed.
Lemma calm_assert b : calm (assert b).
Proof. destruct b; [|done]. by intros s y s' [= _ <-]. Qed.
Lemma calm_lift (r : result A) : calm (lift r).
Proof. intros s y s'. unfold lift. destruct r; [|done..]. by intros [= _ <-]. Qed.
Lemma calm_load (h : sstate -> gmap positive A) p : calm (load_at h p).
Proof. intros s y s'. unfold load_at. destruct (h s !! p); [|done]. by intros [= _ <-]. Qed.
Lemma calm_each (act : A -> C unit) l : (forall x, calm (act x)) -> calm (each act l).
Proof.
  intros Ha. induction l as [|x l IH]; cbn [each]; [by intros s y s' [= _ <-]|].
  intros s y s' (u & s1 & E1 & E2)%bind_Ret. destruct (Ha _ _ _ _ E1) as (? & ? & ?).
  destruct (IH _ _ _ E2) as (? & ? & ?). split_and!; congruence.
Qed.
Lemma calm_tree_act (act : A -> C unit) T : (forall x, calm (act x)) -> calm (tree_act act T).
Proof. intros Ha s x s'. rewrite tree_act_inorder. by apply calm_each. Qed.
End CalmRules.

Lemma calm_node p : calm (node p).
Proof. destruct p; cbn; try done. apply calm_load. Qed.
Lemma calm_get_constructor k : calm (get_constructor k).
Proof. apply calm_load. Qed.
Lemma calm_draw rnd : calm (draw rnd).
Proof. intros s y s' [= _ <-]. by destruct s. Qed.
Lemma calm_set_tok b : calm (modify (set_tok b)).
Proof. intros s y s' [= _ <-]. by destruct s. Qed.

#[export] Hint Resolve calm_ret calm_fail calm_out_of_fuel calm_get calm_assert calm_lift calm_load calm_node
  calm_get_constructor calm_draw calm_set_tok : calm.

Ltac calmly :=
  repeat (intros; cbv beta zeta;
    first
    [ solve [auto with calm nocore]
    | match goal with
      | |- calm (bind _ _) => apply calm_bind; [|intros ?; cbv beta zeta]
      | |- calm (tree_act _ _) => apply calm_tree_act
      | |- calm (match ?x with _ => _ end) => destruct x
      end ]).
Ltac calm_fuel n f := induction n; intros; cbn [f]; calmly.

Section Overlaps.
Context (lrand48 : nat -> Z) (address : ptr -> Z) (fuel : nat).

Lemma calm_set_value_num T var v x : calm (tl_set_var_value_num lrand48 address T var v x).
Proof. unfold tl_set_var_value_num. calmly. Qed.
Lemma calm_set_value T var v : calm (tl_set_var_value lrand48 address T var v).
Proof. apply calm_set_value_num. Qed.
Lemma calm_lookup_value n L var T : calm (tl_tree_lookup_value address n L var T).
Proof. revert L var T. calm_fuel n tl_tree_lookup_value. Qed.
Lemma calm_lookup_value_nat n L var x T : calm (tl_tree_lookup_value_nat address n L var x T).
Proof. revert L var x T. calm_fuel n tl_tree_lookup_value_nat. Qed.
Hint Resolve calm_set_value_num calm_set_value calm_lookup_value calm_lookup_value_nat : calm.
Lemma calm_nat_chain n K x o T : calm (nat_chain address n K x o T).
Proof. revert K x o T. calm_fuel n nat_chain. Qed.
Hint Resolve calm_nat_chain : calm.
Lemma calm_uniformize_nat n L R T : calm (uniformize_nat lrand48 address n L R T).
Proof. unfold uniformize_nat. calmly. Qed.
Hint Resolve calm_uniformize_nat : calm.
Lemma calm_uniformize n L R T : calm (uniformize lrand48 address n L R T).
Proof. revert L R T. calm_fuel n uniformize. Qed.
Lemma calm_check_nat_loop n V L x : calm (check_nat_loop address n V L x).
Proof. revert V L x. calm_fuel n check_nat_loop. Qed.
Hint Resolve calm_uniformize calm_check_nat_loop : calm.
Lemma calm_check_nat_val n V v : calm (check_nat_val address n V v).
Proof. unfold check_nat_val. calmly. Qed.
Hint Resolve calm_check_nat_val : calm.
Lemma calm_check_equal n L R T : calm (check_constructors_equal lrand48 address n L R T).
Proof. unfold check_constructors_equal. calmly. Qed.
End Overlaps.

(** ** The steps of the check *)

Lemma has_mark f m : Z.land 16 m = 0 -> has (Z.lor f 16) m = has f m.
Proof. intros H. unfold has. by rewrite Z.land_lor_distr_l, H, Z.lor_0_r. Qed.

(** Only the flag 16 of the type [a] may have been set. *)
Definition marked (a : positive) (t : tl_type) (s s' : sstate) : Prop :=
  constructors s' = constructors s /\ g_ok s' = g_ok s /\
  exists g, tys s' = <[a := ty_set_flags g t]> (tys s) /\ forall m, Z.land 16 m = 0 -> has g m = has (ty_flags t) m.

Lemma marked_refl a t s s' :
  tys s !! a = Some t -> tys s' = tys s -> constructors s' = constructors s -> g_ok s' = g_ok s -> marked a t s s'.
Proof.
  intros Ht E1 E2 E3. split_and!; [done|done|]. exists (ty_flags t). split; [|done].
  rewrite E1, insert_id; [done|]. by destruct t.
Qed.

Lemma marked_trans a t g s s1 s2 :
  marked a t s s1 -> tys s1 = <[a := ty_set_flags g t]> (tys s) -> marked a (ty_set_flags g t) s1 s2 -> marked a t s s2.
Proof.
  intros (C1 & G1 & g1 & T1 & H1) E (C2 & G2 & g2 & T2 & H2). split_and!; [congruence|congruence|]. exists g2.
  assert (g1 = g) as ->.
  { rewrite E in T1. apply (f_equal (fun m => m !! a)) in T1. rewrite !lookup_insert_eq in T1.
    destruct t; cbn in T1. congruence. }
  split.
  - rewrite T2, E, insert_insert_eq. by destruct t.
  - intros m Hm. rewrite H2 by done. destruct t; cbn in *. by apply H1.
Qed.

Section Check.
Context (lrand48 : nat -> Z) (address : ptr -> Z) (fuel : nat).

Lemma overlap_with_marked a t k l s x s' :
  tys s !! a = Some t -> overlap_with lrand48 address fuel a k l s = Ret (x, s') -> marked a t s s'.
Proof.
  revert t s. induction l as [|k2 l IH]; intros t s Ht H; cbn [overlap_with] in H.
  { injection H as _ <-. by apply marked_refl. }
  apply bind_Ret in H as (c1 & s1 & E1 & H). apply calm_get_constructor in E1 as (T1 & K1 & G1).
  apply bind_Ret in H as (c2 & s2 & E2 & H). apply calm_get_constructor in E2 as (T2 & K2 & G2).
  apply bind_Ret in H as ([b V] & s3 & E3 & H). apply calm_check_equal in E3 as (T3 & K3 & G3).
  apply bind_Ret in H as (u & s4 & E4 & H).
  assert (T : tys s3 = tys s) by congruence. assert (K : constructors s3 = constructors s) by congruence.
  assert (G : g_ok s3 = g_ok s) by congruence.
  destruct b.
  - unfold set_type, store_at in E4. rewrite T, Ht in E4. injection E4 as <- <-.
    apply (marked_trans a t (Z.lor (ty_flags t) 16) s
      (set_types (<[a := ty_set_flags (Z.lor (ty_flags t) 16) t]> (tys s)) s3)).
    + split_and!; [destruct s3; exact K|destruct s3; exact G|]. eexists. split; [by destruct s3|].
      intros m Hm. by apply has_mark.
    + by destruct s3.
    + eapply IH; [|exact H]. destruct s3. cbn. by rewrite lookup_insert_eq.
  - injection E4 as <- <-. eapply IH in H; [|by rewrite T].
    destruct H as (C' & G' & g & T' & H'). split_and!; [congruence|congruence|]. exists g. by rewrite T', T.
Qed.

Lemma overlaps_marked a t l s x s' :
  tys s !! a = Some t -> overlaps lrand48 address fuel a l s = Ret (x, s') -> marked a t s s'.
Proof.
  revert t s. induction l as [|k l IH]; intros t s Ht H; cbn [overlaps] in H.
  { injection H as _ <-. by apply marked_refl. }
  apply bind_Ret in H as (u & s1 & E1 & H). pose proof (overlap_with_marked _ _ _ _ _ _ _ Ht E1) as M.
  pose proof M as (_ & _ & g & T1 & _). eapply marked_trans; [exact M|exact T1|].
  apply IH; [|done]. by rewrite T1, lookup_insert_eq.
Qed.

Lemma xor_names_value l z s x s' :
  xor_names l z s = Ret (x, s') -> s' = s /\ x = Z.lxor z (xor_all (map (name_of (constructors s)) l)).
Proof.
  revert z. induction l as [|k l IH]; intros z H; cbn [xor_names] in H.
  { injection H as <- <-. split; [done|]. cbn. by rewrite Z.lxor_0_r. }
  apply bind_Ret in H as (c & s1 & E & H). unfold get_constructor, load_at in E.
  destruct (constructors s !! k) as [c0|] eqn:Ek; [|done]. injection E as -> <-.
  apply IH in H as [-> ->]. split; [done|]. unfold name_of at 2. cbn. rewrite Ek. by rewrite Z.lxor_assoc.
Qed.

(** The count of default constructors, and where the last one is. *)
Lemma default_constructors_value l i z sid s z' sid' s' :
  default_constructors l i z sid s = Ret ((z', sid'), s') ->
  s' = s /\ z' = z + Z.of_nat (defaults (constructors s) l) /\
  (defaults (constructors s) l <> 0%nat ->
   exists k, l !! (sid' - i)%nat = Some k /\ (i <= sid')%nat /\ is_default (constructors s) k = true) /\
  (defaults (constructors s) l = 0%nat -> sid' = sid).
Proof.
  revert i z sid. induction l as [|k l IH]; intros i z sid H; cbn [default_constructors] in H.
  { injection H as <- <- <-. split_and!; [done|cbn; lia|done|done]. }
  apply bind_Ret in H as (c & s1 & E & H). unfold get_constructor, load_at in E.
  destruct (constructors s !! k) as [c0|] eqn:Ek; [|done]. injection E as -> <-.
  assert (Hd : is_default (constructors s) k = starts_underscore (k_id c)) by (unfold is_default; by rewrite Ek).
  assert (Hshift : forall j k', l !! (sid' - S j)%nat = Some k' -> (S j <= sid')%nat -> (k :: l) !! (sid' - j)%nat = Some k').
  { intros j k' Hl Hj. replace (sid' - j)%nat with (S (sid' - S j)) by lia. done. }
  unfold defaults in *. cbn [List.filter]. rewrite Hd. destruct (starts_underscore (k_id c)); apply IH in H as (-> & -> & H1 & H2).
  - split_and!; [done|cbn [List.length]; lia| |done]. intros _.
    destruct (decide (List.length (List.filter (is_default (constructors s)) l) = 0%nat)) as [E0|E0].
    + rewrite (H2 E0). exists k. rewrite Nat.sub_diag. done.
    + destruct (H1 E0) as (k' & Hk' & Hle & Hdk). exists k'. split_and!; [by apply Hshift|lia|done].
  - split_and!; [done|done| |done]. intros E0. destruct (H1 E0) as (k' & Hk' & Hle & Hdk).
    exists k'. split_and!; [by apply Hshift|lia|done].
Qed.

(** The verdict on a type [t] that is not one of the two special ones, once its
    number is set and its flags are [g]: without a default constructor, and with
    one at [sid]. *)
Definition numbered (K : gmap positive tl_constructor) (g : Z) (t : tl_type) : tl_type :=
  ty_set_flags g (ty_set_name (Z.lxor 0 (xor_all (map (name_of K) (ty_constructors t)))) t).

Section Verdict.
Context (K : gmap positive tl_constructor) (g : Z) (t : tl_type).
Hypothesis Hhash : is_hash (ty_id t) = false.
Hypothesis HType : is_Type (ty_id t) = false.
Hypothesis Hne : ty_constructors t <> [] \/ has (ty_flags t) FLAG_EMPTY = true.
Hypothesis Hg : forall m, Z.land 16 m = 0 -> has g m = has (ty_flags t) m.

Lemma checked_plain : defaults K (ty_constructors t) = 0%nat -> checked K (numbered K g t).
Proof.
  intros H0. unfold checked, numbered. pose proof (Hg FLAG_EMPTY eq_refl) as Hempty. destruct t; cbn in *.
  rewrite Hhash, HType, Hempty, Z.lxor_0_l. split_and!; [done|done|]. intros i k Hi Hd. exfalso.
  by rewrite (defaults_none K _ i k H0 Hi) in Hd.
Qed.

Lemma checked_default sid k :
  defaults K (ty_constructors t) = 1%nat -> ty_constructors t !! sid = Some k -> is_default K k = true ->
  has g 8 = false ->
  checked K (ty_set_constructors (swap_last sid (ty_constructors (numbered K g t))) (numbered K g t)).
Proof.
  intros H1 Hk Hd H8. unfold checked, numbered. pose proof (Hg FLAG_EMPTY eq_refl) as Hempty. destruct t; cbn in *.
  rewrite Hhash, HType, Hempty, Z.lxor_0_l. pose proof (swap_last_perm sid ty_constructors) as Hp. split_and!.
  - destruct Hne as [Hl|Hf]; [left|by right]. intros E0. rewrite E0 in Hp. by apply Permutation_nil_l in Hp.
  - apply xor_all_perm. by rewrite Hp.
  - intros i k' Hi Hd'. split; [by eapply swap_last_default|done].
Qed.
End Verdict.

(** From the number on, with the constructors of the type [t]. *)
Lemma check_rest a t s x s' :
  tys s !! a = Some t -> is_hash (ty_id t) = false -> is_Type (ty_id t) = false ->
  (ty_constructors t <> [] \/ has (ty_flags t) FLAG_EMPTY = true) ->
  (let* x := xor_names (ty_constructors t) 0 in
   set_type a (ty_set_name x) ;;
   overlaps lrand48 address fuel a (ty_constructors t) ;;
   let* (z, sid) := default_constructors (ty_constructors t) 0 0 0 in
   let* t := get_type a in
   if z >? 1 then modify (set_ok false)
   else if (z =? 1) && has (ty_flags t) 8 then modify (set_ok false)
   else if negb (z =? 0) then
     set_type a (fun t => ty_set_constructors (swap_last sid (ty_constructors t)) t)
   else ret tt) s = Ret (x, s') -> g_ok s' = true ->
  constructors s' = constructors s /\ exists t', tys s' = <[a := t']> (tys s) /\ checked (constructors s) t'.
Proof.
  intros Et Eh ET Hne H Hok. apply bind_Ret in H as (z & s1 & E1 & H). apply xor_names_value in E1 as [-> ->].
  apply bind_Ret in H as (u & s1 & E1 & H). unfold set_type at 1, store_at in E1. rewrite Et in E1. injection E1 as _ <-.
  set (nm := Z.lxor 0 _) in *. set (s1 := set_types (<[a := ty_set_name nm t]> (tys s)) s) in *.
  assert (Et1 : tys s1 !! a = Some (ty_set_name nm t)) by (unfold s1; destruct s; cbn; apply lookup_insert_eq).
  apply bind_Ret in H as (u2 & s2 & E2 & H).
  destruct (overlaps_marked _ _ _ _ _ _ Et1 E2) as (K2 & G2 & g & T2 & Hg).
  assert (KK : constructors s2 = constructors s) by (rewrite K2; unfold s1; by destruct s).
  assert (TT : tys s2 = <[a := numbered (constructors s) g t]> (tys s)).
  { rewrite T2. unfold s1. destruct s. cbn. by rewrite insert_insert_eq. }
  assert (Hgt : forall m, Z.land 16 m = 0 -> has g m = has (ty_flags t) m)
    by (intros m Hm; rewrite (Hg m Hm); by destruct t).
  apply bind_Ret in H as ([zz sid] & s3 & E3 & H).
  apply default_constructors_value in E3 as (-> & Ez & Hsome & _). rewrite KK in *.
  apply bind_Ret in H as (t3 & s3 & E3 & H). unfold get_type, load_at in E3. rewrite TT, lookup_insert_eq in E3.
  injection E3 as <- <-. replace (ty_flags (numbered _ g t)) with g in H by (unfold numbered; by destruct t).
  destruct (zz >? 1) eqn:Ez1; [injection H as _ <-; by destruct s2|].
  destruct ((zz =? 1) && has g 8) eqn:Ez8; [injection H as _ <-; by destruct s2|].
  destruct (zz =? 0) eqn:Ez0; cbn [negb] in H.
  - injection H as _ <-. split; [done|]. eexists. split; [exact TT|]. apply checked_plain; try done. lia.
  - assert (H1 : defaults (constructors s) (ty_constructors t) = 1%nat) by lia. assert (zz = 1) as -> by lia.
    destruct (Hsome ltac:(lia)) as (k & Hk & _ & Hkd). rewrite Nat.sub_0_r in Hk.
    unfold set_type, store_at in H. rewrite TT, lookup_insert_eq in H. injection H as _ <-.
    split; [by destruct s2|]. eexists. split; [destruct s2; cbn in *; by rewrite insert_insert_eq|].
    by apply (checked_default _ _ _ Eh ET Hne Hgt sid k).
Qed.

(** One type is checked; the others and the constructors stay. *)
Lemma type_check_step e s x s' :
  tl_type_check lrand48 address fuel e s = Ret (x, s') -> g_ok s' = true ->
  g_ok s = true /\ constructors s' = constructors s /\
  exists t, tys s' = <[snd e := t]> (tys s) /\ checked (constructors s) t.
Proof.
  intros H Hok. unfold tl_type_check in H. apply bind_Ret in H as (s0 & s1 & [= <- <-] & H).
  destruct (g_ok s) eqn:Eg; cbn [negb] in H; [|inv_run; congruence]. split; [done|].
  set (a := snd e) in *. apply bind_Ret in H as (t & s1 & E & H). unfold get_type at 1, load_at in E.
  destruct (tys s !! a) as [t0|] eqn:Et; [|done]. injection E as -> <-.
  assert (Hset : forall f, set_type a f s = Ret (x, s') ->
    constructors s' = constructors s /\ tys s' = <[a := f t]> (tys s)).
  { intros f. unfold set_type, store_at. rewrite Et. intros [= _ <-]. by destruct s. }
  destruct (is_hash (ty_id t)) eqn:Eh.
  { apply Hset in H as [-> ->]. split; [done|]. eexists. split; [done|]. unfold checked. destruct t; cbn in *. by rewrite Eh. }
  destruct (is_Type (ty_id t)) eqn:ET.
  { apply Hset in H as [-> ->]. split; [done|]. eexists. split; [done|]. unfold checked. destruct t; cbn in *. by rewrite Eh, ET. }
  destruct (_ && _) eqn:Ee; [injection H as _ <-; by destruct s|].
  eapply check_rest; try done. destruct (ty_constructors t); [right|by left]. cbn in Ee. by apply negb_false_iff.
Qed.

(** All entries of a list in turn. *)
Lemma type_check_all l s x s' :
  NoDup (map snd l) -> each (tl_type_check lrand48 address fuel) l s = Ret (x, s') -> g_ok s' = true ->
  constructors s' = constructors s /\
  (forall a, a ∉ map snd l -> tys s' !! a = tys s !! a) /\
  (forall a, a ∈ map snd l -> exists t, tys s' !! a = Some t /\ checked (constructors s) t).
Proof.
  revert s. induction l as [|e l IH]; intros s Hnd H Hok; cbn [each map] in *.
  { injection H as _ <-. split_and!; [done|done|]. by intros a Ha%not_elem_of_nil. }
  apply NoDup_cons in Hnd as [Hn Hnd]. apply bind_Ret in H as (u & s1 & E & H).
  destruct (IH s1 Hnd H Hok) as (K1 & Hout & Hin).
  assert (Hok1 : g_ok s1 = true).
  { clear IH Hout Hin K1 E Hn Hnd. revert s1 H. induction l as [|e' l IH]; intros s1 H; cbn [each] in H.
    - injection H as _ <-. done.
    - apply bind_Ret in H as (u' & s2 & E & H). by apply type_check_step in E as [? _]; [|by eapply IH]. }
  destruct (type_check_step _ _ _ _ E Hok1) as (_ & K2 & t & T & Hc). split_and!; [congruence| |].
  - intros a Ha. apply not_elem_of_cons in Ha as [Ha1 Ha2]. rewrite Hout, T, lookup_insert_ne; done.
  - intros a Ha. apply elem_of_cons in Ha as [->|Ha].
    + exists t. rewrite Hout, T, lookup_insert_eq by done. done.
    + rewrite <- K2. by apply Hin.
Qed.
End Check.

(** ** The theorem *)

(** C5. When [tl_parse] accepts a program, every type has passed the check: a
    type other than [#] and [Type] has constructors or was declared empty, its
    number is the exclusive or of the numbers of its constructors, and if one of
    them is a default constructor, then it is the last, the only one, and the
    type is never used bare. *)
Theorem accepted_types_checked text lrand48 garbage address beyond output_expressions fuel T s :
  tl_parse text lrand48 garbage address beyond output_expressions fuel T init_sstate = Ret (true, s) ->
  forall a t, tys s !! a = Some t -> checked (constructors s) t.
Proof.
  intros H a t Ht. unfold tl_parse in H. apply bind_Ret in H as (u & s0 & E & H).
  assert (s0 = init_sstate) as -> by by inv_run. clear E.
  apply bind_Ret in H as (t1 & s1 & E1 & H). apply keeps_add_type in E1 as P1; [|apply init_prog_ok].
  apply bind_Ret in H as (t2 & s2 & E2 & H). apply keeps_add_type in E2 as P2; [|done].
  apply bind_Ret in H as (r & s3 & E3 & H).
  assert (P3 : prog_ok s3).
  { revert E3. apply (keeps_try_pes); [|done]. intros S.
    unfold tl_parse_constr_declarations, tl_parse_fun_declarations.
    destruct (has_type S type_constr_declarations); (apply keeps_bind; [apply keeps_assert|intros _]);
      apply keeps_try_pes; intros X; apply keeps_declaration. }
  destruct (r =? 0); [inv_run; done|]. apply bind_Ret in H as (u1 & s4 & E4 & H).
  assert (P4 : prog_ok s4) by (by eapply keeps_set_ok). apply bind_Ret in H as (s5 & s6 & [= <- <-] & H).
  apply bind_Ret in H as (u2 & s5 & E5 & H). apply bind_Ret in H as (s7 & s8 & [= <- <-] & H).
  assert (g_ok s5 = true /\ s = s5) as [Hok ->] by (injection H; auto).
  rewrite tree_act_inorder in E5. pose proof (type_ids_perm _ P4) as Hp.
  destruct (type_check_all _ _ _ _ _ _ _ ltac:(rewrite Hp; apply NoDup_fst_map_to_list) E5 Hok) as (-> & Hout & Hin).
  destruct (decide (a ∈ map snd (inorder (tl_type_tree s4)))) as [Ha|Ha].
  - destruct (Hin a Ha) as (t' & Ht' & Hc). congruence.
  - exfalso. rewrite (Hout a Ha) in Ht. apply Ha. rewrite Hp. apply list_elem_of_fmap. exists (a, t).
    split; [done|]. by apply elem_of_map_to_list.
Qed.

(** The type [Maybe] of [two_constructors]: its number is the exclusive or of
    the numbers of [none] and [some]. *)
Lemma accepted_types_checked_witness :
  exists a t, lookup_entry (tl_type_tree two_state) (str "Maybe") = Some a /\ tys two_state !! a = Some t /\
    List.length (ty_constructors t) = 2%nat /\ checked (constructors two_state) t.
Proof.
  pose (a := default 1%positive (lookup_entry (tl_type_tree two_state) (str "Maybe"))).
  pose (t := default Int_type (tys two_state !! a)).
  assert (E : tys two_state !! a = Some t) by (vm_compute; reflexivity).
  exists a, t. split; [vm_compute; reflexivity|]. split; [exact E|]. split; [vm_compute; reflexivity|].
  refine (accepted_types_checked two_constructors some_draws 0 (fun _ => 0) (fun _ _ => 0) 0 20 two_tree two_state
    _ a t E). vm_compute. reflexivity.
Defined.
