(* ===== verification/Names.v ===== *)
(** * Names of combinators

    The explicit names after a number sign and their printed form, decimal
    numbers, the canonical text of a combinator as a declarative relation on
    the heap, and the theorem that a combinator without an explicit name gets
    the CRC-32 of that text. *)
From Stdlib Require Import ZArith Lia List Bool Ascii String.
From stdpp Require Import base list strings gmap.
From S2P Require Import Prelude Crc32 Treap Lexer Parser Symbols Combinator Unify Sema.
Open Scope tl_scope.

(** ** Explicit names *)

Lemma hex_digit_char d : 0 <= d < 16 -> hex_digit (hex_char d) = d.
Proof.
  intros Hd. unfold hex_digit, hex_char. change (chr "0") with 48. change (chr "9") with 57.
  change (chr "a") with 97. destruct (d <? 10) eqn:E; zbool.
  - replace (48 + d <=? 57) with true by lia. lia.
  - replace (97 + d - 10 <=? 57) with false by lia. lia.
Qed.

(** One step of [hex_value] on the nibbles of [u]. *)
Lemma hex_step u k :
  0 <= u < 2 ^ 32 -> 0 <= k <= 7 ->
  u32 (u32 (Z.shiftl (Z.shiftr u (4 * (k + 1))) 4) + hex_digit (hex_char (Z.land (Z.shiftr u (4 * k)) 15))) =
  Z.shiftr u (4 * k).
Proof.
  intros Hu Hk. change 15 with (Z.ones 4). rewrite Z.land_ones by lia.
  rewrite hex_digit_char by (apply Z.mod_pos_bound; lia).
  set (v := Z.shiftr u (4 * k)).
  assert (Hv : 0 <= v < 2 ^ 32).
  { subst v. rewrite Z.shiftr_div_pow2 by lia. split; [apply Z.div_pos; lia|].
    apply Z.div_lt_upper_bound; [lia|]. nia. }
  replace (Z.shiftr u (4 * (k + 1))) with (v / 16).
  2: { subst v. replace (4 * (k + 1)) with (4 * k + 4) by lia.
       rewrite <- Z.shiftr_shiftr by lia. by rewrite (Z.shiftr_div_pow2 _ 4) by lia. }
  rewrite Z.shiftl_mul_pow2 by lia. change (2 ^ 4) with 16. unfold u32. clearbody v. zmod.
Qed.

(** The nibbles from number [n - 1] down, read after the ones above them. *)
Lemma hex_fold u n :
  0 <= u < 2 ^ 32 -> (n <= 8)%nat ->
  fold_left (fun magic c => u32 (u32 (Z.shiftl magic 4) + hex_digit c))
    (map (fun i => hex_char (Z.land (Z.shiftr u (4 * Z.of_nat i)) 15)) (rev (seq 0 n)))
    (Z.shiftr u (4 * Z.of_nat n)) = u.
Proof.
  intros Hu. induction n as [|n IH]; intros Hn; [apply Z.shiftr_0_r|].
  rewrite seq_S, rev_app_distr. cbn [rev app map fold_left]. rewrite Nat.add_0_l.
  replace (4 * Z.of_nat (S n)) with (4 * (Z.of_nat n + 1)) by lia.
  rewrite hex_step by lia. apply IH. lia.
Qed.

Lemma hex_value_x08 u : 0 <= u < 2 ^ 32 -> hex_value (x08 u) = u.
Proof.
  intros Hu. rewrite <- (hex_fold u 8) at 2 by lia. unfold hex_value, x08. f_equal.
  change (4 * Z.of_nat 8) with 32. rewrite Z.shiftr_div_pow2 by lia. symmetry. by apply Z.div_small.
Qed.

Lemma split_magic_at id rest :
  Forall (fun c => c <> hash) id -> split_magic false (id ++ hash :: rest) = (id, hash :: rest).
Proof.
  induction 1 as [|c id Hc Hid IH]; cbn; [done|].
  rewrite (proj2 (Z.eqb_neq c hash)) by done. cbn. by rewrite IH.
Qed.

(** C35. The printed form of a combinator's name ([id#xxxxxxxx]) reads back: the
    identifier is the part before the number sign, and the explicit name is
    the number printed, unless it is one of the two reserved values, at which
    the assertion stops. *)
Theorem magic_roundtrip id u s :
  Forall (fun c => c <> hash) id -> 0 <= u < 2 ^ 32 ->
  split_magic false (id ++ hash :: x08 u) = (id, hash :: x08 u) /\
  explicit_magic (hash :: x08 u) s =
    if (u =? 0) || (u =? 2 ^ 32 - 1) then Fault AssertFailed else Ret (u, s).
Proof.
  intros Hid Hu. split; [by apply split_magic_at|].
  unfold explicit_magic. change (Z.of_nat (List.length (hash :: x08 u))) with 9.
  unfold bind. cbn [assert andb Z.leb Z.compare Pos.compare Pos.compare_cont rbind ret].
  rewrite hex_value_x08 by done. change (u32 (-1)) with (2 ^ 32 - 1).
  destruct (u =? 0), (u =? 2 ^ 32 - 1); done.
Qed.

Lemma magic_roundtrip_witness :
  explicit_magic (hash :: x08 0xa8509bda) init_sstate = Ret (0xa8509bda, init_sstate).
Proof. apply (magic_roundtrip (str "int") 0xa8509bda init_sstate); [repeat constructor; done|lia]. Defined.

(** ** Decimal numbers *)

Definition dec_step (x c : Z) : Z := i64 (i64 (i64 (x * 10) + c) - chr "0").

Lemma dec_step_digit x d :
  0 <= d < 10 -> 0 <= x -> x * 10 + d < 2 ^ 63 -> dec_step x (chr "0" + d) = x * 10 + d.
Proof.
  intros Hd Hx Hb. unfold dec_step. change (chr "0") with 48.
  assert (H : forall a b c, i64 (i64 (i64 a + b) - c) = i64 (a + b - c)) by (intros; unfold i64; zmod).
  rewrite H. unfold i64. zmod.
Qed.

Lemma digits_app fuel n acc : digits fuel n acc = (digits fuel n [] ++ acc)%list.
Proof.
  revert n acc. induction fuel as [|fuel IH]; intros n acc; [easy|]. cbn [digits].
  case (n <? 10); [easy|]. rewrite IH, (IH _ [_]), <- app_assoc. easy.
Qed.

Lemma digits_value fuel n :
  0 <= n < 2 ^ 63 -> n < 10 ^ Z.of_nat fuel -> (0 < fuel)%nat ->
  fold_left dec_step (digits fuel n []) 0 = n.
Proof.
  revert n. induction fuel as [|fuel IH]; intros n Hn Hf H0; [lia|]. cbn [digits].
  assert (Hd : 0 <= n mod 10 < 10) by (apply Z.mod_pos_bound; lia).
  destruct (n <? 10) eqn:E; zbool.
  { cbn [fold_left]. rewrite dec_step_digit by lia. rewrite Z.mod_small by lia. lia. }
  destruct fuel as [|fuel]; [cbn in Hf; lia|].
  assert (n / 10 < 10 ^ Z.of_nat (S fuel)).
  { apply Z.div_lt_upper_bound; [lia|]. rewrite <- Z.pow_succ_r by lia.
    by replace (Z.succ (Z.of_nat (S fuel))) with (Z.of_nat (S (S fuel))) by lia. }
  assert (0 <= n / 10 < 2 ^ 63) by zmod.
  rewrite digits_app, fold_left_app, IH by lia. cbn [fold_left]. rewrite dec_step_digit by zmod. zmod.
Qed.

(** A natural number constant that fits a [long long] is read exactly, and
    the decimal text that goes into the canonical form reads back. *)
Theorem decimal_roundtrip n : 0 <= n < 2 ^ 63 -> decimal (lld n) = n.
Proof.
  intros Hn. unfold lld. rewrite (proj2 (Z.ltb_ge n 0)) by lia.
  apply (digits_value 20); lia.
Qed.

Lemma decimal_roundtrip_witness : decimal (lld 1234567890123) = 1234567890123.
Proof. apply decimal_roundtrip. lia. Defined.

(** ** The canonical text *)

(** A combinator expression as the text shows it: what is left of a tree of
    nodes when addresses, flags and types are forgotten. *)
Inductive texpr :=
| TNone                                        (* the null pointer, or an erased variable *)
| TQuestion                                    (* [?] *)
| TType (bare : bool) (id : list Z)            (* [id] or [%id] *)
| TVar (id : list Z) (add : Z)                 (* [id] or [id+add] *)
| TNat (n : Z)
| TField (id : option (list Z)) (e rest : texpr)
| TSeq (l r : texpr)                           (* a union or an application *)
| TSum (l r : texpr)
| TArray (mult : option texpr) (body : texpr)  (* [mult*[ body ]] *)
| TOpt (id : list Z) (bit : Z) (e : texpr).    (* [id.bit?e] *)

(** [x] tells whether a space separates the text from what precedes it. *)
Definition word (x : bool) (w : list Z) : list Z := if x then chr " " :: w else w.

Fixpoint render (x : bool) (e : texpr) : list Z :=
  match e with
  | TNone => []
  | TQuestion => word x (str "?")
  | TType bare id => if bare then word x (str "%") ++ id else word x id
  | TVar id add => word x id ++ (if add =? 0 then [] else chr "+" :: lld add)
  | TNat n => word x (lld n)
  | TField (Some id) e rest => word x id ++ str ":" ++ render false e ++ render true rest
  | TField None e rest => render x e ++ render true rest
  | TSeq l r => render x l ++ render true r
  | TSum l r => render x l ++ str "+" ++ render false r
  | TArray (Some m) body => render x m ++ str "*[" ++ render true body ++ str " ]"
  | TArray None body => word x (str "[") ++ render true body ++ str " ]"
  | TOpt id bit e => word x id ++ str "." ++ lld bit ++ str "?" ++ render false e
  end.

Fixpoint depth (e : texpr) : nat :=
  match e with
  | TField _ l r | TSeq l r | TSum l r => S (depth l `max` depth r)
  | TArray m body => S (match m with Some m => depth m | None => 0 end `max` depth body)
  | TOpt _ _ e => S (depth e)
  | _ => 1
  end.

(** [shows N T K p e]: in a heap with the nodes [N], the types [T] and the
    constructors [K], the tree at [p] is the expression [e]. *)
Section Shows.
Context (N : gmap positive tl_combinator_tree) (T : gmap positive tl_type)
  (K : gmap positive tl_constructor).

(** The identifier a type node shows: a literal, the only constructor of a
    bare type, or the type. *)
Inductive shows_type (t : tl_combinator_tree) : list Z -> Prop :=
| st_literal id : has (c_flags t) 2 = true -> c_data t = ToStr id -> shows_type t id
| st_bare a ty k c :
    has (c_flags t) 2 = false -> has (c_flags t) 4 = true -> c_data t = ToType a ->
    T !! a = Some ty -> ty_constructors ty = [k] -> K !! k = Some c ->
    shows_type t (shown_id (k_real_id c) (k_id c))
| st_type a ty :
    has (c_flags t) 2 = false -> has (c_flags t) 4 = false -> c_data t = ToType a ->
    T !! a = Some ty -> shows_type t (shown_id (ty_real_id ty) (ty_id ty)).

(** The identifier of the variable that a pointer's target declares. *)
Inductive shows_var : ptr -> list Z -> Prop :=
| sv_var a v id : N !! a = Some v -> c_data v = ToStr id -> shows_var (ToNode a) id.

Inductive shows : ptr -> texpr -> Prop :=
| s_null : shows Null TNone
| s_question a t : N !! a = Some t -> c_act t = act_question_mark -> shows (ToNode a) TQuestion
| s_type a t id :
    N !! a = Some t -> c_act t = act_type -> shows_type t id ->
    shows (ToNode a) (TType (has (c_flags t) 1 && negb (has (c_flags t) 4)) id)
| s_erased a t : N !! a = Some t -> c_act t = act_var -> c_data t = Neg1 -> shows (ToNode a) TNone
| s_var a t id :
    N !! a = Some t -> c_act t = act_var -> shows_var (c_data t) id ->
    shows (ToNode a) (TVar id (if bool_decide (c_type t = type_num) then c_type_flags t else 0))
| s_nat a t : N !! a = Some t -> c_act t = act_nat_const -> shows (ToNode a) (TNat (c_type_flags t))
| s_field a t id l r :
    N !! a = Some t -> c_act t = act_field -> c_data t = ToStr id ->
    shows (c_left t) l -> shows (c_right t) r -> shows (ToNode a) (TField (Some id) l r)
| s_anonymous a t l r :
    N !! a = Some t -> c_act t = act_field -> c_data t = Null ->
    shows (c_left t) l -> shows (c_right t) r -> shows (ToNode a) (TField None l r)
| s_seq a t l r :
    N !! a = Some t -> c_act t = act_union \/ c_act t = act_arg ->
    shows (c_left t) l -> shows (c_right t) r -> shows (ToNode a) (TSeq l r)
| s_sum a t l r :
    N !! a = Some t -> c_act t = act_plus ->
    shows (c_left t) l -> shows (c_right t) r -> shows (ToNode a) (TSum l r)
| s_array a t b m l r :
    N !! a = Some t -> c_act t = act_array -> c_left t = ToNode b -> N !! b = Some m ->
    has (c_flags m) 128 = false -> shows (c_left t) l -> shows (c_right t) r ->
    shows (ToNode a) (TArray (Some l) r)
| s_array_default a t b m r :
    N !! a = Some t -> c_act t = act_array -> c_left t = ToNode b -> N !! b = Some m ->
    has (c_flags m) 128 = true -> shows (c_right t) r -> shows (ToNode a) (TArray None r)
| s_array_null a t r :
    N !! a = Some t -> c_act t = act_array -> c_left t = Null ->
    shows (c_right t) r -> shows (ToNode a) (TArray None r)
| s_opt a t b l id r :
    N !! a = Some t -> c_act t = act_opt_field -> c_left t = ToNode b -> N !! b = Some l ->
    shows_var (c_data l) id -> shows (c_right t) r ->
    shows (ToNode a) (TOpt id (c_type_flags l) r).

(** [appends m w v]: run in such a heap, with room in the buffer, [m] returns
    [v], appends [w] to the buffer and changes nothing else. *)
Definition appends {A} (m : C A) (w : list Z) (v : A) : Prop :=
  forall s, nodes s = N -> tys s = T -> constructors s = K ->
  Z.of_nat (List.length (buf s ++ w)) < BUF_SIZE ->
  m s = Ret (v, set_buf (buf s ++ w) s).

Lemma set_buf_twice b1 b2 s : set_buf b2 (set_buf b1 s) = set_buf b2 s.
Proof. by destruct s. Qed.

Lemma appends_ret {A} (v : A) : appends (ret v) [] v.
Proof. intros s _ _ _ _. rewrite app_nil_r. by destruct s. Qed.

Lemma appends_bind {A B} (m : C A) (k : A -> C B) w1 w2 v u :
  appends m w1 v -> appends (k v) w2 u -> appends (bind m k) (w1 ++ w2) u.
Proof.
  intros Hm Hk s HN HT HK Hlen. rewrite app_assoc in Hlen. unfold bind.
  rewrite Hm; [|done..|rewrite !length_app in *; lia]. cbn [rbind].
  rewrite Hk; [|by destruct s..].
  by rewrite set_buf_twice, app_assoc; destruct s.
Qed.

Lemma appends_load {A B} (m : C A) (k : A -> C B) w v u :
  appends m [] v -> appends (k v) w u -> appends (bind m k) w u.
Proof. apply appends_bind. Qed.

Lemma appends_node a t : N !! a = Some t -> appends (node (ToNode a)) [] t.
Proof.
  intros Ha s HN _ _ _. unfold node, load_at. rewrite HN, Ha, app_nil_r. by destruct s.
Qed.

Lemma appends_get_type a t : T !! a = Some t -> appends (get_type a) [] t.
Proof.
  intros Ha s _ HT _ _. unfold get_type, load_at. rewrite HT, Ha, app_nil_r. by destruct s.
Qed.

Lemma appends_get_constructor a c : K !! a = Some c -> appends (get_constructor a) [] c.
Proof.
  intros Ha s _ _ HK _. unfold get_constructor, load_at. rewrite HK, Ha, app_nil_r. by destruct s.
Qed.

Lemma appends_string_q x w : appends (tl_buf_add_string_q w x) (word x w) tt.
Proof.
  intros s _ _ _ Hlen. destruct x; cbn [word tl_buf_add_string_q] in *;
    unfold tl_buf_add_string, tl_buf_add_string_nospace, buf_write; cbn zeta; by rewrite (proj2 (Z.ltb_lt _ _) Hlen).
Qed.

Lemma appends_var_name p id : shows_var p id -> appends (var_name p) [] id.
Proof.
  intros [a v i Ha Hd]. eapply appends_load; [by apply appends_node|]. rewrite Hd. apply appends_ret.
Qed.

Lemma appends_type t id x :
  shows_type t id ->
  appends (buf_add_type t x) (render x (TType (has (c_flags t) 1 && negb (has (c_flags t) 4)) id)) tt.
Proof.
  intros Hid. unfold buf_add_type. cbn [render].
  set (mark := has (c_flags t) 1 && negb (has (c_flags t) 4)).
  assert (H : forall y, appends
    (if has (c_flags t) 2 then let* name := as_str (c_data t) in tl_buf_add_string_q name y
     else let* a := as_type (c_data t) in let* ty := get_type a in
       if has (c_flags t) 4 then
         match ty_constructors ty with
         | [k] => let* c := get_constructor k in tl_buf_add_string_q (shown_id (k_real_id c) (k_id c)) y
         | _ => fail AssertFailed
         end
       else tl_buf_add_string_q (shown_id (ty_real_id ty) (ty_id ty)) y) (word y id) tt).
  { intros y. destruct Hid as [id H2 ->|a ty k c H2 H4 -> Ha Hk Hc|a ty H2 H4 -> Ha]; rewrite H2; cbn [as_str as_type].
    - eapply appends_load; [apply appends_ret|apply appends_string_q].
    - eapply appends_load; [apply appends_ret|].
      eapply appends_load; [by apply appends_get_type|]. rewrite H4, Hk.
      eapply appends_load; [by apply appends_get_constructor|apply appends_string_q].
    - eapply appends_load; [apply appends_ret|].
      eapply appends_load; [by apply appends_get_type|]. rewrite H4. apply appends_string_q. }
  destruct mark.
  - eapply appends_bind; [apply appends_string_q|apply (H false)].
  - eapply appends_load; [apply appends_ret|apply H].
Qed.

End Shows.

Lemma appends_eq {A} N T K (m : C A) w w' v :
  appends N T K m w v -> w = w' -> appends N T K m w' v.
Proof. by intros H <-. Qed.

Create HintDb appends.
#[export] Hint Resolve appends_ret appends_string_q appends_node appends_var_name appends_type : appends.

(** Follow the code, then compare the pieces with the text. *)
Ltac appends_steps :=
  repeat first [ solve [eauto with appends] | eapply appends_bind
               | match goal with IH : _ -> forall n x, _ |- _ => apply IH; lia end
               | match goal with IH : forall n x, _ |- _ => apply IH; lia end ].
Ltac appends_auto :=
  eapply appends_eq; [appends_steps|]; cbn [render word app]; by rewrite <- ?app_assoc, ?app_nil_r.

(** [tl_buf_add_tree] appends the text of the expression a tree shows. *)
Lemma appends_tree N T K p e :
  shows N T K p e ->
  forall n x, (depth e <= n)%nat -> appends N T K (tl_buf_add_tree n p x) (render x e) tt.
Proof.
  induction 1 as
    [|a t Ha Hact|a t id Ha Hact Hid|a t Ha Hact Hd|a t id Ha Hact Hid|a t Ha Hact
    |a t id l r Ha Hact Hd Hl IHl Hr IHr|a t l r Ha Hact Hd Hl IHl Hr IHr|a t l r Ha Hact Hl IHl Hr IHr
    |a t l r Ha Hact Hl IHl Hr IHr|a t b m l r Ha Hact Hb Hm Hf Hl IHl Hr IHr
    |a t b m r Ha Hact Hb Hm Hf Hr IHr|a t r Ha Hact Hb Hr IHr|a t b l id r Ha Hact Hb Hl Hid Hr IHr];
    intros [|n] x Hn; cbn [depth] in Hn; try lia; cbn [tl_buf_add_tree].
  1: apply appends_ret.
  all: eapply appends_load; [by apply appends_node|].
  8: destruct Hact as [Hact|Hact].
  all: rewrite Hact; cbn [render].
  - apply appends_string_q.
  - by apply appends_type.
  - rewrite Hd. apply appends_ret.
  - rewrite bool_decide_eq_false_2 by (destruct Hid; done).
    eapply appends_load; [by apply appends_var_name|].
    eapply appends_bind; [apply appends_string_q|].
    destruct (bool_decide (c_type t = type_num)), (c_type_flags t =? 0) eqn:E;
      cbn [andb negb]; rewrite ?E; eauto with appends.
  - apply appends_string_q.
  - rewrite Hd. change (is_null (ToStr id)) with false. cbn [negb as_str].
    appends_auto.
  - rewrite Hd. change (is_null Null) with true. cbn [negb]. appends_auto.
  - appends_auto.
  - appends_auto.
  - appends_auto.
  - rewrite Hb. change (is_null (ToNode b)) with false. cbn [negb]. rewrite <- Hb.
    eapply appends_eq; [eapply appends_bind; [rewrite Hb at 1; eapply appends_load; [by apply appends_node|]|]|].
    + rewrite Hf. cbn [negb]. appends_steps.
    + appends_steps.
    + cbn [word app]. by rewrite <- ?app_assoc, ?app_nil_r.
  - rewrite Hb. change (is_null (ToNode b)) with false. cbn [negb].
    eapply appends_load; [eapply appends_load; [by apply appends_node|]; rewrite Hf; apply appends_ret|].
    appends_auto.
  - rewrite Hb. change (is_null Null) with true. cbn [negb]. appends_auto.
  - rewrite Hb. eapply appends_load; [by apply appends_node|]. appends_auto.
Qed.

(** The text of a combinator whose name is shown with the suffix [magic]. *)
Definition combinator_text (c : tl_constructor) (magic : list Z) (l r : texpr) : list Z :=
  shown_id (k_real_id c) (k_id c) ++ magic ++ render true l ++ str " =" ++ render true r.

Lemma appends_sides N T K c n l r :
  shows N T K (k_left c) l -> shows N T K (k_right c) r -> (depth l <= n)%nat -> (depth r <= n)%nat ->
  appends N T K (buf_add_sides n c) (render true l ++ str " =" ++ render true r) tt.
Proof.
  intros Hl Hr Dl Dr. unfold buf_add_sides.
  eapply appends_bind; [by apply appends_tree|].
  eapply appends_bind; [apply (appends_string_q _ _ _ true)|by apply appends_tree].
Qed.

Lemma appends_run {A B} (m : C A) (k : A -> C B) w v s :
  appends (nodes s) (tys s) (constructors s) m w v -> Z.of_nat (List.length (buf s ++ w)) < BUF_SIZE ->
  bind m k s = k v (set_buf (buf s ++ w) s).
Proof. intros Hm Hlen. unfold bind. by rewrite Hm. Qed.

Lemma compute_crc32_chars text :
  compute_crc32 (map uchar text) (Z.of_nat (List.length text)) = crc32_ref (map uchar text).
Proof.
  unfold compute_crc32. rewrite crc32_partial_ref.
  - rewrite Nat2Z.id, take_ge by (by rewrite length_map). done.
  - apply List.Forall_forall. intros x (y & <- & _)%in_map_iff. unfold uchar, is_byte. zmod.
  - apply u32_range.
  - rewrite length_map. lia.
Qed.

Section CombinatorName.
Context (s : sstate) (k : positive) (c : tl_constructor) (l r : texpr) (n : nat).
Hypothesis Hc : constructors s !! k = Some c.
Hypothesis Hl : shows (nodes s) (tys s) (constructors s) (k_left c) l.
Hypothesis Hr : shows (nodes s) (tys s) (constructors s) (k_right c) r.
Hypothesis Hn : (depth l <= n)%nat /\ (depth r <= n)%nat.

Lemma get_shown {B} (f : tl_constructor -> C B) s' :
  constructors s' = constructors s -> bind (get_constructor k) f s' = f c s'.
Proof. intros E. unfold bind, get_constructor, load_at. by rewrite E, Hc. Qed.

Lemma reset_run {B} (f : unit -> C B) : bind tl_buf_reset f s = f tt (set_buf [] s).
Proof. done. Qed.

Lemma word_run {B} (f : unit -> C B) b w :
  Z.of_nat (List.length (b ++ w)) < BUF_SIZE ->
  bind (tl_buf_add_string_nospace w) f (set_buf b s) = f tt (set_buf (b ++ w) s).
Proof.
  intros Hlen. rewrite (appends_run _ _ w tt); [by destruct s|apply (appends_string_q _ _ _ false)|].
  by destruct s.
Qed.

Lemma sides_run {B} (f : unit -> C B) b w :
  w = render true l ++ str " =" ++ render true r -> Z.of_nat (List.length (b ++ w)) < BUF_SIZE ->
  bind (buf_add_sides n c) f (set_buf b s) = f tt (set_buf (b ++ w) s).
Proof.
  intros -> Hlen. destruct Hn as [Dl Dr]. erewrite appends_run.
  - by destruct s.
  - apply appends_sides; [| |done|done]; by destruct s.
  - by destruct s.
Qed.

(** C13. The number of a combinator without an explicit one is the CRC-32 of
    its canonical text (the identifier, the arguments, an equals sign and the
    result, separated by spaces); a combinator with an explicit number keeps
    it.  Nothing but the number and the text buffer changes. *)
Theorem combinator_name_is_crc :
  let text := combinator_text c [] l r in
  let name := if k_name c =? 0 then crc32_ref (map uchar text) else k_name c in
  Z.of_nat (List.length text) < BUF_SIZE ->
  tl_count_combinator_name n k s =
    Ret (i32 name, set_constructors (<[k := k_set_name name c]> (constructors s)) (set_buf text s)).
Proof.
  intros text name Hlen. subst text. unfold combinator_text in *. rewrite !length_app in Hlen.
  unfold tl_count_combinator_name. rewrite get_shown, reset_run by done.
  rewrite word_run by (cbn; lia). erewrite sides_run by first [done|rewrite !length_app; cbn in *; lia].
  set (text := shown_id _ _ ++ _ ++ _ ++ _). change (([] ++ _) ++ _) with text.
  unfold bind at 1, get. cbn [rbind].
  assert (Hb : buf (set_buf text s) = text) by (by destruct s). rewrite Hb, compute_crc32_chars.
  assert (Hname : name = if k_name c =? 0 then crc32_ref (map uchar text) else k_name c) by done.
  unfold bind at 1. destruct (k_name c =? 0).
  - unfold set_constructor, store_at. replace (constructors (set_buf text s)) with (constructors s) by (by destruct s).
    rewrite Hc, <- Hname. cbn [rbind]. unfold bind, get_constructor, load_at.
    replace (constructors (set_constructors (<[k:=k_set_name name c]> (constructors s)) (set_buf text s)))
      with (<[k:=k_set_name name c]> (constructors s)) by (by destruct s).
    rewrite lookup_insert_eq. cbn. by destruct c.
  - cbn [ret rbind]. rewrite get_shown by (by destruct s). rewrite insert_id.
    + rewrite Hname. by destruct s.
    + rewrite Hc, Hname. by destruct c.
Qed.

(** The line printed with -E is the canonical text with the number, as
    eight hexadecimal digits, after the identifier. *)
Theorem combinator_printed output_expressions :
  let text := combinator_text c (hash :: x08 (k_name c)) l r in
  Z.of_nat (List.length text) < BUF_SIZE ->
  tl_print_combinator output_expressions n k s =
    Ret (i32 (k_name c),
         set_printed (printed s ++ (if output_expressions >=? 1 then [text] else [])) (set_buf text s)).
Proof.
  intros text Hlen. subst text. unfold combinator_text in *. rewrite !length_app in Hlen.
  unfold tl_print_combinator. rewrite get_shown, reset_run by done.
  rewrite word_run by (cbn; lia). rewrite word_run by (rewrite length_app; cbn [app List.length] in *; lia).
  erewrite sides_run by first [done|rewrite !length_app; cbn [app List.length] in *; lia].
  rewrite <- app_assoc. cbn [app]. set (text := shown_id _ _ ++ _).
  destruct (output_expressions >=? 1); [by destruct s|]. rewrite app_nil_r. by destruct s.
Qed.

End CombinatorName.

(** ** Example: [vector {t:Type} # [ t ] = Vector t] *)

Definition vector_state : sstate :=
  let nd act l r d fl := mk_node act l r d fl type_type 0 0 in
  set_nodes (list_to_map
    [ (1%positive, nd act_field (ToNode 2) Null (ToStr (str "t")) 0);
      (2%positive, nd act_type Null Null (ToType 100) 0);
      (3%positive, nd act_field (ToNode 4) Null Null 0);
      (4%positive, nd act_type Null Null (ToType 101) 0);
      (5%positive, nd act_field (ToNode 6) Null Null 0);
      (6%positive, nd act_array (ToNode 7) (ToNode 8) Null 0);
      (7%positive, nd act_var Null Null (ToNode 3) 128);
      (8%positive, nd act_field (ToNode 9) Null Null 0);
      (9%positive, nd act_var Null Null (ToNode 1) 0);
      (10%positive, nd act_union (ToNode 1) (ToNode 3) Null 0);
      (11%positive, nd act_union (ToNode 10) (ToNode 5) Null 0);
      (12%positive, nd act_type Null Null (ToType 102) 0);
      (13%positive, nd act_arg (ToNode 12) (ToNode 9) Null 0) ])
  (set_types (list_to_map
    [ (100%positive, mk_type (str "Type") (str "Type") None 0 0 0 0 []);
      (101%positive, mk_type (str "#") (str "#") None 0 0 0 0 []);
      (102%positive, mk_type (str "Vector") (str "Vector") None 0 0 1 0 []) ])
  (set_constructors (list_to_map
    [ (103%positive, mk_constructor (str "vector") (str "vector") None 0 (Some 102%positive) (ToNode 11) (ToNode 13)) ])
  init_sstate)).

Definition vector_left : texpr :=
  TSeq (TSeq (TField (Some (str "t")) (TType false (str "Type")) TNone)
             (TField None (TType false (str "#")) TNone))
       (TField None (TArray None (TField None (TVar (str "t") 0) TNone)) TNone).
Definition vector_right : texpr := TSeq (TType false (str "Vector")) (TVar (str "t") 0).

Definition vector_comb : tl_constructor :=
  mk_constructor (str "vector") (str "vector") None 0 (Some 102%positive) (ToNode 11) (ToNode 13).

Lemma vector_shows :
  let shows := shows (nodes vector_state) (tys vector_state) (constructors vector_state) in
  shows (ToNode 11) vector_left /\ shows (ToNode 13) vector_right.
Proof.
  assert (Ht : shows (nodes vector_state) (tys vector_state) (constructors vector_state)
                 (ToNode 9) (TVar (str "t") 0)).
  { apply (s_var _ _ _ 9 (mk_node act_var Null Null (ToNode 1) 0 type_type 0 0) (str "t"));
      [by vm_compute|done|].
    by eapply sv_var; [vm_compute; reflexivity|]. }
  assert (Hty : forall a b id, nodes vector_state !! a = Some (mk_node act_type Null Null (ToType b) 0 type_type 0 0) ->
    (exists ty, tys vector_state !! b = Some ty /\ shown_id (ty_real_id ty) (ty_id ty) = id) ->
    shows (nodes vector_state) (tys vector_state) (constructors vector_state) (ToNode a) (TType false id)).
  { intros a b id Ha (ty & Hb & <-). apply (s_type _ _ _ a _ _ Ha); [done|].
    by eapply st_type. }
  split.
  - eapply s_seq; [vm_compute; reflexivity|by left| |].
    + eapply s_seq; [vm_compute; reflexivity|by left| |].
      * eapply s_field; [vm_compute; reflexivity|done|done| |apply s_null].
        apply (Hty 2%positive 100%positive); [by vm_compute|]. by eexists.
      * eapply s_anonymous; [vm_compute; reflexivity|done|done| |apply s_null].
        apply (Hty 4%positive 101%positive); [by vm_compute|]. by eexists.
    + eapply s_anonymous; [vm_compute; reflexivity|done|done| |apply s_null].
      eapply s_array_default; [vm_compute; reflexivity|done|done|vm_compute; reflexivity|done|].
      eapply s_anonymous; [vm_compute; reflexivity|done|done|exact Ht|apply s_null].
  - eapply s_seq; [vm_compute; reflexivity|by right| |exact Ht].
    apply (Hty 12%positive 102%positive); [by vm_compute|]. by eexists.
Qed.

Lemma combinator_name_is_crc_witness :
  exists s', tl_count_combinator_name 9 103 vector_state = Ret (0x1cb5c415, s').
Proof.
  eexists. rewrite (combinator_name_is_crc vector_state 103 vector_comb vector_left vector_right 9).
  - vm_compute. reflexivity.
  - done.
  - apply vector_shows.
  - apply vector_shows.
  - cbn. lia.
  - by vm_compute.
Defined.

Lemma combinator_printed_witness :
  exists s', tl_print_combinator 1 9 103 vector_state = Ret (0, s') /\
    printed s' = [str "vector#00000000 t:Type # [ t ] = Vector t"].
Proof.
  eexists. rewrite (combinator_printed vector_state 103 vector_comb vector_left vector_right 9).
  - split; [vm_compute; reflexivity|]. by vm_compute.
  - done.
  - apply vector_shows.
  - apply vector_shows.
  - cbn. lia.
  - by vm_compute.
Defined.
