(* ===== verification/Writer.v ===== *)
(** * The binary schema (tl-parser.c, lines 2787 to 3078)

    The [write_*] functions append to the bytes of the output file; [fwrite]
    is taken to write all it is given, otherwise the [assert] around it stops
    the program.  The numbering of the variables ([v] and [last_var]) is passed
    along. *)
From Stdlib Require Import ZArith Lia List Bool Ascii String.
From stdpp Require Import base list strings gmap.
From S2P Require Import Prelude Treap Lexer Parser Symbols Combinator Unify Sema.
Open Scope tl_scope.

(** ** tl-tl.h *)

Definition TLS_SCHEMA_V2 : Z := 0x3a2f9be2.
Definition TLS_TYPE : Z := 0x12eb4386.
Definition TLS_COMBINATOR : Z := 0x5c0a1ed5.
Definition TLS_COMBINATOR_LEFT_BUILTIN : Z := 0xcd211f63.
Definition TLS_COMBINATOR_LEFT : Z := 0x4c12c6d9.
Definition TLS_COMBINATOR_RIGHT_V2 : Z := 0x2c064372.
Definition TLS_ARG_V2 : Z := 0x29dfe61b.
Definition TLS_EXPR_TYPE : Z := 0xecc9da78.
Definition TLS_EXPR_NAT : Z := 0xdcb49bd8.
Definition TLS_NAT_CONST : Z := 0xdcb49bd8.
Definition TLS_NAT_VAR : Z := 0x4e8a14f0.
Definition TLS_TYPE_VAR : Z := 0x0142ceae.
Definition TLS_ARRAY : Z := 0xd9fb20de.
Definition TLS_TYPE_EXPR : Z := 0xc1863d08.

(** ** Primitive values *)

(** The [k] little-endian bytes of [z]. *)
Fixpoint le_bytes (k : nat) (z : Z) : list Z :=
  match k with
  | O => []
  | S k => z mod 256 :: le_bytes k (z / 256)
  end.

Definition fwrite (l : list Z) : C unit := modify (fun s => set_file (file s ++ l) s).

(** The argument is converted to [int]. *)
Definition wint (a : Z) : C unit := fwrite (le_bytes 4 (u32 a)).

Definition wdata (l : list Z) : C unit := fwrite (map uchar l).

Definition wll (a : Z) : C unit := fwrite (le_bytes 8 (u64 a)).

Definition wstr (s : option (list Z)) : C unit :=
  match s with
  | Some s =>
      let x := Z.of_nat (List.length s) in
      assert (x <=? 254) ;;
      fwrite [uchar x] ;;
      wdata s ;;
      let x := x + 1 in
      if negb (Z.land x 3 =? 0) then wdata (repeat 0 (Z.to_nat (4 - Z.land x 3))) else ret tt
  | None => wint 0
  end.

(** ** Flags *)

Definition FLAG_BARE : Z := 1.
Definition FLAG_OPT_VAR : Z := Z.shiftl 1 17.
Definition FLAG_OPT_FIELD : Z := Z.shiftl 1 20.
Definition FLAG_IS_VAR : Z := Z.shiftl 1 21.

Definition flag (flags mask new : Z) : Z := if has flags mask then new else 0.

Definition write_type_flags (flags : Z) : C unit :=
  wint (Z.lor (flag flags 1 FLAG_BARE) (flag flags FLAG_DEFAULT_CONSTRUCTOR FLAG_DEFAULT_CONSTRUCTOR)).

Definition field_flags (flags : Z) : Z :=
  Z.lor (flag flags 1 FLAG_BARE) (Z.lor (flag flags 32 FLAG_OPT_VAR)
    (Z.lor (flag flags FLAG_EXCL FLAG_EXCL) (Z.lor (flag flags FLAG_OPT_FIELD 2)
      (flag flags FLAG_IS_VAR 4)))).

Definition write_field_flags (flags : Z) : C unit := wint (field_flags flags).

Definition write_var_type_flags (flags : Z) : C unit :=
  let new_flags := flag flags 1 FLAG_BARE in
  assert (negb (has new_flags FLAG_BARE)) ;;
  wint new_flags.

Section Writer.
Context (lrand48 : nat -> Z) (address : ptr -> Z) (fuel : nat).
Local Abbreviation vtree := (tree tl_var_value).

(** The pair of [*v] and [*last_var]. *)
Definition numbering : Type := vtree * Z.

(** ** Trees *)

Fixpoint count_list_size (n : nat) (T : ptr) : C Z :=
  match n with
  | O => out_of_fuel
  | S n =>
      let* t := node T in
      match c_type t with
      | type_list_item => ret 1
      | type_list =>
          let* a := count_list_size n (c_left t) in
          let* b := count_list_size n (c_right t) in
          ret (a + b)
      | _ => fail AssertFailed
      end
  end.

(** [T->left->act == act_type && T->left->data && (!strcmp (id, "#") || !strcmp (id, "Type"))] *)
Definition declares_var (l : tl_combinator_tree) : C bool :=
  if bool_decide (c_act l = act_type) && negb (is_null (c_data l)) then
    let* a := as_type (c_data l) in
    let* t := get_type a in
    ret (is_hash (ty_id t) || is_Type (ty_id t))
  else ret false.

(** The functions call each other; [write_tree] is their common recursion, and
    the others take it as an argument.  Its parameter [extra] is used for
    lists only. *)
Definition write_tree_t : Type := ptr -> bool -> numbering -> C numbering.

Fixpoint write_args_with (write_tree : write_tree_t) (n : nat) (T : ptr) (v : numbering) : C numbering :=
  match n with
  | O => out_of_fuel
  | S n =>
      let* t := node T in
      match c_type t with
      | type_list =>
          assert (bool_decide (c_act t = act_union)) ;;
          assert (negb (is_null (c_left t))) ;;
          assert (negb (is_null (c_right t))) ;;
          let* v := write_args_with write_tree n (c_left t) v in
          write_args_with write_tree n (c_right t) v
      | type_list_item =>
          wint TLS_ARG_V2 ;;
          assert (bool_decide (c_act t = act_field)) ;;
          assert (negb (is_null (c_left t))) ;;
          let* name := (if is_null (c_data t) then ret None
                        else let* x := as_str (c_data t) in
                             ret (if strcmp x (str "_") =? 0 then None else Some x)) in
          wstr name ;;
          let* l := node (c_left t) in
          let f := if bool_decide (c_act l = act_opt_field)
                   then Z.lor (c_flags t) FLAG_OPT_FIELD else c_flags t in
          let* b := declares_var l in
          let* v :=
            (if b : bool then
               let '(V, last_var) := v in
               write_field_flags (Z.lor f FLAG_IS_VAR) ;;
               wint last_var ;;
               let* V := tl_set_var_value_num lrand48 address V T Null last_var in
               ret (V, last_var + 1)
             else write_field_flags f ;; ret v) in
          write_tree (c_left t) false v
      | _ => fail AssertFailed
      end
  end.

Definition write_array_with (write_tree : write_tree_t) (t : tl_combinator_tree) (v : numbering)
  : C numbering :=
  wint TLS_ARRAY ;;
  let* v := write_tree (c_left t) false v in
  write_tree (c_right t) false v.

Fixpoint write_type_rec_with (write_tree : write_tree_t) (n : nat) (T : ptr) (cc : Z) (v : numbering)
  : C numbering :=
  match n with
  | O => out_of_fuel
  | S n =>
      let* t := node T in
      match c_act t with
      | act_arg =>
          let* v := write_type_rec_with write_tree n (c_left t) (cc + 1) v in
          let* r := node (c_right t) in
          wint (if is_num (c_type r) then TLS_EXPR_NAT else TLS_EXPR_TYPE) ;;
          write_tree (c_right t) false v
      | act_var =>
          assert (cc =? 0) ;;
          wint TLS_TYPE_VAR ;;
          wint (tl_get_var_value_num address (fst v) (c_data t)) ;;
          write_var_type_flags (c_flags t) ;;
          ret v
      | act_type =>
          wint TLS_TYPE_EXPR ;;
          let* a := as_type (c_data t) in
          let* ty := get_type a in
          wint (ty_name ty) ;;
          write_type_flags (c_flags t) ;;
          wint cc ;;
          ret v
      | _ => fail AssertFailed
      end
  end.

(** The [type_type] case that [write_opt_type] and [write_tree] share. *)
Definition write_type_type (write_tree : write_tree_t) (n : nat) (T : ptr) (t : tl_combinator_tree)
  (otherwise : C numbering) (v : numbering) : C numbering :=
  match c_act t with
  | act_array => write_array_with write_tree t v
  | act_type | act_var | act_arg => write_type_rec_with write_tree n T 0 v
  | _ => otherwise
  end.

Definition write_opt_type_with (write_tree : write_tree_t) (n : nat) (t : tl_combinator_tree)
  (v : numbering) : C numbering :=
  let* l := node (c_left t) in
  wint (tl_get_var_value_num address (fst v) (c_data l)) ;;
  wint (c_type_flags l) ;;
  let T := c_right t in
  let* t := node T in
  if bool_decide (c_type t = type_type)
  then write_type_type write_tree n T t (fail AssertFailed) v
  else fail AssertFailed.

Fixpoint write_tree (n : nat) (T : ptr) (extra : bool) (v : numbering) : C numbering :=
  match n with
  | O => out_of_fuel
  | S n =>
      assert (negb (is_null T)) ;;
      let* t := node T in
      match c_type t with
      | type_list_item | type_list =>
          (if extra then wint TLS_COMBINATOR_RIGHT_V2 else ret tt) ;;
          let* k := count_list_size n T in
          wint k ;;
          write_args_with (write_tree n) n T v
      | type_num_value =>
          wint TLS_NAT_CONST ;; wint (c_type_flags t) ;; ret v
      | type_num =>
          wint TLS_NAT_VAR ;; wint (c_type_flags t) ;;
          wint (tl_get_var_value_num address (fst v) (c_data t)) ;;
          ret v
      | type_type =>
          write_type_type (write_tree n) n T t
            (assert (bool_decide (c_act t = act_opt_field)) ;;
             write_opt_type_with (write_tree n) n t v) v
      end
  end.

Definition write_args (n : nat) : ptr -> numbering -> C numbering := write_args_with (write_tree n) n.
Definition write_array (n : nat) : tl_combinator_tree -> numbering -> C numbering :=
  write_array_with (write_tree n).
Definition write_type_rec (n : nat) : ptr -> Z -> numbering -> C numbering :=
  write_type_rec_with (write_tree n) n.
Definition write_opt_type (n : nat) : tl_combinator_tree -> numbering -> C numbering :=
  write_opt_type_with (write_tree n) n.

(** ** Types and combinators *)

Definition write_type (e : entry) : C unit :=
  let* t := get_type (snd e) in
  wint TLS_TYPE ;;
  wint (ty_name t) ;;
  wstr (Some (ty_id t)) ;;
  wint (Z.of_nat (List.length (ty_constructors t))) ;;
  wint (ty_flags t) ;;
  wint (ty_params_num t) ;;
  wll (ty_params_types t).

Definition is_builtin_type (id : list Z) : bool :=
  existsb (fun b => strcmp id (str b) =? 0) ["int"; "long"; "double"; "string"; "object"; "function"]%string.

Definition write_combinator (k : positive) : C unit :=
  let* c := get_constructor k in
  wint (k_name c) ;;
  wstr (Some (k_id c)) ;;
  let* name := match k_type c with
               | Some a => let* t := get_type a in ret (ty_name t)
               | None => ret 0
               end in
  wint name ;;
  assert (negb (is_null (k_right c))) ;;
  let* v :=
    (if negb (is_null (k_left c)) then
       if is_builtin_type (k_id c) then wint TLS_COMBINATOR_LEFT_BUILTIN ;; ret (Nil, 0)
       else wint TLS_COMBINATOR_LEFT ;; write_tree fuel (k_left c) false (Nil, 0)
     else wint TLS_COMBINATOR_LEFT ;; wint 0 ;; ret (Nil, 0)) in
  wint TLS_COMBINATOR_RIGHT_V2 ;;
  let* _ := write_tree fuel (k_right c) true v in
  ret tt.

Definition write_constructor (k : positive) : C unit := wint TLS_COMBINATOR ;; write_combinator k.
Definition write_function (e : entry) : C unit := wint TLS_COMBINATOR ;; write_combinator (snd e).

Definition write_type_constructors (e : entry) : C unit :=
  let* t := get_type (snd e) in each write_constructor (ty_constructors t).

(** Built without [TL_PARSER_NEED_TIME], so the date is 0. *)
Definition write_types : C unit :=
  wint TLS_SCHEMA_V2 ;;
  wint 0 ;;
  wint 0 ;;
  let* s := get in
  wint (total_types_num s) ;;
  tree_act write_type (tl_type_tree s) ;;
  wint (total_constructors_num s) ;;
  tree_act write_type_constructors (tl_type_tree s) ;;
  wint (total_functions_num s) ;;
  tree_act write_function (tl_function_tree s).

End Writer.
