(* ===== verification/Typing.v ===== *)
(** * Types of combinator trees

    What the nodes of a combinator tree may be: the kinds of nodes, what kinds
    the children of a node have, and what the sides of a combinator are.  The
    functions that build trees keep this typing; partial applications, which
    edit trees in place, do not, so the theorem is about programs without
    them. *)
From Stdlib Require Import ZArith Lia List Bool Ascii String.
From stdpp Require Import base list strings gmap.
From S2P Require Import Prelude Treap Lexer Parser Symbols Tables Combinator Unify Sema Invariant Writer.
Open Scope tl_scope.

(** ** Kinds *)

Inductive node_kind := KType | KNum | KOpt | KItem | KList.

#[export] Instance node_kind_eq_dec : EqDecision node_kind.
Proof. solve_decision. Defined.

(** The kind of a node: the pairs of [type] and [act] that the code makes. *)
Definition kind (n : tl_combinator_tree) : option node_kind :=
  match c_type n, c_act n with
  | type_type, (act_var | act_type | act_arg | act_array) => Some KType
  | type_type, act_opt_field => Some KOpt
  | type_num, act_var => Some KNum
  | type_num_value, act_nat_const => Some KNum
  | type_list_item, (act_field | act_question_mark) => Some KItem
  | type_list, act_union => Some KList
  | _, _ => None
  end.

Abbreviation node_heap := (gmap positive tl_combinator_tree).

(** A pointer to a node of one of some kinds. *)
Definition is_k (ks : list node_kind) (N : node_heap) (p : ptr) : Prop :=
  exists a n k, p = ToNode a /\ N !! a = Some n /\ kind n = Some k /\ k ∈ ks.

Abbreviation is_ty := (is_k [KType]).
Abbreviation is_term := (is_k [KType; KNum]).
Abbreviation is_list := (is_k [KItem; KList]).

Definition or_null (P : node_heap -> ptr -> Prop) (N : node_heap) (p : ptr) : Prop := p = Null \/ P N p.

(** The children of a node.  Null stands for a child that is not there yet. *)
Definition children_typed (N : node_heap) (n : tl_combinator_tree) : Prop :=
  match c_act n with
  | act_arg => is_ty N (c_left n) /\ is_term N (c_right n)
  | act_array => is_k [KNum] N (c_left n) /\ or_null is_list N (c_right n)
  | act_field => or_null (is_k [KType; KOpt]) N (c_left n) /\ c_right n = Null
  | act_union => is_list N (c_left n) /\ is_k [KItem] N (c_right n)
  | act_opt_field => or_null is_term N (c_left n) /\ or_null is_ty N (c_right n)
  | _ => c_left n = Null /\ c_right n = Null
  end.

(** The two flags that the writer sets itself. *)
Definition writer_flags : Z := Z.lor FLAG_OPT_FIELD FLAG_IS_VAR.

Definition node_typed (N : node_heap) (n : tl_combinator_tree) : Prop :=
  is_Some (kind n) /\ children_typed N n /\ has (c_flags n) writer_flags = false.

Record typed (s : sstate) : Prop := {
  typed_fresh : forall a, (brk s <= a)%positive -> nodes s !! a = None;
  typed_nodes : forall a n, nodes s !! a = Some n -> node_typed (nodes s) n;
  typed_sides : forall k c, constructors s !! k = Some c ->
    or_null is_list (nodes s) (k_left c) /\ or_null is_ty (nodes s) (k_right c)
}.

(** Nodes that differ in nothing that the typing of their parents sees. *)
Definition alike (n n' : tl_combinator_tree) : Prop := c_act n' = c_act n /\ c_type n' = c_type n.

#[export] Instance alike_preorder : PreOrder alike.
Proof. split; [by intros n|]. intros n1 n2 n3 [] []. split; congruence. Qed.

Lemma alike_kind n n' : alike n n' -> kind n' = kind n.
Proof. intros [E1 E2]. unfold kind. by rewrite E1, E2. Qed.

(** Later heaps: no node goes away or changes its action or its type. *)
Definition grows (N N' : node_heap) : Prop :=
  forall a n, N !! a = Some n -> exists n', N' !! a = Some n' /\ alike n n'.

#[export] Instance grows_preorder : PreOrder grows.
Proof.
  split.
  - intros N a n Hn. by exists n.
  - intros N1 N2 N3 H1 H2 a n Hn. destruct (H1 a n Hn) as (n2 & Hn2 & E2).
    destruct (H2 a n2 Hn2) as (n3 & Hn3 & E3). exists n3. split; [done|]. by etrans.
Qed.

Lemma is_k_grows ks N N' p : grows N N' -> is_k ks N p -> is_k ks N' p.
Proof.
  intros HG (a & n & k & -> & Hn & Hk & Hin). destruct (HG a n Hn) as (n' & Hn' & E).
  exists a, n', k. split_and!; try done. by rewrite (alike_kind _ _ E).
Qed.

Lemma is_k_weaken ks ks' N p : ks ⊆ ks' -> is_k ks N p -> is_k ks' N p.
Proof. intros Hs (a & n & k & ? & ? & ? & ?). exists a, n, k. auto. Qed.

Lemma or_null_grows ks N N' p : grows N N' -> or_null (is_k ks) N p -> or_null (is_k ks) N' p.
Proof. intros HG [->|H]; [by left|right]. by eapply is_k_grows. Qed.

Lemma children_grows N N' n : grows N N' -> children_typed N n -> children_typed N' n.
Proof.
  intros HG. unfold children_typed.
  destruct (c_act n); intros [H1 H2]; split; try done;
    first [by eapply is_k_grows | by eapply or_null_grows].
Qed.

Lemma node_typed_grows N N' n : grows N N' -> node_typed N n -> node_typed N' n.
Proof. intros HG (? & ? & ?). split_and!; try done. by eapply children_grows. Qed.

Lemma grows_insert N a n : N !! a = None -> grows N (<[a := n]> N).
Proof. intros Ha b m Hb. exists m. rewrite lookup_insert_ne; [done|]. congruence. Qed.

Lemma grows_update N a n n' : N !! a = Some n -> alike n n' -> grows N (<[a := n']> N).
Proof.
  intros Ha Hk b m Hb. destruct (decide (a = b)) as [<-|]; [|exists m; by rewrite lookup_insert_ne].
  exists n'. rewrite lookup_insert_eq. split; [done|]. by simplify_eq.
Qed.

(** A pointer to a node like [n]. *)
Definition like (N : node_heap) (p : ptr) (n : tl_combinator_tree) : Prop :=
  exists a n', p = ToNode a /\ N !! a = Some n' /\ alike n n'.

Lemma like_grows N N' p n : grows N N' -> like N p n -> like N' p n.
Proof.
  intros HG (a & n' & -> & Hn' & E). destruct (HG a n' Hn') as (n2 & Hn2 & E2). exists a, n2.
  split_and!; [done|done|by etrans].
Qed.

Lemma like_k ks k N p n : like N p n -> kind n = Some k -> k ∈ ks -> is_k ks N p.
Proof.
  intros (a & n' & -> & Hn' & E) Hk Hin. exists a, n', k. split_and!; try done. by rewrite (alike_kind _ _ E).
Qed.

Lemma init_typed : typed init_sstate.
Proof. by constructor. Qed.

(** ** The logic *)

(** From [s], if [m] returns, the state is typed, the heap has grown, and [Q]
    holds of the result and the heap. *)
Definition step {A} (m : C A) (s : sstate) (Q : A -> node_heap -> Prop) : Prop :=
  forall x s', m s = Ret (x, s') -> typed s' /\ grows (nodes s) (nodes s') /\ Q x (nodes s').

(** The same from every typed state, without a postcondition. *)
Definition safe {A} (m : C A) : Prop := forall s, typed s -> step m s (fun _ _ => True).

Lemma step_bind {A B} (m : C A) (k : A -> C B) s P Q :
  step m s P ->
  (forall x s', typed s' -> grows (nodes s) (nodes s') -> P x (nodes s') -> step (k x) s' Q) ->
  step (bind m k) s Q.
Proof.
  intros Hm Hk y s' (x & s1 & E1 & E2)%bind_Ret. destruct (Hm x s1 E1) as (H1 & G1 & HP).
  destruct (Hk x s1 H1 G1 HP y s' E2) as (H2 & G2 & HQ). split_and!; [done| |done]. by etrans.
Qed.

Lemma step_ret {A} (x : A) s (Q : A -> node_heap -> Prop) : typed s -> Q x (nodes s) -> step (ret x) s Q.
Proof. intros Hs HQ y s' [= <- <-]. split_and!; [done|done|done]. Qed.

Lemma step_fail {A} f s (Q : A -> node_heap -> Prop) : step (fail f) s Q.
Proof. done. Qed.

Lemma step_out_of_fuel {A} s (Q : A -> node_heap -> Prop) : step out_of_fuel s Q.
Proof. done. Qed.

Lemma step_mono {A} (m : C A) s (P Q : A -> node_heap -> Prop) :
  step m s P -> (forall x N, P x N -> Q x N) -> step m s Q.
Proof. intros Hm HPQ x s' E. destruct (Hm x s' E) as (? & ? & ?). auto. Qed.

Lemma step_safe {A} (m : C A) s : safe m -> typed s -> step m s (fun _ _ => True).
Proof. auto. Qed.

Lemma safe_step {A B} (m : C A) (k : A -> C B) s Q :
  safe m -> typed s ->
  (forall x s', typed s' -> grows (nodes s) (nodes s') -> step (k x) s' Q) -> step (bind m k) s Q.
Proof. intros Hm Hs Hk. eapply step_bind; [by apply Hm|]. auto. Qed.

Lemma step_assert {B} b (k : unit -> C B) s Q :
  (b = true -> step (k tt) s Q) -> step (bind (assert b) k) s Q.
Proof. intros Hk y s' (x & s1 & E1 & E2)%bind_Ret. destruct b; [|done]. injection E1 as <- <-. by apply Hk. Qed.

(** Loading a node. *)
Lemma step_node {B} p (k : tl_combinator_tree -> C B) s Q :
  typed s ->
  (forall a n, p = ToNode a -> nodes s !! a = Some n -> node_typed (nodes s) n -> step (k n) s Q) ->
  step (bind (node p) k) s Q.
Proof.
  intros Hs Hk y s' (n & s1 & E1 & E2)%bind_Ret. destruct p; try done. cbn in E1. unfold load_at in E1.
  destruct (nodes s !! a) as [n'|] eqn:En; [|done]. injection E1 as -> <-.
  eapply Hk; [done|done| |done]. by eapply typed_nodes.
Qed.

Lemma step_new_node n s :
  typed s -> node_typed (nodes s) n ->
  step (new_node n) s (fun p N => like N p n).
Proof.
  intros [HF HN HC] Hn p s'. unfold new_node, alloc, bind, ret. cbn. intros [= <- <-].
  assert (Hb : nodes s !! brk s = None) by (apply HF; lia).
  assert (HG : grows (nodes s) (<[brk s := n]> (nodes s))) by by apply grows_insert.
  destruct s; cbn in *. split_and!; [|done|].
  - constructor; cbn.
    + intros a Ha. rewrite lookup_insert_ne by lia. apply HF. lia.
    + intros a m. destruct (decide (brk = a)) as [<-|].
      * rewrite lookup_insert_eq. intros [= <-]. by eapply node_typed_grows.
      * rewrite lookup_insert_ne by done. intros Hm. eapply node_typed_grows; [done|]. by eapply HN.
    + intros k c Hc. destruct (HC k c Hc). split; by eapply or_null_grows.
  - exists brk, n. by rewrite lookup_insert_eq.
Qed.

Lemma step_set_node p f s :
  typed s ->
  (forall a n, p = ToNode a -> nodes s !! a = Some n -> node_typed (nodes s) n ->
   node_typed (nodes s) (f n) /\ alike n (f n)) ->
  step (set_node p f) s (fun _ _ => True).
Proof.
  intros [HF HN HC] Hf x s'. destruct p; try done. cbn. unfold store_at.
  destruct (nodes s !! a) as [n|] eqn:En; [|done]. intros [= <- <-].
  destruct (Hf a n eq_refl En (HN a n En)) as [Ht Hk].
  assert (HG : grows (nodes s) (<[a := f n]> (nodes s))) by by eapply grows_update.
  destruct s; cbn in *. split_and!; [|done|done]. constructor; cbn.
  - intros b Hb. rewrite lookup_insert_ne; [by apply HF|]. intros ->. rewrite HF in En; done.
  - intros b m. destruct (decide (a = b)) as [<-|].
    + rewrite lookup_insert_eq. intros [= <-]. by eapply node_typed_grows.
    + rewrite lookup_insert_ne by done. intros Hm. eapply node_typed_grows; [done|]. by eapply HN.
  - intros k c Hc. destruct (HC k c Hc). split; by eapply or_null_grows.
Qed.

(** ** Code without a postcondition *)

Create HintDb safe.

(** Changes outside the nodes and the constructors. *)
Lemma typed_same s s' :
  nodes s' = nodes s -> constructors s' = constructors s -> (brk s <= brk s')%positive -> typed s ->
  typed s' /\ grows (nodes s) (nodes s') /\ True.
Proof.
  intros Hn Hc Hb [HF HN HC]. rewrite Hn. split; [|done]. constructor; rewrite ?Hn, ?Hc; try done.
  intros a Ha. apply HF. lia.
Qed.

Ltac same_nodes := apply typed_same; [by case_state..|case_state; cbn; lia|done]
with case_state := match goal with s : sstate |- _ => destruct s end.

Section SafeRules.
Context {A B : Type}.

Lemma safe_ret (x : A) : safe (ret x).
Proof. intros s Hs. by apply step_ret. Qed.
Lemma safe_fail f : safe (A := A) (fail f).
Proof. done. Qed.
Lemma safe_out_of_fuel : safe (A := A) out_of_fuel.
Proof. done. Qed.
Lemma safe_bind (m : C A) (k : A -> C B) : safe m -> (forall x, safe (k x)) -> safe (bind m k).
Proof. intros Hm Hk s Hs. apply safe_step; [done..|]. intros x s' Hs' _. by apply Hk. Qed.
Lemma safe_get : safe get.
Proof. intros s Hs x s' [= <- <-]. done. Qed.
Lemma safe_assert b : safe (assert b).
Proof. destruct b; [|done]. intros s Hs. by apply step_ret. Qed.
Lemma safe_lift (r : result A) : safe (lift r).
Proof. intros s Hs x s'. unfold lift. destruct r; [|done..]. intros [= <- <-]. done. Qed.
Lemma safe_load (h : sstate -> gmap positive A) p : safe (load_at h p).
Proof. intros s Hs x s'. unfold load_at. destruct (h s !! p); [|done]. intros [= <- <-]. done. Qed.
Lemma safe_elem (l : list A) i : safe (elem l i).
Proof. unfold elem. destruct (if 0 <=? i then _ else _) as [y|]; [|done]. intros s Hs. by apply step_ret. Qed.
Lemma safe_modify (f : sstate -> sstate) :
  (forall s, nodes (f s) = nodes s /\ constructors (f s) = constructors s /\ brk (f s) = brk s) -> safe (modify f).
Proof.
  intros Hf s Hs x s' [= <- <-]. destruct (Hf s) as (Hn & Hc & Hb).
  apply typed_same; try done. by rewrite Hb.
Qed.
Lemma safe_each (act : A -> C unit) l : (forall x, safe (act x)) -> safe (each act l).
Proof.
  intros Ha. induction l as [|x l IH]; cbn [each]; [intros s Hs; by apply step_ret|].
  intros s Hs. apply safe_step; [apply Ha|done|]. intros y s' Hs' _. by apply IH.
Qed.
Lemma safe_tree_act (act : A -> C unit) T : (forall x, safe (act x)) -> safe (tree_act act T).
Proof. intros Ha s Hs x s'. rewrite tree_act_inorder. by apply safe_each. Qed.
End SafeRules.

Lemma safe_set_type a f : safe (set_type a f).
Proof.
  intros s Hs x s'. unfold set_type, store_at. destruct (tys s !! a); [|done]. intros [= <- <-].
  same_nodes.
Qed.
Lemma safe_set_variable a f : safe (set_variable a f).
Proof.
  intros s Hs x s'. unfold set_variable, store_at. destruct (variables s !! a); [|done]. intros [= <- <-].
  same_nodes.
Qed.
Lemma safe_alloc_type t : safe (alloc tys set_types t).
Proof.
  intros s Hs x s'. unfold alloc. intros [= <- <-].
  same_nodes.
Qed.
Lemma safe_alloc_variable v : safe (alloc variables set_variables v).
Proof.
  intros s Hs x s'. unfold alloc. intros [= <- <-].
  same_nodes.
Qed.
Lemma safe_draw rnd : safe (draw rnd).
Proof. intros s Hs x s' [= <- <-]. same_nodes. Qed.
Lemma safe_buf_write x : safe (buf_write x).
Proof.
  intros s Hs y s'. unfold buf_write. destruct (_ <? _); [|done]. intros [= <- <-].
  same_nodes.
Qed.
Lemma safe_node p : safe (node p).
Proof. destruct p; cbn; try done. apply safe_load. Qed.

(** A constructor that keeps its sides; a new one without sides. *)
Lemma safe_set_constructor k f :
  (forall c, k_left (f c) = k_left c /\ k_right (f c) = k_right c) -> safe (set_constructor k f).
Proof.
  intros Hf s [HF HN HC] x s'. unfold set_constructor, store_at.
  destruct (constructors s !! k) as [c|] eqn:Ec; [|done]. intros [= <- <-]. destruct (Hf c) as [E1 E2].
  destruct s; cbn in *. split_and!; [|done|done]. constructor; cbn; try done.
  intros j d. destruct (decide (k = j)) as [<-|]; [|rewrite lookup_insert_ne by done; apply HC].
  rewrite lookup_insert_eq. intros [= <-]. rewrite E1, E2. by eapply HC.
Qed.
Lemma safe_alloc_constructor c :
  k_left c = Null -> k_right c = Null -> safe (alloc constructors set_constructors c).
Proof.
  intros H1 H2 s [HF HN HC] x s'. unfold alloc. intros [= <- <-]. destruct s; cbn in *.
  split_and!; [|done|done]. constructor; cbn; try done.
  - intros a Ha. apply HF. lia.
  - intros j d. destruct (decide (brk = j)) as [<-|]; [|rewrite lookup_insert_ne by done; apply HC].
    rewrite lookup_insert_eq. intros [= <-]. rewrite H1, H2. split; by left.
Qed.

#[export] Hint Resolve safe_ret safe_fail safe_out_of_fuel safe_get safe_assert safe_lift safe_load safe_elem
  safe_set_type safe_set_variable safe_alloc_type safe_alloc_variable safe_draw safe_buf_write safe_node : safe.
#[export] Hint Extern 1 (safe (modify _)) => apply safe_modify; intros []; by repeat split : safe.
#[export] Hint Extern 1 (safe (set_constructor _ _)) => apply safe_set_constructor; by intros [] : safe.
#[export] Hint Extern 1 (safe (alloc constructors _ _)) => by apply safe_alloc_constructor : safe.

Ltac safely :=
  repeat (intros; cbv beta zeta;
    first
    [ solve [auto with safe nocore]
    | match goal with
      | |- safe (bind _ _) => apply safe_bind; [|intros ?; cbv beta zeta]
      | |- safe (tree_act _ _) => apply safe_tree_act
      | |- safe (each _ _) => apply safe_each
      | |- safe (match ?x with _ => _ end) => destruct x
      end ]).

(** A field of a node that is no part of its typing. *)
Lemma safe_set_node p f :
  (forall n, c_act (f n) = c_act n /\ c_type (f n) = c_type n /\ c_left (f n) = c_left n /\
    c_right (f n) = c_right n /\ (has (c_flags n) writer_flags = false -> has (c_flags (f n)) writer_flags = false)) ->
  safe (set_node p f).
Proof.
  intros Hf s Hs. apply step_set_node; [done|]. intros a n _ Hn (Hk & Hc & Hfl).
  destruct (Hf n) as (E1 & E2 & E3 & E4 & E5).
  assert (alike n (f n)) as Ea by done. split; [|done].
  split_and!; [by rewrite (alike_kind _ _ Ea)| |by apply E5].
  unfold children_typed in *. by rewrite E1, E3, E4.
Qed.

Ltac plain_field := apply safe_set_node; intros []; cbn; by split_and!.

Lemma safe_type_flags p x : safe (set_node p (n_set_type_flags x)).
Proof. plain_field. Qed.
Lemma safe_type_flags_of p f : safe (set_node p (fun n => n_set_type_flags (f n) n)).
Proof. plain_field. Qed.
Lemma safe_type_len_flags p x y : safe (set_node p (fun r => n_set_type_flags y (n_set_type_len x r))).
Proof. plain_field. Qed.

Lemma has_lor_false f g m : has f m = false -> has g m = false -> has (Z.lor f g) m = false.
Proof.
  unfold has. rewrite !negb_false_iff, !Z.eqb_eq, Z.land_lor_distr_l. intros -> ->. done.
Qed.

Lemma safe_add_flags p g :
  has g writer_flags = false -> safe (set_node p (fun n => n_set_flags (Z.lor (c_flags n) g) n)).
Proof. intros Hg. apply safe_set_node. intros []; cbn. split_and!; try done. intros. by apply has_lor_false. Qed.

Lemma safe_set_flags p g : has g writer_flags = false -> safe (set_node p (n_set_flags g)).
Proof. intros Hg. apply safe_set_node. intros []; cbn. by split_and!. Qed.

#[export] Hint Resolve safe_type_flags safe_type_flags_of safe_type_len_flags : safe.
#[export] Hint Extern 1 (safe (set_node _ (fun n => n_set_flags (Z.lor _ _) n))) => by apply safe_add_flags : safe.
#[export] Hint Extern 1 (safe (set_node _ (n_set_flags _))) => by apply safe_set_flags : safe.

(** *** Tables *)

Section TablesSafe.
Context (lrand48 : nat -> Z) (garbage : Z).

Lemma safe_add_field id : safe (tl_add_field lrand48 id).
Proof. unfold tl_add_field. safely. Qed.
Lemma safe_clear_fields : safe tl_clear_fields.
Proof. unfold tl_clear_fields. safely. Qed.
Lemma safe_add_var id p ty : safe (tl_add_var lrand48 id p ty).
Proof. unfold tl_add_var, new_var. safely. Qed.
Lemma safe_clear_vars : safe tl_clear_vars.
Proof. unfold tl_clear_vars, tl_del_var. safely. Qed.
Hint Resolve safe_clear_fields safe_clear_vars : safe.
Lemma safe_namespace_push : safe namespace_push.
Proof. unfold namespace_push. safely. Qed.
Lemma safe_namespace_pop : safe namespace_pop.
Proof. unfold namespace_pop. safely. Qed.
Lemma safe_get_var id : safe (tl_get_var id).
Proof.
  unfold tl_get_var. apply safe_bind; [apply safe_get|]. intros s.
  induction (Z.to_nat (namespace_level s + 1)) as [|k IH]; cbn [tl_get_var_loop]; safely.
Qed.
Lemma safe_last_num_var : safe tl_get_last_num_var.
Proof. unfold tl_get_last_num_var. safely. Qed.
Lemma safe_get_type a : safe (get_type a).
Proof. apply safe_load. Qed.
Lemma safe_get_constructor a : safe (get_constructor a).
Proof. apply safe_load. Qed.
Lemma safe_get_variable a : safe (get_variable a).
Proof. apply safe_load. Qed.
Lemma safe_enter f g id a : (forall T s, nodes (g T s) = nodes s /\ constructors (g T s) = constructors s /\
  brk (g T s) = brk s) -> safe (enter lrand48 f g id a).
Proof. intros Hg. unfold enter. safely. by apply safe_modify. Qed.
Hint Resolve safe_get_type safe_get_constructor safe_get_variable : safe.
Hint Extern 1 (safe (enter _ _ _ _ _)) => apply safe_enter; by intros ? [] : safe.
Lemma safe_add_type id num ptypes : safe (tl_add_type lrand48 garbage id num ptypes).
Proof. unfold tl_add_type. safely. Qed.
Lemma safe_explicit_magic l : safe (explicit_magic l).
Proof. unfold explicit_magic. safely. Qed.
Hint Resolve safe_explicit_magic : safe.
Lemma safe_add_constructor a id b : safe (tl_add_constructor lrand48 a id b).
Proof. unfold tl_add_constructor. safely. Qed.
Lemma safe_add_function a id b : safe (tl_add_function lrand48 a id b).
Proof. unfold tl_add_function. safely. Qed.
Lemma safe_type_params a x y : safe (tl_type_set_params a x y).
Proof. unfold tl_type_set_params. safely. Qed.
Lemma safe_get_type_id id : safe (tl_get_type id).
Proof. unfold tl_get_type. safely. Qed.
Lemma safe_get_constructor_id id : safe (tl_get_constructor id).
Proof. unfold tl_get_constructor. safely. Qed.
Lemma safe_get_function_id id : safe (tl_get_function id).
Proof. unfold tl_get_function. safely. Qed.
End TablesSafe.

#[export] Hint Resolve safe_add_field safe_clear_fields safe_add_var safe_clear_vars safe_namespace_push
  safe_namespace_pop safe_get_var safe_last_num_var safe_get_type safe_get_constructor safe_get_variable
  safe_add_type safe_add_constructor safe_add_function safe_type_params safe_get_type_id
  safe_get_constructor_id safe_get_function_id : safe.

(** *** Trees *)

Ltac safe_fuel n f := induction n; intros; cbn [f]; safely.

Lemma safe_as_type p : safe (as_type p).
Proof. unfold as_type. safely. Qed.
Lemma safe_as_str p : safe (as_str p).
Proof. unfold as_str. safely. Qed.
#[export] Hint Resolve safe_as_type safe_as_str : safe.
Lemma safe_tree_get_type_loop n T : safe (tl_tree_get_type_loop n T).
Proof. revert T. safe_fuel n tl_tree_get_type_loop. Qed.
#[export] Hint Resolve safe_tree_get_type_loop : safe.
Lemma safe_tree_get_type n T : safe (tl_tree_get_type n T).
Proof. unfold tl_tree_get_type. safely. Qed.
Lemma safe_var_kind t : safe (var_kind t).
Proof. unfold var_kind. safely. Qed.
Lemma safe_buf_q x q : safe (tl_buf_add_string_q x q).
Proof. unfold tl_buf_add_string_q, tl_buf_add_string, tl_buf_add_string_nospace. safely. Qed.
#[export] Hint Resolve safe_tree_get_type safe_var_kind safe_buf_q : safe.
Lemma safe_buf_add_type t x : safe (buf_add_type t x).
Proof. unfold buf_add_type. safely. Qed.
Lemma safe_var_name p : safe (var_name p).
Proof. unfold var_name. safely. Qed.
#[export] Hint Resolve safe_buf_add_type safe_var_name : safe.
Lemma safe_buf_add_tree n T x : safe (tl_buf_add_tree n T x).
Proof. revert T x. safe_fuel n tl_buf_add_tree. Qed.
#[export] Hint Resolve safe_buf_add_tree : safe.
Lemma safe_count_name n k : safe (tl_count_combinator_name n k).
Proof.
  unfold tl_count_combinator_name, tl_buf_reset, buf_add_sides, tl_buf_add_string, tl_buf_add_string_nospace.
  safely.
Qed.
Lemma safe_print_combinator oe n k : safe (tl_print_combinator oe n k).
Proof.
  unfold tl_print_combinator, tl_buf_reset, buf_add_sides, tl_buf_add_string, tl_buf_add_string_nospace.
  safely.
Qed.
Lemma safe__finish_subtree n R x y : safe (_tl_finish_subtree n R x y).
Proof. revert R x y. safe_fuel n _tl_finish_subtree. Qed.
#[export] Hint Resolve safe_count_name safe_print_combinator safe__finish_subtree : safe.
Lemma safe_finish_subtree n R : safe (tl_finish_subtree n R).
Proof. unfold tl_finish_subtree. safely. Qed.
Lemma safe_mark_vars n T : safe (tl_mark_vars n T).
Proof. revert T. safe_fuel n tl_mark_vars. Qed.
#[export] Hint Resolve safe_finish_subtree safe_mark_vars : safe.

(** *** Unification, as the check of the types uses it *)

Section UnifySafe.
Context (lrand48 : nat -> Z) (address : ptr -> Z).

Lemma safe_set_value_num T var v x : safe (tl_set_var_value_num lrand48 address T var v x).
Proof. unfold tl_set_var_value_num. safely. Qed.
Lemma safe_set_value T var v : safe (tl_set_var_value lrand48 address T var v).
Proof. apply safe_set_value_num. Qed.
Lemma safe_lookup_value n L var T : safe (tl_tree_lookup_value address n L var T).
Proof. revert L var T. safe_fuel n tl_tree_lookup_value. Qed.
Lemma safe_lookup_value_nat n L var x T : safe (tl_tree_lookup_value_nat address n L var x T).
Proof. revert L var x T. safe_fuel n tl_tree_lookup_value_nat. Qed.
Hint Resolve safe_set_value_num safe_set_value safe_lookup_value safe_lookup_value_nat : safe.
Lemma safe_nat_chain n K x o T : safe (nat_chain address n K x o T).
Proof. revert K x o T. safe_fuel n nat_chain. Qed.
Hint Resolve safe_nat_chain : safe.
Lemma safe_uniformize_nat n L R T : safe (uniformize_nat lrand48 address n L R T).
Proof. unfold uniformize_nat. safely. Qed.
Hint Resolve safe_uniformize_nat : safe.
Lemma safe_uniformize n L R T : safe (uniformize lrand48 address n L R T).
Proof. revert L R T. safe_fuel n uniformize. Qed.
Lemma safe_check_nat_loop n V L x : safe (check_nat_loop address n V L x).
Proof. revert V L x. safe_fuel n check_nat_loop. Qed.
Hint Resolve safe_uniformize safe_check_nat_loop : safe.
Lemma safe_check_nat_val n V v : safe (check_nat_val address n V v).
Proof. unfold check_nat_val. safely. Qed.
Hint Resolve safe_check_nat_val : safe.
Lemma safe_check_equal n L R T : safe (check_constructors_equal lrand48 address n L R T).
Proof. unfold check_constructors_equal. safely. Qed.
Hint Resolve safe_check_equal : safe.

Lemma safe_xor_names l x : safe (xor_names l x).
Proof. revert x. induction l; intros x; cbn [xor_names]; safely. Qed.
Lemma safe_overlap_with n a k l : safe (overlap_with lrand48 address n a k l).
Proof. induction l; cbn [overlap_with]; safely. Qed.
Hint Resolve safe_xor_names safe_overlap_with : safe.
Lemma safe_overlaps n a l : safe (overlaps lrand48 address n a l).
Proof. induction l; cbn [overlaps]; safely. Qed.
Lemma safe_default_constructors l i z sid : safe (default_constructors l i z sid).
Proof. revert i z sid. induction l; intros i z sid; cbn [default_constructors]; safely. Qed.
Hint Resolve safe_overlaps safe_default_constructors : safe.
Lemma safe_type_check n e : safe (tl_type_check lrand48 address n e).
Proof. unfold tl_type_check. safely. Qed.
End UnifySafe.

#[export] Hint Resolve safe_type_check : safe.

(** ** Building trees *)

Create HintDb typed.
#[export] Hint Resolve is_k_grows or_null_grows like_grows children_grows node_typed_grows : typed.

(** Code without a postcondition, and a node that is loaded, at the front. *)
Ltac step_safe := eapply safe_step; [solve [safely]|done|intros ? ? ? ?; cbv beta zeta].
Ltac step_load n Hn Ht :=
  eapply step_node; [done|]; let E := fresh in intros ? n E Hn Ht; cbv beta zeta;
  first [injection E as <- | rewrite E in *; clear E].
Ltac step_ret := apply step_ret; [done|].

Lemma is_k_Null ks N : ~ is_k ks N Null.
Proof. by intros (a & n & k & ? & _). Qed.

Lemma is_k_not_null ks N p : is_k ks N p -> is_null p = false.
Proof. by intros (a & n & k & -> & _). Qed.

Lemma is_null_true p : is_null p = true -> p = Null.
Proof. unfold is_null. apply bool_decide_eq_true. Qed.

Lemma or_null_k ks N p : or_null (is_k ks) N p -> is_null p = false -> is_k ks N p.
Proof. by intros [->|H]. Qed.

(** The kind of a node that was loaded through a typed pointer. *)
Lemma is_k_load ks N a n : is_k ks N (ToNode a) -> N !! a = Some n -> exists k, kind n = Some k /\ k ∈ ks.
Proof. intros (b & m & k & [= <-] & Hm & Hk & Hin) Hn. exists k. by simplify_eq. Qed.

Lemma is_k_here N a n k : N !! a = Some n -> kind n = Some k -> is_k [k] N (ToNode a).
Proof. intros Hn Hk. exists a, n, k. split_and!; [done..|left]. Qed.

(** *** Copies *)

(** [r] may stand where [T] did. *)
Definition copies (N : node_heap) (T : ptr) (N' : node_heap) (r : ptr) : Prop :=
  (T = Null -> r = Null) /\ forall ks, is_k ks N T -> is_k ks N' r.

Lemma copies_or_null ks N T N' r : copies N T N' r -> or_null (is_k ks) N T -> or_null (is_k ks) N' r.
Proof. intros [H1 H2] [H|H]; [left|right]; auto. Qed.

Lemma children_left N N' t l n :
  children_typed N t -> copies N (c_left t) N' l -> c_act n = c_act t -> children_typed N' n ->
  children_typed N' (n_set_left l n).
Proof.
  intros Ht Hl Ea Hn. destruct n as [a x y d f ty tl tf]. unfold children_typed in *. cbn in *. subst a.
  destruct (c_act t); destruct Ht as [Ht _], Hn as [_ Hn]; split; try done;
    first [by eapply copies_or_null | by apply Hl].
Qed.

Lemma children_right N N' t r n :
  children_typed N t -> copies N (c_right t) N' r -> c_act n = c_act t -> children_typed N' n ->
  children_typed N' (n_set_right r n).
Proof.
  intros Ht Hr Ea Hn. destruct n as [a x y d f ty tl tf]. unfold children_typed in *. cbn in *. subst a.
  destruct (c_act t); destruct Ht as [_ Ht], Hn as [Hn _]; split; try done;
    first [by eapply copies_or_null | by apply Hr].
Qed.

Lemma copies_grows N N1 N2 T r : grows N1 N2 -> copies N T N1 r -> copies N T N2 r.
Proof. intros HG [H1 H2]. split; [done|]. eauto with typed. Qed.

Lemma step_dup n T s :
  typed s -> step (tl_tree_dup n T) s (fun r N => copies (nodes s) T N r).
Proof.
  revert T s. induction n as [|n IH]; intros T s Hs; [done|]. cbn [tl_tree_dup].
  destruct (is_null T) eqn:ET.
  { apply is_null_true in ET as ->. step_ret. split; [done|]. by intros ks ?%is_k_Null. }
  step_load t Ht Htt. destruct Htt as (Hk & Hc & Hf).
  eapply step_bind; [by apply step_new_node|]. intros p s1 Hs1 G1 Hp.
  eapply step_bind; [by apply IH|]. intros l s2 Hs2 G2 Hl.
  eapply step_bind.
  { apply step_set_node; [done|]. intros b m -> Hm (Hkm & Hcm & Hfm).
    destruct (like_grows _ _ _ _ G2 Hp) as (b' & m' & [= <-] & Hm' & Ea & _). simplify_eq.
    split; [|by destruct m]. split_and!; [by destruct m| |by destruct m].
    eapply (children_left (nodes s1)); eauto with typed. }
  intros _ s3 Hs3 G3 _. eapply step_bind; [by apply IH|]. intros r s4 Hs4 G4 Hr.
  eapply step_bind.
  { apply step_set_node; [done|]. intros b m -> Hm (Hkm & Hcm & Hfm).
    destruct (like_grows _ _ _ _ (transitivity G2 (transitivity G3 G4)) Hp) as (b' & m' & [= <-] & Hm' & Ea & _).
    simplify_eq. split; [|by destruct m]. split_and!; [by destruct m| |by destruct m].
    eapply (children_right (nodes s3)); eauto 6 with typed. }
  intros _ s5 Hs5 G5 _. step_ret. split; [done|]. intros ks Hks.
  destruct (is_k_load _ _ _ _ Hks Ht) as (k & Hkk & Hin). eapply (like_k _ k); [|done|done]. eauto with typed.
Qed.

(** *** Unions *)

(** The kinds behind a C type. *)
Lemma kind_type n k : kind n = Some k ->
  match k with
  | KType | KOpt => c_type n = type_type
  | KNum => is_num (c_type n) = true
  | KItem => c_type n = type_list_item
  | KList => c_type n = type_list
  end.
Proof. unfold kind. destruct (c_type n), (c_act n); by intros [= <-]. Qed.

Ltac kinds :=
  repeat match goal with
  | H : ?k ∈ [] |- _ => by apply not_elem_of_nil in H
  | H : ?k ∈ _ :: _ |- _ => apply elem_of_cons in H; destruct H as [H|H]
  end.

Ltac subk := let k := fresh in intros k; rewrite ?elem_of_cons; tauto.

(** An application, a sum, or an error; an application of a type is a type. *)
Lemma step_union_term n L R s :
  typed s -> or_null is_term (nodes s) L -> or_null is_term (nodes s) R ->
  step (tl_union n L R) s (fun r N => or_null is_term N r /\ (is_ty (nodes s) L -> or_null is_ty N r)).
Proof.
  intros Hs HL HR. unfold tl_union. destruct (is_null L) eqn:EL.
  { apply is_null_true in EL as ->. step_ret. split; [done|]. by intros ?%is_k_Null. }
  destruct (is_null R) eqn:ER; [step_ret; split; [done|by right]|].
  apply or_null_k in HL; [|done]. apply or_null_k in HR; [|done]. step_load l Hln Hlt. step_load r Hrn Hrt.
  destruct (is_k_load _ _ _ _ HL Hln) as (kl & Hkl & Hl).
  assert (HT : c_type l <> type_type -> ~ is_ty (nodes s) (ToNode a)).
  { intros Hn Hty. destruct (is_k_load _ _ _ _ Hty Hln) as (k & Hk & Hin). apply kind_type in Hk.
    apply list_elem_of_singleton in Hin as ->. done. }
  assert (HN' : forall s', typed s' -> step (ret Null) s'
    (fun r N => or_null is_term N r /\ (is_ty (nodes s) (ToNode a) -> or_null is_ty N r))).
  { intros s' Hs'. step_ret. split; [by left|]. by left. }
  destruct (c_type l) eqn:El.
  - case_match; [by apply HN'|]. step_safe. step_ret. split; [right; eauto with typed|]. by intros ?%HT.
  - case_match; [by apply HN'|]. step_safe. step_ret. split; [right; eauto with typed|]. by intros ?%HT.
  - destruct (c_type_len l =? 0); [by apply HN'|]. destruct (negb _); [by apply HN'|]. step_safe.
    destruct (negb x); [by apply HN'|]. step_load r' Hrn' Hrt'. step_load l' Hln' Hlt'.
    destruct (c_type_len r' >? 0); [by apply HN'|]. destruct (_ && negb _); [by apply HN'|].
    eapply step_mono; [apply step_new_node; [done|]|].
    + split_and!; [done| |done]. split; cbn; [|eauto with typed].
      apply kind_type in Hkl as Hkl'. eapply is_k_grows; [done|]. eapply is_k_here; [done|].
      kinds; subst kl; first [done|by rewrite El in Hkl'].
    + intros p N Hp. split; [right|intros _; right]; (eapply like_k; [exact Hp|reflexivity|left]).
  - apply kind_type in Hkl. kinds; subst kl; rewrite El in Hkl; done.
  - apply kind_type in Hkl. kinds; subst kl; rewrite El in Hkl; done.
Qed.

(** An item at the end of a list, or an error. *)
Lemma step_union_list n L R s :
  typed s -> or_null is_list (nodes s) L -> or_null is_list (nodes s) R ->
  step (tl_union n L R) s (fun r N => or_null is_list N r).
Proof.
  intros Hs HL HR. unfold tl_union. destruct (is_null L) eqn:EL; [by step_ret|].
  destruct (is_null R) eqn:ER; [by step_ret|].
  apply or_null_k in HL; [|done]. apply or_null_k in HR; [|done]. step_load l Hln Hlt. step_load r Hrn Hrt.
  destruct (is_k_load _ _ _ _ HL Hln) as (kl & Hkl & Hl). destruct (is_k_load _ _ _ _ HR Hrn) as (kr & Hkr & Hr).
  assert (Hnew : step (if negb (bool_decide (c_type r = type_list_item)) then ret Null
    else new_node (mk_node act_union (ToNode a) (ToNode a0) Null 0 type_list 0 0)) s
    (fun r N => or_null is_list N r)).
  { destruct (bool_decide (c_type r = type_list_item)) eqn:Er; cbn [negb]; [|step_ret; by left].
    apply bool_decide_eq_true in Er. eapply step_mono; [apply step_new_node; [done|]|].
    - split_and!; [done| |done]. split; cbn; [done|]. eapply is_k_here; [done|].
      apply kind_type in Hkr as Hkr'. kinds; subst; first [done|by rewrite Er in Hkr'].
    - intros p N Hp. right. eapply like_k; [exact Hp|reflexivity|right; left]. }
  apply kind_type in Hkl. clear Hkr Hr. kinds; subst kl; rewrite Hkl; exact Hnew.
Qed.

(** ** The second phase *)

Section SemaTyped.
Context (text : list Z) (lrand48 : nat -> Z) (garbage : Z) (address : ptr -> Z).
Context (beyond : list Z -> nat -> Z) (output_expressions : Z) (fuel : nat).

(** A function that makes an expression, or null. *)
Definition makes (ks : list node_kind) (m : C ptr) : Prop :=
  forall s, typed s -> step m s (fun r N => or_null (is_k ks) N r).

Local Abbreviation term := (makes [KType; KNum]).

Lemma makes_null ks : makes ks (ret Null).
Proof. intros s Hs. apply step_ret; [done|]. by left. Qed.

Lemma makes_safe {A} ks (m : C A) k : safe m -> (forall x, makes ks (k x)) -> makes ks (bind m k).
Proof. intros Hm Hk s Hs. eapply safe_step; [done|done|]. intros x s' Hs' _. by apply Hk. Qed.

(** A new node without children. *)
Lemma makes_leaf ks k n :
  kind n = Some k -> k ∈ ks -> c_left n = Null -> c_right n = Null -> has (c_flags n) writer_flags = false ->
  c_act n ∈ [act_var; act_type; act_nat_const; act_question_mark] -> makes ks (new_node n).
Proof.
  intros Hk Hin Hl Hr Hf Ha s Hs. eapply step_mono; [apply step_new_node; [done|]|].
  - split_and!; [by eexists| |done]. unfold children_typed.
    repeat (apply elem_of_cons in Ha as [->|Ha]; [done|]). by apply not_elem_of_nil in Ha.
  - intros p N Hp. right. exact (like_k ks k N p n Hp Hk Hin).
Qed.

Lemma safe_t_string T : safe (t_string text T).
Proof. unfold t_string. safely. Qed.
Hint Resolve safe_t_string : safe.

(** *** Expressions *)

Lemma term_try f x s :
  typed s -> or_null is_term (nodes s) x -> term f ->
  step (TL_TRY fuel f x) s (fun r N => or_null is_term N r).
Proof.
  intros Hs Hx Hf. unfold TL_TRY. eapply step_bind; [by apply Hf|]. intros t s1 Hs1 G1 Ht.
  destruct (is_null t); [step_ret; by left|].
  eapply step_mono; [apply step_union_term; eauto with typed|]. by intros r N [? _].
Qed.

Lemma term_try_all f c z L s :
  typed s -> or_null is_term (nodes s) L -> (forall T z, T ∈ c -> term (f T z)) ->
  step (try_all fuel f c z L) s (fun r N => or_null is_term N r).
Proof.
  revert z L s. induction c as [|T c IH]; intros z L s Hs HL Hf; cbn [try_all]; [by step_ret|].
  eapply step_bind; [apply term_try; [done|done|apply Hf; left]|]. intros L1 s1 Hs1 G1 HL1. cbv beta.
  destruct (is_null L1); [step_ret; by left|]. apply IH; [done|done|]. intros T' z' HT. apply Hf. by right.
Qed.

Lemma term_children_typed f c z :
  (forall T z, T ∈ c -> term (f T z)) -> term (term_children fuel f c z).
Proof.
  revert z. induction c as [|T c IH]; intros z Hf s Hs; cbn [term_children]; [done|].
  destruct (has_type T type_percent).
  - apply IH; [|done]. intros T' z' HT. apply Hf. by right.
  - apply term_try_all; [done|by left|done].
Qed.

Lemma term_parse_term_with f T z :
  (forall X z, X ∈ t_c T -> term (f X z)) -> term (tl_parse_term_with fuel f T z).
Proof. intros Hf. apply makes_safe; [safely|]. intros _. by apply term_children_typed. Qed.

(** A term, if its C type passes a test. *)
Lemma makes_checked ks m (test : combinator_tree_type -> bool) :
  term m ->
  (forall n k, kind n = Some k -> k ∈ [KType; KNum] -> test (c_type n) = true -> k ∈ ks) ->
  makes ks (let! Z := m in let* z := node Z in if test (c_type z) then ret Z else ret Null).
Proof.
  intros Hm Ht s Hs. eapply step_bind; [by apply Hm|]. intros Z s1 Hs1 G1 HZ. cbv beta.
  destruct (is_null Z) eqn:EZ; [by apply makes_null|]. apply or_null_k in HZ; [|done].
  step_load z Hz Hzt. destruct (test (c_type z)) eqn:Et; [|by apply makes_null].
  destruct (is_k_load _ _ _ _ HZ Hz) as (k & Hk & Hin). step_ret. right. exists a, z, k. eauto.
Qed.

Lemma makes_type_term f T z :
  (forall X Y z, X ∈ t_c T -> Y ∈ t_c X -> term (f Y z)) ->
  makes [KType] (tl_parse_type_term_with fuel f T z).
Proof.
  intros Hf. unfold tl_parse_type_term_with. apply makes_safe; [safely|]. intros _.
  destruct (t_c T) as [|X [|]]; try done.
  apply (makes_checked _ _ (fun t => @bool_decide (t = type_type) (decide_rel eq t type_type))).
  - apply term_parse_term_with. intros Y z' HY. by eapply Hf; [left|].
  - intros n k Hk Hin Ht%bool_decide_eq_true. apply kind_type in Hk. kinds; subst k; [left|].
    by rewrite Ht in Hk.
Qed.

Lemma makes_nat_term f T z :
  (forall X Y z, X ∈ t_c T -> Y ∈ t_c X -> term (f Y z)) ->
  makes [KNum] (tl_parse_nat_term_with fuel f T z).
Proof.
  intros Hf. unfold tl_parse_nat_term_with. apply makes_safe; [safely|]. intros _.
  destruct (t_c T) as [|X [|]]; try done. apply (makes_checked _ _ is_num).
  - apply term_parse_term_with. intros Y z' HY. by eapply Hf; [left|].
  - intros n k Hk Hin Ht. apply kind_type in Hk. kinds; subst k; [|left]. by rewrite Hk in Ht.
Qed.

Lemma makes_weaken ks ks' m : ks ⊆ ks' -> makes ks m -> makes ks' m.
Proof.
  intros Hk Hm s Hs. eapply step_mono; [by apply Hm|]. intros r N [->|H]; [by left|right].
  by eapply is_k_weaken.
Qed.

(** Steps that make nothing, and a leaf at the end. *)
Ltac leaf :=
  repeat match goal with |- context [if ?b then _ else _] => destruct b end;
  by eapply makes_leaf; [reflexivity|rewrite ?elem_of_cons; tauto|..|rewrite ?elem_of_cons; tauto].
Ltac make :=
  repeat (intros; cbv beta zeta;
    first
    [ solve [apply makes_null]
    | match goal with
      | |- makes _ (bind _ _) => apply makes_safe; [solve [safely]|intros ?; cbv beta zeta]
      | |- makes _ (fail _) => done
      | |- makes _ (match ?x with _ => _ end) => destruct x eqn:?
      end ]).

Lemma term_ident T z : term (tl_parse_ident text lrand48 garbage T z).
Proof. unfold tl_parse_ident. make; leaf. Qed.

Local Abbreviation any_term := (tl_parse_any_term text lrand48 garbage fuel).

Lemma term_any_term T z : term (any_term T z).
Proof.
  revert z. induction T as [T IHc IHg] using ptree_descend. intros z.
  destruct T as [x l t ll lp fl c]. cbn [t_c] in *.
  destruct t; cbn [tl_parse_any_term t_type]; try done; try apply term_ident.
  - unfold tl_parse_subexpr_with. make. intros s Hs. apply term_try_all; [done|by left|eauto].
  - eapply makes_weaken; [|apply makes_type_term; eauto]. subk.
  - apply term_parse_term_with. eauto.
  - unfold tl_parse_expr_with. make. intros s Hs. apply term_try_all; [done|by left|].
    intros X z' HX. unfold tl_parse_subexpr_with. make. intros s' Hs'. apply term_try_all; [done|by left|eauto].
  - eapply makes_weaken; [|apply makes_nat_term; eauto]. subk.
  - unfold tl_parse_nat_const. make. leaf.
Qed.

Lemma makes_parse_type_term T z : makes [KType] (tl_parse_type_term text lrand48 garbage fuel T z).
Proof. apply makes_type_term. intros. apply term_any_term. Qed.

Lemma makes_multiplicity T : makes [KNum] (tl_parse_multiplicity text lrand48 garbage fuel T).
Proof. unfold tl_parse_multiplicity. make. apply makes_nat_term. intros. apply term_any_term. Qed.

(** *** Arguments *)

(** [TL_TRY] on null returns what the function makes. *)
Lemma makes_try_null ks f : makes ks f -> makes ks (TL_TRY fuel f Null).
Proof.
  intros Hf s Hs. unfold TL_TRY. eapply step_bind; [by apply Hf|]. intros t s1 Hs1 G1 Ht. cbv beta.
  destruct (is_null t); [by apply makes_null|]. by step_ret.
Qed.

Definition new_field (l d : ptr) : tl_combinator_tree := mk_node act_field l Null d 0 type_list_item 0 0.

(** The type of a field and its name. *)
Lemma step_set_field F l d s :
  typed s -> like (nodes s) F (new_field Null Null) -> is_k [KType; KOpt] (nodes s) l ->
  step (set_node F (fun n => n_set_data d (n_set_left l n))) s (fun _ _ => True).
Proof.
  intros Hs (a & n' & -> & Hn' & Ea & _) Hl. apply step_set_node; [done|].
  intros b n [= <-] Hn (Hk & Hc & Hf). simplify_eq. cbn in Ea. unfold node_typed, children_typed, kind in *.
  destruct n'; cbn in *; subst. split; [|done]. split_and!; try done; [by right|]. by destruct Hc.
Qed.

(** The type of the next field: a copy, but the original for the last one. *)
Lemma step_field_type ks {A} (names : list A) R s :
  typed s -> is_k ks (nodes s) R ->
  step (match names with [] => ret R | _ => tl_tree_dup fuel R end) s (fun l N => is_k ks N l).
Proof.
  intros Hs HR. destruct names; [by step_ret|]. eapply step_mono; [by apply step_dup|].
  intros l N [_ Hl]. by apply Hl.
Qed.

Lemma step_new_field d s :
  typed s -> step (new_node (mk_node act_field Null Null d 0 type_list_item 0 0)) s
    (fun F N => like N F (new_field Null Null)).
Proof.
  intros Hs. eapply step_mono; [apply step_new_node; [done|]|]; [|done].
  split_and!; [done| |done]. split; [by left|done].
Qed.

Lemma like_field N F : like N F (new_field Null Null) -> or_null is_list N F.
Proof. intros HF. right. by eapply like_k; [exact HF|reflexivity|left]. Qed.

Lemma list_opt_fields names R kd H s :
  typed s -> is_ty (nodes s) R -> or_null is_list (nodes s) H ->
  step (opt_fields text lrand48 fuel names R kd H) s (fun r N => or_null is_list N r).
Proof.
  revert H s. induction names as [|X names IH]; intros H s Hs HR HH; cbn [opt_fields]; [by step_ret|].
  eapply step_bind; [by apply step_new_field|]. intros F s1 Hs1 G1 HF.
  eapply step_bind; [apply step_field_type; [done|eauto with typed]|]. intros l s2 Hs2 G2 Hl.
  eapply safe_step; [safely|done|]. intros id s3 Hs3 G3.
  eapply step_bind.
  { apply step_set_field; [done|eauto with typed|]. eapply (is_k_weaken [KType]); [subk|eauto with typed]. }
  intros _ s4 Hs4 G4 _. step_safe. step_safe.
  eapply step_bind; [apply step_union_list; [done|eauto 7 with typed|apply like_field; eauto 6 with typed]|].
  intros H' s7 Hs7 G7 HH'. apply IH; eauto 8 with typed.
Qed.

Lemma safe_opt_names l : safe (opt_names_ok text l).
Proof. induction l; cbn [opt_names_ok]; safely. Qed.
Lemma safe_random_name : safe (random_name lrand48).
Proof. unfold random_name. safely. Qed.
Hint Resolve safe_opt_names safe_random_name : safe.

Local Abbreviation items := (makes [KItem; KList]).

Lemma list_opt_args T : items (tl_parse_opt_args text lrand48 garbage fuel T).
Proof.
  unfold tl_parse_opt_args. make. intros s Hs.
  eapply step_bind; [apply makes_try_null; [apply makes_parse_type_term|done]|].
  intros R s1 Hs1 G1 HR. cbv beta. destruct (is_null R) eqn:ER; [by apply makes_null|].
  apply or_null_k in HR; [|done]. do 6 step_safe. destruct (_ <? 0); [by apply makes_null|].
  step_safe. destruct (negb _); [by apply makes_null|]. apply list_opt_fields; [done|eauto 9 with typed|by left].
Qed.

Lemma list_arg_fields names R kd e H s :
  typed s -> is_k [KType; KOpt] (nodes s) R -> or_null is_list (nodes s) H ->
  step (arg_fields text lrand48 fuel names R kd e H) s (fun r N => or_null is_list N r).
Proof.
  revert H s. induction names as [|X names IH]; intros H s Hs HR HH; cbn [arg_fields]; [by step_ret|].
  eapply step_bind; [by apply step_new_field|]. intros F s1 Hs1 G1 HF.
  eapply step_bind; [apply step_field_type; [done|eauto with typed]|]. intros l s2 Hs2 G2 Hl.
  eapply safe_step; [safely|done|]. intros d s3 Hs3 G3.
  eapply step_bind; [apply step_set_field; [done|eauto with typed|eauto with typed]|]. intros _ s4 Hs4 G4 _.
  assert (HR4 : is_k [KType; KOpt] (nodes s4) R) by eauto 6 with typed.
  assert (HH4 : or_null is_list (nodes s4) H) by eauto 6 with typed.
  assert (HF4 : or_null is_list (nodes s4) F) by (apply like_field; eauto 6 with typed).
  clear HR HH HF Hl G1 G2 G3 G4 Hs Hs1 Hs2 Hs3.
  step_safe. eapply safe_step; [safely|done|]. intros ok s6 Hs6 G6. destruct (negb ok); [by apply makes_null|].
  eapply safe_step; [safely|done|]. intros ok' s7 Hs7 G7. destruct (negb ok'); [by apply makes_null|].
  eapply step_bind; [apply step_union_list; [done|eauto 6 with typed|eauto 6 with typed]|].
  intros H' s8 Hs8 G8 HH'. apply IH; eauto 6 with typed.
Qed.

Definition new_opt_field : tl_combinator_tree := mk_node act_opt_field Null Null Null 0 type_type 0 0.

(** A child of the node of a conditional field. *)
Lemma step_set_opt E f s :
  typed s -> like (nodes s) E new_opt_field ->
  (forall n, or_null is_term (nodes s) (c_left n) -> or_null is_ty (nodes s) (c_right n) ->
   or_null is_term (nodes s) (c_left (f n)) /\ or_null is_ty (nodes s) (c_right (f n)) /\
   c_act (f n) = c_act n /\ c_type (f n) = c_type n /\ c_flags (f n) = c_flags n) ->
  step (set_node E f) s (fun _ _ => True).
Proof.
  intros Hs (a & n' & -> & Hn' & Ea & _) Hf. apply step_set_node; [done|].
  intros b n [= <-] Hn (Hk & Hc & Hfl). assert (n' = n) as -> by congruence.
  unfold children_typed in Hc. rewrite Ea in Hc. cbn in Hc. destruct Hc as [Hl Hr].
  destruct (Hf n Hl Hr) as (H1 & H2 & E1 & E2 & E3). assert (Hal : alike n (f n)) by done.
  split; [|done]. split_and!; [by rewrite (alike_kind _ _ Hal)| |by rewrite E3].
  unfold children_typed. by rewrite E1, Ea.
Qed.

Lemma opt_optional_field X R s :
  typed s -> is_ty (nodes s) R ->
  step (optional_field text lrand48 garbage X R) s (fun r N => is_k [KOpt] N r).
Proof.
  intros Hs HR. unfold optional_field. destruct (t_c X) as [|X0 [|X1 [|]]]; try done.
  eapply step_bind; [apply step_new_node; [done|]|].
  { split_and!; [done| |done]. split; by left. }
  intros E s1 Hs1 G1 HE. eapply step_bind; [by apply term_ident|]. intros l s2 Hs2 G2 Hl.
  eapply step_bind.
  { apply step_set_opt; [done|eauto with typed|]. by intros []. }
  intros _ s3 Hs3 G3 _. step_safe. step_safe. step_safe.
  eapply step_bind.
  { apply step_set_opt; [done|eauto 8 with typed|]. intros [] ? ?. cbn in *. split_and!; try done.
    right. eauto 8 with typed. }
  intros _ s7 Hs7 G7 _. step_ret. eapply (like_k _ KOpt _ _ new_opt_field); [|done|left]. eauto 9 with typed.
Qed.

Lemma list_args134 T : items (tl_parse_args134 text lrand48 garbage fuel T).
Proof.
  unfold tl_parse_args134. make. intros s Hs.
  eapply step_bind; [apply makes_try_null; [apply makes_parse_type_term|done]|].
  intros R s1 Hs1 G1 HR. cbv beta. destruct (is_null R) eqn:ER; [by apply makes_null|].
  apply or_null_k in HR; [|done]. do 6 step_safe.
  eapply safe_step; [safely|done|]. intros [names excl] s8 Hs8 G8.
  eapply (step_bind _ _ _ (fun x N => is_k [KType; KOpt] N (snd x))).
  { assert (HR8 : is_ty (nodes s8) R) by eauto 10 with typed. destruct (last_is _ _).
    - eapply step_bind; [by apply opt_optional_field|]. intros E s9 Hs9 G9 HE. step_ret.
      eapply is_k_weaken; [|exact HE]. subk.
    - step_ret. eapply is_k_weaken; [|exact HR8]. subk. }
  intros [names' R'] s9 Hs9 G9 HR'. destruct (negb _); [by apply makes_null|].
  apply list_arg_fields; [done|done|by left].
Qed.

Lemma list_try f L s :
  typed s -> or_null is_list (nodes s) L -> items f ->
  step (TL_TRY fuel f L) s (fun r N => or_null is_list N r).
Proof.
  intros Hs HL Hf. unfold TL_TRY. eapply step_bind; [by apply Hf|]. intros t s1 Hs1 G1 Ht. cbv beta.
  destruct (is_null t); [by apply makes_null|]. apply step_union_list; eauto with typed.
Qed.

Lemma list_args_all f c R s :
  typed s -> or_null is_list (nodes s) R -> (forall T, T ∈ c -> items (f T)) ->
  step (args_all fuel f c R) s (fun o N => match o with Some r => or_null is_list N r | None => True end).
Proof.
  revert R s. induction c as [|T c IH]; intros R s Hs HR Hf; cbn [args_all]; [by step_ret|].
  eapply step_bind; [apply list_try; [done|done|apply Hf; left]|]. intros t s1 Hs1 G1 Ht.
  destruct (is_null t); [by step_ret|]. apply IH; [done|done|]. intros T' HT. apply Hf. by right.
Qed.

Lemma list_args2_items f c L x s :
  typed s -> is_k [KNum] (nodes s) L -> (forall T, T ∈ c -> items (f T)) ->
  step (args2_items fuel f c L x) s (fun r N => or_null is_list N r).
Proof.
  intros Hs HL Hf. unfold args2_items. step_safe.
  eapply step_bind; [apply list_args_all; [done|by left|done]|]. intros [R|] s2 Hs2 G2 HR; [|by apply makes_null].
  step_safe. eapply step_bind; [apply step_new_node; [done|]|].
  { split_and!; [done| |done]. split; cbn; eauto 6 with typed. }
  intros A s4 Hs4 G4 HA. eapply step_mono; [apply step_new_node; [done|]|].
  - split_and!; [done| |done]. split; cbn; [|done]. right. eapply like_k; [exact HA|reflexivity|left].
  - intros p N Hp. right. eapply like_k; [exact Hp|reflexivity|left].
Qed.

Lemma list_args2_rest f c x :
  (forall T, T ∈ c -> items (f T)) -> items (args2_rest text lrand48 garbage fuel f c x).
Proof.
  intros Hf. unfold args2_rest. destruct c as [|X c]; [done|]. destruct (has_type X type_multiplicity).
  - intros s Hs. eapply step_bind; [by apply makes_multiplicity|]. intros L s1 Hs1 G1 HL. cbv beta.
    destruct (is_null L) eqn:EL; [by apply makes_null|]. apply or_null_k in HL; [|done].
    apply list_args2_items; [done|done|]. intros T HT. apply Hf. by right.
  - make. intros s Hs. eapply step_bind; [apply step_new_node; [done|by split_and!]|].
    intros L s1 Hs1 G1 HL. step_safe. apply list_args2_items; [done| |done].
    eapply is_k_grows; [done|]. eapply like_k; [exact HL|reflexivity|left].
Qed.

Lemma list_args2_with f T :
  (forall X, X ∈ t_c T -> items (f X)) -> items (tl_parse_args2_with text lrand48 garbage fuel f T).
Proof.
  intros Hf. unfold tl_parse_args2_with. make; apply list_args2_rest; [|done].
  intros X HX. apply Hf. rewrite elem_of_cons. auto.
Qed.

Lemma list_parse_args T : items (tl_parse_args text lrand48 garbage fuel T).
Proof.
  induction T as [T IHc IHg] using ptree_descend. destruct T as [x l t ll lp fl c]. cbn [t_c] in *.
  cbn [tl_parse_args t_c]. make; try apply list_args134. apply list_args2_with. intros Y HY.
  eapply IHg; [left|done].
Qed.

(** *** Combinators *)

Lemma type_result_args c L s :
  typed s -> is_ty (nodes s) L -> step (result_args text lrand48 garbage fuel c L) s (fun r N => or_null is_ty N r).
Proof.
  revert L s. induction c as [|T c IH]; intros L s Hs HL; cbn [result_args]; [step_ret; by right|].
  eapply (step_bind _ _ _ (fun r N => or_null is_ty N r)).
  { unfold TL_TRY. eapply step_bind; [by apply term_any_term|]. intros t s1 Hs1 G1 Ht. cbv beta.
    destruct (is_null t); [by apply makes_null|].
    eapply step_mono; [apply step_union_term; [done| |done]|].
    - right. eapply is_k_weaken; [|eapply is_k_grows; [done|exact HL]]. subk.
    - intros r N [_ Hr]. apply Hr. eauto with typed. }
  intros L1 s1 Hs1 G1 HL1. cbv beta. destruct (is_null L1) eqn:E1; [by apply makes_null|].
  apply or_null_k in HL1; [|done]. step_safe. do 3 step_safe. apply IH; eauto 8 with typed.
Qed.

Lemma type_result_type T : makes [KType] (tl_parse_result_type text lrand48 garbage fuel T).
Proof.
  unfold tl_parse_result_type. apply makes_safe; [safely|]. intros _. apply makes_safe; [safely|]. intros _.
  destruct (t_c T) as [|X args]; [done|]. do 2 (apply makes_safe; [safely|intros ?]). rename x0 into v.
  intros s Hs. eapply (step_bind _ _ _ (fun r N => or_null is_ty N r)).
  { destruct v as [a|].
    - revert s Hs. change (makes [KType] (if negb (nc T =? 1) then ret Null else
        let* v := get_variable a in if negb (v_type v =? 0) then ret Null
        else new_node (mk_node act_var Null Null (v_ptr v) 0 type_type 0 0))). make; leaf.
    - step_safe. destruct x0 as [a|]; [|done]. step_safe.
      eapply step_bind; [apply step_new_node; [done|by split_and!]|]. intros L s3 Hs3 G3 HL.
      apply type_result_args; [done|]. eapply like_k; [exact HL|reflexivity|left]. }
  intros L s1 Hs1 G1 HL. cbv beta. destruct (is_null L) eqn:EL; [by apply makes_null|].
  step_safe. destruct (negb _); [by apply makes_null|]. step_safe. step_ret. eauto 6 with typed.
Qed.

Lemma list_try_while ty f c L s :
  typed s -> or_null is_list (nodes s) L -> (forall T, items (f T)) ->
  step (try_while fuel ty f c L) s (fun o N => match o with Some (_, r) => or_null is_list N r | None => True end).
Proof.
  revert L s. induction c as [|T c IH]; intros L s Hs HL Hf; cbn [try_while]; [by step_ret|].
  destruct (has_type T ty); [|by step_ret].
  eapply step_bind; [by apply list_try|]. intros t s1 Hs1 G1 Ht. destruct (is_null t); [by step_ret|]. by apply IH.
Qed.

(** The sides of a combinator are stored. *)
Lemma safe_finish k L R s :
  typed s -> or_null is_list (nodes s) L -> or_null is_ty (nodes s) R ->
  step (finish_combinator output_expressions fuel k L R) s (fun _ _ => True).
Proof.
  intros Hs HL HR. unfold finish_combinator. eapply (step_bind _ _ _ (fun _ _ => True)).
  - intros x s'. unfold set_constructor, store_at. destruct (constructors s !! k) as [c|] eqn:Ec; [|done].
    intros [= <- <-]. destruct Hs as [HF HN HC]. destruct s; cbn in *. split_and!; [|done|done].
    constructor; cbn; try done. intros j d. destruct (decide (k = j)) as [<-|].
    + rewrite lookup_insert_eq. intros [= <-]. by destruct c.
    + rewrite lookup_insert_ne by done. apply HC.
  - intros _ s1 Hs1 _ _. apply step_safe; [safely|done].
Qed.

Lemma safe_combinator_decl T b : safe (tl_parse_combinator_decl text lrand48 garbage output_expressions fuel T b).
Proof.
  unfold tl_parse_combinator_decl. do 5 (apply safe_bind; [safely|intros _]). cbv zeta. intros s Hs.
  eapply step_bind; [apply list_try_while; [done|by left|apply list_opt_args]|].
  intros [[inner L]|] s1 Hs1 G1 HL; [|by step_ret].
  eapply step_bind; [apply list_try_while; [done|done|apply list_parse_args]|]. intros r s2 Hs2 G2 HL2.
  destruct r as [[inner2 L2]|]; [|by step_ret].
  destruct (t_c T) as [|X c0]; [done|]. destruct (drop _ (X :: c0)) as [|E [|Y [|]]]; try done.
  step_safe. eapply step_bind; [by apply type_result_type|]. intros R s3 Hs3 G3 HR.
  destruct (is_null R); [by step_ret|]. assert (HL3 : or_null is_list (nodes s3) L2) by eauto with typed.
  step_safe. do 3 step_safe. step_safe. step_safe.
  eapply safe_step; [unfold tl_var_check_used; safely|done|]. intros _ s10 Hs10 G10.
  step_safe. destruct (negb _); [by step_ret|]. step_safe. do 2 step_safe. destruct (_ || _); [by step_ret|].
  eapply safe_step; [safely|done|]. intros [k|] s15 Hs15 G15; [|by step_ret].
  eapply step_bind; [apply safe_finish; [done|eauto 20 with typed|eauto 20 with typed]|].
  intros _ s16 Hs16 _ _. by step_ret.
Qed.

Lemma safe_final_decl T b : safe (tl_parse_final_decl text lrand48 garbage T b).
Proof.
  unfold tl_parse_final_decl, tl_parse_final_new, tl_parse_final_final, tl_parse_final_empty, final_child. safely.
Qed.

Lemma safe_builtin_decl T b :
  safe (tl_parse_builtin_combinator_decl text lrand48 garbage beyond output_expressions fuel T b).
Proof.
  unfold tl_parse_builtin_combinator_decl. destruct b; [safely|]. apply safe_bind; [safely|intros _].
  destruct (t_c T) as [|X [|Y [|]]]; try (by safely). do 4 (apply safe_bind; [safely|intros ?]).
  destruct (negb _); [safely|]. apply safe_bind; [safely|]. intros [a|]; [|safely].
  apply safe_bind; [safely|]. intros [k|]; [|safely]. intros s Hs.
  eapply step_bind; [apply step_new_node; [done|by split_and!]|]. intros L s1 Hs1 G1 HL.
  eapply step_bind; [apply step_new_node; [done|by split_and!]|]. intros R s2 Hs2 G2 HR.
  eapply step_bind; [apply safe_finish; [done|right|right]|].
  - eapply is_k_grows; [done|]. eapply like_k; [exact HL|reflexivity|left].
  - eapply like_k; [exact HR|reflexivity|left].
  - intros _ s3 Hs3 _ _. by step_ret.
Qed.

(** *** Programs without partial applications *)

Definition partial_app (D : ptree) : bool := existsb (fun X => has_type X type_partial_app_decl) (t_c D).
Definition no_partial (T : ptree) : bool :=
  forallb (fun S => forallb (fun D => negb (partial_app D)) (t_c S)) (t_c T).

Lemma safe_declaration T b :
  partial_app T = false ->
  safe (tl_parse_declaration text lrand48 garbage address beyond output_expressions fuel T b).
Proof.
  intros HT. unfold tl_parse_declaration. apply safe_bind; [safely|intros _]. unfold partial_app in HT.
  destruct (t_c T) as [|X [|]]; try (by safely). cbn in HT. rewrite orb_false_r in HT.
  unfold has_type in HT. apply bool_decide_eq_false in HT.
  destruct (t_type X); try (by safely); [apply safe_combinator_decl|apply safe_final_decl|apply safe_builtin_decl].
Qed.

Lemma safe_try_pes f c : (forall T, T ∈ c -> safe (f T)) -> safe (try_pes f c).
Proof.
  intros Hf. induction c as [|T c IH]; cbn [try_pes]; [safely|].
  apply safe_bind; [apply Hf; left|]. intros r. destruct (r =? 0); [safely|].
  apply IH. intros T' HT. apply Hf. by right.
Qed.

Lemma safe_tl_parse T :
  no_partial T = true -> safe (tl_parse text lrand48 garbage address beyond output_expressions fuel T).
Proof.
  intros HT. unfold tl_parse. do 3 (apply safe_bind; [safely|intros _]).
  apply safe_bind; [|safely]. apply safe_try_pes. intros S HS.
  unfold no_partial in HT. rewrite forallb_forall in HT. apply list_elem_of_In in HS. specialize (HT S HS).
  rewrite forallb_forall in HT.
  assert (forall b, safe (try_pes (fun X => tl_parse_declaration text lrand48 garbage address beyond
    output_expressions fuel X b) (t_c S))) as Hb.
  { intros b. apply safe_try_pes. intros D HD. apply safe_declaration. apply negb_true_iff, HT.
    by apply list_elem_of_In. }
  unfold tl_parse_constr_declarations, tl_parse_fun_declarations.
  destruct (has_type S type_constr_declarations); (apply safe_bind; [safely|intros _; apply Hb]).
Qed.
End SemaTyped.

(** ** The theorem *)

(** C4. Without partial applications, every node that [tl_parse] leaves on the
    heap is well typed: the children of an application are a type and an
    expression, the multiplicity of an array is a number and its items a list,
    a field has a type, conditional fields occur only there, the left side of a
    combinator is a list of fields and its right side a type. *)
Theorem tl_parse_typed text lrand48 garbage address beyond output_expressions fuel T b s :
  no_partial T = true ->
  tl_parse text lrand48 garbage address beyond output_expressions fuel T init_sstate = Ret (b, s) -> typed s.
Proof. intros HT H. by eapply safe_tl_parse; [|apply init_typed|]. Qed.

Lemma tl_parse_typed_witness : no_partial two_tree = true /\ typed two_state.
Proof.
  split; [vm_compute; reflexivity|].
  apply (tl_parse_typed two_constructors some_draws 0 (fun _ => 0) (fun _ _ => 0) 0 20 two_tree true two_state);
    vm_compute; reflexivity.
Defined.
