(* ===== verification/Declared.v ===== *)
(** * What an accepted program declares

    The link between the source and the tables: the identifiers of the
    combinators that the declarations of a program name, in the order of the
    source, and the theorem that after an accepted run of [tl_parse] on a program
    without partial applications the heap holds one combinator for each of them,
    under its identifier and with the number that the source gives, and no other.
    Everything but the calls that add a combinator leaves the combinators alone
    ([steady]). *)
From Stdlib Require Import ZArith Lia List Bool Ascii String.
From stdpp Require Import base list strings gmap.
From S2P Require Import Prelude Treap Lexer Parser Symbols Tables Combinator Unify Sema Invariant Typing.
Open Scope tl_scope.

(** ** Calls that leave the combinators alone *)

(** A combinator keeps its identifier and its type, and its number once it has one. *)
Definition same_combinator (c c' : tl_constructor) : Prop :=
  k_id c' = k_id c /\ k_type c' = k_type c /\ (k_name c <> 0 -> k_name c' = k_name c).

Record stable (s s' : sstate) : Prop := {
  st_heap : forall k, option_Forall2 same_combinator (constructors s !! k) (constructors s' !! k);
  st_constructors : tl_constructor_tree s' = tl_constructor_tree s;
  st_functions : tl_function_tree s' = tl_function_tree s;
  st_total_constructors : total_constructors_num s' = total_constructors_num s;
  st_total_functions : total_functions_num s' = total_functions_num s
}.

Lemma same_combinators (h : gmap positive tl_constructor) k : option_Forall2 same_combinator (h !! k) (h !! k).
Proof. destruct (h !! k); by constructor. Qed.
#[export] Hint Resolve same_combinators : core.

#[export] Instance stable_preorder : PreOrder stable.
Proof.
  split; [by constructor|]. intros s1 s2 s3 [H1 ? ? ? ?] [H2 ? ? ? ?]. constructor; [|congruence..]. intros k.
  specialize (H1 k). specialize (H2 k). destruct H1 as [c1 c2 (? & ? & N1)|]; inversion H2 as [? c3 (? & ? & N2)|]; subst; constructor.
  split_and!; [congruence|congruence|]. intros Hn. rewrite N2, N1; [done..|]. by rewrite N1.
Qed.

Definition steady {A} (m : C A) : Prop := forall s a s', m s = Ret (a, s') -> stable s s'.

Create HintDb steady.

Section Rules.
Context {A B : Type}.

Lemma steady_ret (x : A) : steady (ret x).
Proof. intros s a s' [= <- <-]. reflexivity. Qed.

Lemma steady_fail f : steady (A := A) (fail f).
Proof. done. Qed.

Lemma steady_out_of_fuel : steady (A := A) out_of_fuel.
Proof. done. Qed.

Lemma steady_bind (m : C A) (k : A -> C B) : steady m -> (forall x, steady (k x)) -> steady (bind m k).
Proof. intros Hm Hk s b s' (x & s1 & E1 & E2)%bind_Ret. etrans; [by eapply Hm|by eapply Hk]. Qed.

Lemma steady_get : steady get.
Proof. intros s a s' [= <- <-]. reflexivity. Qed.

Lemma steady_assert b : steady (assert b).
Proof. destruct b; [|done]. intros s a s' [= <- <-]. reflexivity. Qed.

Lemma steady_lift (r : result A) : steady (lift r).
Proof. intros s a s'. unfold lift. destruct r; [|done..]. intros [= <- <-]. reflexivity. Qed.

Lemma steady_load (h : sstate -> gmap positive A) p : steady (load_at h p).
Proof. intros s a s'. unfold load_at. destruct (h s !! p); [|done]. intros [= <- <-]. reflexivity. Qed.

Lemma steady_elem (l : list A) i : steady (elem l i).
Proof. unfold elem. destruct (if 0 <=? i then _ else _) as [y|]; [|done]. apply steady_ret. Qed.

Lemma steady_modify f : (forall s, stable s (f s)) -> steady (modify f).
Proof. intros Hf s a s' [= <- <-]. apply Hf. Qed.
End Rules.

Lemma steady_each {A} (act : A -> C unit) l : (forall x, steady (act x)) -> steady (each act l).
Proof. intros Ha. induction l as [|x l IH]; cbn [each]; [apply steady_ret|]. by apply steady_bind. Qed.

Lemma steady_tree_act {A} (act : A -> C unit) T : (forall x, steady (act x)) -> steady (tree_act act T).
Proof. intros Ha s x s'. rewrite tree_act_inorder. by apply steady_each. Qed.

#[export] Hint Resolve steady_ret steady_fail steady_out_of_fuel steady_get steady_assert steady_lift
  steady_load steady_elem : steady.

(** Walk over the code, as for the invariant; a field that is not part of
    [stable] may be set. *)
Ltac settle :=
  repeat (intros; cbv beta zeta;
    first
    [ solve [auto with steady nocore]
    | match goal with
      | |- steady (bind _ _) => apply steady_bind; [|intros ?; cbv beta zeta]
      | |- steady (tree_act _ _) => apply steady_tree_act
      | |- steady (each _ _) => apply steady_each
      | |- steady (modify _) => apply steady_modify; intros []; by constructor
      | |- steady (match ?x with _ => _ end) => destruct x
      end ]).

Ltac settle_fuel n f := induction n; intros; cbn [f]; settle.

(** ** The heap and the scopes *)

Lemma steady_node p : steady (node p).
Proof. destruct p; cbn; settle. Qed.
Lemma steady_get_type a : steady (get_type a).
Proof. apply steady_load. Qed.
Lemma steady_get_constructor a : steady (get_constructor a).
Proof. apply steady_load. Qed.
Lemma steady_get_variable a : steady (get_variable a).
Proof. apply steady_load. Qed.

Lemma steady_new_node n : steady (new_node n).
Proof. intros s a s'. unfold new_node, alloc, bind, ret. cbn. intros [= <- <-]. by destruct s. Qed.

Lemma steady_set_node p f : steady (set_node p f).
Proof.
  destruct p; try done. intros s x s'. cbn. unfold store_at. destruct (nodes s !! a); [|done].
  intros [= <- <-]. by destruct s.
Qed.

Lemma steady_set_variable a f : steady (set_variable a f).
Proof.
  intros s x s'. unfold set_variable, store_at. destruct (variables s !! a); [|done]. intros [= <- <-]. by destruct s.
Qed.

Lemma steady_set_type a f : steady (set_type a f).
Proof. intros s x s'. unfold set_type, store_at. destruct (tys s !! a); [|done]. intros [= <- <-]. by destruct s. Qed.

Lemma steady_set_constructor k f : (forall c, same_combinator c (f c)) -> steady (set_constructor k f).
Proof.
  intros Hf s x s'. unfold set_constructor, store_at. destruct (constructors s !! k) as [c|] eqn:Ec; [|done].
  intros [= <- <-]. destruct s; cbn in *. constructor; cbn; try done. intros j.
  destruct (decide (k = j)) as [<-|]; [|by rewrite lookup_insert_ne]. rewrite lookup_insert_eq, Ec. by constructor.
Qed.

Lemma steady_draw rnd : steady (draw rnd).
Proof. intros s x s' [= <- <-]. by destruct s. Qed.

Lemma steady_alloc_type t : steady (alloc tys set_types t).
Proof. intros s x s' [= <- <-]. by destruct s. Qed.

Lemma steady_alloc_variable v : steady (alloc variables set_variables v).
Proof. intros s x s' [= <- <-]. by destruct s. Qed.

Lemma steady_buf_reset : steady tl_buf_reset.
Proof. unfold tl_buf_reset. settle. Qed.

Lemma steady_buf_write x : steady (buf_write x).
Proof. intros s a s'. unfold buf_write. destruct (_ <? _); [|done]. intros [= <- <-]. by destruct s. Qed.

#[export] Hint Resolve steady_node steady_get_type steady_get_constructor steady_get_variable steady_new_node steady_set_node
  steady_set_variable steady_set_type steady_draw steady_alloc_type steady_alloc_variable steady_buf_reset steady_buf_write : steady.

Section Ops.
Context (lrand48 : nat -> Z) (garbage : Z).

Lemma steady_add_field id : steady (tl_add_field lrand48 id).
Proof. unfold tl_add_field. settle. Qed.
Lemma steady_clear_fields : steady tl_clear_fields.
Proof. unfold tl_clear_fields. settle. Qed.
Lemma steady_add_var id p ty : steady (tl_add_var lrand48 id p ty).
Proof. unfold tl_add_var, new_var. settle. Qed.
Lemma steady_clear_vars : steady tl_clear_vars.
Proof. unfold tl_clear_vars, tl_del_var. settle. Qed.
Hint Resolve steady_clear_fields steady_clear_vars : steady.
Lemma steady_namespace_push : steady namespace_push.
Proof. unfold namespace_push. settle. Qed.
Lemma steady_namespace_pop : steady namespace_pop.
Proof. unfold namespace_pop. settle. Qed.
Lemma steady_get_var id : steady (tl_get_var id).
Proof.
  unfold tl_get_var. apply steady_bind; [apply steady_get|]. intros s.
  induction (Z.to_nat (namespace_level s + 1)) as [|k IH]; cbn [tl_get_var_loop]; settle.
Qed.
Lemma steady_add_type id num ptypes : steady (tl_add_type lrand48 garbage id num ptypes).
Proof. unfold tl_add_type, enter. settle. Qed.
Lemma steady_type_params a x y : steady (tl_type_set_params a x y).
Proof. unfold tl_type_set_params. settle. Qed.
End Ops.

#[export] Hint Resolve steady_add_field steady_clear_fields steady_add_var steady_clear_vars steady_namespace_push
  steady_namespace_pop steady_get_var steady_add_type steady_type_params : steady.

(** ** Combinator trees *)

Lemma steady_as_type p : steady (as_type p).
Proof. unfold as_type. settle. Qed.
Lemma steady_as_str p : steady (as_str p).
Proof. unfold as_str. settle. Qed.
#[export] Hint Resolve steady_as_type steady_as_str : steady.

Lemma steady_tree_dup n T : steady (tl_tree_dup n T).
Proof. revert T. settle_fuel n tl_tree_dup. Qed.
Lemma steady_tree_get_type_loop n T : steady (tl_tree_get_type_loop n T).
Proof. revert T. settle_fuel n tl_tree_get_type_loop. Qed.
#[export] Hint Resolve steady_tree_dup steady_tree_get_type_loop : steady.
Lemma steady_tree_get_type n T : steady (tl_tree_get_type n T).
Proof. unfold tl_tree_get_type. settle. Qed.
Lemma steady_buf_q x q : steady (tl_buf_add_string_q x q).
Proof. unfold tl_buf_add_string_q, tl_buf_add_string, tl_buf_add_string_nospace. settle. Qed.
#[export] Hint Resolve steady_tree_get_type steady_buf_q : steady.
Lemma steady_buf_add_type t x : steady (buf_add_type t x).
Proof. unfold buf_add_type. settle. Qed.
Lemma steady_var_name p : steady (var_name p).
Proof. unfold var_name. settle. Qed.
#[export] Hint Resolve steady_buf_add_type steady_var_name : steady.
Lemma steady_buf_add_tree n T x : steady (tl_buf_add_tree n T x).
Proof. revert T x. settle_fuel n tl_buf_add_tree. Qed.
#[export] Hint Resolve steady_buf_add_tree : steady.
Lemma steady_buf_add_sides n c : steady (buf_add_sides n c).
Proof. unfold buf_add_sides, tl_buf_add_string. settle. Qed.
#[export] Hint Resolve steady_buf_add_sides : steady.
Lemma steady_print_combinator oe n k : steady (tl_print_combinator oe n k).
Proof. unfold tl_print_combinator, tl_buf_add_string_nospace. settle. Qed.
Lemma steady__finish_subtree n R x y : steady (_tl_finish_subtree n R x y).
Proof. revert R x y. settle_fuel n _tl_finish_subtree. Qed.
#[export] Hint Resolve steady_print_combinator steady__finish_subtree : steady.
Lemma steady_finish_subtree n R : steady (tl_finish_subtree n R).
Proof. unfold tl_finish_subtree. settle. Qed.
#[export] Hint Resolve steady_finish_subtree : steady.
Lemma steady_union n L R : steady (tl_union n L R).
Proof. unfold tl_union. settle. Qed.
#[export] Hint Resolve steady_union : steady.

(** ** Unification *)

Section UnifySteady.
Context (lrand48 : nat -> Z) (address : ptr -> Z).

Lemma steady_set_value_num T var v x : steady (tl_set_var_value_num lrand48 address T var v x).
Proof. unfold tl_set_var_value_num. settle. Qed.
Lemma steady_set_value T var v : steady (tl_set_var_value lrand48 address T var v).
Proof. apply steady_set_value_num. Qed.
Lemma steady_var_kind t : steady (var_kind t).
Proof. unfold var_kind. settle. Qed.
Hint Resolve steady_set_value_num steady_set_value steady_var_kind : steady.
Lemma steady_change_var_ptrs n O D V : steady (change_var_ptrs lrand48 address n O D V).
Proof. revert O D V. settle_fuel n change_var_ptrs. Qed.
Lemma steady_change_first_var n O X Y : steady (change_first_var n O X Y).
Proof. revert O X Y. settle_fuel n change_first_var. Qed.
Lemma steady_reduce_type n A t : steady (reduce_type n A t).
Proof. revert A. settle_fuel n reduce_type. Qed.
Lemma steady_change_value_loop n O X : steady (change_value_loop address n O X).
Proof. revert O X. settle_fuel n change_value_loop. Qed.
Hint Resolve steady_change_value_loop : steady.
Lemma steady_change_value_var n O X : steady (change_value_var address n O X).
Proof. revert O X. settle_fuel n change_value_var. Qed.
Lemma steady_lookup_value n L var T : steady (tl_tree_lookup_value address n L var T).
Proof. revert L var T. settle_fuel n tl_tree_lookup_value. Qed.
Lemma steady_lookup_value_nat n L var x T : steady (tl_tree_lookup_value_nat address n L var x T).
Proof. revert L var x T. settle_fuel n tl_tree_lookup_value_nat. Qed.
Hint Resolve steady_lookup_value steady_lookup_value_nat : steady.
Lemma steady_nat_chain n K x o T : steady (nat_chain address n K x o T).
Proof. revert K x o T. settle_fuel n nat_chain. Qed.
Hint Resolve steady_nat_chain : steady.
Lemma steady_uniformize_nat n L R T : steady (uniformize_nat lrand48 address n L R T).
Proof. unfold uniformize_nat. settle. Qed.
Hint Resolve steady_uniformize_nat : steady.
Lemma steady_uniformize n L R T : steady (uniformize lrand48 address n L R T).
Proof. revert L R T. settle_fuel n uniformize. Qed.
Lemma steady_check_nat_loop n V L x : steady (check_nat_loop address n V L x).
Proof. revert V L x. settle_fuel n check_nat_loop. Qed.
Hint Resolve steady_uniformize steady_check_nat_loop : steady.
Lemma steady_check_nat_val n V v : steady (check_nat_val address n V v).
Proof. unfold check_nat_val. settle. Qed.
Hint Resolve steady_check_nat_val : steady.
Lemma steady_check_equal n L R T : steady (check_constructors_equal lrand48 address n L R T).
Proof. unfold check_constructors_equal. settle. Qed.
End UnifySteady.

#[export] Hint Resolve steady_var_kind steady_change_var_ptrs steady_change_first_var steady_reduce_type
  steady_change_value_var steady_check_equal : steady.

(** ** The second phase *)

Section SemaSteady.
Context (text : list Z) (lrand48 : nat -> Z) (garbage : Z) (address : ptr -> Z).
Context (beyond : list Z -> nat -> Z) (output_expressions : Z) (fuel : nat).

Lemma steady_t_string T : steady (t_string text T).
Proof. unfold t_string. settle. Qed.
Lemma steady_try (f : C ptr) x : steady f -> steady (TL_TRY fuel f x).
Proof. unfold TL_TRY. settle. Qed.
Hint Resolve steady_t_string steady_try : steady.

Lemma steady_try_all f c s L : (forall T s, T ∈ c -> steady (f T s)) -> steady (try_all fuel f c s L).
Proof.
  intros Hf. revert s L. induction c as [|T c IH]; intros s L; cbn [try_all]; settle.
  - apply steady_try, Hf. left.
  - apply IH. intros T' s' HT. apply Hf. by right.
Qed.
Lemma steady_term_children f c s : (forall T s, T ∈ c -> steady (f T s)) -> steady (term_children fuel f c s).
Proof.
  intros Hf. revert s. induction c as [|T c IH]; intros s; cbn [term_children]; [settle|].
  destruct (has_type T type_percent); [|by apply steady_try_all].
  apply IH. intros T' s' HT. apply Hf. by right.
Qed.
Lemma steady_get_constructor_id id : steady (tl_get_constructor id).
Proof. unfold tl_get_constructor. settle. Qed.
Lemma steady_get_function_id id : steady (tl_get_function id).
Proof. unfold tl_get_function. settle. Qed.
Lemma steady_get_type_id id : steady (tl_get_type id).
Proof. unfold tl_get_type. settle. Qed.
Hint Resolve steady_get_constructor_id steady_get_function_id steady_get_type_id : steady.
Lemma steady_parse_ident T s : steady (tl_parse_ident text lrand48 garbage T s).
Proof. unfold tl_parse_ident. settle. Qed.
Hint Resolve steady_parse_ident : steady.

Local Abbreviation any_term := (tl_parse_any_term text lrand48 garbage fuel).

Lemma steady_any_term T s : steady (any_term T s).
Proof.
  revert s. induction T as [T IHc IHg] using ptree_descend. intros s.
  assert (Hterm : forall X s, X ∈ t_c T -> steady (tl_parse_term_with fuel any_term X s)).
  { intros X s0 HX. unfold tl_parse_term_with. settle. apply steady_term_children. eauto. }
  destruct T as [x l t ll lp fl c]. cbn [t_c] in *.
  destruct t; cbn [tl_parse_any_term t_type]; try (by settle).
  - unfold tl_parse_subexpr_with. settle. apply steady_try_all. eauto.
  - unfold tl_parse_type_term_with. cbn [t_c]. settle. apply Hterm. left.
  - unfold tl_parse_term_with. settle. apply steady_term_children. eauto.
  - unfold tl_parse_expr_with. settle. apply steady_try_all. intros X s0 HX.
    unfold tl_parse_subexpr_with. settle. apply steady_try_all. eauto.
  - unfold tl_parse_nat_term_with. cbn [t_c]. settle. apply Hterm. left.
  - unfold tl_parse_nat_const. settle.
Qed.
Hint Resolve steady_any_term : steady.

Lemma steady_parse_term T s : steady (tl_parse_term text lrand48 garbage fuel T s).
Proof. unfold tl_parse_term, tl_parse_term_with. settle. apply steady_term_children. auto with steady. Qed.
Lemma steady_type_term T s : steady (tl_parse_type_term text lrand48 garbage fuel T s).
Proof. unfold tl_parse_type_term, tl_parse_type_term_with. settle. apply steady_parse_term. Qed.
Lemma steady_nat_term T s : steady (tl_parse_nat_term text lrand48 garbage fuel T s).
Proof. unfold tl_parse_nat_term, tl_parse_nat_term_with. settle. apply steady_parse_term. Qed.
Hint Resolve steady_type_term steady_nat_term : steady.
Lemma steady_multiplicity T : steady (tl_parse_multiplicity text lrand48 garbage fuel T).
Proof. unfold tl_parse_multiplicity. settle. Qed.
Hint Resolve steady_multiplicity : steady.

(** *** Arguments *)

Lemma steady_opt_names l : steady (opt_names_ok text l).
Proof. induction l; cbn [opt_names_ok]; settle. Qed.
Lemma steady_opt_fields l R k H : steady (opt_fields text lrand48 fuel l R k H).
Proof. revert H. induction l; intros H; cbn [opt_fields]; settle. Qed.
Hint Resolve steady_opt_names steady_opt_fields : steady.
Lemma steady_opt_args T : steady (tl_parse_opt_args text lrand48 garbage fuel T).
Proof. unfold tl_parse_opt_args. settle. Qed.
Lemma steady_args_all f c R : (forall T, T ∈ c -> steady (f T)) -> steady (args_all fuel f c R).
Proof.
  intros Hf. revert R. induction c as [|T c IH]; intros R; cbn [args_all]; [settle|].
  apply steady_bind; [apply steady_try, Hf; left|]. intros x. destruct (is_null x); [settle|].
  apply IH. intros T' HT. apply Hf. by right.
Qed.
Lemma steady_args2_items f c L x : (forall T, T ∈ c -> steady (f T)) -> steady (args2_items fuel f c L x).
Proof. intros Hf. unfold args2_items. settle. by apply steady_args_all. Qed.
Lemma steady_last_num_var : steady tl_get_last_num_var.
Proof. unfold tl_get_last_num_var. settle. Qed.
Hint Resolve steady_last_num_var : steady.
Lemma steady_args2_rest f c x :
  (forall T, T ∈ c -> steady (f T)) -> steady (args2_rest text lrand48 garbage fuel f c x).
Proof.
  intros Hf. unfold args2_rest. settle; apply steady_args2_items; [|done].
  intros T HT. apply Hf. by right.
Qed.
Lemma steady_args2_with f T :
  (forall X, X ∈ t_c T -> steady (f X)) -> steady (tl_parse_args2_with text lrand48 garbage fuel f T).
Proof.
  intros Hf. unfold tl_parse_args2_with. settle; apply steady_args2_rest; [|done].
  intros X HX. apply Hf. rewrite elem_of_cons. auto.
Qed.
Lemma steady_mark_vars n T : steady (tl_mark_vars n T).
Proof. revert T. settle_fuel n tl_mark_vars. Qed.
Lemma steady_optional_field X R : steady (optional_field text lrand48 garbage X R).
Proof. unfold optional_field. settle. Qed.
Lemma steady_random_name : steady (random_name lrand48).
Proof. unfold random_name. settle. Qed.
Hint Resolve steady_mark_vars steady_optional_field steady_random_name : steady.
Lemma steady_arg_fields l R k e H : steady (arg_fields text lrand48 fuel l R k e H).
Proof. revert H. induction l; intros H; cbn [arg_fields]; settle. Qed.
Hint Resolve steady_arg_fields : steady.
Lemma steady_args134 T : steady (tl_parse_args134 text lrand48 garbage fuel T).
Proof. unfold tl_parse_args134. settle. Qed.
Hint Resolve steady_args134 : steady.
Lemma steady_parse_args T : steady (tl_parse_args text lrand48 garbage fuel T).
Proof.
  induction T as [T IHc IHg] using ptree_descend. destruct T as [x l t ll lp fl c]. cbn [t_c] in *.
  cbn [tl_parse_args t_c]. settle. apply steady_args2_with. intros Y HY. eapply IHg; [left|done].
Qed.
Hint Resolve steady_opt_args steady_parse_args : steady.

(** *** Declarations *)

Lemma steady_result_args c L : steady (result_args text lrand48 garbage fuel c L).
Proof. revert L. induction c; intros L; cbn [result_args]; settle. Qed.
Hint Resolve steady_result_args : steady.
Lemma steady_result_type T : steady (tl_parse_result_type text lrand48 garbage fuel T).
Proof. unfold tl_parse_result_type. settle. Qed.
Lemma steady_var_check e : steady (tl_var_check_used e).
Proof.
  unfold tl_var_check_used. settle.
Qed.
Lemma steady_try_while ty f c L : (forall T, steady (f T)) -> steady (try_while fuel ty f c L).
Proof. intros Hf. revert L. induction c; intros L; cbn [try_while]; settle. Qed.
Hint Resolve steady_result_type steady_var_check steady_try_while : steady.

(** *** The check of the types *)

Lemma steady_xor_names l x : steady (xor_names l x).
Proof. revert x. induction l; intros x; cbn [xor_names]; settle. Qed.
Lemma steady_overlap_with a k l : steady (overlap_with lrand48 address fuel a k l).
Proof. induction l; cbn [overlap_with]; settle. Qed.
Hint Resolve steady_xor_names steady_overlap_with : steady.
Lemma steady_overlaps a l : steady (overlaps lrand48 address fuel a l).
Proof. induction l; cbn [overlaps]; settle. Qed.
Lemma steady_default_constructors l i z sid : steady (default_constructors l i z sid).
Proof. revert i z sid. induction l; intros i z sid; cbn [default_constructors]; settle. Qed.
Hint Resolve steady_overlaps steady_default_constructors : steady.
Lemma steady_type_check e : steady (tl_type_check lrand48 address fuel e).
Proof. unfold tl_type_check. settle. Qed.
Hint Resolve steady_type_check : steady.

End SemaSteady.

(** ** Adding a combinator *)

Lemma split_magic_parts id0 id rest :
  split_magic false id0 = (id, rest) ->
  id0 = id ++ rest /\ Forall (fun c => c <> hash) id /\ (rest = [] \/ exists digits, rest = hash :: digits).
Proof.
  revert id rest. induction id0 as [|c id0 IH]; intros id rest; cbn; [by intros [= <- <-]; eauto|].
  destruct (Z.eqb_spec c hash) as [->|Hc]; cbn; [intros [= <- <-]; eauto|].
  destruct (split_magic false id0) as [x y]. intros [= <- <-]. destruct (IH x y eq_refl) as (-> & Hx & Hy). auto.
Qed.

(** [id0] is the identifier of [c], with the number of [c] after a number sign if
    it gives one. *)
Definition declares (id0 : list Z) (c : tl_constructor) : Prop :=
  exists rest, id0 = k_id c ++ rest /\ Forall (fun x => x <> hash) (k_id c) /\
    (rest = [] \/ exists digits, rest = hash :: digits /\ k_name c = hex_value digits /\ k_name c <> 0).

Lemma declares_same id0 c c' : declares id0 c -> same_combinator c c' -> declares id0 c'.
Proof.
  intros (rest & E & Hid & Hr) (Hi & _ & Hn). exists rest. rewrite Hi. split_and!; [done|done|].
  destruct Hr as [->|(ds & -> & Hv & H0)]; [by left|]. right. exists ds. rewrite (Hn H0). done.
Qed.

Lemma explicit_magic_declares id0 id rest magic s s1 a p L R :
  split_magic false id0 = (id, rest) -> explicit_magic rest s = Ret (magic, s1) ->
  s1 = s /\ declares id0 (mk_constructor id p None magic a L R).
Proof.
  intros (-> & Hid & [->|[ds ->]])%split_magic_parts E; unfold explicit_magic in E; inv_run; (split; [done|]).
  - exists []. split_and!; [done|done|by left].
  - exists (hash :: ds). split_and!; [done|done|]. right. exists ds. split_and!; try done.
    match goal with H : negb _ && negb _ = true |- _ => apply andb_true_iff in H as [H _] end. by zbool.
Qed.

Section Add.
Context (lrand48 : nat -> Z).

(** The state after a new combinator [c] at [k]. *)
Record added (s s' : sstate) (k : positive) (c : tl_constructor) : Prop := {
  ad_fresh : constructors s !! k = None;
  ad_heap : constructors s' = <[k := c]> (constructors s)
}.

Lemma add_function_Ret a id0 s k s' :
  prog_ok s -> tl_add_function lrand48 a id0 false s = Ret (Some k, s') ->
  exists c, declares id0 c /\ added s s' k c /\
    inorder (tl_function_tree s') = sorted_insert tl_type_cmp (k_id c, k) (inorder (tl_function_tree s)) /\
    total_functions_num s' = i32 (total_functions_num s + 1) /\
    tl_constructor_tree s' = tl_constructor_tree s /\ total_constructors_num s' = total_constructors_num s.
Proof.
  intros Hs H. unfold tl_add_function in H. destruct (split_magic false id0) as [id rest] eqn:Esp.
  apply bind_Ret in H as (magic & s1 & E & H).
  destruct (explicit_magic_declares _ _ _ _ _ _ a (print_id id) Null Null Esp E) as [-> Hd].
  apply bind_Ret in H as (s1 & s2 & [= <- <-] & H).
  destruct (lookup_entry (tl_function_tree s) id) eqn:El; [by inv_run|].
  unfold alloc in H. inv_run. simplify_eq.
  match goal with H : enter _ _ _ _ _ _ = Ret _ |- _ => apply enter_Ret in H as (T & -> & HT & HI) end;
    [|by destruct s|destruct s; apply (ok_tables _ Hs)|by destruct s].
  exists (mk_constructor id (print_id id) None magic a Null Null). split; [done|].
  assert (constructors s !! brk s = None) as Hk by (by apply (ok_tables _ Hs)).
  destruct s; cbn in *. split_and!; try done.
Qed.

Lemma add_constructor_Ret a id0 s k s' :
  prog_ok s -> tl_add_constructor lrand48 a id0 false s = Ret (Some k, s') ->
  exists c, declares id0 c /\ added s s' k c /\ k_type c = Some a /\
    (nth 0 (k_id c) 0 = chr "_" /\ tl_constructor_tree s' = tl_constructor_tree s \/
     inorder (tl_constructor_tree s') = sorted_insert tl_type_cmp (k_id c, k) (inorder (tl_constructor_tree s))) /\
    total_constructors_num s' = i32 (total_constructors_num s + 1) /\
    tl_function_tree s' = tl_function_tree s /\ total_functions_num s' = total_functions_num s.
Proof.
  intros Hs H. unfold tl_add_constructor, get_type, load_at in H.
  apply bind_Ret in H as (t & s1 & E & H). destruct (tys s !! a) as [t0|] eqn:Et; [|done]. injection E as -> <-.
  destruct (negb (Z.land (ty_flags t) 1 =? 0)); [by inv_run|].
  destruct (split_magic false id0) as [id rest] eqn:Esp. apply bind_Ret in H as (magic & s1 & E & H).
  destruct (explicit_magic_declares _ _ _ _ _ _ (Some a) (print_id id) Null Null Esp E) as [-> Hd].
  apply bind_Ret in H as (s1 & s2 & [= <- <-] & H).
  destruct (negb (starts_underscore id) && _) eqn:Eu; [by inv_run|].
  assert (Hn : starts_underscore id = false -> lookup_entry (tl_constructor_tree s) id = None).
  { intros E0. rewrite E0 in Eu. cbn in Eu. apply bool_decide_eq_false in Eu. by apply eq_None_not_Some. }
  apply bind_Ret in H as (u & s1 & E1 & H).
  assert (s1 = s) as -> by (destruct (starts_underscore id); inv_run; done). clear E1 Eu.
  exists (mk_constructor id (print_id id) None magic (Some a) Null Null). split; [done|].
  assert (constructors s !! brk s = None) as Hk by (by apply (ok_tables _ Hs)).
  unfold alloc in H. inv_run. simplify_eq.
  repeat match goal with H : set_type _ _ ?s1 = Ret (_, ?s2) |- _ =>
    unfold set_type, store_at in H; destruct (tys s1 !! _); [|done]; injection H; clear H; intros; subst end.
  destruct (starts_underscore id) eqn:Eu; cbn [negb] in *.
  - match goal with H : set_type _ _ ?s1 = Ret (_, ?s2) |- _ =>
      unfold set_type, store_at in H; destruct (tys s1 !! _); [|done]; injection H; clear H; intros; subst end.
    unfold starts_underscore in Eu. zbool. destruct s; cbn in *. split_and!; try done. by left.
  - match goal with H : enter _ _ _ _ _ _ = Ret _ |- _ => apply enter_Ret in H as (T & -> & HT & HI) end;
      [|by destruct s|destruct s; apply (ok_tables _ Hs)|destruct s; by apply Hn].
    destruct s; cbn in *. split_and!; try done. by right.
Qed.
End Add.

(** The number of a combinator is computed once. *)
Lemma steady_count_name n k : steady (tl_count_combinator_name n k).
Proof.
  intros s x s' H. unfold tl_count_combinator_name in H.
  apply bind_Ret in H as (c & s0 & E0 & H). unfold get_constructor, load_at in E0.
  destruct (constructors s !! k) as [c0|] eqn:Ek; [|done]. injection E0 as -> <-.
  apply bind_Ret in H as (u1 & s1 & E1 & H). apply bind_Ret in H as (u2 & s2 & E2 & H).
  apply bind_Ret in H as (u3 & s3 & E3 & H). apply bind_Ret in H as (s4 & s5 & [= <- <-] & H).
  assert (stable s s3) as H3.
  { etrans; [eapply steady_buf_reset; exact E1|]. etrans; [|eapply steady_buf_add_sides; exact E3].
    eapply steady_buf_write. exact E2. }
  apply bind_Ret in H as (u & s6 & E6 & H). apply bind_Ret in H as (c' & s7 & E7 & H). injection H as _ <-.
  assert (s7 = s6) as -> by (unfold get_constructor, load_at in E7; destruct (constructors s6 !! k); [by injection E7 as _ <-|done]).
  destruct (Z.eqb_spec (k_name c) 0) as [H0|]; [|by injection E6 as _ <-].
  unfold set_constructor, store_at in E6. pose proof (st_heap _ _ H3 k) as Hk. rewrite Ek in Hk.
  destruct (constructors s3 !! k) as [c3|] eqn:E3k; [|done]. injection E6 as _ <-. inversion Hk as [? ? (Hi & Ht & _)|]; subst.
  destruct H3 as [Hh H31 H32 H33 H34]. destruct s3; cbn in *. constructor; cbn; try done. intros j.
  destruct (decide (k = j)) as [<-|]; [|rewrite lookup_insert_ne by done; apply Hh].
  rewrite lookup_insert_eq, Ek. constructor. split_and!; [by destruct c3|by destruct c3|]. by intros [].
Qed.

(** ** The roster *)

(** The combinators of a state: those at [ks] are the constructors with the
    identifiers [cs], those at [ls] the functions with the identifiers [fs], in
    this order, and there are no others. Each is in its table, but for default
    constructors. *)
Definition declared_by (s : sstate) (id0 : list Z) (k : positive) : Prop :=
  exists c, constructors s !! k = Some c /\ declares id0 c.

Definition entered (T : tree entry) (s : sstate) (k : positive) : Prop :=
  exists c, constructors s !! k = Some c /\ (k_id c, k) ∈ inorder T.

Definition is_default (s : sstate) (k : positive) : Prop :=
  exists c, constructors s !! k = Some c /\ nth 0 (k_id c) 0 = chr "_".

Record roster (cs fs : list (list Z)) (ks ls : list positive) (s : sstate) : Prop := {
  ro_constructors : Forall2 (declared_by s) cs ks;
  ro_functions : Forall2 (declared_by s) fs ls;
  ro_heap : forall k, is_Some (constructors s !! k) <-> k ∈ ks ++ ls;
  ro_once : NoDup (ks ++ ls);
  ro_constructor_table : Forall (fun k => is_default s k \/ entered (tl_constructor_tree s) s k) ks;
  ro_function_table : Forall (entered (tl_function_tree s) s) ls;
  ro_total_constructors : total_constructors_num s = i32 (Z.of_nat (List.length ks));
  ro_total_functions : total_functions_num s = i32 (Z.of_nat (List.length ls))
}.

Lemma init_roster : roster [] [] [] [] init_sstate.
Proof.
  constructor; try done; try constructor.
  - by intros [c Hc].
  - intros Hk. by apply not_elem_of_nil in Hk.
Qed.

(** Facts about single combinators hold on, when the heap keeps them and the
    tables keep their entries. *)
Section Transport.
Context (s s' : sstate).
Hypothesis Hheap : forall k c, constructors s !! k = Some c -> exists c', constructors s' !! k = Some c' /\ same_combinator c c'.

Lemma declared_by_transport id0 k : declared_by s id0 k -> declared_by s' id0 k.
Proof.
  intros (c & Hc & Hd). destruct (Hheap k c Hc) as (c' & Hc' & Hsame). exists c'. split; [done|]. by eapply declares_same.
Qed.

Lemma entered_transport T T' k :
  (forall e, e ∈ inorder T -> e ∈ inorder T') -> entered T s k -> entered T' s' k.
Proof.
  intros HT (c & Hc & Hin). destruct (Hheap k c Hc) as (c' & Hc' & Hid & _). exists c'. rewrite Hid. auto.
Qed.

Lemma is_default_transport k : is_default s k -> is_default s' k.
Proof.
  intros (c & Hc & Hu). destruct (Hheap k c Hc) as (c' & Hc' & Hid & _). exists c'. by rewrite Hid.
Qed.
End Transport.

Lemma stable_keeps s s' k c :
  stable s s' -> constructors s !! k = Some c -> exists c', constructors s' !! k = Some c' /\ same_combinator c c'.
Proof.
  intros Hst Hc. pose proof (st_heap _ _ Hst k) as H. rewrite Hc in H. inversion H as [? c' Hsame|]; subst. by exists c'.
Qed.

Lemma roster_stable cs fs ks ls s s' : roster cs fs ks ls s -> stable s s' -> roster cs fs ks ls s'.
Proof.
  intros [] Hst. pose proof (fun k c => stable_keeps s s' k c Hst) as Hk. pose proof (st_heap _ _ Hst) as Hh. destruct Hst.
  constructor; try congruence.
  - eapply Forall2_impl; [done|]. intros. by eapply declared_by_transport.
  - eapply Forall2_impl; [done|]. intros. by eapply declared_by_transport.
  - intros k. rewrite <- ro_heap0. specialize (Hh k). by destruct Hh; split.
  - eapply Forall_impl; [done|]. intros k [?|?]; [left; by eapply is_default_transport|right].
    eapply entered_transport; [done| |done]. congruence.
  - eapply Forall_impl; [done|]. intros k ?. eapply entered_transport; [done| |done]. congruence.
Qed.

(** A new combinator keeps the others. *)
Lemma added_keeps s s' k c j d :
  added s s' k c -> constructors s !! j = Some d -> exists d', constructors s' !! j = Some d' /\ same_combinator d d'.
Proof.
  intros [Hf Hh] Hj. exists d. split; [|by split_and!]. rewrite Hh, lookup_insert_ne; [done|]. intros ->. congruence.
Qed.

Lemma added_heap s s' k c (l l' : list positive) :
  added s s' k c -> (forall j, is_Some (constructors s !! j) <-> j ∈ l) -> (forall j, j ∈ l' <-> j = k \/ j ∈ l) ->
  forall j, is_Some (constructors s' !! j) <-> j ∈ l'.
Proof.
  intros [Hf Hh] Hl Hl' j. rewrite Hh, Hl', <- Hl. destruct (decide (k = j)) as [<-|Hne].
  - rewrite lookup_insert_eq. naive_solver.
  - rewrite lookup_insert_ne by done. naive_solver.
Qed.

Lemma i32_length {A} n (l : list A) x : n = i32 (Z.of_nat (List.length l)) -> i32 (n + 1) = i32 (Z.of_nat (List.length (l ++ [x]))).
Proof. intros ->. rewrite length_app, Nat2Z.inj_add. by apply i32_succ. Qed.

Lemma roster_constructor lrand48 a id0 cs fs ks ls s k s' :
  prog_ok s -> roster cs fs ks ls s -> tl_add_constructor lrand48 a id0 false s = Ret (Some k, s') ->
  roster (cs ++ [id0]) fs (ks ++ [k]) ls s'.
Proof.
  intros Hs [] H. destruct (add_constructor_Ret _ _ _ _ _ _ Hs H) as (c & Hd & Had & _ & Ht & Htot & Hft & Hftot).
  pose proof (fun j d => added_keeps s s' k c j d Had) as Hk.
  assert (Hc : constructors s' !! k = Some c) by (by rewrite (ad_heap _ _ _ _ Had), lookup_insert_eq).
  assert (k ∉ ks ++ ls) as Hnew by (rewrite <- ro_heap0, (ad_fresh _ _ _ _ Had); by intros [? ?]).
  constructor; try congruence.
  - apply Forall2_app; [|constructor; [by exists c|constructor]]. eapply Forall2_impl; [done|]. intros. by eapply declared_by_transport.
  - eapply Forall2_impl; [done|]. intros. by eapply declared_by_transport.
  - eapply added_heap; [done..|]. intros j. rewrite !elem_of_app, list_elem_of_singleton. tauto.
  - rewrite <- app_assoc. cbn [app]. rewrite <- Permutation_middle. by constructor.
  - apply Forall_app. split.
    + eapply Forall_impl; [done|]. intros j [?|?]; [left; by eapply is_default_transport|right].
      eapply entered_transport; [done| |done]. intros e He.
      destruct Ht as [[_ ->]| ->]; [done|]. apply sorted_insert_in. by right.
    + apply Forall_singleton. destruct Ht as [[Hu _]|Ht]; [left; by exists c|right]. exists c. split; [done|].
      rewrite Ht. apply sorted_insert_in. by left.
  - eapply Forall_impl; [done|]. intros j ?. eapply entered_transport; [done| |done]. by rewrite Hft.
  - rewrite Htot. by apply i32_length.
Qed.

Lemma roster_function lrand48 a id0 cs fs ks ls s k s' :
  prog_ok s -> roster cs fs ks ls s -> tl_add_function lrand48 a id0 false s = Ret (Some k, s') ->
  roster cs (fs ++ [id0]) ks (ls ++ [k]) s'.
Proof.
  intros Hs [] H. destruct (add_function_Ret _ _ _ _ _ _ Hs H) as (c & Hd & Had & Ht & Htot & Hct & Hctot).
  pose proof (fun j d => added_keeps s s' k c j d Had) as Hk.
  assert (Hc : constructors s' !! k = Some c) by (by rewrite (ad_heap _ _ _ _ Had), lookup_insert_eq).
  assert (k ∉ ks ++ ls) as Hnew by (rewrite <- ro_heap0, (ad_fresh _ _ _ _ Had); by intros [? ?]).
  constructor; try congruence.
  - eapply Forall2_impl; [done|]. intros. by eapply declared_by_transport.
  - apply Forall2_app; [|constructor; [by exists c|constructor]]. eapply Forall2_impl; [done|]. intros. by eapply declared_by_transport.
  - eapply added_heap; [done..|]. intros j. rewrite !elem_of_app, list_elem_of_singleton. tauto.
  - rewrite app_assoc, (Permutation_app_comm (ks ++ ls) [k]). by constructor.
  - eapply Forall_impl; [done|]. intros j [?|?]; [left; by eapply is_default_transport|right].
    eapply entered_transport; [done| |done]. by rewrite Hct.
  - apply Forall_app. split.
    + eapply Forall_impl; [done|]. intros j ?. eapply entered_transport; [done| |done]. intros e He.
      rewrite Ht. apply sorted_insert_in. by right.
    + apply Forall_singleton. exists c. split; [done|]. rewrite Ht. apply sorted_insert_in. by left.
  - rewrite Htot. by apply i32_length.
Qed.

(** ** Declarations *)

(** A call that returns something other than 0 has added the constructors [cs']
    and the functions [fs'], in this order. *)
Definition enrols (cs' fs' : list (list Z)) (m : C Z) : Prop :=
  forall cs fs ks ls s r s', prog_ok s -> roster cs fs ks ls s -> m s = Ret (r, s') -> r <> 0 ->
  exists ks' ls', roster (cs ++ cs') (fs ++ fs') ks' ls' s'.

Lemma enrols_bind {A} cs' fs' (m : C A) k :
  keeps m -> steady m -> (forall x, enrols cs' fs' (k x)) -> enrols cs' fs' (bind m k).
Proof.
  intros Hm Hst Hk cs fs ks ls s r s' Hs Hro (x & s1 & E1 & E2)%bind_Ret Hr.
  eapply (Hk x); [by eapply Hm|by eapply roster_stable; [|eapply Hst]|done|done].
Qed.

(** A call that adds nothing. *)
Lemma enrols_nothing (m : C Z) : steady m -> enrols [] [] m.
Proof. intros Hst cs fs ks ls s r s' Hs Hro E Hr. exists ks, ls. rewrite !app_nil_r. by eapply roster_stable; [|eapply Hst]. Qed.

Lemma enrols_zero cs' fs' : enrols cs' fs' (ret 0).
Proof. intros cs fs ks ls s r s' Hs Hro [= <- <-]. done. Qed.

Lemma enrols_fail cs' fs' f : enrols cs' fs' (fail f).
Proof. intros cs fs ks ls s r s' Hs Hro. done. Qed.

Section Declarations.
Context (text : list Z) (lrand48 : nat -> Z) (garbage : Z) (address : ptr -> Z).
Context (beyond : list Z -> nat -> Z) (output_expressions : Z) (fuel : nat).

(** The identifier that a leaf carries. *)
Definition leaf_text (X : ptree) : list Z :=
  match t_text X with POff p => slice text p (t_len X) | _ => [] end.

(** The identifiers of the combinators that a declaration, a section and a
    program declare. A built-in type among the functions is accepted, but declares
    nothing. *)
Definition declaration_ids (fun_ : bool) (D : ptree) : list (list Z) :=
  match t_c D with
  | [X] =>
      match t_type X, t_c X with
      | type_combinator_decl, Y :: _ => [leaf_text Y]
      | type_builtin_combinator_decl, Y :: _ => if fun_ then [] else [leaf_text Y]
      | _, _ => []
      end
  | _ => []
  end.

Definition section_ids (fun_ : bool) (S : ptree) : list (list Z) :=
  if Bool.eqb fun_ (has_type S type_constr_declarations) then [] else concat (map (declaration_ids fun_) (t_c S)).

Definition program_ids (fun_ : bool) (T : ptree) : list (list Z) := concat (map (section_ids fun_) (t_c T)).

Lemma enrols_t_string cs' fs' X k : enrols cs' fs' (k (leaf_text X)) -> enrols cs' fs' (bind (t_string text X) k).
Proof.
  intros Hk cs fs ks ls s r s' Hs Hro (x & s1 & E1 & E2)%bind_Ret. unfold t_string, leaf_text in *.
  destruct (t_text X); [done|done|]. injection E1 as <- <-. by eapply Hk.
Qed.

(** A new combinator is finished: its trees, its number. *)
Lemma steady_finish k L R : steady (finish_combinator output_expressions fuel k L R).
Proof.
  pose proof steady_count_name. unfold finish_combinator. settle. apply steady_set_constructor. by intros [].
Qed.

Lemma enrols_constructor a id0 L R :
  enrols [id0] [] (let* k := tl_add_constructor lrand48 a id0 false in
    match k with None => ret 0 | Some k => finish_combinator output_expressions fuel k L R ;; ret 1 end).
Proof.
  intros cs fs ks ls s r s' Hs Hro (k & s1 & E1 & E2)%bind_Ret Hr. destruct k as [k|]; [|by injection E2 as <- <-].
  apply bind_Ret in E2 as (u & s2 & E2 & [= <- <-]). exists (ks ++ [k]), ls. rewrite app_nil_r.
  eapply roster_stable; [by eapply roster_constructor|by eapply steady_finish].
Qed.

Lemma enrols_function a id0 L R :
  enrols [] [id0] (let* k := tl_add_function lrand48 a id0 false in
    match k with None => ret 0 | Some k => finish_combinator output_expressions fuel k L R ;; ret 1 end).
Proof.
  intros cs fs ks ls s r s' Hs Hro (k & s1 & E1 & E2)%bind_Ret Hr. destruct k as [k|]; [|by injection E2 as <- <-].
  apply bind_Ret in E2 as (u & s2 & E2 & [= <- <-]). exists ks, (ls ++ [k]). rewrite app_nil_r.
  eapply roster_stable; [by eapply roster_function|by eapply steady_finish].
Qed.

Hint Resolve keeps_t_string keeps_get_constructor_id keeps_get_function_id keeps_get_type_id keeps_opt_args keeps_parse_args
  keeps_result_type keeps_var_check keeps_try_while : keeps.
Hint Resolve steady_t_string steady_get_constructor_id steady_get_function_id steady_get_type_id steady_opt_args steady_parse_args
  steady_result_type steady_var_check steady_try_while : steady.

(** Walk over a declaration up to the call that adds its combinator. *)
Ltac enrol :=
  repeat (cbv beta zeta;
    first
    [ apply enrols_zero
    | apply enrols_fail
    | apply enrols_t_string
    | match goal with
      | |- enrols _ _ (bind _ _) => apply enrols_bind; [solve [keep]|solve [settle]|intros ?]
      | |- enrols _ _ (match ?x with _ => _ end) => destruct x eqn:?
      end ]).

Lemma enrols_combinator_decl T X rest (b : bool) :
  t_c T = X :: rest ->
  enrols (if b then [] else [leaf_text X]) (if b then [leaf_text X] else [])
    (tl_parse_combinator_decl text lrand48 garbage output_expressions fuel T b).
Proof.
  intros HT. unfold tl_parse_combinator_decl. rewrite HT. enrol.
  destruct b; [by apply enrols_function|]. destruct x8 as [a|]; [by apply enrols_constructor|].
  intros cs fs ks ls s r s' Hs Hro (k & s1 & E & _)%bind_Ret. done.
Qed.

Lemma enrols_builtin_decl T X rest :
  t_c T = X :: rest ->
  enrols [leaf_text X] []
    (tl_parse_builtin_combinator_decl text lrand48 garbage beyond output_expressions fuel T false).
Proof.
  intros HT. unfold tl_parse_builtin_combinator_decl. rewrite HT. enrol.
  intros cs fs ks ls s r s' Hs Hro (k & s1 & E1 & E2)%bind_Ret Hr. destruct k as [k|]; [|by injection E2 as <- <-].
  apply bind_Ret in E2 as (L & s2 & E2 & E3). apply bind_Ret in E3 as (R & s3 & E3 & E4).
  apply bind_Ret in E4 as (u & s4 & E4 & [= <- <-]). exists (ks ++ [k]), ls. rewrite app_nil_r.
  eapply roster_stable; [by eapply roster_constructor|].
  etrans; [by eapply steady_new_node|]. etrans; [by eapply steady_new_node|by eapply steady_finish].
Qed.

Lemma steady_final_decl T b : steady (tl_parse_final_decl text lrand48 garbage T b).
Proof.
  unfold tl_parse_final_decl, tl_parse_final_new, tl_parse_final_final, tl_parse_final_empty, final_child. settle.
Qed.

Lemma enrols_declaration D (b : bool) :
  partial_app D = false ->
  enrols (if b then [] else declaration_ids b D) (if b then declaration_ids b D else [])
    (tl_parse_declaration text lrand48 garbage address beyond output_expressions fuel D b).
Proof.
  intros HD. unfold tl_parse_declaration, declaration_ids. apply enrols_bind; [keep|settle|intros _].
  unfold partial_app in HD. destruct (t_c D) as [|X [|]]; [apply enrols_fail| |apply enrols_fail].
  cbn in HD. rewrite orb_false_r in HD. unfold has_type in HD. apply bool_decide_eq_false in HD.
  assert (Hnone : forall m, steady m -> enrols (if b then [] else []) (if b then [] else []) m)
    by (intros m Hm; destruct b; by apply enrols_nothing).
  destruct (t_type X); try (apply enrols_fail); try done.
  - destruct (t_c X) as [|Y rest] eqn:HX;
      [|destruct b; [apply (enrols_combinator_decl X Y rest true HX)|apply (enrols_combinator_decl X Y rest false HX)]].
    unfold tl_parse_combinator_decl, nc. rewrite HX.
    intros cs fs ks ls s r s' Hs Hro (u & s1 & E1 & E2)%bind_Ret. by apply bind_Ret in E2 as (? & ? & ? & _).
  - assert (He : (match t_c X with [] | _ => [] end : list (list Z)) = []) by (by destruct (t_c X)).
    destruct (t_c X); apply Hnone, steady_final_decl.
  - destruct (t_c X) as [|Y rest] eqn:HX; [|destruct b; [|apply (enrols_builtin_decl X Y rest HX)]].
    + destruct b; [by apply enrols_nothing, steady_ret|]. unfold tl_parse_builtin_combinator_decl. rewrite HX.
      apply enrols_bind; [keep|settle|intros _]. apply enrols_fail.
    + by apply enrols_nothing, steady_ret.
Qed.

(** The loop over declarations or sections. *)
Lemma enrols_try_pes (f : ptree -> C Z) (g h : ptree -> list (list Z)) c :
  (forall X, X ∈ c -> keeps (f X) /\ enrols (g X) (h X) (f X)) ->
  enrols (concat (map g c)) (concat (map h c)) (try_pes f c).
Proof.
  intros Hf. induction c as [|X c IH]; [by apply enrols_nothing, steady_ret|]. cbn [try_pes map concat].
  destruct (Hf X ltac:(left)) as [Hkeep HX].
  intros cs fs ks ls s r s' Hs Hro (x & s1 & E1 & E2)%bind_Ret Hr.
  destruct (Z.eqb_spec x 0) as [->|Hx]; [by injection E2 as <- <-|].
  destruct (HX _ _ _ _ _ _ _ Hs Hro E1 Hx) as (ks1 & ls1 & Hro1). rewrite !app_assoc.
  eapply IH; [intros Y HY; apply Hf; by right|by eapply Hkeep|done|done|done].
Qed.

Lemma enrols_section S :
  forallb (fun D => negb (partial_app D)) (t_c S) = true ->
  enrols (section_ids false S) (section_ids true S)
    (if has_type S type_constr_declarations
     then tl_parse_constr_declarations text lrand48 garbage address beyond output_expressions fuel S
     else tl_parse_fun_declarations text lrand48 garbage address beyond output_expressions fuel S).
Proof.
  intros HS. rewrite forallb_forall in HS. unfold section_ids.
  assert (Hb : forall b : bool, enrols (if b then [] else concat (map (declaration_ids b) (t_c S)))
    (if b then concat (map (declaration_ids b) (t_c S)) else [])
    (try_pes (fun X => tl_parse_declaration text lrand48 garbage address beyond output_expressions fuel X b) (t_c S))).
  { intros b. assert (forall l : list ptree, concat (map (fun _ => []) l) = ([] : list (list Z))) as Hnil by (by induction l).
    pose proof (enrols_try_pes (fun X => tl_parse_declaration text lrand48 garbage address beyond output_expressions fuel X b)
      (fun D => if b then [] else declaration_ids b D) (fun D => if b then declaration_ids b D else []) (t_c S)) as H.
    destruct b; rewrite Hnil in H; apply H; intros D HD%list_elem_of_In; (split; [apply keeps_declaration|]).
    - apply (enrols_declaration D true), negb_true_iff. by apply HS.
    - apply (enrols_declaration D false), negb_true_iff. by apply HS. }
  unfold tl_parse_constr_declarations, tl_parse_fun_declarations.
  destruct (has_type S type_constr_declarations); (apply enrols_bind; [keep|settle|intros _]).
  - apply (Hb false).
  - apply (Hb true).
Qed.

Lemma keeps_section S :
  keeps (if has_type S type_constr_declarations
         then tl_parse_constr_declarations text lrand48 garbage address beyond output_expressions fuel S
         else tl_parse_fun_declarations text lrand48 garbage address beyond output_expressions fuel S).
Proof.
  unfold tl_parse_constr_declarations, tl_parse_fun_declarations.
  destruct (has_type S type_constr_declarations); (apply keeps_bind; [keep|intros _]); apply keeps_try_pes; intros; apply keeps_declaration.
Qed.

(** The whole program: what [tl_parse] leaves when it accepts. *)
Lemma tl_parse_roster T s :
  no_partial T = true -> tl_parse text lrand48 garbage address beyond output_expressions fuel T init_sstate = Ret (true, s) ->
  exists ks ls, roster (program_ids false T) (program_ids true T) ks ls s.
Proof.
  intros HT H. unfold no_partial in HT. rewrite forallb_forall in HT. unfold tl_parse in H.
  apply bind_Ret in H as (u0 & s0 & E0 & H). apply bind_Ret in H as (u1 & s1 & E1 & H).
  apply bind_Ret in H as (u2 & s2 & E2 & H). apply bind_Ret in H as (r & s3 & E3 & H).
  assert (prog_ok s2) as Hs2.
  { eapply keeps_add_type; [|exact E2]. eapply keeps_add_type; [|exact E1]. eapply keeps_assert; [apply init_prog_ok|exact E0]. }
  assert (roster [] [] [] [] s2) as Hro2.
  { eapply roster_stable; [|eapply steady_add_type; exact E2]. eapply roster_stable; [|eapply steady_add_type; exact E1].
    eapply roster_stable; [apply init_roster|eapply steady_assert; exact E0]. }
  destruct (Z.eqb_spec r 0) as [->|Hr]; [done|].
  destruct (enrols_try_pes _ (section_ids false) (section_ids true) (t_c T)
    (fun S HS => conj (keeps_section S) (enrols_section S (HT S (proj1 (list_elem_of_In _ _) HS)))) _ _ _ _ _ _ _ Hs2 Hro2 E3 Hr)
    as (ks & ls & Hro3). exists ks, ls. eapply roster_stable; [exact Hro3|].
  assert (Hst : steady (modify (set_ok true) ;; let* s := get in
    tree_act (tl_type_check lrand48 address fuel) (tl_type_tree s) ;; let* s := get in ret (g_ok s))).
  { pose proof (steady_type_check lrand48 address fuel). settle. }
  by eapply Hst.
Qed.
End Declarations.

(** ** The theorem *)

(** An entry of a table is found under its identifier. *)
Lemma entry_found T id k : entries_ok T -> (id, k) ∈ inorder T -> lookup_entry T id = Some k.
Proof.
  intros [_ HS _] Hin. rewrite (lookup_entry_key T id k), (tree_lookup_find (fun _ => True) tl_type_cmp) by (done || by apply Forall_forall).
  unfold sorted_find. induction (inorder T) as [|e l IH]; [by apply not_elem_of_nil in Hin|]. cbn [List.find].
  inversion HS as [|? ? HS' Hel]; subst.
  apply elem_of_cons in Hin as [<-|Hin].
  - by rewrite (cmp_refl (D := fun _ : entry => True) (cmp := tl_type_cmp)).
  - rewrite Forall_forall in Hel. specialize (Hel _ Hin). apply (cmp_flip (D := fun _ : entry => True)) in Hel; [|done..].
    rewrite (proj2 (Z.eqb_neq _ _)) by lia. by apply IH.
Qed.

(** The combinator at [k] has the identifier and the number of [id0] and is found
    in the table [T]; a default constructor, whose identifier begins with an
    underscore, need not be in it. *)
Definition enlisted (T : tree entry) (default : bool) (s : sstate) (id0 : list Z) (k : positive) : Prop :=
  exists c, constructors s !! k = Some c /\ declares id0 c /\
    (lookup_entry T (k_id c) = Some k \/ default = true /\ nth 0 (k_id c) 0 = chr "_").

Lemma Forall2_enlisted T default s ids ks :
  Forall2 (declared_by s) ids ks ->
  Forall (fun k => exists c, constructors s !! k = Some c /\
    (lookup_entry T (k_id c) = Some k \/ default = true /\ nth 0 (k_id c) 0 = chr "_")) ks ->
  Forall2 (enlisted T default s) ids ks.
Proof.
  induction 1 as [|id0 k ids ks (c & Hc & Hd) _ IH]; intros HF; [constructor|].
  apply Forall_cons in HF as [(c' & Hc' & Hk) HF]. rewrite Hc in Hc'. injection Hc' as <-.
  constructor; [by exists c|by apply IH].
Qed.

Section Accepted.
Context (text : list Z) (lrand48 : nat -> Z) (garbage : Z) (address : ptr -> Z).
Context (beyond : list Z -> nat -> Z) (output_expressions : Z) (fuel : nat).

(** C6. When [tl_parse] accepts a program without partial applications, the
    combinators on the heap are those that the source declares, and no others: one
    constructor for each declaration of the sections of constructors and one
    function for each declaration of the sections of functions, in the order of the
    source, all at different addresses. Each has the identifier of its declaration,
    and the number after the number sign if there is one; looking that identifier
    up in its table finds it (default constructors, whose identifier begins with an
    underscore, apart). The two counters are the numbers of declarations. Final
    declarations declare nothing, nor does a built-in type among the functions. *)
Theorem accepted_declarations T s :
  no_partial T = true ->
  tl_parse text lrand48 garbage address beyond output_expressions fuel T init_sstate = Ret (true, s) ->
  exists ks ls,
    Forall2 (enlisted (tl_constructor_tree s) true s) (program_ids text false T) ks /\
    Forall2 (enlisted (tl_function_tree s) false s) (program_ids text true T) ls /\
    (forall k, is_Some (constructors s !! k) <-> k ∈ ks ++ ls) /\ NoDup (ks ++ ls) /\
    total_constructors_num s = i32 (Z.of_nat (List.length (program_ids text false T))) /\
    total_functions_num s = i32 (Z.of_nat (List.length (program_ids text true T))).
Proof.
  intros HT H. pose proof (keeps_tl_parse _ _ _ _ _ _ _ _ _ _ _ init_prog_ok H) as Hs. apply ok_tables in Hs.
  destruct (tl_parse_roster text lrand48 garbage address beyond output_expressions fuel T s HT H) as (ks & ls & []).
  exists ks, ls. rewrite (Forall2_length _ _ _ ro_constructors0), (Forall2_length _ _ _ ro_functions0).
  split_and!; try done.
  - eapply Forall2_enlisted; [done|]. eapply Forall_impl; [done|].
    intros k [(c & Hc & Hu)|(c & Hc & He)]; exists c; eauto using entry_found, tab_constructors.
  - eapply Forall2_enlisted; [done|]. eapply Forall_impl; [done|]. intros k (c & Hc & He). exists c. eauto using entry_found, tab_functions.
Qed.
End Accepted.

Definition declared_text : list Z :=
  let line := String (Ascii.ascii_of_nat 10) in
  str ("int ? = Int;" ++ line ("none#12ab34cd = Maybe;" ++ line ("some x:int = Maybe;" ++ line
       ("---functions---" ++ line ("get x:int = Maybe;" ++ line EmptyString)))))%string.

Definition declared_tree : ptree :=
  match parse_text declared_text 400 with
  | Ret (Some T, _) => T
  | _ => PTree PNull 0 type_tl_program 0 0 0 []
  end.

Definition declared_state : sstate :=
  match tl_parse declared_text some_draws 0 (fun _ => 0) (fun _ _ => 0) 0 20 declared_tree init_sstate with
  | Ret (_, s) => s
  | _ => init_sstate
  end.

Lemma accepted_declarations_witness :
  program_ids declared_text false declared_tree = [str "int"; str "none#12ab34cd"; str "some"] /\
  program_ids declared_text true declared_tree = [str "get"] /\
  exists ks ls,
    Forall2 (enlisted (tl_constructor_tree declared_state) true declared_state)
      (program_ids declared_text false declared_tree) ks /\
    Forall2 (enlisted (tl_function_tree declared_state) false declared_state)
      (program_ids declared_text true declared_tree) ls /\
    (forall k, is_Some (constructors declared_state !! k) <-> k ∈ ks ++ ls) /\ NoDup (ks ++ ls) /\
    total_constructors_num declared_state =
      i32 (Z.of_nat (List.length (program_ids declared_text false declared_tree))) /\
    total_functions_num declared_state =
      i32 (Z.of_nat (List.length (program_ids declared_text true declared_tree))).
Proof.
  split; [vm_compute; reflexivity|]. split; [vm_compute; reflexivity|].
  apply (accepted_declarations declared_text some_draws 0 (fun _ => 0) (fun _ _ => 0) 0 20 declared_tree declared_state);
    vm_compute; reflexivity.
Defined.
