(* ===== verification/Main.v ===== *)
(** * The program (tlc.c)

    [main] on the values [getopt] returns, the file system as a function from
    names to contents, and the exit status with the file written.  The signal
    handlers and what goes to [stderr] (the usage, [-v]) are not modelled. *)
From Stdlib Require Import ZArith Lia List Bool Ascii String.
From stdpp Require Import base list strings gmap.
From S2P Require Import Prelude Treap Lexer Parser Symbols Combinator Unify Sema Writer.
Open Scope tl_scope.

Record options := mk_options { output_expressions : Z; verbosity : Z; vkext_file : option (list Z) }.

(** The [while] around [getopt]: each value it returns, with [optarg]; [None]
    is the exit from [usage]. *)
Fixpoint getopt_loop (opts : list (Z * list Z)) (o : options) : option options :=
  match opts with
  | [] => Some o
  | (i, optarg) :: opts =>
      if i =? chr "E" then
        getopt_loop opts (mk_options (i32 (output_expressions o + 1)) (verbosity o) (vkext_file o))
      else if i =? chr "h" then None
      else if i =? chr "e" then
        getopt_loop opts (mk_options (output_expressions o) (verbosity o) (Some optarg))
      else if i =? chr "v" then
        getopt_loop opts (mk_options (output_expressions o) (i32 (verbosity o + 1)) (vkext_file o))
      else getopt_loop opts o
  end.

(** The exit status, and the name and bytes of the file written. *)
Definition status : Type := Z * option (list Z * list Z).

Section Main.
Context (lrand48 : nat -> Z) (garbage : Z) (address : ptr -> Z) (beyond : list Z -> nat -> Z) (fuel : nat).
(** The contents of the files that can be read, the files that can be written. *)
Context (fopen_rb : list Z -> option (list Z)) (fopen_wb : list Z -> bool).

(** [vkext_write]: the bytes of the file. *)
Definition vkext_write (filename : list Z) : C (list Z) :=
  assert (fopen_wb filename) ;;
  write_types lrand48 address fuel ;;
  let* s := get in ret (file s).

(** From [tl_parse] on. *)
Definition compile (text : list Z) (o : options) (T : ptree) : C status :=
  let* ok := tl_parse text lrand48 garbage address beyond (output_expressions o) fuel T in
  if negb ok then ret (1, None)
  else
    match vkext_file o with
    | None => ret (0, None)
    | Some f => let* bytes := vkext_write f in ret (0, Some (f, bytes))
    end.

(** The fuel that the front end needs on a text. *)
Definition text_fuel (text : list Z) : nat := 2 * List.length text + 4.

Definition main (opts : list (Z * list Z)) (argv : list (list Z)) (optind : nat) : result status :=
  match getopt_loop opts (mk_options 0 0 None) with
  | None => Ret (2, None)
  | Some o =>
      if negb (List.length argv =? optind + 1)%nat then Ret (2, None)
      else
        match fopen_rb (nth optind argv []) with
        | None => Ret (1, None)
        | Some bytes =>
            match tl_init_parse_file bytes with
            | None => Ret (1, None)
            | Some (text, P) =>
                do? (T, _) := tl_parse_lex text (text_fuel text) P init_state in
                match T with
                | None => Ret (1, None)
                | Some T => do? (r, _) := compile text o T init_sstate in Ret r
                end
            end
        end
  end.

End Main.
