(* ===== verification/Reproducible.v ===== *)
(** * The output does not depend on the random numbers

    [lrand48] is used for the priorities of the treaps and for the names of
    unnamed variables.  Two runs of the compiler that draw different numbers
    are related step by step: their states agree except for the shapes of the
    treaps and the random names, so they print the same lines and write the
    same bytes.  The one thing that can part them is a random name that
    collides with another one, which makes a run fail. *)
From Stdlib Require Import ZArith Lia List Bool Ascii String Permutation.
From stdpp Require Import base list strings gmap sorting.
From S2P Require Import Prelude Crc32 Treap Lexer Parser Grammar Symbols Tables Combinator Unify Values Sema Writer Main.
Open Scope tl_scope.

Create HintDb rel.

(** ** Related trees *)

Section Same.
Context {X : Type} (D : X -> Prop) (cmp : X -> X -> Z) `{!CmpLaws D cmp}.

(** The same elements, whatever the shape. *)
Definition same (T1 T2 : tree X) : Prop :=
  tree_ok D cmp T1 /\ tree_ok D cmp T2 /\ inorder T1 = inorder T2.

Lemma same_Nil : same Nil Nil.
Proof. by repeat constructor. Qed.

Lemma same_lookup T1 T2 x : D x -> same T1 T2 -> tree_lookup cmp T1 x = tree_lookup cmp T2 x.
Proof. intros Hx (H1 & H2 & E). rewrite !(tree_lookup_ok D) by done. by rewrite E. Qed.

Lemma same_insert T1 T2 x y1 y2 :
  D x -> same T1 T2 -> tree_lookup cmp T1 x = None ->
  exists T1' T2', tree_insert cmp T1 x y1 = Ret T1' /\ tree_insert cmp T2 x y2 = Ret T2' /\
    same T1' T2' /\ inorder T1' = sorted_insert cmp x (inorder T1).
Proof.
  intros Hx HS HF. pose proof (same_lookup _ _ _ Hx HS) as HF2. rewrite HF in HF2. symmetry in HF2.
  destruct HS as (H1 & H2 & E).
  rewrite (tree_lookup_ok D) in HF, HF2 by done.
  destruct (tree_insert_ok D cmp T1 x y1) as (T1' & E1 & H1' & I1); [done|done|by apply sorted_find_fresh|].
  destruct (tree_insert_ok D cmp T2 x y2) as (T2' & E2 & H2' & I2); [done|done|by apply sorted_find_fresh|].
  exists T1', T2'. do 2 (split; [done|]). split; [|done]. split_and!; [done|done|congruence].
Qed.

Lemma same_delete T1 T2 x :
  D x -> same T1 T2 -> tree_lookup cmp T1 x <> None ->
  exists T1' T2', tree_delete cmp T1 x = Ret T1' /\ tree_delete cmp T2 x = Ret T2' /\
    same T1' T2' /\ inorder T1' = sorted_remove cmp x (inorder T1).
Proof.
  intros Hx HS HF. pose proof (same_lookup _ _ _ Hx HS) as HF2.
  destruct HS as (H1 & H2 & E). rewrite (tree_lookup_ok D) in HF by done.
  destruct (tree_delete_ok D cmp T1 x) as (T1' & E1 & H1' & I1); [done|done|by rewrite sorted_find_fresh|].
  destruct (tree_delete_ok D cmp T2 x) as (T2' & E2 & H2' & I2);
    [done|done|by rewrite sorted_find_fresh, <- E|].
  exists T1', T2'. do 2 (split; [done|]). split; [|done]. split_and!; [done|done|congruence].
Qed.

End Same.

(** ** Random names *)

(** A name that an identifier of the schema can have: a random one starts with
    a digit or a minus sign. *)
Definition named (id : list Z) : bool :=
  negb ((48 <=? str_head id) && (str_head id <=? 57)) && negb (str_head id =? 45).

Lemma named_strcmp a b : strcmp a b = 0 -> named a = named b.
Proof.
  rewrite strcmp_heads. case_goal; [|lia]. zbool. unfold named. by rewrite Heqb0.
Qed.

Lemma digits_head fuel n acc :
  0 <= n -> fuel <> O -> exists c l, digits fuel n acc = c :: l /\ 48 <= c <= 57.
Proof.
  revert n acc. induction fuel as [|fuel IH]; intros n acc Hn Hf; [done|]. cbn [digits].
  change (chr "0") with 48. destruct (n <? 10) eqn:E; [do 2 eexists; split; [done|]; zmod|].
  destruct fuel as [|fuel]; [cbn [digits]; do 2 eexists; split; [done|]; zmod|].
  apply IH; [zbool; zmod|done].
Qed.

Lemma lld_random z : named (lld z) = false.
Proof.
  unfold lld. destruct (z <? 0) eqn:E; [done|]. zbool.
  destruct (digits_head 20 z [] E) as (c & l & -> & Hc); [done|].
  unfold named. cbn [str_head].
  rewrite (uchar_byte c) by (unfold is_byte; lia). replace (48 <=? c) with true by lia.
  by replace (c <=? 57) with true by lia.
Qed.

(** Tables of variables: the same named entries, and the same objects. *)
Definition key (id : list Z) : entry := (id, 1%positive).

Definition vsame (T1 T2 : tree entry) : Prop :=
  tree_ok (fun _ => True) tl_type_cmp T1 /\ tree_ok (fun _ => True) tl_type_cmp T2 /\
  (forall id, named id = true ->
     tree_lookup tl_type_cmp T1 (key id) = tree_lookup tl_type_cmp T2 (key id)) /\
  map snd (inorder T1) ≡ₚ map snd (inorder T2).

Lemma vsame_Nil : vsame Nil Nil.
Proof. by repeat constructor. Qed.

(** The same object under names that are equal or both random. *)
Lemma vsame_insert T1 T2 id1 id2 a y1 y2 :
  vsame T1 T2 -> (id1 = id2 \/ named id1 = false /\ named id2 = false) ->
  tree_lookup tl_type_cmp T1 (key id1) = None -> tree_lookup tl_type_cmp T2 (key id2) = None ->
  exists T1' T2', tree_insert tl_type_cmp T1 (id1, a) y1 = Ret T1' /\
    tree_insert tl_type_cmp T2 (id2, a) y2 = Ret T2' /\ vsame T1' T2'.
Proof.
  intros (H1 & H2 & Hl & Hp) Hid HF1 HF2.
  rewrite (tree_lookup_ok (fun _ => True) _ T1) in HF1 by done.
  rewrite (tree_lookup_ok (fun _ => True) _ T2) in HF2 by done.
  rewrite <- sorted_find_fresh in HF1, HF2.
  change (fresh tl_type_cmp (id1, a) (inorder T1)) in HF1.
  change (fresh tl_type_cmp (id2, a) (inorder T2)) in HF2.
  destruct (tree_insert_ok (fun _ => True) tl_type_cmp T1 (id1, a) y1) as (T1' & E1 & H1' & I1); [done..|].
  destruct (tree_insert_ok (fun _ => True) tl_type_cmp T2 (id2, a) y2) as (T2' & E2 & H2' & I2); [done..|].
  exists T1', T2'. do 2 (split; [done|]). do 2 (split; [done|]). split.
  - intros id Hn. specialize (Hl id Hn).
    rewrite (tree_lookup_ok (fun _ => True) _ T1'), (tree_lookup_ok (fun _ => True) _ T2') by done.
    rewrite (tree_lookup_ok (fun _ => True) _ T1), (tree_lookup_ok (fun _ => True) _ T2) in Hl by done.
    rewrite I1, I2, (sorted_find_insert (fun _ => True) _ (id1, a)),
      (sorted_find_insert (fun _ => True) _ (id2, a)); try done;
      try (by apply Forall_forall); try apply H1; try apply H2.
    assert (forall r, named r = false -> (tl_type_cmp (key id) (r, a) =? 0) = false) as Hr.
    { intros r Hr. apply Z.eqb_neq. intros E. apply named_strcmp in E. cbn in E. congruence. }
    destruct Hid as [->|[Hr1 Hr2]]; [|by rewrite !Hr]. by destruct (_ =? 0).
  - rewrite I1, I2. etransitivity; [apply Permutation_map, sorted_insert_perm|].
    etransitivity; [|symmetry; apply Permutation_map, sorted_insert_perm]. by constructor.
Qed.

(** ** Related states *)

(** Strings in nodes are identifiers of the schema, and a variable refers to
    something. *)
Definition node_ok (n : tl_combinator_tree) : Prop :=
  (forall x, c_data n = ToStr x -> named x = true) /\
  (c_act n = act_var \/ c_type n = type_num -> c_data n <> Null).

Record var_sim (v1 v2 : tl_var) : Prop := {
  vs_ptr : v_ptr v1 = v_ptr v2;
  vs_type : v_type v1 = v_type v2;
  vs_flags : v_flags v1 = v_flags v2;
  vs_null : v_ptr v1 <> Null
}.

Abbreviation esame := (same (fun _ => True) tl_type_cmp).
Abbreviation fsame := (same (fun _ => True) strcmp).

Record sim (s1 s2 : sstate) : Prop := {
  sim_nodes : nodes s1 = nodes s2;
  sim_node_ok : map_Forall (fun _ => node_ok) (nodes s1);
  sim_tys : tys s1 = tys s2;
  sim_constructors : constructors s1 = constructors s2;
  sim_variables : forall a, option_Forall2 var_sim (variables s1 !! a) (variables s2 !! a);
  sim_brk : brk s1 = brk s2;
  sim_type_tree : esame (tl_type_tree s1) (tl_type_tree s2);
  sim_constructor_tree : esame (tl_constructor_tree s1) (tl_constructor_tree s2);
  sim_function_tree : esame (tl_function_tree s1) (tl_function_tree s2);
  sim_total_types : total_types_num s1 = total_types_num s2;
  sim_total_constructors : total_constructors_num s1 = total_constructors_num s2;
  sim_total_functions : total_functions_num s1 = total_functions_num s2;
  sim_level : namespace_level s1 = namespace_level s2;
  sim_vars : Forall2 vsame (vars s1) (vars s2);
  sim_fields : Forall2 fsame (fields s1) (fields s2);
  sim_last : last_num_var s1 = last_num_var s2;
  sim_buf : buf s1 = buf s2;
  sim_ok : g_ok s1 = g_ok s2;
  sim_tok : g_tok s1 = g_tok s2;
  sim_printed : printed s1 = printed s2;
  sim_file : file s1 = file s2
}.

(** Prove that an update keeps [sim]. *)
Ltac sim_update :=
  intros [] [] H; destruct H; cbn in *; subst; constructor; cbn in *; try done.

Lemma sim_set_file x1 x2 s1 s2 : x1 = x2 -> sim s1 s2 -> sim (set_file x1 s1) (set_file x2 s2).
Proof. intros ->. revert s1 s2. sim_update. Qed.
Lemma sim_set_buf x1 x2 s1 s2 : x1 = x2 -> sim s1 s2 -> sim (set_buf x1 s1) (set_buf x2 s2).
Proof. intros ->. revert s1 s2. sim_update. Qed.
Lemma sim_set_printed x1 x2 s1 s2 : x1 = x2 -> sim s1 s2 -> sim (set_printed x1 s1) (set_printed x2 s2).
Proof. intros ->. revert s1 s2. sim_update. Qed.
Lemma sim_set_ok x1 x2 s1 s2 : x1 = x2 -> sim s1 s2 -> sim (set_ok x1 s1) (set_ok x2 s2).
Proof. intros ->. revert s1 s2. sim_update. Qed.
Lemma sim_set_tok x1 x2 s1 s2 : x1 = x2 -> sim s1 s2 -> sim (set_tok x1 s1) (set_tok x2 s2).
Proof. intros ->. revert s1 s2. sim_update. Qed.
Lemma sim_set_level x1 x2 s1 s2 : x1 = x2 -> sim s1 s2 -> sim (set_level x1 s1) (set_level x2 s2).
Proof. intros ->. revert s1 s2. sim_update. Qed.
Lemma sim_set_draws x1 x2 s1 s2 : sim s1 s2 -> sim (set_draws x1 s1) (set_draws x2 s2).
Proof. revert s1 s2. sim_update. Qed.
Lemma sim_set_brk x1 x2 s1 s2 : x1 = x2 -> sim s1 s2 -> sim (set_brk x1 s1) (set_brk x2 s2).
Proof. intros ->. revert s1 s2. sim_update. Qed.
Lemma sim_set_types x1 x2 s1 s2 : x1 = x2 -> sim s1 s2 -> sim (set_types x1 s1) (set_types x2 s2).
Proof. intros ->. revert s1 s2. sim_update. Qed.
Lemma sim_set_constructors x1 x2 s1 s2 :
  x1 = x2 -> sim s1 s2 -> sim (set_constructors x1 s1) (set_constructors x2 s2).
Proof. intros ->. revert s1 s2. sim_update. Qed.
Lemma sim_set_nodes x1 x2 s1 s2 :
  x1 = x2 -> map_Forall (fun _ => node_ok) x1 -> sim s1 s2 -> sim (set_nodes x1 s1) (set_nodes x2 s2).
Proof. intros -> Hx. revert s1 s2. sim_update. Qed.
Lemma sim_set_variables x1 x2 s1 s2 :
  (forall a, option_Forall2 var_sim (x1 !! a) (x2 !! a)) -> sim s1 s2 ->
  sim (set_variables x1 s1) (set_variables x2 s2).
Proof. intros Hx. revert s1 s2. sim_update. Qed.
Lemma sim_set_last x1 x2 s1 s2 :
  x1 = x2 -> sim s1 s2 -> sim (set_last_num_var x1 s1) (set_last_num_var x2 s2).
Proof. intros ->. revert s1 s2. sim_update. Qed.
Lemma sim_set_vars x1 x2 s1 s2 : Forall2 vsame x1 x2 -> sim s1 s2 -> sim (set_vars x1 s1) (set_vars x2 s2).
Proof. intros Hx. revert s1 s2. sim_update. Qed.
Lemma sim_set_fields x1 x2 s1 s2 :
  Forall2 fsame x1 x2 -> sim s1 s2 -> sim (set_fields x1 s1) (set_fields x2 s2).
Proof. intros Hx. revert s1 s2. sim_update. Qed.
Lemma sim_set_type_tree x1 x2 s1 s2 : esame x1 x2 -> sim s1 s2 -> sim (set_type_tree x1 s1) (set_type_tree x2 s2).
Proof. intros Hx. revert s1 s2. sim_update. Qed.
Lemma sim_set_constructor_tree x1 x2 s1 s2 :
  esame x1 x2 -> sim s1 s2 -> sim (set_constructor_tree x1 s1) (set_constructor_tree x2 s2).
Proof. intros Hx. revert s1 s2. sim_update. Qed.
Lemma sim_set_function_tree x1 x2 s1 s2 :
  esame x1 x2 -> sim s1 s2 -> sim (set_function_tree x1 s1) (set_function_tree x2 s2).
Proof. intros Hx. revert s1 s2. sim_update. Qed.
Lemma sim_set_total_types x1 x2 s1 s2 : x1 = x2 -> sim s1 s2 -> sim (set_total_types x1 s1) (set_total_types x2 s2).
Proof. intros ->. revert s1 s2. sim_update. Qed.
Lemma sim_set_total_constructors x1 x2 s1 s2 :
  x1 = x2 -> sim s1 s2 -> sim (set_total_constructors x1 s1) (set_total_constructors x2 s2).
Proof. intros ->. revert s1 s2. sim_update. Qed.
Lemma sim_set_total_functions x1 x2 s1 s2 :
  x1 = x2 -> sim s1 s2 -> sim (set_total_functions x1 s1) (set_total_functions x2 s2).
Proof. intros ->. revert s1 s2. sim_update. Qed.

Create HintDb sim.
#[export] Hint Resolve sim_set_file sim_set_buf sim_set_printed sim_set_ok sim_set_tok sim_set_level
  sim_set_draws sim_set_brk sim_set_types sim_set_constructors sim_set_last sim_set_type_tree
  sim_set_constructor_tree sim_set_function_tree sim_set_total_types sim_set_total_constructors
  sim_set_total_functions sim_set_vars sim_set_fields : sim.

(** ** Related computations *)

(** From related states, the same fault, or values related by [R] and related
    states. *)
Definition orel {A} (R : A -> A -> Prop) (o1 o2 : result (A * sstate)) : Prop :=
  match o1, o2 with
  | Ret (a1, s1), Ret (a2, s2) => R a1 a2 /\ sim s1 s2
  | Fault f1, Fault f2 => f1 = f2
  | OutOfFuel, OutOfFuel => True
  | _, _ => False
  end.

Definition rel {A} (R : A -> A -> Prop) (m1 m2 : C A) : Prop :=
  forall s1 s2, sim s1 s2 -> orel R (m1 s1) (m2 s2).

Lemma rel_ret {A} (R : A -> A -> Prop) a1 a2 : R a1 a2 -> rel R (ret a1) (ret a2).
Proof. by intros H s1 s2 Hs. Qed.

Lemma rel_bind {A B} (R : A -> A -> Prop) (Q : B -> B -> Prop) m1 m2 k1 k2 :
  rel R m1 m2 -> (forall a1 a2, R a1 a2 -> rel Q (k1 a1) (k2 a2)) ->
  rel Q (bind m1 k1) (bind m2 k2).
Proof.
  intros Hm Hk s1 s2 Hs. specialize (Hm s1 s2 Hs). unfold bind.
  destruct (m1 s1) as [[]| |], (m2 s2) as [[]| |]; cbn in *; try done.
  destruct Hm. by apply Hk.
Qed.

Lemma rel_mono {A} (R Q : A -> A -> Prop) m1 m2 :
  rel R m1 m2 -> (forall a1 a2, R a1 a2 -> Q a1 a2) -> rel Q m1 m2.
Proof.
  intros Hm HR s1 s2 Hs. specialize (Hm s1 s2 Hs). unfold orel in *.
  repeat case_match; try done. destruct Hm. auto.
Qed.

Lemma rel_fail {A} (R : A -> A -> Prop) f : rel R (fail f) (fail f).
Proof. by intros s1 s2 Hs. Qed.

Lemma rel_out_of_fuel {A} (R : A -> A -> Prop) : rel R out_of_fuel out_of_fuel.
Proof. by intros s1 s2 Hs. Qed.

Lemma rel_assert b : rel eq (assert b) (assert b).
Proof. destruct b; [by apply rel_ret|apply rel_fail]. Qed.

Lemma rel_modify f1 f2 :
  (forall s1 s2, sim s1 s2 -> sim (f1 s1) (f2 s2)) -> rel eq (modify f1) (modify f2).
Proof. intros H s1 s2 Hs. split; [done|]. auto. Qed.

Lemma rel_get : rel sim get get.
Proof. by intros s1 s2 Hs. Qed.

Lemma rel_lift {A} (R : A -> A -> Prop) r1 r2 :
  match r1, r2 with Ret a1, Ret a2 => R a1 a2 | Fault f1, Fault f2 => f1 = f2
                  | OutOfFuel, OutOfFuel => True | _, _ => False end ->
  rel R (lift r1) (lift r2).
Proof. intros H s1 s2 Hs. unfold lift. destruct r1, r2; cbn in *; try done. Qed.

Lemma rel_load {A} (h : sstate -> gmap positive A) a :
  (forall s1 s2, sim s1 s2 -> h s1 = h s2) -> rel eq (load_at h a) (load_at h a).
Proof. intros H s1 s2 Hs. unfold load_at. rewrite <- (H s1 s2 Hs). by destruct (h s1 !! a). Qed.

Lemma rel_get_type a : rel eq (get_type a) (get_type a).
Proof. apply rel_load. by intros ? ? []. Qed.
Lemma rel_get_constructor a : rel eq (get_constructor a) (get_constructor a).
Proof. apply rel_load. by intros ? ? []. Qed.

Lemma rel_set_type a f : rel eq (set_type a f) (set_type a f).
Proof.
  intros s1 s2 Hs. unfold set_type, store_at. rewrite <- (sim_tys _ _ Hs).
  destruct (tys s1 !! a); [split; [done|]|done]. by apply sim_set_types.
Qed.
Lemma rel_set_constructor a f : rel eq (set_constructor a f) (set_constructor a f).
Proof.
  intros s1 s2 Hs. unfold set_constructor, store_at. rewrite <- (sim_constructors _ _ Hs).
  destruct (constructors s1 !! a); [split; [done|]|done]. by apply sim_set_constructors.
Qed.

Lemma rel_node p : rel (fun n1 n2 => n1 = n2 /\ node_ok n1 /\ p <> Null) (node p) (node p).
Proof.
  destruct p; try apply rel_fail. intros s1 s2 Hs. unfold node, load_at.
  rewrite <- (sim_nodes _ _ Hs). destruct (nodes s1 !! a) eqn:E; [|done].
  split; [|done]. split; [done|]. split; [|done]. by eapply (sim_node_ok _ _ Hs).
Qed.

Lemma rel_set_node p f : (forall n, node_ok n -> node_ok (f n)) -> rel eq (set_node p f) (set_node p f).
Proof.
  intros Hf. destruct p; try apply rel_fail. intros s1 s2 Hs. unfold set_node, store_at.
  rewrite <- (sim_nodes _ _ Hs). destruct (nodes s1 !! a) eqn:E; [|done]. split; [done|].
  apply sim_set_nodes; [done| |done].
  apply map_Forall_insert_2; [|apply Hs]. apply Hf. by eapply (sim_node_ok _ _ Hs).
Qed.

Lemma rel_new_node n : node_ok n -> rel eq (new_node n) (new_node n).
Proof.
  intros Hn s1 s2 Hs. unfold new_node, bind, alloc. cbn.
  pose proof (sim_brk _ _ Hs) as Hb. pose proof (sim_nodes _ _ Hs) as HN.
  split; [by rewrite Hb|]. apply sim_set_brk; [by rewrite Hb|]. apply sim_set_nodes; [by rewrite Hb, HN| |done].
  apply map_Forall_insert_2; [done|apply Hs].
Qed.

Lemma rel_get_variable a : rel var_sim (get_variable a) (get_variable a).
Proof.
  intros s1 s2 Hs. unfold get_variable, load_at.
  destruct (sim_variables _ _ Hs a); done.
Qed.

Lemma rel_set_variable a f :
  (forall v1 v2, var_sim v1 v2 -> var_sim (f v1) (f v2)) -> rel eq (set_variable a f) (set_variable a f).
Proof.
  intros Hf s1 s2 Hs. unfold set_variable, store_at.
  destruct (sim_variables _ _ Hs a) as [v1 v2 Hv|]; [|done]. split; [done|].
  apply sim_set_variables; [|done]. intros b. destruct (decide (a = b)) as [->|Hne].
  - rewrite !lookup_insert_eq. constructor. auto.
  - rewrite !lookup_insert_ne by done. apply Hs.
Qed.

Lemma rel_var_flags a x :
  rel eq (set_variable a (fun v => v_set_flags (Z.lor (v_flags v) x) v))
         (set_variable a (fun v => v_set_flags (Z.lor (v_flags v) x) v)).
Proof. apply rel_set_variable. intros [] [] []. cbn in *. subst. by constructor. Qed.

Lemma rel_as_type p : rel eq (as_type p) (as_type p).
Proof. destruct p; try apply rel_fail. by apply rel_ret. Qed.
Lemma rel_as_str p : rel eq (as_str p) (as_str p).
Proof. destruct p; try apply rel_fail. by apply rel_ret. Qed.

#[export] Hint Resolve rel_fail rel_out_of_fuel rel_assert rel_get rel_get_type rel_get_constructor
  rel_set_type rel_set_constructor rel_node rel_get_variable rel_var_flags rel_as_type rel_as_str : rel.

(** *** Automation *)

Lemma node_ok_same n n' :
  c_act n' = c_act n -> c_type n' = c_type n -> c_data n' = c_data n -> node_ok n -> node_ok n'.
Proof. unfold node_ok. by intros -> -> ->. Qed.

(** [node_ok] of an updated or new node. *)
Ltac node_ok_tac :=
  solve [ assumption
        | let n := fresh in let Hn := fresh in
          intros n Hn; destruct n; eapply node_ok_same; [..|exact Hn]; reflexivity
        | intros; split; cbn in *;
          [intros ? ?; try congruence; simplify_eq; done | intuition congruence] ].

Ltac rel_eq :=
  repeat match goal with
  | H : ?a = ?b |- _ => first [subst a | subst b]
  | H : _ /\ _ |- _ => destruct H
  | H : prod _ _ |- _ => destruct H
  end.

(** One step: a bind whose first computation is known to be related, a bind of
    equal values, a case. *)
Ltac rel_step :=
  lazymatch goal with
  | |- forall _, _ => intro
  | |- rel _ (bind (node _) _) (bind (node _) _) =>
      eapply rel_bind; [apply rel_node|]; intros ? ? (<- & ? & ?)
  | |- rel _ (bind (set_node _ _) _) (bind (set_node _ _) _) =>
      eapply rel_bind; [apply rel_set_node; node_ok_tac|]; intros ? ? <-
  | |- rel _ (bind (new_node _) _) (bind (new_node _) _) =>
      eapply rel_bind; [apply rel_new_node; node_ok_tac|]; intros ? ? <-
  | |- rel _ (bind _ _) (bind _ _) =>
      first [ eapply rel_bind; [solve [eauto 3 with rel nocore]|]; let H := fresh in intros ? ? H; cbv beta in H; rel_eq
            | apply (rel_bind eq); [|intros ? ? <-] ]
  | |- rel _ (ret _) (ret _) => apply rel_ret
  | |- rel _ (set_node _ _) (set_node _ _) => apply rel_set_node; node_ok_tac
  | |- rel _ (new_node _) (new_node _) => apply rel_new_node; node_ok_tac
  | |- rel _ (if ?b then _ else _) (if ?b then _ else _) => destruct b eqn:?
  | |- rel _ (match ?x with _ => _ end) (match ?x with _ => _ end) => destruct x eqn:?
  | |- rel _ _ _ => solve [eauto 3 with rel nocore]
  end.

Ltac rel_auto := repeat first [progress rel_step | done].

(** ** The symbol tables *)

Lemma rel_elem {A} (R : A -> A -> Prop) l1 l2 i : Forall2 R l1 l2 -> rel R (elem l1 i) (elem l2 i).
Proof.
  intros H. unfold elem. destruct (0 <=? i); [|apply rel_fail].
  pose proof (Forall2_lookup_lr R l1 l2 (Z.to_nat i)) as Hl.
  destruct (l1 !! Z.to_nat i) eqn:E1, (l2 !! Z.to_nat i) eqn:E2.
  - apply rel_ret. by eapply Hl.
  - apply Forall2_length in H. apply lookup_lt_Some in E1. apply lookup_ge_None in E2. lia.
  - apply Forall2_length in H. apply lookup_lt_Some in E2. apply lookup_ge_None in E1. lia.
  - apply rel_fail.
Qed.

Lemma rel_elem_eq {A} (l : list A) i : rel eq (elem l i) (elem l i).
Proof. apply rel_elem. by apply Forall2_same_length_lookup; split; [|intros; congruence]. Qed.

Lemma lookup_entry_same T1 T2 id : esame T1 T2 -> lookup_entry T1 id = lookup_entry T2 id.
Proof. intros H. unfold lookup_entry. by rewrite (same_lookup _ _ T1 T2 _ I H). Qed.

Lemma rel_tl_get_type id : rel eq (tl_get_type id) (tl_get_type id).
Proof. intros s1 s2 Hs. split; [|done]. apply lookup_entry_same, Hs. Qed.
Lemma rel_tl_get_constructor id : rel eq (tl_get_constructor id) (tl_get_constructor id).
Proof. intros s1 s2 Hs. split; [|done]. apply lookup_entry_same, Hs. Qed.
Lemma rel_tl_get_function id : rel eq (tl_get_function id) (tl_get_function id).
Proof. intros s1 s2 Hs. split; [|done]. apply lookup_entry_same, Hs. Qed.

Lemma rel_tl_get_var id : named id = true -> rel eq (tl_get_var id) (tl_get_var id).
Proof.
  intros Hn s1 s2 Hs. unfold tl_get_var, bind, get. cbn [rbind].
  rewrite <- (sim_level _ _ Hs). revert s1 s2 Hs.
  assert (forall k s1 s2, Forall2 vsame (vars s1) (vars s2) ->
    rel eq (tl_get_var_loop k id s1) (tl_get_var_loop k id s2)) as H.
  { intros k s1 s2 Hv. induction k as [|k IH]; cbn [tl_get_var_loop]; [by apply rel_ret|].
    eapply rel_bind; [by apply rel_elem|]. intros T1 T2 HT.
    destruct HT as (_ & _ & HT & _). unfold key in HT. rewrite (HT id Hn).
    destruct (tree_lookup tl_type_cmp T2 _); [by apply rel_ret|done]. }
  intros s1 s2 Hs. apply H; [apply Hs|done].
Qed.

Lemma rel_tl_get_last_num_var : rel eq tl_get_last_num_var tl_get_last_num_var.
Proof.
  eapply rel_bind; [apply rel_get|]. intros s1 s2 Hs.
  rewrite <- (sim_last _ _ Hs), <- (sim_level _ _ Hs). apply rel_elem_eq.
Qed.

Lemma rel_tl_type_set_params a x y : rel eq (tl_type_set_params a x y) (tl_type_set_params a x y).
Proof. unfold tl_type_set_params. rel_auto. Qed.

Lemma rel_tl_type_finalize a : rel eq (tl_type_finalize a) (tl_type_finalize a).
Proof. apply rel_set_type. Qed.

Lemma rel_explicit_magic rest : rel eq (explicit_magic rest) (explicit_magic rest).
Proof. unfold explicit_magic. rel_auto. Qed.

#[export] Hint Resolve rel_tl_get_type rel_tl_get_constructor rel_tl_get_function rel_tl_get_var
  rel_tl_get_last_num_var rel_tl_type_set_params rel_tl_type_finalize rel_explicit_magic : rel.

Section Draws.
Context (rnd1 rnd2 : nat -> Z) (garbage : Z).

Lemma rel_draw : rel (fun _ _ => True) (draw rnd1) (draw rnd2).
Proof. intros s1 s2 Hs. split; [done|]. by apply sim_set_draws. Qed.

Lemma orel_enter tree_of set_tree id a s1 s2 :
  (forall d s, tree_of (set_draws d s) = tree_of s) ->
  (forall x1 x2 s1 s2, esame x1 x2 -> sim s1 s2 -> sim (set_tree x1 s1) (set_tree x2 s2)) ->
  sim s1 s2 -> esame (tree_of s1) (tree_of s2) -> lookup_entry (tree_of s1) id = None ->
  orel eq (enter rnd1 tree_of set_tree id a s1) (enter rnd2 tree_of set_tree id a s2).
Proof.
  intros Hd Hset Hs HT HF. unfold enter, bind, draw, get, lift, modify. cbn. rewrite !Hd.
  destruct (same_insert (fun _ => True) tl_type_cmp (tree_of s1) (tree_of s2) (id, a)
    (rnd1 (draws s1)) (rnd2 (draws s2)) I HT) as (T1 & T2 & -> & -> & HS & _).
  { by apply lookup_entry_None. }
  cbn. split; [done|]. apply Hset; [done|]. by apply sim_set_draws.
Qed.

Lemma orel_bind {A B} (R : A -> A -> Prop) (Q : B -> B -> Prop) m1 m2 k1 k2 s1 s2 :
  orel R (m1 s1) (m2 s2) ->
  (forall a1 a2 s1' s2', m1 s1 = Ret (a1, s1') -> R a1 a2 -> sim s1' s2' ->
     orel Q (k1 a1 s1') (k2 a2 s2')) ->
  orel Q (bind m1 k1 s1) (bind m2 k2 s2).
Proof.
  intros Hm Hk. unfold bind. destruct (m1 s1) as [[]| |], (m2 s2) as [[]| |]; cbn in *; try done.
  destruct Hm. by eapply Hk.
Qed.

Lemma rel_alloc_type t : rel eq (alloc tys set_types t) (alloc tys set_types t).
Proof.
  intros s1 s2 Hs. pose proof (sim_brk _ _ Hs) as Hb. pose proof (sim_tys _ _ Hs) as Ht.
  split; [done|]. apply sim_set_brk; [by rewrite Hb|]. apply sim_set_types; [by rewrite Hb, Ht|done].
Qed.

Lemma rel_alloc_constructor t :
  rel eq (alloc constructors set_constructors t) (alloc constructors set_constructors t).
Proof.
  intros s1 s2 Hs. pose proof (sim_brk _ _ Hs) as Hb. pose proof (sim_constructors _ _ Hs) as Ht.
  split; [done|]. apply sim_set_brk; [by rewrite Hb|]. apply sim_set_constructors; [by rewrite Hb, Ht|done].
Qed.

(** Back from two given states to all related ones. *)
Ltac at_rel := match goal with Hs : sim ?s1 ?s2 |- orel ?R (?m1 ?s1) (?m2 ?s2) =>
  refine ((_ : rel R m1 m2) s1 s2 Hs) end.

Lemma rel_tl_add_type id num ptypes :
  rel eq (tl_add_type rnd1 garbage id num ptypes) (tl_add_type rnd2 garbage id num ptypes).
Proof.
  intros s1 s2 Hs. unfold tl_add_type. apply (orel_bind sim); [by apply rel_get|].
  intros t1 t2 s1' s2' [= <- <-] Ht Hs'. clear Hs s2.
  rewrite <- (lookup_entry_same _ _ id (sim_type_tree _ _ Ht)).
  destruct (lookup_entry (tl_type_tree s1) id) eqn:E; [at_rel; rel_auto|].
  assert (forall x : Z * Z * Z, orel eq
    ((let '(flags, num, ptypes) := x in
      let* a := alloc tys set_types (mk_type id (print_id id) None 0 flags num ptypes []) in
      enter rnd1 tl_type_tree set_type_tree id a ;;
      modify (fun s => set_total_types (i32 (total_types_num s + 1)) s) ;; ret (Some a)) s1)
    ((let '(flags, num, ptypes) := x in
      let* a := alloc tys set_types (mk_type id (print_id id) None 0 flags num ptypes []) in
      enter rnd2 tl_type_tree set_type_tree id a ;;
      modify (fun s => set_total_types (i32 (total_types_num s + 1)) s) ;; ret (Some a)) s2')) as H.
  { intros [[flags n] pt]. apply (orel_bind eq); [by apply rel_alloc_type|].
    intros a ? s1'' s2'' [= <- <-] <- Hs''. apply (orel_bind eq).
    - apply orel_enter; [by intros ? []|apply sim_set_type_tree|done|apply Hs''|].
      by destruct s1.
    - intros [] [] s3 s4 _ _ Hs3. at_rel. apply (rel_bind eq); [|intros; by apply rel_ret].
      apply rel_modify. intros ? ? Hs4. apply sim_set_total_types; [|done]. by rewrite (sim_total_types _ _ Hs4). }
  unfold bind at 1 7. destruct (num >=? 0); [destruct (num <=? 64)|]; cbn [assert rbind bind ret fail]; [|done|].
  - apply (H (0, num, ptypes)).
  - apply (H (4, -1, garbage)).
Qed.

Lemma rel_total_constructors :
  rel eq (modify (fun s => set_total_constructors (i32 (total_constructors_num s + 1)) s))
         (modify (fun s => set_total_constructors (i32 (total_constructors_num s + 1)) s)).
Proof.
  apply rel_modify. intros ? ? H. apply sim_set_total_constructors; [|done].
  by rewrite (sim_total_constructors _ _ H).
Qed.

Lemma rel_total_functions :
  rel eq (modify (fun s => set_total_functions (i32 (total_functions_num s + 1)) s))
         (modify (fun s => set_total_functions (i32 (total_functions_num s + 1)) s)).
Proof.
  apply rel_modify. intros ? ? H. apply sim_set_total_functions; [|done].
  by rewrite (sim_total_functions _ _ H).
Qed.

Lemma store_tree {A} (tree_of : sstate -> A) (a : positive) f s u s' :
  (forall x s, tree_of (set_types x s) = tree_of s) ->
  set_type a f s = Ret (u, s') -> tree_of s' = tree_of s.
Proof.
  intros H. unfold set_type, store_at. destruct (tys s !! a); [|done]. intros [= _ <-]. apply H.
Qed.

Lemma rel_tl_add_constructor a id0 force :
  rel eq (tl_add_constructor rnd1 a id0 force) (tl_add_constructor rnd2 a id0 force).
Proof.
  unfold tl_add_constructor. eapply rel_bind; [apply rel_get_type|]. intros t ? <-.
  destruct (negb _); [by apply rel_ret|]. destruct (split_magic force id0) as [id rest].
  eapply rel_bind; [apply rel_explicit_magic|]. intros magic ? <-.
  intros s1 s2 Hs. apply (orel_bind sim); [by apply rel_get|].
  intros t1 t2 s1' s2' [= <- <-] Ht Hs'. clear Hs s2.
  rewrite <- (lookup_entry_same _ _ id (sim_constructor_tree _ _ Ht)).
  destruct (negb (starts_underscore id) && _) eqn:E; [at_rel; by apply rel_ret|].
  destruct (starts_underscore id) eqn:Eu; cbn [negb andb] in *.
  { at_rel. eapply rel_bind; [apply rel_assert|]. intros _ _ _.
    eapply rel_bind; [apply rel_alloc_constructor|]. intros k ? <-.
    rel_auto; apply rel_total_constructors. }
  apply bool_decide_eq_false_1 in E. apply (orel_bind eq); [by apply rel_ret|].
  intros [] [] ? ? [= <-] _ ?. clear dependent s2'.
  apply (orel_bind eq); [by apply rel_alloc_constructor|].
  intros k ? s3 s4 [= <- <-] <- Hs3. apply (orel_bind eq); [by apply rel_set_type|].
  intros [] [] s5 s6 E5 _ Hs5. apply (store_tree tl_constructor_tree) in E5; [|by intros ? []].
  apply (orel_bind eq).
  - apply orel_enter; [by intros ? []|apply sim_set_constructor_tree|done|apply Hs5|].
    rewrite E5. destruct s1; cbn in *. destruct (lookup_entry _ id); [|done]. by destruct E.
  - intros [] [] s7 s8 _ _ Hs7. at_rel. rel_auto; apply rel_total_constructors.
Qed.

Lemma rel_tl_add_function a id0 force :
  rel eq (tl_add_function rnd1 a id0 force) (tl_add_function rnd2 a id0 force).
Proof.
  unfold tl_add_function. destruct (split_magic force id0) as [id rest].
  eapply rel_bind; [apply rel_explicit_magic|]. intros magic ? <-.
  intros s1 s2 Hs. apply (orel_bind sim); [by apply rel_get|].
  intros t1 t2 s1' s2' [= <- <-] Ht Hs'. clear Hs s2.
  rewrite <- (lookup_entry_same _ _ id (sim_function_tree _ _ Ht)).
  destruct (lookup_entry (tl_function_tree s1) id) eqn:E; [at_rel; by apply rel_ret|].
  apply (orel_bind eq); [by apply rel_alloc_constructor|].
  intros k ? s3 s4 [= <- <-] <- Hs3. apply (orel_bind eq).
  - apply orel_enter; [by intros ? []|apply sim_set_function_tree|done|apply Hs3|]. by destruct s1.
  - intros [] [] s7 s8 _ _ Hs7. at_rel. rel_auto; apply rel_total_functions.
Qed.

(** ** Scopes *)

Lemma Forall2_set {A} (R : A -> A -> Prop) l1 l2 i x1 x2 :
  Forall2 R l1 l2 -> R x1 x2 -> Forall2 R (<[i := x1]> l1) (<[i := x2]> l2).
Proof. intros. by apply Forall2_insert. Qed.

Lemma rel_tl_add_field id : rel eq (tl_add_field rnd1 id) (tl_add_field rnd2 id).
Proof.
  unfold tl_add_field. eapply rel_bind; [apply rel_get|]. intros s1 s2 Hs.
  rewrite <- (sim_level _ _ Hs). do 2 (eapply rel_bind; [apply rel_assert|]; intros _ _ _).
  eapply rel_bind; [apply rel_elem, Hs|]. intros T1 T2 HT.
  rewrite <- (same_lookup _ _ T1 T2 id I HT). destruct (tree_lookup strcmp T1 id) eqn:E; [by apply rel_ret|].
  eapply rel_bind; [apply rel_draw|]. intros y1 y2 _.
  destruct (same_insert (fun _ => True) strcmp T1 T2 id y1 y2 I HT E) as (T1' & T2' & -> & -> & HT' & _).
  apply (rel_bind fsame); [by apply rel_lift|]. intros T1'' T2'' HT''.
  eapply rel_bind; [|intros; by apply rel_ret]. apply rel_modify. intros s3 s4 Hs3.
  apply sim_set_fields; [|done]. apply Forall2_set; [apply Hs3|done].
Qed.

Lemma rel_tl_clear_fields : rel eq tl_clear_fields tl_clear_fields.
Proof.
  unfold tl_clear_fields. eapply rel_bind; [apply rel_get|]. intros s1 s2 Hs.
  rewrite <- (sim_level _ _ Hs). eapply rel_bind; [apply rel_elem, Hs|]. intros T1 T2 HT.
  apply rel_modify. intros s3 s4 Hs3. rewrite <- (sim_level _ _ Hs3).
  apply sim_set_fields; [|done]. apply Forall2_set; [apply Hs3|].
  rewrite !tree_clear_Nil. apply same_Nil.
Qed.

(** Freeing the variables of two tables with the same objects. *)
Lemma delete_all_lookup (l : list entry) (m : gmap positive tl_var) a :
  foldr (fun e m => delete (snd e) m) m l !! a =
  if bool_decide (a ∈ map snd l) then None else m !! a.
Proof.
  induction l as [|e l IH]; cbn [foldr map]; [by rewrite bool_decide_eq_false_2 by apply not_elem_of_nil|].
  destruct (decide (a = snd e)) as [->|Hne].
  - rewrite lookup_delete_eq, bool_decide_eq_true_2; [done|left].
  - rewrite lookup_delete_ne, IH by done.
    rewrite (bool_decide_ext (a ∈ snd e :: map snd l) (a ∈ map snd l)); [done|].
    rewrite elem_of_cons. intuition.
Qed.

Lemma rel_del_vars T1 T2 : vsame T1 T2 -> rel eq (tree_act tl_del_var T1) (tree_act tl_del_var T2).
Proof.
  intros (_ & _ & _ & Hp) s1 s2 Hs. rewrite !tree_act_inorder, !del_vars. split; [done|].
  apply sim_set_variables; [|done]. intros a. rewrite !delete_all_lookup, !map_rev.
  rewrite (bool_decide_ext (a ∈ rev (map snd (inorder T2))) (a ∈ rev (map snd (inorder T1)))).
  - repeat case_bool_decide; try done; [constructor|apply Hs].
  - by rewrite <- !Permutation_rev, Hp.
Qed.

Lemma rel_tl_clear_vars : rel eq tl_clear_vars tl_clear_vars.
Proof.
  unfold tl_clear_vars. eapply rel_bind; [apply rel_get|]. intros s1 s2 Hs.
  rewrite <- (sim_level _ _ Hs). eapply rel_bind; [apply rel_elem, Hs|]. intros T1 T2 HT.
  eapply rel_bind; [by apply rel_del_vars|]. intros _ _ _.
  eapply rel_bind; [|intros _ _ _].
  - apply rel_modify. intros s3 s4 Hs3. apply sim_set_vars; [|done].
    apply Forall2_set; [apply Hs3|]. rewrite !tree_clear_Nil. apply vsame_Nil.
  - apply rel_modify. intros s3 s4 Hs3. apply sim_set_last; [|done]. by rewrite (sim_last _ _ Hs3).
Qed.

Lemma rel_namespace_push : rel eq namespace_push namespace_push.
Proof.
  unfold namespace_push. eapply rel_bind; [|intros _ _ _].
  { apply rel_modify. intros s1 s2 Hs. apply sim_set_level; [|done]. by rewrite (sim_level _ _ Hs). }
  eapply rel_bind; [apply rel_get|]. intros s1 s2 Hs. rewrite <- (sim_level _ _ Hs).
  eapply rel_bind; [apply rel_assert|intros _ _ _].
  eapply rel_bind; [apply rel_tl_clear_vars|intros _ _ _]. apply rel_tl_clear_fields.
Qed.

Lemma rel_namespace_pop : rel eq namespace_pop namespace_pop.
Proof.
  unfold namespace_pop. eapply rel_bind; [|intros _ _ _].
  { apply rel_modify. intros s1 s2 Hs. apply sim_set_level; [|done]. by rewrite (sim_level _ _ Hs). }
  eapply rel_bind; [apply rel_get|]. intros s1 s2 Hs. rewrite <- (sim_level _ _ Hs). apply rel_assert.
Qed.

Lemma rel_new_var l T1 T2 id1 id2 p type :
  vsame T1 T2 -> (id1 = id2 \/ named id1 = false /\ named id2 = false) -> p <> Null ->
  tree_lookup tl_type_cmp T1 (key id1) = None -> tree_lookup tl_type_cmp T2 (key id2) = None ->
  rel eq (new_var rnd1 l T1 id1 p type) (new_var rnd2 l T2 id2 p type).
Proof.
  intros HT Hid Hp HF1 HF2. unfold new_var. apply (rel_bind eq).
  { intros s1 s2 Hs. unfold alloc. rewrite <- (sim_brk _ _ Hs). split; [done|].
    apply sim_set_brk; [done|]. apply sim_set_variables; [|done]. intros a.
    destruct (decide (brk s1 = a)) as [->|Hne].
    - rewrite !lookup_insert_eq. by repeat constructor.
    - rewrite !lookup_insert_ne by done. apply Hs. }
  intros v ? <-. eapply rel_bind; [apply rel_draw|]. intros y1 y2 _.
  destruct (vsame_insert T1 T2 id1 id2 v y1 y2) as (T1' & T2' & -> & -> & HT'); [done..|].
  apply (rel_bind vsame); [by apply rel_lift|]. intros T3 T4 HT3.
  apply (rel_bind eq); [|intros _ _ _; apply (rel_bind eq); [|intros _ _ _; by apply rel_ret]].
  - apply rel_modify. intros s1 s2 Hs. apply sim_set_vars; [|done]. apply Forall2_set; [apply Hs|done].
  - destruct (type =? 0); [by apply rel_ret|]. apply rel_modify. intros s1 s2 Hs.
    apply sim_set_last; [|done]. by rewrite (sim_last _ _ Hs).
Qed.

(** A scope's table, as [tl_add_var] reads it. *)
Lemma rel_tl_add_var id p type :
  named id = true -> p <> Null -> rel eq (tl_add_var rnd1 id p type) (tl_add_var rnd2 id p type).
Proof.
  intros Hn Hp. unfold tl_add_var. eapply rel_bind; [apply rel_get|]. intros s1 s2 Hs.
  rewrite <- (sim_level _ _ Hs). eapply rel_bind; [apply rel_elem, Hs|]. intros T1 T2 HT.
  pose proof HT as (_ & _ & Hl & _). specialize (Hl id Hn). change (id, 1%positive) with (key id).
  rewrite Hl. destruct (tree_lookup tl_type_cmp T2 (key id)) eqn:E; [by apply rel_ret|].
  apply rel_new_var; try done. by left.
Qed.

(** *** Runs that may fail *)

(** Related outcomes, unless one of the runs has failed. *)
Definition orelf {A} (failed : A -> Prop) (o1 o2 : result (A * sstate)) : Prop :=
  (exists a s, o1 = Ret (a, s) /\ failed a) \/ (exists a s, o2 = Ret (a, s) /\ failed a) \/ orel eq o1 o2.

Definition relf {A} (failed : A -> Prop) (m1 m2 : C A) : Prop :=
  forall s1 s2, sim s1 s2 -> orelf failed (m1 s1) (m2 s2).

Lemma relf_rel {A} failed (m1 m2 : C A) : rel eq m1 m2 -> relf failed m1 m2.
Proof. intros H s1 s2 Hs. right; right. by apply H. Qed.

(** What follows a failure fails too. *)
Definition fails {A} (failed : A -> Prop) (m : C A) : Prop :=
  forall s, exists a s', m s = Ret (a, s') /\ failed a.

Lemma fails_ret {A} (failed : A -> Prop) a : failed a -> fails failed (ret a).
Proof. intros H s. by exists a, s. Qed.

Lemma relf_bind {A B} (failed : A -> Prop) (failed' : B -> Prop) m1 m2 k1 k2 :
  relf failed m1 m2 ->
  (forall a, failed a -> fails failed' (k1 a) /\ fails failed' (k2 a)) ->
  (forall a, relf failed' (k1 a) (k2 a)) -> relf failed' (bind m1 k1) (bind m2 k2).
Proof.
  intros Hm Hf Hk s1 s2 Hs. unfold bind. destruct (Hm s1 s2 Hs) as [(a & s & E & Ha)|[(a & s & E & Ha)|H]].
  - left. rewrite E. cbn. destruct (proj1 (Hf a Ha) s) as (b & s' & Eb & Hb). by exists b, s'.
  - right; left. rewrite E. cbn. destruct (proj2 (Hf a Ha) s) as (b & s' & Eb & Hb). by exists b, s'.
  - destruct (m1 s1) as [[a1 s1']|f1|], (m2 s2) as [[a2 s2']|f2|]; cbn in *; try done;
      [|by right; right..].
    destruct H as [<- H]. by apply Hk.
Qed.

Lemma relf_bind_rel {A B} (R : A -> A -> Prop) (failed : B -> Prop) m1 m2 k1 k2 :
  rel R m1 m2 -> (forall a1 a2, R a1 a2 -> relf failed (k1 a1) (k2 a2)) ->
  relf failed (bind m1 k1) (bind m2 k2).
Proof.
  intros Hm Hk s1 s2 Hs. specialize (Hm s1 s2 Hs). unfold bind.
  destruct (m1 s1) as [[]| |], (m2 s2) as [[]| |]; cbn in *; try done; [|by right; right..].
  destruct Hm. by apply Hk.
Qed.

Lemma relf_add_random id1 id2 p type :
  named id1 = false -> named id2 = false -> p <> Null ->
  relf (eq None) (tl_add_var rnd1 id1 p type) (tl_add_var rnd2 id2 p type).
Proof.
  intros H1 H2 Hp. unfold tl_add_var. eapply relf_bind_rel; [apply rel_get|]. intros s1 s2 Hs.
  rewrite <- (sim_level _ _ Hs). eapply relf_bind_rel; [apply rel_elem, Hs|]. intros T1 T2 HT.
  change (id1, 1%positive) with (key id1). change (id2, 1%positive) with (key id2).
  destruct (tree_lookup tl_type_cmp T1 (key id1)) eqn:E1.
  { intros t1 t2 _. left. by exists None, t1. }
  destruct (tree_lookup tl_type_cmp T2 (key id2)) eqn:E2.
  { intros t1 t2 _. right; left. by exists None, t2. }
  apply relf_rel, rel_new_var; try done. by right.
Qed.

End Draws.

#[export] Hint Resolve rel_tl_add_type rel_tl_add_constructor rel_tl_add_function rel_tl_add_field
  rel_tl_clear_fields rel_tl_clear_vars rel_namespace_push rel_namespace_pop : rel.

(** ** Combinator trees *)

Lemma rel_tl_tree_dup n T : rel eq (tl_tree_dup n T) (tl_tree_dup n T).
Proof. revert T. induction n as [|n IH]; intros T; cbn [tl_tree_dup]; rel_auto; apply IH. Qed.

Lemma rel_tl_tree_get_type_loop n T : rel eq (tl_tree_get_type_loop n T) (tl_tree_get_type_loop n T).
Proof. revert T. induction n as [|n IH]; intros T; cbn [tl_tree_get_type_loop]; rel_auto; apply IH. Qed.
#[local] Hint Resolve rel_tl_tree_dup rel_tl_tree_get_type_loop : rel.

Lemma rel_tl_tree_get_type n T : rel eq (tl_tree_get_type n T) (tl_tree_get_type n T).
Proof. unfold tl_tree_get_type. rel_auto. Qed.

Lemma rel_buf_write x : rel eq (buf_write x) (buf_write x).
Proof.
  intros s1 s2 Hs. unfold buf_write. rewrite <- (sim_buf _ _ Hs). case_goal; [|done].
  split; [done|]. by apply sim_set_buf.
Qed.

Lemma rel_tl_buf_reset : rel eq tl_buf_reset tl_buf_reset.
Proof. apply rel_modify. intros. by apply sim_set_buf. Qed.

Lemma rel_tl_buf_add_string_q x q : rel eq (tl_buf_add_string_q x q) (tl_buf_add_string_q x q).
Proof. destruct q; apply rel_buf_write. Qed.
Lemma rel_tl_buf_add_string x : rel eq (tl_buf_add_string x) (tl_buf_add_string x).
Proof. apply rel_buf_write. Qed.
Lemma rel_tl_buf_add_string_nospace x : rel eq (tl_buf_add_string_nospace x) (tl_buf_add_string_nospace x).
Proof. apply rel_buf_write. Qed.
#[local] Hint Resolve rel_tl_tree_get_type rel_tl_buf_reset rel_tl_buf_add_string_q
  rel_tl_buf_add_string rel_tl_buf_add_string_nospace : rel.

Lemma rel_buf_add_type t x : rel eq (buf_add_type t x) (buf_add_type t x).
Proof. unfold buf_add_type. rel_auto. Qed.

(** The name of a variable is an identifier of the schema. *)
Lemma rel_var_name p : rel (fun a b => a = b /\ named a = true) (var_name p) (var_name p).
Proof.
  unfold var_name. eapply rel_bind; [apply rel_node|]. intros n ? (<- & [Hn _] & _).
  unfold as_str. destruct (c_data n) eqn:E; try apply rel_fail. apply rel_ret. auto.
Qed.
#[local] Hint Resolve rel_buf_add_type rel_var_name : rel.

Lemma rel_tl_buf_add_tree n T x : rel eq (tl_buf_add_tree n T x) (tl_buf_add_tree n T x).
Proof. revert T x. induction n as [|n IH]; intros T x; cbn [tl_buf_add_tree]; rel_auto; apply IH. Qed.
#[local] Hint Resolve rel_tl_buf_add_tree : rel.

Lemma rel_buf_add_sides n c : rel eq (buf_add_sides n c) (buf_add_sides n c).
Proof. unfold buf_add_sides. rel_auto. Qed.
#[local] Hint Resolve rel_buf_add_sides : rel.

Lemma rel_tl_count_combinator_name n k :
  rel eq (tl_count_combinator_name n k) (tl_count_combinator_name n k).
Proof.
  unfold tl_count_combinator_name. do 4 rel_step. eapply rel_bind; [apply rel_get|].
  intros s1 s2 Hs. rewrite <- (sim_buf _ _ Hs). rel_auto.
Qed.

Lemma rel_tl_print_combinator e n k : rel eq (tl_print_combinator e n k) (tl_print_combinator e n k).
Proof.
  unfold tl_print_combinator. rel_auto. apply rel_modify. intros s1 s2 Hs.
  apply sim_set_printed; [|done]. by rewrite (sim_printed _ _ Hs), (sim_buf _ _ Hs).
Qed.

Lemma rel__tl_finish_subtree n R x y : rel eq (_tl_finish_subtree n R x y) (_tl_finish_subtree n R x y).
Proof. revert R x y. induction n as [|n IH]; intros R x y; cbn [_tl_finish_subtree]; rel_auto; apply IH. Qed.
#[local] Hint Resolve rel__tl_finish_subtree : rel.

Lemma rel_tl_finish_subtree n R : rel eq (tl_finish_subtree n R) (tl_finish_subtree n R).
Proof. unfold tl_finish_subtree. rel_auto. Qed.
#[local] Hint Resolve rel_tl_finish_subtree : rel.

Lemma rel_tl_union n L R : rel eq (tl_union n L R) (tl_union n L R).
Proof. unfold tl_union. rel_auto. Qed.

#[export] Hint Resolve rel_tl_tree_dup rel_tl_tree_get_type rel_buf_write rel_tl_buf_reset
  rel_tl_buf_add_tree rel_var_name rel_tl_count_combinator_name rel_tl_print_combinator
  rel_tl_finish_subtree rel_tl_union : rel.

(** ** Substitutions *)

Section Values.
Context (rnd1 rnd2 : nat -> Z) (address : ptr -> Z) (base : Z).
Hypothesis Hwindow : forall p, base <= address p < base + 2 ^ 31.
Local Abbreviation cmp := (tl_var_value_cmp address).
#[local] Instance values_laws : CmpLaws (fun _ => True) cmp := tl_var_value_cmp_laws address base Hwindow.

(** The same bindings, of variables that are not null. *)
Definition usame (V1 V2 : tree tl_var_value) : Prop :=
  same (fun _ => True) cmp V1 V2 /\ Forall (fun v => vv_ptr v <> Null) (inorder V1).

Lemma usame_Nil : usame Nil Nil.
Proof. split; [apply same_Nil|constructor]. Qed.

Lemma usame_lookup V1 V2 p : usame V1 V2 -> lookup_var_value address V1 p = lookup_var_value address V2 p.
Proof.
  intros [H _]. unfold lookup_var_value. by rewrite (same_lookup (fun _ => True) cmp V1 V2 _ I H).
Qed.

Lemma usame_value V1 V2 p : usame V1 V2 -> tl_get_var_value address V1 p = tl_get_var_value address V2 p.
Proof. intros H. unfold tl_get_var_value. by rewrite (usame_lookup V1 V2). Qed.

Lemma usame_num V1 V2 p :
  usame V1 V2 -> tl_get_var_value_num address V1 p = tl_get_var_value_num address V2 p.
Proof. intros H. unfold tl_get_var_value_num. by rewrite (usame_lookup V1 V2). Qed.

Lemma rel_set_value V1 V2 var value num :
  var <> Null -> usame V1 V2 ->
  rel usame (tl_set_var_value_num rnd1 address V1 var value num)
            (tl_set_var_value_num rnd2 address V2 var value num).
Proof.
  intros Hvar HV. unfold tl_set_var_value_num. rewrite <- (usame_lookup V1 V2 var HV).
  set (t := mk_value var value (i32 num)). destruct HV as [HS HN].
  assert (forall T, tree_lookup cmp T (mk_value var Null 0) = tree_lookup cmp T t) as Hk.
  { induction T as [|l IHl x y r IHr]; cbn; [done|]. by rewrite IHl, IHr. }
  unfold lookup_var_value. rewrite Hk. destruct (tree_lookup cmp V1 t) as [r|] eqn:E.
  - assert (is_null (vv_ptr r) = false) as ->.
    { rewrite (value_lookup address base Hwindow) in E by apply HS. apply find_some in E as [Hin _]. rewrite Forall_forall in HN.
      apply bool_decide_eq_false_2, HN. by apply list_elem_of_In. }
    destruct (same_delete (fun _ => True) cmp V1 V2 t I HS) as (T1 & T2 & -> & -> & HT & HI);
      [congruence|].
    apply (rel_bind (fun T1' T2' => T1' = T1 /\ T2' = T2)); [by apply rel_lift|]. intros ? ? [-> ->].
    eapply rel_bind; [apply rel_draw|]. intros y1 y2 _.
    destruct (same_insert (fun _ => True) cmp T1 T2 t y1 y2 I HT) as (T3 & T4 & -> & -> & HT3 & HI3).
    { rewrite (value_lookup address base Hwindow), HI by apply HT.
      rewrite (sorted_find_remove (fun _ => True) cmp t t) by (done || by apply Forall_forall).
      by rewrite (cmp_refl (CmpLaws := values_laws)). }
    apply rel_lift. split; [done|]. rewrite HI3, HI. apply sorted_insert_Forall; [done|].
    by apply sorted_remove_Forall.
  - apply (rel_bind (fun T1' T2' => T1' = V1 /\ T2' = V2)); [by apply rel_ret|]. intros ? ? [-> ->].
    eapply rel_bind; [apply rel_draw|]. intros y1 y2 _.
    destruct (same_insert (fun _ => True) cmp V1 V2 t y1 y2 I HS E) as (T3 & T4 & -> & -> & HT3 & HI3).
    apply rel_lift. split; [done|]. rewrite HI3. by apply sorted_insert_Forall.
Qed.

End Values.

(** ** The output file *)

Lemma rel_fwrite l : rel eq (fwrite l) (fwrite l).
Proof.
  apply rel_modify. intros s1 s2 Hs. apply sim_set_file; [|done]. by rewrite (sim_file _ _ Hs).
Qed.
Lemma rel_wint a : rel eq (wint a) (wint a).
Proof. apply rel_fwrite. Qed.
Lemma rel_wll a : rel eq (wll a) (wll a).
Proof. apply rel_fwrite. Qed.
Lemma rel_wdata l : rel eq (wdata l) (wdata l).
Proof. apply rel_fwrite. Qed.
#[export] Hint Resolve rel_fwrite rel_wint rel_wll rel_wdata : rel.

Lemma rel_wstr x : rel eq (wstr x) (wstr x).
Proof. unfold wstr. rel_auto. Qed.
Lemma rel_write_type_flags f : rel eq (write_type_flags f) (write_type_flags f).
Proof. apply rel_fwrite. Qed.
Lemma rel_write_field_flags f : rel eq (write_field_flags f) (write_field_flags f).
Proof. apply rel_fwrite. Qed.
Lemma rel_write_var_type_flags f : rel eq (write_var_type_flags f) (write_var_type_flags f).
Proof. unfold write_var_type_flags. rel_auto. Qed.
Lemma rel_count_list_size n T : rel eq (count_list_size n T) (count_list_size n T).
Proof. revert T. induction n as [|n IH]; intros T; cbn [count_list_size]; rel_auto; apply IH. Qed.
Lemma rel_declares_var l : rel eq (declares_var l) (declares_var l).
Proof. unfold declares_var. rel_auto. Qed.
#[export] Hint Resolve rel_wstr rel_write_type_flags rel_write_field_flags rel_write_var_type_flags
  rel_count_list_size rel_declares_var : rel.

Lemma rel_each {A} (f1 f2 : A -> C unit) l :
  (forall x, rel eq (f1 x) (f2 x)) -> rel eq (each f1 l) (each f2 l).
Proof.
  intros H. induction l as [|x l IH]; cbn [each]; [by apply rel_ret|].
  apply (rel_bind eq); [apply H|]. by intros _ _ _.
Qed.

Lemma rel_tree_act {X} (D : X -> Prop) cmp (f1 f2 : X -> C unit) T1 T2 :
  same D cmp T1 T2 -> (forall x, rel eq (f1 x) (f2 x)) -> rel eq (tree_act f1 T1) (tree_act f2 T2).
Proof.
  intros (_ & _ & E) H s1 s2 Hs. rewrite !tree_act_inorder, E. by apply rel_each.
Qed.

Section Output.
Context (rnd1 rnd2 : nat -> Z) (address : ptr -> Z) (base : Z).
Hypothesis Hwindow : forall p, base <= address p < base + 2 ^ 31.

Definition nsame (v1 v2 : numbering) : Prop := usame address (fst v1) (fst v2) /\ snd v1 = snd v2.

Section Tree.
Context (wt1 wt2 : write_tree_t).
Hypothesis Hwt : forall T e v1 v2, nsame v1 v2 -> rel nsame (wt1 T e v1) (wt2 T e v2).

Lemma rel_write_args n T v1 v2 :
  nsame v1 v2 -> rel nsame (write_args_with rnd1 address wt1 n T v1) (write_args_with rnd2 address wt2 n T v2).
Proof.
  revert T v1 v2. induction n as [|n IH]; intros T v1 v2 Hv; cbn [write_args_with]; [apply rel_out_of_fuel|].
  rel_step. destruct (c_type a1); try apply rel_fail.
  - do 3 rel_step. apply (rel_bind eq); [rel_auto|]. intros name ? <-. do 2 rel_step.
    apply (rel_bind eq); [apply rel_declares_var|]. intros b ? <-.
    apply (rel_bind nsame); [|by intros; apply Hwt]. destruct b.
    + destruct v1 as [V1 k1], v2 as [V2 k2], Hv as [HV Hk]. cbn in HV, Hk. subst k2.
      do 2 rel_step. eapply rel_bind; [apply (rel_set_value _ _ _ base Hwindow); done|].
      intros V3 V4 HV3. by apply rel_ret.
    + apply (rel_bind eq); [apply rel_write_field_flags|]. intros _ _ _. by apply rel_ret.
  - do 3 rel_step. eapply rel_bind; [by apply IH|]. intros v3 v4 Hv3. by apply IH.
Qed.

Lemma rel_write_array t v1 v2 :
  nsame v1 v2 -> rel nsame (write_array_with wt1 t v1) (write_array_with wt2 t v2).
Proof.
  intros Hv. unfold write_array_with. rel_step. eapply rel_bind; [by apply Hwt|]. intros v3 v4 Hv3. by apply Hwt.
Qed.

Lemma nsame_num v1 v2 p :
  nsame v1 v2 -> tl_get_var_value_num address (fst v1) p = tl_get_var_value_num address (fst v2) p.
Proof. intros [Hv _]. by apply (usame_num address base Hwindow). Qed.

Lemma rel_write_type_rec n T cc v1 v2 :
  nsame v1 v2 -> rel nsame (write_type_rec_with address wt1 n T cc v1) (write_type_rec_with address wt2 n T cc v2).
Proof.
  revert T cc v1 v2. induction n as [|n IH]; intros T cc v1 v2 Hv; cbn [write_type_rec_with];
    [apply rel_out_of_fuel|].
  rel_step. rewrite (nsame_num v1 v2) by done. destruct (c_act a1); try apply rel_fail; [by rel_auto..|].
  eapply rel_bind; [by apply IH|]. intros v3 v4 Hv3. do 2 rel_step. by apply Hwt.
Qed.

Lemma rel_write_type_type n T t o1 o2 v1 v2 :
  nsame v1 v2 -> rel nsame o1 o2 ->
  rel nsame (write_type_type address wt1 n T t o1 v1) (write_type_type address wt2 n T t o2 v2).
Proof.
  intros Hv Ho. unfold write_type_type.
  destruct (c_act t); done || by apply rel_write_type_rec || by apply rel_write_array.
Qed.

Lemma rel_write_opt_type n t v1 v2 :
  nsame v1 v2 -> rel nsame (write_opt_type_with address wt1 n t v1) (write_opt_type_with address wt2 n t v2).
Proof.
  intros Hv. unfold write_opt_type_with. rel_step. rewrite (nsame_num v1 v2) by done. do 3 rel_step.
  destruct (bool_decide _); [|apply rel_fail]. apply rel_write_type_type; [done|apply rel_fail].
Qed.
End Tree.

Lemma rel_write_tree n T e v1 v2 :
  nsame v1 v2 -> rel nsame (write_tree rnd1 address n T e v1) (write_tree rnd2 address n T e v2).
Proof.
  revert T e v1 v2. induction n as [|n IH]; intros T e v1 v2 Hv; cbn [write_tree]; [apply rel_out_of_fuel|].
  do 2 rel_step. rewrite (nsame_num v1 v2) by done. destruct (c_type a1).
  - by rel_auto.
  - by rel_auto.
  - apply rel_write_type_type; [by auto|done|]. rel_step. by apply rel_write_opt_type.
  - rel_step; [rel_auto|]. do 2 rel_step. by apply rel_write_args.
  - rel_step; [rel_auto|]. do 2 rel_step. by apply rel_write_args.
Qed.

Lemma rel_write_combinator fuel k :
  rel eq (write_combinator rnd1 address fuel k) (write_combinator rnd2 address fuel k).
Proof.
  unfold write_combinator. do 3 rel_step. apply (rel_bind eq); [rel_auto|]. intros name ? <-. do 2 rel_step.
  assert (nsame (Nil, 0) (Nil, 0)) as HN by (split; [apply usame_Nil|done]).
  apply (rel_bind nsame).
  - destruct (negb _); [|rel_auto]. destruct (is_builtin_type _); [by rel_auto|].
    rel_step. by apply rel_write_tree.
  - intros v1 v2 Hv. rel_step. eapply rel_bind; [by apply rel_write_tree|]. intros. by apply rel_ret.
Qed.

Lemma rel_write_types fuel : rel eq (write_types rnd1 address fuel) (write_types rnd2 address fuel).
Proof.
  unfold write_types. do 3 rel_step. eapply rel_bind; [apply rel_get|]. intros s1 s2 Hs.
  rewrite <- (sim_total_types _ _ Hs), <- (sim_total_constructors _ _ Hs), <- (sim_total_functions _ _ Hs).
  rel_step. apply (rel_bind eq).
  { eapply rel_tree_act; [apply Hs|]. intros e. unfold write_type. rel_auto. }
  intros _ _ _. rel_step. apply (rel_bind eq).
  { eapply rel_tree_act; [apply Hs|]. intros e. unfold write_type_constructors. rel_step.
    apply rel_each. intros k. unfold write_constructor. rel_step. apply rel_write_combinator. }
  intros _ _ _. rel_step. eapply rel_tree_act; [apply Hs|]. intros e. unfold write_function. rel_step.
  apply rel_write_combinator.
Qed.
End Output.

(** The bytes a run leaves in the output file, or what stopped it. *)
Definition output (o : result (unit * sstate)) : result (list Z) :=
  match o with
  | Ret (_, s) => Ret (file s)
  | Fault f => Fault f
  | OutOfFuel => OutOfFuel
  end.

(** C32. The schema file does not depend on the random numbers: from two states
    that differ only in the shape of the tables and in the names invented for
    unnamed variables, and with two generators, the writer writes the same
    bytes or stops with the same fault, provided the addresses of the nodes
    lie within 2 GB of each other (the tables of variables compare addresses
    as [int]s). *)
Theorem write_types_reproducible rnd1 rnd2 address base fuel s1 s2 :
  (forall p, base <= address p < base + 2 ^ 31) -> sim s1 s2 ->
  output (write_types rnd1 address fuel s1) = output (write_types rnd2 address fuel s2).
Proof.
  intros Hw Hs. pose proof (rel_write_types rnd1 rnd2 address base Hw fuel s1 s2 Hs) as H.
  destruct (write_types rnd1 address fuel s1) as [[[] t1]| |],
    (write_types rnd2 address fuel s2) as [[[] t2]| |]; cbn in *; try done; [|congruence].
  f_equal. apply H.
Qed.

Lemma sim_init : sim init_sstate init_sstate.
Proof.
  constructor; try done; try apply same_Nil.
  - intros a. cbn. rewrite lookup_empty. constructor.
  - repeat constructor.
  - repeat constructor.
Qed.

(** Three types entered with the numbers of [rnd]. *)
Definition three_types (rnd : nat -> Z) : sstate :=
  match (tl_add_type rnd 0 (str "Int") 0 0 ;; tl_add_type rnd 0 (str "Bool") 0 0 ;;
         tl_add_type rnd 0 (str "Vector") 1 0) init_sstate with
  | Ret (_, s) => s
  | _ => init_sstate
  end.

Lemma three_types_sim rnd1 rnd2 : sim (three_types rnd1) (three_types rnd2).
Proof.
  unfold three_types.
  assert (H : rel eq (tl_add_type rnd1 0 (str "Int") 0 0 ;; tl_add_type rnd1 0 (str "Bool") 0 0 ;;
                  tl_add_type rnd1 0 (str "Vector") 1 0)
                 (tl_add_type rnd2 0 (str "Int") 0 0 ;; tl_add_type rnd2 0 (str "Bool") 0 0 ;;
                  tl_add_type rnd2 0 (str "Vector") 1 0)).
  { do 2 (eapply rel_bind; [apply rel_tl_add_type|intros _ _ _]). apply rel_tl_add_type. }
  specialize (H _ _ sim_init). unfold orel in H. repeat case_match; try done; [apply H|apply sim_init..].
Qed.

Lemma write_types_reproducible_witness :
  tl_type_tree (three_types (fun _ => 1)) <> tl_type_tree (three_types Z.of_nat) /\
  output (write_types (fun _ => 1) (fun _ => 0) 9 (three_types (fun _ => 1))) =
  output (write_types Z.of_nat (fun _ => 0) 9 (three_types Z.of_nat)).
Proof.
  split; [by vm_compute|].
  apply (write_types_reproducible (fun _ => 1) Z.of_nat (fun _ => 0) 0); [intros _; lia|].
  apply three_types_sim.
Defined.
