(* ===== verification/Wire.v ===== *)
(** * What the writer writes

    The binary schema as a value ([wschema]) with its encoding, and the
    reading of the compiler's heap as such a value ([schema_of]): the abstract
    specification of the [write_*] functions.  The theorem is that they write
    the encoding of the schema in the heap and change nothing else. *)
From Stdlib Require Import ZArith Lia List Bool Ascii String.
From stdpp Require Import base list strings gmap.
From S2P Require Import Prelude Treap Lexer Parser Symbols Combinator Unify Values Sema Writer.
Open Scope tl_scope.

(** ** Schemas *)

(** A number: a constant, or a variable plus a constant. *)
Inductive wnat := WConst (n : Z) | WNat (diff var : Z).

Inductive wexpr :=
| WVar (var : Z)                                 (* a type variable *)
| WType (id wflags : Z) (args : list wparam)     (* a type applied to its arguments *)
| WArray (m : wnat) (items : list wfield)
with wparam :=
| WPNat (n : wnat)
| WPType (e : wexpr)
with wfield :=
| WField (name : list Z) (wflags : Z) (var : option Z) (opt : option (Z * Z)) (ty : wexpr).

Record wcomb := mk_comb {
  wc_name : Z;
  wc_id : list Z;
  wc_type : Z;
  wc_left : option (list wfield);   (* [None] for a builtin *)
  wc_right : wexpr
}.

Record wtype := mk_wtype {
  wt_name : Z;
  wt_id : list Z;
  wt_constructors : Z;
  wt_flags : Z;
  wt_arity : Z;
  wt_params : Z
}.

Record wschema := mk_schema {
  ws_types : list wtype;
  ws_constructors : list wcomb;
  ws_functions : list wcomb
}.

(** ** The encoding *)

Definition e_int (z : Z) : list Z := le_bytes 4 (u32 z).
Definition e_long (z : Z) : list Z := le_bytes 8 (u64 z).

(** A byte for the length, the characters, zeros up to a multiple of four. *)
Definition e_str (s : list Z) : list Z :=
  let x := Z.of_nat (List.length s) in
  [uchar x] ++ map uchar s ++ repeat 0 (Z.to_nat ((3 - x) mod 4)).

Definition e_nat (n : wnat) : list Z :=
  match n with
  | WConst n => e_int TLS_NAT_CONST ++ e_int n
  | WNat diff var => e_int TLS_NAT_VAR ++ e_int diff ++ e_int var
  end.

Definition e_count {A} (l : list A) : list Z := e_int (Z.of_nat (List.length l)).

Definition e_opt (o : option Z) : list Z := match o with Some v => e_int v | None => [] end.

Fixpoint e_expr (e : wexpr) : list Z :=
  match e with
  | WVar var => e_int TLS_TYPE_VAR ++ e_int var ++ e_int 0
  | WType id wflags args =>
      e_int TLS_TYPE_EXPR ++ e_int id ++ e_int wflags ++ e_count args ++ concat (map e_param args)
  | WArray m items => e_int TLS_ARRAY ++ e_nat m ++ e_count items ++ concat (map e_field items)
  end
with e_param (q : wparam) : list Z :=
  match q with
  | WPNat n => e_int TLS_EXPR_NAT ++ e_nat n
  | WPType e => e_int TLS_EXPR_TYPE ++ e_expr e
  end
with e_field (f : wfield) : list Z :=
  match f with
  | WField name wflags var opt ty =>
      e_int TLS_ARG_V2 ++ e_str name ++
      e_int (Z.lor wflags (Z.lor (match opt with Some _ => 2 | None => 0 end)
                                 (match var with Some _ => 4 | None => 0 end))) ++
      e_opt var ++
      match opt with Some (v, bit) => e_int v ++ e_int bit | None => [] end ++
      e_expr ty
  end.

Definition e_fields (l : list wfield) : list Z := e_count l ++ concat (map e_field l).

Definition e_comb (c : wcomb) : list Z :=
  e_int (wc_name c) ++ e_str (wc_id c) ++ e_int (wc_type c) ++
  match wc_left c with
  | None => e_int TLS_COMBINATOR_LEFT_BUILTIN
  | Some l => e_int TLS_COMBINATOR_LEFT ++ e_fields l
  end ++
  e_int TLS_COMBINATOR_RIGHT_V2 ++ e_expr (wc_right c).

Definition e_type (t : wtype) : list Z :=
  e_int TLS_TYPE ++ e_int (wt_name t) ++ e_str (wt_id t) ++ e_int (wt_constructors t) ++
  e_int (wt_flags t) ++ e_int (wt_arity t) ++ e_long (wt_params t).

Definition e_item (c : wcomb) : list Z := e_int TLS_COMBINATOR ++ e_comb c.

Definition e_schema (w : wschema) : list Z :=
  e_int TLS_SCHEMA_V2 ++ e_int 0 ++ e_int 0 ++
  e_count (ws_types w) ++ concat (map e_type (ws_types w)) ++
  e_count (ws_constructors w) ++ concat (map e_item (ws_constructors w)) ++
  e_count (ws_functions w) ++ concat (map e_item (ws_functions w)).

(** ** The schema in the heap *)

(** The numbers of the variables seen so far, by address, and the next one. *)
Definition wenv : Type := list (Z * Z) * Z.

Definition check (b : bool) : result unit := if b then Ret tt else Fault AssertFailed.

Section Denote.
Context (address : ptr -> Z).
Context (N : gmap positive tl_combinator_tree) (T : gmap positive tl_type)
  (K : gmap positive tl_constructor).

Definition number (e : wenv) (p : ptr) : Z :=
  match List.find (fun x => fst x =? address p) (fst e) with Some x => snd x | None => 0 end.

Definition d_node (p : ptr) : result tl_combinator_tree :=
  match p with
  | ToNode a => match N !! a with Some t => Ret t | None => Fault BadPointer end
  | _ => Fault BadPointer
  end.

Definition d_type (p : ptr) : result tl_type :=
  match p with
  | ToType a => match T !! a with Some t => Ret t | None => Fault BadPointer end
  | _ => Fault BadPointer
  end.

Definition d_str (p : ptr) : result (list Z) :=
  match p with ToStr x => Ret x | _ => Fault BadPointer end.

(** The name of a field; the underscore stands for none. *)
Definition d_name (p : ptr) : result (list Z) :=
  do? name := (if is_null p then Ret []
               else do? x := d_str p in Ret (if strcmp x (str "_") =? 0 then [] else x)) in
  do? _ := check (Z.of_nat (List.length name) <=? 254) in
  Ret name.

Definition d_declares_var (l : tl_combinator_tree) : result bool :=
  if bool_decide (c_act l = act_type) && negb (is_null (c_data l)) then
    do? t := d_type (c_data l) in Ret (is_hash (ty_id t) || is_Type (ty_id t))
  else Ret false.

Definition d_nat (p : ptr) (e : wenv) : result wnat :=
  do? t := d_node p in
  match c_type t with
  | type_num_value => Ret (WConst (c_type_flags t))
  | type_num => Ret (WNat (c_type_flags t) (number e (c_data t)))
  | _ => Fault AssertFailed
  end.

Section Exprs.
Context (d_expr : ptr -> wenv -> result (wexpr * wenv)).

(** An item of a list of arguments. *)
Definition d_field (p : ptr) (t : tl_combinator_tree) (e : wenv) : result (wfield * wenv) :=
  do? _ := check (bool_decide (c_act t = act_field) && negb (is_null (c_left t))) in
  do? _ := check (negb (has (c_flags t) FLAG_OPT_FIELD) && negb (has (c_flags t) FLAG_IS_VAR)) in
  do? name := d_name (c_data t) in
  do? l := d_node (c_left t) in
  let f := field_flags (c_flags t) in
  if bool_decide (c_act l = act_opt_field) then
    do? _ := check (bool_decide (c_type l = type_type)) in
    do? v := d_node (c_left l) in
    do? (ty, e') := d_expr (c_right l) e in
    Ret (WField name f None (Some (number e (c_data v), c_type_flags v)) ty, e')
  else
    do? b := d_declares_var l in
    if b : bool then
      do? (ty, e') := d_expr (c_left t) ((address p, i32 (snd e)) :: fst e, snd e + 1) in
      Ret (WField name f (Some (snd e)) None ty, e')
    else
      do? (ty, e) := d_expr (c_left t) e in
      Ret (WField name f None None ty, e).

Fixpoint d_args (n : nat) (p : ptr) (e : wenv) : result (list wfield * wenv) :=
  match n with
  | O => OutOfFuel
  | S n =>
      do? t := d_node p in
      match c_type t with
      | type_list =>
          do? _ := check (bool_decide (c_act t = act_union) && negb (is_null (c_left t)) &&
                          negb (is_null (c_right t))) in
          do? (l, e) := d_args n (c_left t) e in
          do? (r, e) := d_args n (c_right t) e in
          Ret (l ++ r, e)
      | type_list_item => do? (f, e) := d_field p t e in Ret ([f], e)
      | _ => Fault AssertFailed
      end
  end.

(** The head of an application ([inl]: a variable, [inr]: a type and its
    flags) and its arguments. *)
Fixpoint d_spine (n : nat) (p : ptr) (cc : Z) (e : wenv) : result ((Z + Z * Z) * list wparam * wenv) :=
  match n with
  | O => OutOfFuel
  | S n =>
      do? t := d_node p in
      match c_act t with
      | act_arg =>
          do? (h, l, e) := d_spine n (c_left t) (cc + 1) e in
          do? r := d_node (c_right t) in
          do? (q, e) :=
            (if is_num (c_type r) then do? x := d_nat (c_right t) e in Ret (WPNat x, e)
             else do? (x, e) := d_expr (c_right t) e in Ret (WPType x, e)) in
          Ret (h, l ++ [q], e)
      | act_var =>
          do? _ := check ((cc =? 0) && negb (has (c_flags t) 1)) in
          Ret (inl (number e (c_data t)), [], e)
      | act_type =>
          do? ty := d_type (c_data t) in
          Ret (inr (ty_name ty, Z.lor (flag (c_flags t) 1 FLAG_BARE)
                 (flag (c_flags t) FLAG_DEFAULT_CONSTRUCTOR FLAG_DEFAULT_CONSTRUCTOR)), [], e)
      | _ => Fault AssertFailed
      end
  end.

Definition apply_head (h : Z + Z * Z) (l : list wparam) : wexpr :=
  match h with
  | inl var => WVar var
  | inr (id, f) => WType id f l
  end.
End Exprs.

Definition d_list (d_expr : ptr -> wenv -> result (wexpr * wenv)) (n : nat) (p : ptr) (e : wenv)
  : result (list wfield * wenv) :=
  do? _ := check (negb (is_null p)) in d_args d_expr n p e.

Fixpoint d_expr (n : nat) (p : ptr) (e : wenv) : result (wexpr * wenv) :=
  match n with
  | O => OutOfFuel
  | S n =>
      do? t := d_node p in
      if negb (bool_decide (c_type t = type_type)) then Fault AssertFailed
      else
        match c_act t with
        | act_array =>
            match n with
            | O => OutOfFuel
            | S n' =>
                do? m := d_nat (c_left t) e in
                do? (items, e) := d_list (d_expr n') n' (c_right t) e in
                Ret (WArray m items, e)
            end
        | act_type | act_var | act_arg =>
            do? (h, l, e) := d_spine (d_expr n) n p 0 e in
            Ret (apply_head h l, e)
        | _ => Fault AssertFailed
        end
  end.

(** A constructor or a function; [fuel] bounds the depth of its trees. *)
Definition d_left (fuel : nat) (c : tl_constructor) : result (option (list wfield) * wenv) :=
  if is_null (k_left c) then Ret (Some [], ([], 0))
  else if is_builtin_type (k_id c) then Ret (None, ([], 0))
  else
    match fuel with
    | O => OutOfFuel
    | S n => do? (l, e) := d_list (d_expr n) n (k_left c) ([], 0) in Ret (Some l, e)
    end.

Definition d_type_name (t : option positive) : result Z :=
  match t with
  | Some a => do? ty := d_type (ToType a) in Ret (ty_name ty)
  | None => Ret 0
  end.

Definition d_comb (fuel : nat) (k : positive) : result wcomb :=
  do? c := (match K !! k with Some c => Ret c | None => Fault BadPointer end) in
  do? _ := check (Z.of_nat (List.length (k_id c)) <=? 254) in
  do? name := d_type_name (k_type c) in
  do? (l, e) := d_left fuel c in
  do? (r, _) := d_expr fuel (k_right c) e in
  Ret (mk_comb (k_name c) (k_id c) name l r).

Definition d_wtype (a : positive) : result wtype :=
  do? t := d_type (ToType a) in
  do? _ := check (Z.of_nat (List.length (ty_id t)) <=? 254) in
  Ret (mk_wtype (ty_name t) (ty_id t) (Z.of_nat (List.length (ty_constructors t))) (ty_flags t)
         (ty_params_num t) (ty_params_types t)).

Fixpoint d_all {A B} (d : A -> result B) (l : list A) : result (list B) :=
  match l with
  | [] => Ret []
  | x :: l => do? y := d x in do? r := d_all d l in Ret (y :: r)
  end.

(** The constructors, in the order of their types. *)
Definition d_constructors (fuel : nat) (a : positive) : result (list wcomb) :=
  do? t := d_type (ToType a) in d_all (d_comb fuel) (ty_constructors t).

End Denote.

(** The whole schema; the counters have to agree with it. *)
Definition schema_of (address : ptr -> Z) (fuel : nat) (s : sstate) : result wschema :=
  let N := nodes s in let T := tys s in let K := constructors s in
  let type_ids := map snd (inorder (tl_type_tree s)) in
  do? types := d_all (d_wtype T) type_ids in
  do? _ := check (u32 (total_types_num s) =? u32 (Z.of_nat (List.length types))) in
  do? cs := d_all (d_constructors address N T K fuel) type_ids in
  do? _ := check (u32 (total_constructors_num s) =? u32 (Z.of_nat (List.length (concat cs)))) in
  do? fs := d_all (d_comb address N T K fuel) (map snd (inorder (tl_function_tree s))) in
  do? _ := check (u32 (total_functions_num s) =? u32 (Z.of_nat (List.length fs))) in
  Ret (mk_schema types (concat cs) fs).

(** ** The writer follows the schema *)

Section Emits.
Context (N : gmap positive tl_combinator_tree) (T : gmap positive tl_type)
  (K : gmap positive tl_constructor).

(** [emits m w Q]: in such a heap, [m] returns a value that satisfies [Q],
    appends [w] to the file, and changes nothing else but the count of random
    numbers. *)
Definition emits {A} (m : C A) (w : list Z) (Q : A -> Prop) : Prop :=
  forall s, nodes s = N -> tys s = T -> constructors s = K ->
  exists v d, m s = Ret (v, set_draws d (set_file (file s ++ w) s)) /\ Q v.

Lemma emits_ret {A} (v : A) (Q : A -> Prop) : Q v -> emits (ret v) [] Q.
Proof. intros HQ s _ _ _. exists v, (draws s). split; [|done]. rewrite app_nil_r. by destruct s. Qed.

Lemma emits_bind {A B} (m : C A) (k : A -> C B) w1 w2 P Q :
  emits m w1 P -> (forall v, P v -> emits (k v) w2 Q) -> emits (bind m k) (w1 ++ w2) Q.
Proof.
  intros Hm Hk s HN HT HK. destruct (Hm s HN HT HK) as (v & d & E & HP).
  destruct (Hk v HP (set_draws d (set_file (file s ++ w1) s))) as (u & d' & E' & HQ); [by destruct s..|].
  exists u, d'. split; [|done]. unfold bind. rewrite E. cbn [rbind]. rewrite E'.
  destruct s. cbn. by rewrite app_assoc.
Qed.

Lemma emits_load {A B} (m : C A) (k : A -> C B) w P Q :
  emits m [] P -> (forall v, P v -> emits (k v) w Q) -> emits (bind m k) w Q.
Proof. apply emits_bind. Qed.

Lemma emits_mono {A} (m : C A) w (P Q : A -> Prop) : emits m w P -> (forall v, P v -> Q v) -> emits m w Q.
Proof.
  intros Hm HPQ s HN HT HK. destruct (Hm s HN HT HK) as (v & d & E & HP). exists v, d. auto.
Qed.

Lemma emits_eq {A} (m : C A) w w' (Q : A -> Prop) : emits m w Q -> w = w' -> emits m w' Q.
Proof. by intros H <-. Qed.

Lemma emits_fwrite l : emits (fwrite l) l (fun _ => True).
Proof. intros s _ _ _. exists tt, (draws s). split; [|done]. by destruct s. Qed.

Lemma emits_wint z : emits (wint z) (e_int z) (fun _ => True).
Proof. apply emits_fwrite. Qed.

Lemma emits_wll z : emits (wll z) (e_long z) (fun _ => True).
Proof. apply emits_fwrite. Qed.

Lemma emits_assert b : b = true -> emits (assert b) [] (fun _ => True).
Proof. intros ->. by apply emits_ret. Qed.

Lemma emits_node p t : d_node N p = Ret t -> emits (node p) [] (eq t).
Proof.
  intros H s HN _ _. destruct p; try done. cbn in *. unfold load_at. rewrite HN.
  destruct (N !! a); [|done]. simplify_eq. exists t, (draws s). split; [|done].
  rewrite app_nil_r. by destruct s.
Qed.

Lemma emits_get_type a t : d_type T (ToType a) = Ret t -> emits (get_type a) [] (eq t).
Proof.
  intros H s _ HT _. cbn in *. unfold get_type, load_at. rewrite HT.
  destruct (T !! a); [|done]. simplify_eq. exists t, (draws s). split; [|done].
  rewrite app_nil_r. by destruct s.
Qed.

Lemma emits_get_constructor k c : K !! k = Some c -> emits (get_constructor k) [] (eq c).
Proof.
  intros H s _ _ HK. unfold get_constructor, load_at. rewrite HK, H. exists c, (draws s).
  split; [|done]. rewrite app_nil_r. by destruct s.
Qed.

Lemma emits_wstr s : Z.of_nat (List.length s) <= 254 -> emits (wstr (Some s)) (e_str s) (fun _ => True).
Proof.
  intros Hs. unfold wstr, e_str. set (x := Z.of_nat (List.length s)) in *.
  eapply emits_load; [apply emits_assert; lia|intros _ _].
  eapply emits_bind; [apply emits_fwrite|intros _ _].
  eapply emits_bind; [apply emits_fwrite|intros _ _]. cbv zeta.
  change 3 with (Z.ones 2) at 1 2. rewrite Z.land_ones by lia. change (2 ^ 2) with 4.
  destruct ((x + 1) mod 4 =? 0) eqn:E; zbool; cbn [negb].
  - replace ((3 - x) mod 4) with 0 by zmod. by apply emits_ret.
  - replace ((3 - x) mod 4) with (4 - (x + 1) mod 4) by zmod.
    eapply emits_eq; [apply emits_fwrite|]. set (k := Z.to_nat _).
    clear. induction k as [|k IH]; [done|]. cbn. by rewrite IH.
Qed.

End Emits.

(** Take a successful run of [do?] apart. *)
Ltac inv_do :=
  repeat match goal with
  | H : rbind _ _ = Ret _ |- _ => apply rbind_Ret in H; destruct H as (? & ? & H)
  | H : (let '(_, _) := ?a in _) = Ret _ |- _ => destruct a; cbn beta iota in H
  | H : check ?b = Ret _ |- _ => unfold check in H; destruct b eqn:?; [clear H|discriminate H]
  | H : Ret _ = Ret _ |- _ => injection H; clear H; intros; try discriminate; subst
  | H : Fault _ = Ret _ |- _ => discriminate H
  | H : OutOfFuel = Ret _ |- _ => discriminate H
  | H : _ && _ = true |- _ => apply andb_true_iff in H; destruct H
  end.

Section Follow.
Context (lrand48 : nat -> Z) (address : ptr -> Z) (base : Z).
Hypothesis Hwindow : forall p, base <= address p < base + 2 ^ 31.
Context (N : gmap positive tl_combinator_tree) (T : gmap positive tl_type)
  (K : gmap positive tl_constructor).
Local Abbreviation emits := (emits N T K).
Local Abbreviation d_node := (d_node N).
Local Abbreviation d_nat := (d_nat address N).

(** The treap of numbers and the list of [wenv] are the same map. *)
Definition env_ok (e : wenv) (v : numbering) : Prop :=
  values_ok address (fst v) /\ snd v = snd e /\
  forall p, tl_get_var_value_num address (fst v) p = number address e p.

Lemma env_ok_start : env_ok ([], 0) (Nil, 0).
Proof. split; [apply values_ok_Nil|]. by split. Qed.

(** [write_tree] at some fuel follows [d_expr] at that fuel. *)
Record follows (wt : write_tree_t) (de : ptr -> wenv -> result (wexpr * wenv)) : Prop := {
  f_expr p e x e' v b : de p e = Ret (x, e') -> env_ok e v -> emits (wt p b v) (e_expr x) (env_ok e');
  f_nat p e x v b : d_nat p e = Ret x -> env_ok e v -> emits (wt p b v) (e_nat x) (env_ok e);
  f_opt p l w e x e' v b :
    d_node p = Ret l -> c_act l = act_opt_field -> c_type l = type_type -> d_node (c_left l) = Ret w ->
    de (c_right l) e = Ret (x, e') -> env_ok e v ->
    emits (wt p b v) (e_int (number address e (c_data w)) ++ e_int (c_type_flags w) ++ e_expr x) (env_ok e')
}.

Lemma not_null p t : d_node p = Ret t -> negb (is_null p) = true.
Proof. by destruct p. Qed.

Lemma emits_declares_var l b : d_declares_var T l = Ret b -> emits (declares_var l) [] (eq b).
Proof.
  unfold d_declares_var, declares_var. destruct (_ && _); intros H; inv_do; [|by apply emits_ret].
  destruct (c_data l) eqn:E; try done. eapply emits_load; [by apply (emits_ret N T K a (eq a))|].
  intros ? <-. eapply emits_load; [by apply emits_get_type|]. intros ? <-. by apply emits_ret.
Qed.

(** *** Applications *)

Definition e_head (h : Z + Z * Z) (cc : Z) : list Z :=
  match h with
  | inl var => e_int TLS_TYPE_VAR ++ e_int var ++ e_int 0
  | inr (id, f) => e_int TLS_TYPE_EXPR ++ e_int id ++ e_int f ++ e_int cc
  end.

Lemma d_spine_var de n p cc e x l e' :
  0 <= cc -> d_spine address N T de n p cc e = Ret (inl x, l, e') -> cc = 0 /\ l = [].
Proof.
  revert p cc e x l e'. induction n as [|n IH]; intros p cc e x l e' Hcc H; cbn [d_spine] in H; [done|].
  inv_do. destruct (c_act _); inv_do; [split; [lia|done]|].
  match goal with H : d_spine _ _ _ _ _ _ _ _ = _ |- _ => apply IH in H; lia end.
Qed.

(** Steps that write or load, one at a time. *)
Ltac emit_int := eapply emits_bind; [apply emits_wint|intros _ _].
Ltac emit_assert := eapply emits_load; [apply emits_assert; first [done|assumption|eapply not_null; eassumption]|intros _ _].
Ltac emit_node := eapply emits_load; [apply emits_node; eassumption|intros ? <-].

Lemma emits_var_flags f : has f 1 = false -> emits (write_var_type_flags f) (e_int 0) (fun _ => True).
Proof.
  intros Hf. unfold write_var_type_flags, flag. rewrite Hf. cbv zeta. emit_assert. apply emits_wint.
Qed.

Lemma emits_spine wt de n p cc e h l e' v :
  follows wt de -> 0 <= cc -> d_spine address N T de n p cc e = Ret (h, l, e') -> env_ok e v ->
  emits (write_type_rec_with address wt n p cc v)
    (e_head h (cc + Z.of_nat (List.length l)) ++ concat (map e_param l)) (env_ok e').
Proof.
  intros Hwt. revert p cc e h l e' v. induction n as [|n IH]; intros p cc e h l e' v Hcc H Hv; [done|].
  cbn [d_spine write_type_rec_with] in *. inv_do. rename x into t. emit_node.
  destruct (c_act t) eqn:Ea; inv_do; zbool.
  - cbn [e_head List.length map concat]. rewrite app_nil_r.
    eapply emits_load; [apply emits_assert; lia|intros _ _]. emit_int.
    replace (number address e' (c_data t)) with (tl_get_var_value_num address (fst v) (c_data t)) by apply Hv.
    emit_int. eapply emits_eq; [|apply app_nil_r]. eapply emits_bind; [by apply emits_var_flags|intros _ _].
    by apply emits_ret.
  - cbn [e_head List.length map concat]. rewrite app_nil_r. emit_int.
    destruct (c_data t) eqn:Ed; try done. eapply emits_load; [by apply (emits_ret N T K a (eq a))|].
    intros ? <-. eapply emits_load; [by apply emits_get_type|]. intros ? <-.
    do 2 emit_int. replace (cc + Z.of_nat 0) with cc by lia.
    eapply emits_eq; [|apply app_nil_r]. emit_int. by apply emits_ret.
  - rewrite length_app, map_app, concat_app. cbn [List.length map concat]. rewrite app_nil_r.
    replace (cc + Z.of_nat (List.length l0 + 1)) with (cc + 1 + Z.of_nat (List.length l0)) by lia.
    rewrite app_assoc.
    eapply emits_bind; [eapply IH; [lia|eassumption|done]|]. intros v1 Hv1. emit_node.
    destruct (is_num _); inv_do; emit_int.
    + by eapply f_nat.
    + by eapply f_expr.
Qed.
(** *** Arguments *)

Lemma count_fields de n p e l e' :
  d_args address N T de n p e = Ret (l, e') ->
  emits (count_list_size n p) [] (eq (Z.of_nat (List.length l))).
Proof.
  revert p e l e'. induction n as [|n IH]; intros p e l e' H; [done|].
  cbn [d_args count_list_size] in *. inv_do. emit_node. destruct (c_type _); inv_do.
  - by apply emits_ret.
  - eapply emits_load; [by eapply IH|]. intros ? <-. eapply emits_load; [by eapply IH|]. intros ? <-.
    apply emits_ret. rewrite length_app. lia.
Qed.

(** The name of a field as [wstr] gets it. *)
Lemma emits_name p name :
  d_name p = Ret name ->
  exists o, emits (if is_null p then ret None
                   else let* x := as_str p in ret (if strcmp x (str "_") =? 0 then None else Some x)) [] (eq o) /\
    emits (wstr o) (e_str name) (fun _ => True).
Proof.
  unfold d_name. intros H. inv_do. destruct (is_null p); inv_do.
  - exists None. split; [by apply emits_ret|]. apply (emits_wint N T K 0).
  - destruct p; try done. cbn [d_str] in *. inv_do. exists (if strcmp x (str "_") =? 0 then None else Some x). split.
    + eapply emits_load; [by apply (emits_ret N T K x (eq x))|]. intros ? <-. by apply emits_ret.
    + destruct (_ =? 0); [apply (emits_wint N T K 0)|]. apply emits_wstr. lia.
Qed.

Lemma has_lor f m k : has (Z.lor f m) k = has f k || has m k.
Proof.
  unfold has. rewrite Z.land_lor_distr_l. apply eq_true_iff_eq.
  rewrite orb_true_iff, !negb_true_iff, !Z.eqb_neq, Z.lor_eq_0_iff. lia.
Qed.

Lemma field_flags_opt f :
  has f FLAG_OPT_FIELD = false -> has f FLAG_IS_VAR = false ->
  field_flags (Z.lor f FLAG_OPT_FIELD) = Z.lor (field_flags f) (Z.lor 2 0).
Proof.
  intros H1 H2. unfold field_flags, flag. rewrite !has_lor, H1, H2, !orb_false_r.
  by destruct (has f 1), (has f 32), (has f FLAG_EXCL).
Qed.

Lemma field_flags_var f :
  has f FLAG_OPT_FIELD = false -> has f FLAG_IS_VAR = false ->
  field_flags (Z.lor f FLAG_IS_VAR) = Z.lor (field_flags f) (Z.lor 0 4).
Proof.
  intros H1 H2. unfold field_flags, flag. rewrite !has_lor, H1, H2, !orb_false_r.
  by destruct (has f 1), (has f 32), (has f FLAG_EXCL).
Qed.

(** A variable gets the next number. *)
Lemma emits_number p e V k :
  p <> Null -> env_ok e (V, k) ->
  emits (let* V := tl_set_var_value_num lrand48 address V p Null k in ret (V, k + 1)) []
    (env_ok ((address p, i32 (snd e)) :: fst e, snd e + 1)).
Proof.
  intros Hp (HV & Hk & Hn) s _ _ _. cbn in HV, Hk, Hn. subst k.
  destruct (set_value_ok lrand48 address base Hwindow V p Null (snd e) s HV Hp) as (V' & E & HV' & HL).
  exists (V', snd e + 1), (S (draws s)). split.
  - unfold bind. rewrite E, app_nil_r. by destruct s.
  - split; [done|]. split; [done|]. intros q. cbn. unfold tl_get_var_value_num. rewrite HL.
    unfold number. cbn. rewrite (Z.eqb_sym (address p)). destruct (_ =? _); [done|]. apply Hn.
Qed.

Lemma emits_field wt de n p t e f e' v :
  follows wt de -> d_node p = Ret t -> c_type t = type_list_item ->
  d_field address N T de p t e = Ret (f, e') -> env_ok e v ->
  emits (write_args_with lrand48 address wt (S n) p v) (e_field f) (env_ok e').
Proof.
  intros Hwt Hp Ht H Hv. cbn [write_args_with]. emit_node. rewrite Ht.
  unfold d_field in H. inv_do. zbool. rename x1 into name, x2 into l.
  destruct (emits_name _ _ H2) as (o & Ho & Hw).
  assert (Hpre : forall w (k : tl_combinator_tree -> C numbering), emits (k l) w (env_ok e') ->
    emits (wint TLS_ARG_V2 ;; assert (bool_decide (c_act t = act_field)) ;; assert (negb (is_null (c_left t))) ;;
      let* name := (if is_null (c_data t) then ret None
                    else let* x := as_str (c_data t) in
                         ret (if strcmp x (str "_") =? 0 then None else Some x)) in
      wstr name ;; let* l := node (c_left t) in k l) (e_int TLS_ARG_V2 ++ e_str name ++ w) (env_ok e')).
  { intros w k Hk. emit_int. emit_assert. emit_assert. eapply emits_load; [exact Ho|]. intros ? <-.
    eapply emits_bind; [exact Hw|intros _ _]. by emit_node. }
  destruct (bool_decide (c_act l = act_opt_field)) eqn:Eo; inv_do.
  - apply bool_decide_eq_true in Eo. apply Hpre. rewrite Eo. cbv zeta.
    eapply emits_load; [by apply (emits_declares_var l false); unfold d_declares_var; rewrite Eo|].
    intros ? <-. cbn [e_opt app]. rewrite <- app_assoc.
    eapply (emits_bind N T K _ _ _ _ (env_ok e)).
    + eapply emits_eq; [|apply app_nil_r]. eapply emits_bind; [|intros _ _; by apply emits_ret].
      rewrite <- field_flags_opt by done. rewrite bool_decide_eq_true_2 by done. apply emits_wint.
    + intros v' Hv'. apply bool_decide_eq_true in Heqb. by eapply f_opt.
  - apply bool_decide_eq_false in Eo. destruct x1; inv_do.
    + apply Hpre. rewrite (bool_decide_eq_false_2 (c_act l = act_opt_field)) by done. cbv zeta.
      eapply emits_load; [by apply emits_declares_var|]. intros ? <-. destruct v as [V k].
      cbn [e_opt app]. rewrite app_assoc.
      eapply emits_bind; [|intros v' Hv'; by eapply f_expr].
      eapply emits_bind; [rewrite <- field_flags_var by done; apply emits_wint|intros _ _].
      eapply emits_eq; [|apply app_nil_r]. replace (snd e) with k at 1 by apply Hv. emit_int.
      apply emits_number; [by intros ->|done].
    + apply Hpre. rewrite (bool_decide_eq_false_2 (c_act l = act_opt_field)) by done. cbv zeta.
      eapply emits_load; [by apply emits_declares_var|]. intros ? <-. cbn [e_opt app].
      eapply (emits_bind N T K _ _ _ _ (env_ok e)); [|intros v' Hv'; by eapply f_expr].
      eapply emits_eq; [|apply app_nil_r]. eapply emits_bind; [|intros _ _; by apply emits_ret].
      rewrite Z.lor_0_r. apply emits_wint.
Qed.

Lemma emits_args wt de n p e l e' v :
  follows wt de -> d_args address N T de n p e = Ret (l, e') -> env_ok e v ->
  emits (write_args_with lrand48 address wt n p v) (concat (map e_field l)) (env_ok e').
Proof.
  intros Hwt. revert p e l e' v. induction n as [|n IH]; intros p e l e' v H Hv; [done|].
  cbn [d_args] in H. inv_do. destruct (c_type x) eqn:Ht; inv_do.
  - cbn [map concat]. rewrite app_nil_r. by eapply emits_field.
  - cbn [write_args_with]. emit_node. rewrite Ht. do 3 emit_assert. rewrite map_app, concat_app.
    eapply emits_bind; [by eapply IH|]. intros v1 Hv1. by eapply IH.
Qed.

(** *** Trees *)

Lemma emits_list n p e l e' v :
  follows (write_tree lrand48 address n) (d_expr address N T n) ->
  d_list address N T (d_expr address N T n) n p e = Ret (l, e') -> env_ok e v ->
  emits (write_tree lrand48 address (S n) p false v) (e_fields l) (env_ok e').
Proof.
  intros Hwt H Hv. unfold d_list in H. inv_do. cbn [write_tree]. emit_assert.
  pose proof (emits_args _ _ _ _ _ _ _ _ Hwt H Hv) as Hargs. pose proof (count_fields _ _ _ _ _ _ H) as Hc.
  destruct n as [|n]; [done|]. cbn [d_args] in H. inv_do. emit_node.
  destruct (c_type x0) eqn:Ht; try done; clear H.
  all: eapply emits_load; [by apply (emits_ret N T K tt (fun _ => True))|intros _ _].
  all: eapply emits_load; [exact Hc|]; intros ? <-; by emit_int.
Qed.

Lemma emits_nat n p e x v b :
  d_nat p e = Ret x -> env_ok e v -> emits (write_tree lrand48 address (S n) p b v) (e_nat x) (env_ok e).
Proof.
  unfold Wire.d_nat. intros H Hv. cbn [write_tree]. inv_do. emit_assert. emit_node.
  destruct (c_type x0); inv_do; cbn [e_nat].
  - do 2 emit_int. replace (number address e (c_data x0)) with
      (tl_get_var_value_num address (fst v) (c_data x0)) by apply Hv.
    eapply emits_eq; [|apply app_nil_r]. emit_int. by apply emits_ret.
  - emit_int. eapply emits_eq; [|apply app_nil_r]. emit_int. by apply emits_ret.
Qed.

Definition follows_at (n : nat) : Prop :=
  follows (write_tree lrand48 address n) (d_expr address N T n).

(** The part of [write_tree] for a node that is a type. *)
Lemma emits_type_type n p t e x e' v other :
  (forall m, (0 < m <= n)%nat -> follows_at m) ->
  d_node p = Ret t -> d_expr address N T (S n) p e = Ret (x, e') -> env_ok e v ->
  c_type t = type_type /\
  emits (write_type_type address (write_tree lrand48 address n) n p t other v) (e_expr x) (env_ok e').
Proof.
  intros IH Hp H Hv. cbn [d_expr] in H. rewrite Hp in H. cbn [rbind] in H.
  destruct (bool_decide (c_type t = type_type)) eqn:Et; [|done]. apply bool_decide_eq_true in Et.
  split; [done|]. cbn [negb] in H. unfold write_type_type.
  assert (Hspine : forall h l, d_spine address N T (d_expr address N T n) n p 0 e = Ret (h, l, e') ->
    emits (write_type_rec_with address (write_tree lrand48 address n) n p 0 v)
      (e_expr (apply_head h l)) (env_ok e')).
  { intros h l Hs. destruct n as [|n]; [done|]. eapply emits_eq.
    - eapply emits_spine; [apply IH; lia|lia|exact Hs|done].
    - destruct h as [var|[id f]]; cbn [apply_head e_expr e_head]; [|by rewrite <- !app_assoc].
      apply d_spine_var in Hs as [_ ->]; [|lia]. by rewrite app_nil_r. }
  destruct (c_act t) eqn:Ea; inv_do; try by apply Hspine.
  destruct n as [|n]; inv_do. unfold write_array_with. cbn [e_expr]. emit_int.
  eapply emits_bind; [by eapply emits_nat|]. intros v1 Hv1.
  destruct n as [|n]; [unfold d_list in *; by inv_do|].
  eapply emits_list; [apply IH; lia|eassumption|done].
Qed.

Lemma follows_all n : (0 < n)%nat -> follows_at n.
Proof.
  induction n as [n IHn] using lt_wf_ind. intros Hn. destruct n as [|n]; [lia|].
  assert (IH : forall m, (0 < m <= n)%nat -> follows_at m) by (intros; apply IHn; lia). split.
  - intros p e x e' v b H Hv.
    assert (exists t, d_node p = Ret t) as [t Hp] by (cbn in H; inv_do; eauto).
    cbn [write_tree]. emit_assert. emit_node.
    destruct (emits_type_type n p t e x e' v
      (assert (bool_decide (c_act t = act_opt_field)) ;;
       write_opt_type_with address (write_tree lrand48 address n) n t v) IH Hp H Hv) as [-> HE]. exact HE.
  - intros p e x v b. apply emits_nat.
  - intros p l w e x e' v b Hp Ha Ht Hw H Hv. cbn [write_tree]. emit_assert. emit_node.
    rewrite Ht. unfold write_type_type at 1. rewrite Ha. emit_assert. unfold write_opt_type_with.
    assert (exists t, d_node (c_right l) = Ret t) as [t Hr] by (cbn in H; inv_do; eauto).
    emit_node. replace (number address e (c_data w)) with (tl_get_var_value_num address (fst v) (c_data w))
      by apply Hv. do 2 emit_int. cbv zeta. emit_node.
    destruct (emits_type_type n _ t e x e' v (fail AssertFailed) IH Hr H Hv) as [Htt HE].
    rewrite bool_decide_eq_true_2 by done. exact HE.
Qed.

(** *** Types and combinators *)

Lemma emits_comb fuel k c :
  d_comb address N T K fuel k = Ret c ->
  emits (write_combinator lrand48 address fuel k) (e_comb c) (fun _ => True).
Proof.
  unfold d_comb, write_combinator. intros H. inv_do. destruct (K !! k) as [c'|] eqn:Hk; inv_do.
  eapply emits_load; [by apply emits_get_constructor|]. intros ? <-.
  unfold e_comb. cbn [wc_name wc_id wc_type wc_left wc_right]. emit_int.
  eapply emits_bind; [apply emits_wstr; by apply Z.leb_le|intros _ _].
  eapply emits_load.
  { instantiate (1 := eq x1). unfold d_type_name in *. destruct (k_type x); inv_do; [|by apply emits_ret].
    eapply emits_load; [by apply emits_get_type|]. intros ? <-. by apply emits_ret. }
  intros ? <-. emit_int.
  assert (exists t, d_node (k_right x) = Ret t) as [t Hr] by (destruct fuel; cbn in H4; inv_do; eauto).
  emit_assert. eapply (emits_bind N T K _ _ _ _ (env_ok w)).
  - unfold d_left in *. destruct (is_null (k_left x)); inv_do; cbn [negb].
    + emit_int. eapply emits_eq; [|apply app_nil_r]. emit_int. apply emits_ret, env_ok_start.
    + destruct (is_builtin_type (k_id x)); inv_do.
      * eapply emits_eq; [|apply app_nil_r]. emit_int. apply emits_ret, env_ok_start.
      * destruct fuel as [|[|fuel]]; inv_do; [unfold d_list in *; by inv_do|]. emit_int.
        eapply emits_list; [apply follows_all; lia|eassumption|apply env_ok_start].
  - intros v Hv. emit_int. eapply emits_eq; [|apply app_nil_r].
    eapply emits_bind; [|intros _ _; by apply emits_ret].
    destruct fuel as [|fuel]; [done|]. eapply f_expr; [apply follows_all; lia|eassumption|done].
Qed.

Lemma emits_type a t :
  d_wtype T (snd a) = Ret t -> emits (write_type a) (e_type t) (fun _ => True).
Proof.
  unfold d_wtype, write_type. intros H. inv_do.
  eapply emits_load; [by apply emits_get_type|]. intros ? <-. unfold e_type.
  cbn [wt_name wt_id wt_constructors wt_flags wt_arity wt_params].
  do 2 emit_int. eapply emits_bind; [apply emits_wstr; by apply Z.leb_le|intros _ _].
  do 3 emit_int. apply emits_wll.
Qed.

Lemma emits_each {A B} (act : A -> C unit) (d : A -> result B) (enc : B -> list Z) l l' :
  (forall x y, d x = Ret y -> emits (act x) (enc y) (fun _ => True)) ->
  d_all d l = Ret l' -> emits (each act l) (concat (map enc l')) (fun _ => True).
Proof.
  intros Hact. revert l'. induction l as [|x l IH]; intros l' H; cbn [d_all each] in *; inv_do.
  - by apply emits_ret.
  - cbn [map concat]. eapply emits_bind; [by apply Hact|intros _ _]. by apply IH.
Qed.

Lemma emits_item fuel k c :
  d_comb address N T K fuel k = Ret c ->
  emits (wint TLS_COMBINATOR ;; write_combinator lrand48 address fuel k) (e_item c) (fun _ => True).
Proof. intros H. emit_int. by apply emits_comb. Qed.

Lemma emits_constructors fuel a l :
  d_constructors address N T K fuel (snd a) = Ret l ->
  emits (write_type_constructors lrand48 address fuel a) (concat (map e_item l)) (fun _ => True).
Proof.
  unfold d_constructors, write_type_constructors. intros H. inv_do.
  eapply emits_load; [by apply emits_get_type|]. intros ? <-.
  eapply emits_each; [|eassumption]. intros k c. apply emits_item.
Qed.
End Follow.

(** A list of entries is read by their addresses. *)
Lemma d_all_map {A B X} (f : A -> B) (d : B -> result X) l : d_all d (map f l) = d_all (fun x => d (f x)) l.
Proof. induction l as [|x l IH]; cbn; [done|]. by rewrite IH. Qed.

Lemma concat_map_concat {A B} (f : A -> list B) l : concat (map (fun x => concat (map f x)) l) = concat (map f (concat l)).
Proof. induction l as [|x l IH]; cbn; [done|]. by rewrite map_app, concat_app, IH. Qed.

Lemma e_int_u32 a b : u32 a = u32 b -> e_int a = e_int b.
Proof. unfold e_int. by intros ->. Qed.

Lemma emits_tree_act {A B} N T K (act : A -> C unit) (d : A -> result B) (enc : B -> list Z) t l :
  (forall x y, d x = Ret y -> emits N T K (act x) (enc y) (fun _ => True)) ->
  d_all d (inorder t) = Ret l -> emits N T K (tree_act act t) (concat (map enc l)) (fun _ => True).
Proof. intros Hact H s. rewrite tree_act_inorder. by eapply emits_each. Qed.

(** The writer writes the encoding of the schema in the heap. *)
Lemma write_types_follows lrand48 address base fuel s w :
  (forall p, base <= address p < base + 2 ^ 31) -> schema_of address fuel s = Ret w ->
  exists d, write_types lrand48 address fuel s = Ret (tt, set_draws d (set_file (file s ++ e_schema w) s)).
Proof.
  intros Hw H. unfold schema_of in H. inv_do. zbool.
  enough (emits (nodes s) (tys s) (constructors s)
    (wint TLS_SCHEMA_V2 ;; wint 0 ;; wint 0 ;; wint (total_types_num s) ;;
     tree_act write_type (tl_type_tree s) ;; wint (total_constructors_num s) ;;
     tree_act (write_type_constructors lrand48 address fuel) (tl_type_tree s) ;;
     wint (total_functions_num s) ;; tree_act (write_function lrand48 address fuel) (tl_function_tree s))
    (e_schema (mk_schema x (concat x1) x3)) (fun _ => True)) as HE.
  { destruct (HE s) as ([] & d & E & _); [done..|]. exists d. rewrite <- E.
    unfold write_types, bind, wint, fwrite, modify, get. cbn [rbind]. by destruct s. }
  repeat match goal with H : d_all _ (map _ _) = _ |- _ => rewrite d_all_map in H end. unfold e_schema, e_count. cbn [ws_types ws_constructors ws_functions].
  rewrite <- (e_int_u32 _ _ Heqb), <- (e_int_u32 _ _ Heqb0), <- (e_int_u32 _ _ Heqb1), <- concat_map_concat.
  do 4 (eapply emits_bind; [apply emits_wint|intros _ _]).
  eapply emits_bind; [eapply emits_tree_act; [|eassumption]|intros _ _].
  { intros e t. by apply emits_type. }
  eapply emits_bind; [apply emits_wint|intros _ _].
  eapply emits_bind; [eapply emits_tree_act; [|eassumption]|intros _ _].
  { intros e t. by eapply emits_constructors. }
  eapply emits_bind; [apply emits_wint|intros _ _].
  eapply emits_tree_act; [|eassumption]. intros e c. by eapply emits_item.
Qed.

(** C9. The writer refines the abstract schema: when the compiler's heap holds
    a schema [w] and the output file is empty, [write_types] writes exactly the
    encoding of [w], numbering the variables as [w] does, and leaves the rest of
    the state alone, but for the random numbers it draws.  The addresses lie in
    one window of 2 GB (the table of variables compares them as [int]s). *)
Theorem write_types_encodes lrand48 address base fuel s w :
  (forall p, base <= address p < base + 2 ^ 31) ->
  schema_of address fuel s = Ret w -> file s = [] ->
  exists d, write_types lrand48 address fuel s = Ret (tt, set_draws d (set_file (e_schema w) s)).
Proof.
  intros Hw H Hf. destruct (write_types_follows lrand48 address base fuel s w Hw H) as [d E].
  exists d. by rewrite E, Hf.
Qed.

(** ** Example: a small schema, compiled *)

Definition newline : string := String (Ascii.ascii_of_nat 10) EmptyString.

Definition demo_text : list Z := str (
  "int ? = Int;" ++ newline ++ "string ? = String;" ++ newline ++
  "boolFalse = Bool;" ++ newline ++ "boolTrue = Bool;" ++ newline ++
  "vector {t:Type} # [ t ] = Vector t;" ++ newline ++
  "foo flags:# x:int y:flags.3?string z:Vector<int> w:(vector Bool) = Foo;" ++ newline ++
  "---functions---" ++ newline ++ "ping n:int = Foo;" ++ newline)%string.

Definition demo_draws (n : nat) : Z := (Z.of_nat n * 7919) mod 1000.
Definition demo_address (a : ptr) : Z := match a with ToNode a => (64 * Zpos a) mod 2 ^ 31 | _ => 0 end.

Definition demo_state : sstate :=
  match parse_text demo_text 1000 with
  | Ret (Some t, _) =>
      match tl_parse demo_text demo_draws 0 demo_address (fun _ _ => 0) 0 40 t init_sstate with
      | Ret (_, s) => s
      | _ => init_sstate
      end
  | _ => init_sstate
  end.

Definition demo_schema : wschema :=
  match schema_of demo_address 40 demo_state with Ret w => w | _ => mk_schema [] [] [] end.

Lemma demo_window a : 0 <= demo_address a < 0 + 2 ^ 31.
Proof. unfold demo_address. destruct a; try lia. apply Z.mod_pos_bound. lia. Qed.

Lemma write_types_encodes_witness :
  List.length (ws_types demo_schema) = 7%nat /\ List.length (ws_constructors demo_schema) = 6%nat /\
  exists d, write_types demo_draws demo_address 40 demo_state =
    Ret (tt, set_draws d (set_file (e_schema demo_schema) demo_state)).
Proof.
  split; [by vm_compute|]. split; [by vm_compute|].
  apply (write_types_encodes demo_draws demo_address 0 40 demo_state demo_schema demo_window).
  - vm_compute. reflexivity.
  - vm_compute. reflexivity.
Defined.
