(* ===== verification/Written.v ===== *)
(** * The writer writes nothing but schemas

    The converse of the refinement in [Wire]: when the trees on the heap are
    well typed and [write_types] returns, the heap holds a schema, and so what
    was written is the encoding of that schema.  The checks in [Wire.schema_of]
    are the assertions of the writer, the typing of the trees, and the
    counters. *)
From Stdlib Require Import ZArith Lia List Bool Ascii String.
From stdpp Require Import base list strings gmap.
From S2P Require Import Prelude Treap Lexer Parser Symbols Tables Combinator Unify Values Sema Invariant Writer Typing Wire.
Open Scope tl_scope.

Section Returns.
Context (N : node_heap) (T : gmap positive tl_type) (K : gmap positive tl_constructor).

(** [m] returns from some state with this heap. *)
Definition returns {A} (m : C A) : Prop :=
  exists s v s', nodes s = N /\ tys s = T /\ constructors s = K /\ m s = Ret (v, s').

Lemma returns_bind {A B} (m : C A) (k : A -> C B) :
  returns (bind m k) ->
  returns m /\ forall w Q, emits N T K m w Q -> exists v, Q v /\ returns (k v).
Proof.
  intros (s & b & s' & HN & HT & HK & (a & s1 & E1 & E2)%bind_Ret). split; [by exists s, a, s1|].
  intros w Q HE. destruct (HE s HN HT HK) as (v & d & E & HQ). rewrite E in E1. injection E1 as <- <-.
  exists v. split; [done|]. eexists _, b, s'. split_and!; [| | |exact E2]; by destruct s.
Qed.

(** Steps whose effect is known. *)
Lemma returns_step {A B} (m : C A) (k : A -> C B) w Q :
  emits N T K m w Q -> returns (bind m k) -> exists v, Q v /\ returns (k v).
Proof. intros HE [_ H]%returns_bind. by eapply H. Qed.

Lemma returns_assert {B} b (k : unit -> C B) : returns (bind (assert b) k) -> b = true /\ returns (k tt).
Proof.
  intros H. destruct b; [|by destruct H as (s & x & s' & _ & _ & _ & ?)].
  apply (returns_step _ _ [] (fun _ => True)) in H as ([] & _ & H); [done|]. by apply emits_ret.
Qed.

Lemma returns_int {B} z (k : unit -> C B) : returns (bind (wint z) k) -> returns (k tt).
Proof. intros ([] & _ & H)%(returns_step _ _ _ _ (emits_wint N T K z)). done. Qed.

Lemma returns_ret {A B} (x : A) (k : A -> C B) : returns (bind (ret x) k) -> returns (k x).
Proof.
  intros (? & <- & H)%(returns_step _ _ [] (eq x)); [done|]. by apply emits_ret.
Qed.

Lemma returns_node {B} p (k : tl_combinator_tree -> C B) :
  returns (bind (node p) k) -> exists t, d_node N p = Ret t /\ returns (k t).
Proof.
  intros H. assert (exists t, d_node N p = Ret t) as [t Ht].
  { apply returns_bind in H as [(s & x & s' & HN & _ & _ & E) _]. destruct p; try done. cbn in *.
    unfold load_at in E. rewrite HN in E. destruct (N !! a); [eauto|done]. }
  exists t. split; [done|]. by destruct (returns_step _ _ _ _ (emits_node N T K p t Ht) H) as (? & <- & ?).
Qed.

Lemma returns_get_type {B} a (k : tl_type -> C B) :
  returns (bind (get_type a) k) -> exists t, d_type T (ToType a) = Ret t /\ returns (k t).
Proof.
  intros H. assert (exists t, d_type T (ToType a) = Ret t) as [t Ht].
  { apply returns_bind in H as [(s & x & s' & _ & HT & _ & E) _]. cbn in *.
    unfold get_type, load_at in E. rewrite HT in E. destruct (T !! a); [eauto|done]. }
  exists t. split; [done|]. by destruct (returns_step _ _ _ _ (emits_get_type N T K a t Ht) H) as (? & <- & ?).
Qed.

Lemma returns_get_constructor {B} a (k : tl_constructor -> C B) :
  returns (bind (get_constructor a) k) -> exists c, K !! a = Some c /\ returns (k c).
Proof.
  intros H. assert (exists c, K !! a = Some c) as [c Hc].
  { apply returns_bind in H as [(s & x & s' & _ & _ & HK & E) _].
    unfold get_constructor, load_at in E. rewrite HK in E. destruct (K !! a); [eauto|done]. }
  exists c. split; [done|]. by destruct (returns_step _ _ _ _ (emits_get_constructor N T K a c Hc) H) as (? & <- & ?).
Qed.

Lemma returns_wstr {B} name (k : unit -> C B) :
  returns (bind (wstr name) k) -> Z.of_nat (List.length (default [] name)) <= 254 /\ returns (k tt).
Proof.
  intros H. assert (Hl : Z.of_nat (List.length (default [] name)) <= 254).
  { destruct name as [x|]; [|cbn; lia]. apply returns_bind in H as [H _]. unfold wstr in H.
    apply returns_assert in H as [H _]. cbn. lia. }
  split; [done|]. destruct name as [x|].
  - by destruct (returns_step _ _ _ _ (emits_wstr N T K x Hl) H) as ([] & _ & ?).
  - by apply returns_int in H.
Qed.

Lemma returns_fuel {A} : ~ returns (A := A) out_of_fuel.
Proof. by intros (s & x & s' & _ & _ & _ & ?). Qed.
Lemma returns_fail {A} f : ~ returns (A := A) (fail f).
Proof. by intros (s & x & s' & _ & _ & _ & ?). Qed.
Lemma returns_fuel_bind {A B} (k : A -> C B) : ~ returns (bind out_of_fuel k).
Proof. by intros (s & x & s' & _ & _ & _ & ?). Qed.
Lemma returns_fail_bind {A B} f (k : A -> C B) : ~ returns (bind (fail f) k).
Proof. by intros (s & x & s' & _ & _ & _ & ?). Qed.
Lemma returns_as_type {B} p (k : positive -> C B) :
  returns (bind (as_type p) k) -> exists a, p = ToType a /\ returns (k a).
Proof.
  intros H. unfold as_type in H. destruct p; try (by apply returns_fail_bind in H).
  exists a. split; [done|]. by apply returns_ret in H.
Qed.
End Returns.

(** Advance over the steps whose effect is known. *)
Ltac back H :=
  repeat match type of H with
  | returns _ _ _ (bind (assert _) _) =>
      let E := fresh "Hb" in apply returns_assert in H; destruct H as [E H]
  | returns _ _ _ (bind (wint _) _) => apply returns_int in H
  | returns _ _ _ (bind (ret _) _) => apply returns_ret in H
  | returns _ _ _ (bind (get_type _) _) =>
      let t := fresh "ty" in let E := fresh "Hty" in apply returns_get_type in H; destruct H as (t & E & H)
  | returns _ _ _ (bind (as_type _) _) =>
      let a := fresh "a" in let E := fresh "Ea" in apply returns_as_type in H; destruct H as (a & E & H)
  | returns _ _ _ out_of_fuel => by apply returns_fuel in H
  | returns _ _ _ (fail _) => by apply returns_fail in H
  | returns _ _ _ (bind out_of_fuel _) => by apply returns_fuel_bind in H
  | returns _ _ _ (bind (fail _) _) => by apply returns_fail_bind in H
  end.

Section Back.
Context (lrand48 : nat -> Z) (address : ptr -> Z) (base : Z).
Hypothesis Hwindow : forall p, base <= address p < base + 2 ^ 31.
Context (N : node_heap) (T : gmap positive tl_type) (K : gmap positive tl_constructor).
Hypothesis Htyped : forall a n, N !! a = Some n -> node_typed N n.
Local Abbreviation returns := (returns N T K).
Local Abbreviation env_ok := (env_ok address).
Local Abbreviation follows := (follows address N T K).

Lemma known ks p : is_k ks N p -> exists t k, d_node N p = Ret t /\ node_typed N t /\ kind t = Some k /\ k ∈ ks.
Proof. intros (a & t & k & -> & Ht & Hk & Hin). exists t, k. cbn. rewrite Ht. eauto. Qed.

Lemma known_typed p t : d_node N p = Ret t -> node_typed N t.
Proof. destruct p; try done. cbn. destruct (N !! a) eqn:E; [|done]. intros [= <-]. by eapply Htyped. Qed.

Lemma known_k p t k : d_node N p = Ret t -> kind t = Some k -> is_k [k] N p.
Proof.
  destruct p; try done. cbn. destruct (N !! a) eqn:E; [|done]. intros [= ->] Hk. by eapply is_k_here.
Qed.

Lemma nat_known p e : is_k [KNum] N p -> exists x, d_nat address N p e = Ret x.
Proof.
  intros (t & k & Ht & _ & Hk & ->%list_elem_of_singleton)%known. unfold d_nat. rewrite Ht. cbn.
  unfold kind in Hk. destruct (c_type t); eauto; by destruct (c_act t).
Qed.

(** [write_tree] at some fuel returns only where [d_expr] is defined. *)
Record backs (wt : write_tree_t) (de : ptr -> wenv -> result (wexpr * wenv)) : Prop := {
  b_expr p e v b : is_ty N p -> env_ok e v -> returns (wt p b v) -> exists x e', de p e = Ret (x, e');
  b_opt p e v b : is_k [KOpt] N p -> env_ok e v -> returns (wt p b v) ->
    exists l w x e', d_node N p = Ret l /\ c_act l = act_opt_field /\ c_type l = type_type /\
      d_node N (c_left l) = Ret w /\ de (c_right l) e = Ret (x, e')
}.

(** *** Applications *)

Lemma back_var_flags {B} f (k : unit -> C B) :
  returns (bind (write_var_type_flags f) k) -> has f 1 = false.
Proof.
  intros [H _]%returns_bind. unfold write_var_type_flags in H. back H. unfold flag in Hb.
  by destruct (has f 1).
Qed.

Lemma back_spine wt de n p cc e v :
  follows wt de -> backs wt de -> is_ty N p -> 0 <= cc -> env_ok e v ->
  returns (write_type_rec_with address wt n p cc v) -> exists h l e', d_spine address N T de n p cc e = Ret (h, l, e').
Proof.
  intros Hf Hb. revert p cc e v. induction n as [|n IH]; intros p cc e v Hp Hcc Hv H;
    cbn [write_type_rec_with d_spine] in *; [back H|].
  apply returns_node in H as (t & Ht & H). rewrite Ht. cbn [rbind].
  destruct (known_typed _ _ Ht) as (_ & Hc & _). unfold children_typed in Hc.
  destruct (c_act t) eqn:Ea; back H.
  - rewrite Hb0. apply back_var_flags in H as ->. cbn. eauto.
  - rewrite Ea0, Hty. cbn. eauto.
  - destruct Hc as [Hl Hr]. pose proof (returns_bind _ _ _ _ _ H) as [H1 H2].
    destruct (IH _ (cc + 1) e v Hl ltac:(lia) Hv H1) as (h & l & e1 & E1). rewrite E1. cbn [rbind].
    destruct (H2 _ _ (emits_spine address N T K wt de n (c_left t) (cc + 1) e h l e1 v Hf ltac:(lia) E1 Hv)) as (v1 & Hv1 & H3).
    apply returns_node in H3 as (r & Hr' & H3). rewrite Hr'. cbn [rbind]. back H3.
    destruct (known _ _ Hr) as (r' & k & Er & _ & Hk & Hin). rewrite Hr' in Er. injection Er as <-.
    apply kind_type in Hk as Hk'. apply elem_of_cons in Hin as [-> | ->%list_elem_of_singleton].
    + rewrite Hk'. cbn [is_num]. pose proof (known_k _ _ _ Hr' Hk) as Hty.
      destruct (b_expr _ _ Hb _ e1 v1 false Hty Hv1 H3) as (x & e2 & Ex). rewrite Ex. cbn. eauto.
    + rewrite Hk'. destruct (nat_known _ e1 (known_k _ _ _ Hr' Hk)) as (x & Ex). rewrite Ex. cbn. eauto.
Qed.

(** *** Fields *)

Lemma back_name {B} p (k : unit -> C B) :
  returns (let* name := (if is_null p then ret None
                         else let* x := as_str p in ret (if strcmp x (str "_") =? 0 then None else Some x)) in
           wstr name ;; k tt) ->
  exists x, d_name p = Ret x /\ returns (k tt).
Proof.
  intros H. unfold d_name. destruct (is_null p) eqn:Ep.
  - back H. apply returns_wstr in H as [Hl H]. cbn. eauto.
  - destruct p; try (apply returns_bind in H as [H _]; cbn [as_str] in H; by back H).
    cbn [as_str d_str rbind] in *.
    assert (H' : returns (wstr (if strcmp s (str "_") =? 0 then None else Some s) ;; k tt)) by exact H.
    apply returns_wstr in H' as [Hl H'].
    exists (if strcmp s (str "_") =? 0 then [] else s). split; [|exact H'].
    destruct (strcmp s (str "_") =? 0); [done|]. cbn [rbind]. unfold check.
    by rewrite (proj2 (Z.leb_le (Z.of_nat (List.length s)) 254) Hl).
Qed.

Lemma back_declares {B} l (k : bool -> C B) :
  returns (bind (declares_var l) k) -> exists b, d_declares_var T l = Ret b /\ returns (k b).
Proof.
  intros H. assert (exists b, d_declares_var T l = Ret b) as [b Hb].
  { apply returns_bind in H as [H _]. unfold declares_var in H. unfold d_declares_var.
    destruct (_ && _); [|eauto]. back H. rewrite Ea, Hty. cbn. eauto. }
  exists b. split; [done|].
  by destruct (returns_step _ _ _ _ _ _ _ (emits_declares_var N T K l b Hb) H) as (? & <- & ?).
Qed.

Lemma no_writer_flags f : has f writer_flags = false -> has f FLAG_OPT_FIELD = false /\ has f FLAG_IS_VAR = false.
Proof.
  unfold has, writer_flags. rewrite !negb_false_iff, !Z.eqb_eq, Z.land_lor_distr_r, Z.lor_eq_0_iff. done.
Qed.

Lemma not_Null p t : d_node N p = Ret t -> p <> Null.
Proof. by destruct p. Qed.

(** The number of a variable is written before its type. *)
Lemma emits_var_field p e V i f :
  p <> Null -> env_ok e (V, i) ->
  emits N T K (write_field_flags f ;; wint i ;;
    let* V := tl_set_var_value_num lrand48 address V p Null i in ret (V, i + 1))
    (e_int (field_flags f) ++ e_int i ++ []) (env_ok ((address p, i32 (snd e)) :: fst e, snd e + 1)).
Proof.
  intros Hp Hv. eapply emits_bind; [apply emits_wint|intros _ _].
  eapply emits_bind; [apply emits_wint|intros _ _]. by eapply emits_number.
Qed.

Lemma emits_plain_field (v : numbering) f :
  emits N T K (write_field_flags f ;; ret v) (e_int (field_flags f) ++ []) (eq v).
Proof. eapply emits_bind; [apply emits_wint|intros _ _]. by apply emits_ret. Qed.

Lemma back_field wt de n p t e v :
  follows wt de -> backs wt de -> d_node N p = Ret t -> c_type t = type_list_item -> env_ok e v ->
  returns (write_args_with lrand48 address wt (S n) p v) ->
  exists f e', d_field address N T de p t e = Ret (f, e').
Proof.
  intros Hf Hbk Hp Ht Hv H. cbn [write_args_with] in H. apply returns_node in H as (t' & Ht' & H).
  rewrite Hp in Ht'. injection Ht' as <-. rewrite Ht in H. back H.
  destruct (known_typed _ _ Hp) as (_ & Hc & Hfl). unfold children_typed in Hc.
  apply bool_decide_eq_true in Hb as Ea. rewrite Ea in Hc. destruct Hc as [Hl _].
  apply no_writer_flags in Hfl as [Hf1 Hf2].
  unfold d_field. rewrite Hb, Hb0, Hf1, Hf2. cbn [negb andb check rbind].
  apply (back_name _ (fun _ => _)) in H as (name & -> & H). cbn [rbind].
  apply returns_node in H as (l & Hln & H). rewrite Hln. cbn [rbind].
  apply back_declares in H as (b & Hdb & H).
  destruct Hl as [Hl|Hl]; [by rewrite Hl in Hb0|].
  destruct (known _ _ Hl) as (l' & k & El & _ & Hk & Hin). rewrite Hln in El. injection El as <-.
  pose proof (known_k _ _ _ Hln Hk) as Hlk. apply kind_type in Hk as Hk'.
  apply elem_of_cons in Hin as [-> | ->%list_elem_of_singleton].
  - assert (bool_decide (c_act l = act_opt_field) = false) as Eo.
    { apply bool_decide_eq_false. intros E. unfold kind in Hk. by rewrite Hk', E in Hk. }
    rewrite Eo, Hdb in *. cbn [rbind]. destruct b.
    + destruct v as [V i]. cbv zeta in H.
      destruct (returns_step _ _ _ _ _ _ _ (emits_var_field p e V i (Z.lor (c_flags t) FLAG_IS_VAR)
        (not_Null _ _ Hp) Hv) H) as (v1 & Hv1 & H1).
      destruct (b_expr _ _ Hbk _ _ v1 false Hlk Hv1 H1) as (x & e2 & Ex). rewrite Ex. cbn. eauto.
    + destruct (returns_step _ _ _ _ _ _ _ (emits_plain_field v (c_flags t)) H) as (v1 & <- & H1).
      destruct (b_expr _ _ Hbk _ e v false Hlk Hv H1) as (x & e2 & Ex). rewrite Ex. cbn. eauto.
  - assert (c_act l = act_opt_field) as Eo.
    { unfold kind in Hk. rewrite Hk' in Hk. by destruct (c_act l). }
    assert (b = false) as ->.
    { unfold d_declares_var in Hdb. rewrite bool_decide_eq_false_2 in Hdb by (by rewrite Eo).
      cbn [andb] in Hdb. congruence. }
    rewrite (bool_decide_eq_true_2 (c_act l = act_opt_field)) in * by done.
    rewrite (bool_decide_eq_true_2 (c_type l = type_type)) by done. cbn [check rbind].
    destruct (returns_step _ _ _ _ _ _ _ (emits_plain_field v _) H) as (v1 & <- & H1).
    destruct (b_opt _ _ Hbk _ e v false Hlk Hv H1) as (l' & w & x & e2 & El & _ & _ & Ew & Ex).
    rewrite Hln in El. injection El as <-. rewrite Ew. cbn [rbind]. rewrite Ex. cbn. eauto.
Qed.

(** *** Lists and expressions *)

Lemma back_args wt de n p e v :
  follows wt de -> backs wt de -> is_list N p -> env_ok e v ->
  returns (write_args_with lrand48 address wt n p v) ->
  exists l e', d_args address N T de n p e = Ret (l, e').
Proof.
  intros Hf Hbk. revert p e v. induction n as [|n IH]; intros p e v Hp Hv H; [by apply returns_fuel in H|].
  destruct (known _ _ Hp) as (t & k & Ht & (_ & Hc & _) & Hk & Hin). apply kind_type in Hk as Hk'.
  cbn [d_args]. rewrite Ht. cbn [rbind]. apply elem_of_cons in Hin as [-> | ->%list_elem_of_singleton]; rewrite Hk'.
  - destruct (back_field _ _ _ _ _ _ _ Hf Hbk Ht Hk' Hv H) as (f & e' & ->). cbn. eauto.
  - cbn [write_args_with] in H. apply returns_node in H as (t' & Et & H). rewrite Ht in Et. injection Et as <-.
    rewrite Hk' in H. back H. rewrite Hb, Hb0, Hb1. cbn [andb check rbind].
    apply bool_decide_eq_true in Hb as Ea. unfold children_typed in Hc. rewrite Ea in Hc. destruct Hc as [Hl Hr].
    pose proof (returns_bind _ _ _ _ _ H) as [H1 H2].
    destruct (IH _ e v Hl Hv H1) as (l & e1 & E1). rewrite E1. cbn [rbind].
    destruct (H2 _ _ (emits_args lrand48 address base Hwindow N T K wt de n _ e l e1 v Hf E1 Hv)) as (v1 & Hv1 & H3).
    assert (Hr' : is_list N (c_right t)) by (eapply is_k_weaken; [|exact Hr]; subk).
    destruct (IH _ e1 v1 Hr' Hv1 H3) as (r & e2 & ->). cbn. eauto.
Qed.

Local Abbreviation wtree n := (write_tree lrand48 address n).
Local Abbreviation dexpr n := (d_expr address N T n).
Definition backs_at (n : nat) : Prop := backs (wtree n) (dexpr n).

Lemma count_list_pure m q s c s' : count_list_size m q s = Ret (c, s') -> s' = s.
Proof.
  revert q s c s'. induction m as [|m IH]; intros q s c s' E; [done|]. cbn [count_list_size] in E.
  apply bind_Ret in E as (t & s1 & E1 & E). destruct q; try done. cbn in E1. unfold load_at in E1.
  destruct (nodes s !! a); [|done]. injection E1 as -> <-. destruct (c_type t); inv_run; try done.
  repeat match goal with H : count_list_size _ _ _ = Ret _ |- _ => apply IH in H end. congruence.
Qed.

(** The list of fields of a combinator or an array. *)
Lemma back_list n p b e v :
  backs_at n -> or_null is_list N p -> env_ok e v -> returns (wtree (S n) p b v) ->
  exists l e', d_list address N T (dexpr n) n p e = Ret (l, e').
Proof.
  intros Hbk Hp Hv H. cbn [write_tree] in H. back H. destruct Hp as [->|Hp]; [done|].
  unfold d_list. rewrite Hb. cbn [check rbind].
  destruct (known _ _ Hp) as (t & k & Ht & _ & Hk & Hin). apply kind_type in Hk as Hk'.
  apply returns_node in H as (t' & Et & H). rewrite Ht in Et. injection Et as <-.
  assert (Hargs : returns (let* k := count_list_size n p in wint k ;; write_args_with lrand48 address (wtree n) n p v)).
  { apply elem_of_cons in Hin as [-> | ->%list_elem_of_singleton]; rewrite Hk' in H; destruct b; back H; exact H. }
  destruct n as [|n]; [by apply returns_fuel_bind in Hargs|].
  destruct Hargs as (s & x & s' & HN & HT & HK & (c & s1 & E1 & E2)%bind_Ret).
  apply count_list_pure in E1 as ->.
  assert (Hargs : returns (wint c ;; write_args_with lrand48 address (wtree (S n)) (S n) p v)) by by exists s, x, s'.
  back Hargs. eapply back_args; [apply (follows_all lrand48 address base Hwindow); lia|done|done|done|exact Hargs].
Qed.

Lemma back_type_type n p t e v other :
  (forall m, (0 < m <= n)%nat -> backs_at m) -> is_ty N p -> d_node N p = Ret t -> env_ok e v ->
  returns (write_type_type address (wtree n) n p t other v) -> exists x e', dexpr (S n) p e = Ret (x, e').
Proof.
  intros IH Hp Ht Hv H. destruct (known _ _ Hp) as (t' & k & Et & (_ & Hc & _) & Hk & ->%list_elem_of_singleton).
  rewrite Ht in Et. injection Et as <-. apply kind_type in Hk as Hk'. cbn [d_expr]. rewrite Ht. cbn [rbind].
  rewrite bool_decide_eq_true_2 by done. cbn [negb]. unfold write_type_type in H. unfold children_typed in Hc.
  assert (Hspine : returns (write_type_rec_with address (wtree n) n p 0 v) ->
    exists x e', (do? (h, l, e) := d_spine address N T (dexpr n) n p 0 e in Ret (apply_head h l, e)) = Ret (x, e')).
  { intros H1. destruct n as [|n]; [by apply returns_fuel in H1|].
    destruct (back_spine (wtree (S n)) (dexpr (S n)) (S n) p 0 e v) as (h & l & e' & ->); try done; [|apply IH; lia|].
    - apply (follows_all lrand48 address base Hwindow). lia.
    - cbn. eauto. }
  unfold kind in Hk. rewrite Hk' in Hk. destruct (c_act t) eqn:Ea; try done; try by apply Hspine.
  unfold write_array_with in H. back H. destruct n as [|n]; [by apply returns_fuel_bind in H|].
  destruct Hc as [Hl Hr]. destruct (nat_known _ e Hl) as (m & Hm). rewrite Hm. cbn [rbind].
  destruct (returns_step _ _ _ _ _ _ _ (emits_nat lrand48 address N T K n _ e m v false Hm Hv) H) as (v1 & Hv1 & H1).
  destruct n as [|n].
  { cbn [write_tree] in H1. back H1. apply returns_node in H1 as (r & Er & H1).
    destruct Hr as [Hr|Hr]; [by rewrite Hr in Hb|]. destruct (known _ _ Hr) as (r' & k & Er' & _ & Hkr & Hin).
    rewrite Er in Er'. injection Er' as <-. apply kind_type in Hkr.
    apply elem_of_cons in Hin as [-> | ->%list_elem_of_singleton]; rewrite Hkr in H1; cbv iota in H1; back H1;
      by apply returns_fuel_bind in H1. }
  destruct (back_list (S n) _ _ e v1 (IH (S n) ltac:(lia)) Hr Hv1 H1) as (l & e1 & ->). cbn. eauto.
Qed.

Lemma backs_all n : (0 < n)%nat -> backs_at n.
Proof.
  induction n as [n IHn] using lt_wf_ind. intros Hn. destruct n as [|n]; [lia|].
  assert (IH : forall m, (0 < m <= n)%nat -> backs_at m) by (intros; apply IHn; lia). split.
  - intros p e v b Hp Hv H. destruct (known _ _ Hp) as (t & k & Ht & _ & Hk & ->%list_elem_of_singleton).
    cbn [write_tree] in H. back H. apply returns_node in H as (t' & Et & H). rewrite Ht in Et. injection Et as <-.
    apply kind_type in Hk. rewrite Hk in H. by eapply back_type_type.
  - intros p e v b Hp Hv H. destruct (known _ _ Hp) as (t & k & Ht & (_ & Hc & _) & Hk & ->%list_elem_of_singleton).
    cbn [write_tree] in H. back H. apply returns_node in H as (t' & Et & H). rewrite Ht in Et. injection Et as <-.
    apply kind_type in Hk as Hk'. unfold kind in Hk. rewrite Hk' in Hk, H.
    assert (Ea : c_act t = act_opt_field) by (by destruct (c_act t)).
    unfold write_type_type in H at 1. rewrite Ea in H. back H. unfold write_opt_type_with in H.
    apply returns_node in H as (w & Hw & H). back H. cbv zeta in H.
    apply returns_node in H as (r & Hr & H). destruct (bool_decide (c_type r = type_type)) eqn:Er; [|back H].
    unfold children_typed in Hc. rewrite Ea in Hc. destruct Hc as [_ [Hc|Hc]]; [by rewrite Hc in Hr|].
    destruct (back_type_type n _ r e v _ IH Hc Hr Hv H) as (x & e' & Ex).
    by exists t, w, x, e'.
Qed.

(** *** Types and combinators *)

Hypothesis Hsides : forall k c, K !! k = Some c ->
  or_null is_list N (k_left c) /\ or_null is_ty N (k_right c).

Lemma back_left fuel c :
  or_null is_list N (k_left c) ->
  returns (if negb (is_null (k_left c)) then
       if is_builtin_type (k_id c) then wint TLS_COMBINATOR_LEFT_BUILTIN ;; ret (Nil, 0)
       else wint TLS_COMBINATOR_LEFT ;; wtree fuel (k_left c) false (Nil, 0)
     else wint TLS_COMBINATOR_LEFT ;; wint 0 ;; ret (Nil, 0)) ->
  exists l e w, d_left address N T fuel c = Ret (l, e) /\
    emits N T K (if negb (is_null (k_left c)) then
       if is_builtin_type (k_id c) then wint TLS_COMBINATOR_LEFT_BUILTIN ;; ret (Nil, 0)
       else wint TLS_COMBINATOR_LEFT ;; wtree fuel (k_left c) false (Nil, 0)
     else wint TLS_COMBINATOR_LEFT ;; wint 0 ;; ret (Nil, 0)) w (env_ok e).
Proof.
  intros HL H. unfold d_left. destruct (is_null (k_left c)) eqn:En; cbn [negb] in *.
  { do 3 eexists. split; [done|]. eapply emits_bind; [apply emits_wint|intros _ _].
    eapply emits_bind; [apply emits_wint|intros _ _]. apply emits_ret, env_ok_start. }
  destruct (is_builtin_type (k_id c)).
  { do 3 eexists. split; [done|]. eapply emits_bind; [apply emits_wint|intros _ _]. apply emits_ret, env_ok_start. }
  back H. destruct fuel as [|[|n]]; [by apply returns_fuel in H| |].
  { cbn [write_tree] in H. back H. apply returns_node in H as (t & Ht & H).
    apply or_null_k in HL; [|done]. destruct (known _ _ HL) as (t' & k & Et & _ & Hk & Hin).
    rewrite Ht in Et. injection Et as <-. apply kind_type in Hk.
    apply elem_of_cons in Hin as [-> | ->%list_elem_of_singleton]; rewrite Hk in H; cbv iota in H; back H;
      by apply returns_fuel_bind in H. }
  destruct (back_list (S n) _ _ ([], 0) (Nil, 0) (backs_all (S n) ltac:(lia)) HL (env_ok_start address) H)
    as (l & e & E). rewrite E. cbn [rbind]. do 3 eexists. split; [done|].
  eapply emits_bind; [apply emits_wint|intros _ _].
  eapply emits_list; [done|apply (follows_all lrand48 address base Hwindow); lia|exact E|apply env_ok_start].
Qed.

Lemma back_type_name {B} t (k : Z -> C B) :
  returns (let* name := match t with Some a => let* t := get_type a in ret (ty_name t) | None => ret 0 end in
           k name) ->
  exists z, d_type_name T t = Ret z /\ returns (k z).
Proof.
  intros H. destruct t as [a|]; [|back H; cbn; eauto]. pose proof (returns_bind _ _ _ _ _ H) as [H1 _].
  back H1. exists (ty_name ty). cbn in Hty |- *. destruct (T !! a) as [t|] eqn:Et; [|done]. injection Hty as <-.
  split; [done|].
  assert (HE : emits N T K (let* t := get_type a in ret (ty_name t)) [] (eq (ty_name t))).
  { eapply emits_load; [apply (emits_get_type N T K a t); cbn; by rewrite Et|]. intros ? <-. by apply emits_ret. }
  by destruct (returns_step _ _ _ _ _ _ _ HE H) as (? & <- & ?).
Qed.

Lemma back_comb fuel k :
  returns (write_combinator lrand48 address fuel k) -> exists c, d_comb address N T K fuel k = Ret c.
Proof.
  intros H. unfold write_combinator in H. apply returns_get_constructor in H as (c & Hc & H).
  destruct (Hsides k c Hc) as [HL HR]. unfold d_comb. rewrite Hc. cbn [rbind]. back H.
  apply returns_wstr in H as [Hid H].
  assert (check (Z.of_nat (List.length (k_id c)) <=? 254) = Ret tt) as ->.
  { unfold check. by rewrite (proj2 (Z.leb_le (Z.of_nat (List.length (k_id c))) 254) Hid). }
  cbn [rbind].
  apply back_type_name in H as (z & -> & H). cbn [rbind]. back H.
  apply or_null_k in HR; [|by apply negb_true_iff].
  pose proof (returns_bind _ _ _ _ _ H) as [H1 H2].
  destruct (back_left fuel c HL H1) as (l & e & w & -> & HE). cbn [rbind].
  destruct (H2 _ _ HE) as (v & Hv & H3). back H3. apply returns_bind in H3 as [H3 _].
  destruct fuel as [|n]; [by apply returns_fuel in H3|].
  destruct (b_expr _ _ (backs_all (S n) ltac:(lia)) _ e v true HR Hv H3) as (x & e' & ->). cbn. eauto.
Qed.

Lemma back_type a : returns (write_type a) -> exists t, d_wtype T (snd a) = Ret t.
Proof.
  intros H. unfold write_type in H. back H. apply returns_wstr in H as [Hl _].
  unfold d_wtype. rewrite Hty. cbn [rbind]. unfold check.
  rewrite (proj2 (Z.leb_le (Z.of_nat (List.length (ty_id ty))) 254) Hl). cbn. eauto.
Qed.

Lemma back_each {A B} (act : A -> C unit) (d : A -> result B) (enc : B -> list Z) l :
  (forall x, returns (act x) -> exists y, d x = Ret y) ->
  (forall x y, d x = Ret y -> emits N T K (act x) (enc y) (fun _ => True)) ->
  returns (each act l) -> exists l', d_all d l = Ret l'.
Proof.
  intros Hd He. induction l as [|x l IH]; intros H; cbn [each d_all] in *; [eauto|].
  pose proof (returns_bind _ _ _ _ _ H) as [H1 H2]. destruct (Hd x H1) as (y & Ey). rewrite Ey. cbn [rbind].
  destruct (H2 _ _ (He x y Ey)) as (_ & _ & H3). destruct (IH H3) as (l' & ->). cbn. eauto.
Qed.

Lemma back_tree {A B} (act : A -> C unit) (d : A -> result B) (enc : B -> list Z) t :
  (forall x, returns (act x) -> exists y, d x = Ret y) ->
  (forall x y, d x = Ret y -> emits N T K (act x) (enc y) (fun _ => True)) ->
  returns (tree_act act t) ->
  exists l, d_all d (inorder t) = Ret l /\ emits N T K (tree_act act t) (concat (map enc l)) (fun _ => True).
Proof.
  intros Hd He (s & x & s' & HN & HT & HK & E). rewrite tree_act_inorder in E.
  destruct (back_each act d enc (inorder t) Hd He) as (l & Hl); [by exists s, x, s'|].
  exists l. split; [done|]. by eapply emits_tree_act.
Qed.

Lemma back_item fuel k :
  returns (wint TLS_COMBINATOR ;; write_combinator lrand48 address fuel k) ->
  exists c, d_comb address N T K fuel k = Ret c.
Proof. intros H. back H. by apply back_comb. Qed.

Lemma back_constructors fuel a :
  returns (write_type_constructors lrand48 address fuel a) ->
  exists l, d_constructors address N T K fuel (snd a) = Ret l.
Proof.
  intros H. unfold write_type_constructors in H. back H. unfold d_constructors. rewrite Hty. cbn [rbind].
  eapply back_each; [apply back_item| |exact H]. intros k c. by apply (emits_item lrand48 address base Hwindow).
Qed.

(** The three tables. *)
Lemma back_tables fuel TT FT n1 n2 n3 :
  returns (wint TLS_SCHEMA_V2 ;; wint 0 ;; wint 0 ;; wint n1 ;; tree_act write_type TT ;; wint n2 ;;
     tree_act (write_type_constructors lrand48 address fuel) TT ;; wint n3 ;;
     tree_act (write_function lrand48 address fuel) FT) ->
  exists ts cs fs, d_all (d_wtype T) (map snd (inorder TT)) = Ret ts /\
    d_all (d_constructors address N T K fuel) (map snd (inorder TT)) = Ret cs /\
    d_all (d_comb address N T K fuel) (map snd (inorder FT)) = Ret fs.
Proof.
  intros H. back H. rewrite !d_all_map. pose proof (returns_bind _ _ _ _ _ H) as [H1 H2].
  destruct (back_tree _ _ e_type _ back_type (emits_type N T K) H1) as (ts & Ets & HE). exists ts.
  destruct (H2 _ _ HE) as (_ & _ & H3). back H3. clear H1 H2.
  pose proof (returns_bind _ _ _ _ _ H3) as [H1 H2].
  destruct (back_tree _ _ (fun l => concat (map e_item l)) _ (back_constructors fuel)
    (emits_constructors lrand48 address base Hwindow N T K fuel) H1) as (cs & Ecs & HE2). exists cs.
  destruct (H2 _ _ HE2) as (_ & _ & H4). back H4.
  destruct (back_tree (write_function lrand48 address fuel) (fun x => d_comb address N T K fuel (snd x)) e_item FT)
    as (fs & Efs & _); [| |exact H4|by exists fs].
  - intros x. apply back_item.
  - intros x y. apply (emits_item lrand48 address base Hwindow).
Qed.
End Back.

(** ** The counters *)

Lemma d_all_length {A B} (d : A -> result B) l l' : d_all d l = Ret l' -> List.length l' = List.length l.
Proof.
  revert l'. induction l as [|x l IH]; intros l' H; cbn [d_all] in H; inv_do; [done|]. cbn. by erewrite IH.
Qed.

Lemma d_constructors_length address N T K fuel l cs :
  d_all (d_constructors address N T K fuel) l = Ret cs ->
  Z.of_nat (List.length (concat cs)) = sum_lengths (constructors_of T) l.
Proof.
  revert cs. induction l as [|a l IH]; intros cs H; cbn [d_all] in H; inv_do; [done|]. cbn [concat sum_lengths foldr].
  rewrite length_app, Nat2Z.inj_add. erewrite IH by eassumption. unfold sum_lengths. f_equal. f_equal.
  match goal with H : d_constructors _ _ _ _ _ _ = Ret _ |- _ => unfold d_constructors in H end. inv_do.
  unfold constructors_of. match goal with H : d_type _ _ = Ret _ |- _ => cbn in H end.
  destruct (T !! a); [|done]. inv_do. by eapply d_all_length.
Qed.

(** A typed heap from which the writer returns holds a schema. *)
Lemma schema_exists lrand48 address base fuel s x s' :
  (forall p, base <= address p < base + 2 ^ 31) -> prog_ok s -> typed s ->
  write_types lrand48 address fuel s = Ret (x, s') -> exists w, schema_of address fuel s = Ret w.
Proof.
  intros Hw Hs Ht H. pose proof (ok_tables _ Hs) as Htab.
  destruct (back_tables lrand48 address base Hw (nodes s) (tys s) (constructors s) (typed_nodes _ Ht)
    (typed_sides _ Ht) fuel (tl_type_tree s) (tl_function_tree s) (total_types_num s) (total_constructors_num s)
    (total_functions_num s)) as (ts & cs & fs & Ets & Ecs & Efs).
  { exists s, x, s'. split_and!; [done..|]. rewrite <- H.
    unfold write_types, bind, wint, fwrite, modify, get. cbn [rbind]. by destruct s. }
  unfold schema_of. rewrite Ets. cbn [rbind]. unfold check.
  rewrite (d_all_length _ _ _ Ets), length_map, (tab_total_types _ Htab), tree_count_length, u32_i32, Z.eqb_refl.
  cbn [rbind]. rewrite Ecs. cbn [rbind].
  rewrite (d_constructors_length _ _ _ _ _ _ _ Ecs), <- (listed_table _ Hs), (ok_total_constructors _ Hs), u32_i32,
    Z.eqb_refl. cbn [rbind]. rewrite Efs. cbn [rbind].
  rewrite (d_all_length _ _ _ Efs), length_map, (tab_total_functions _ Htab), tree_count_length, u32_i32, Z.eqb_refl.
  eauto.
Qed.

(** ** The theorem *)

(** C10. The writer writes nothing but schemas: if the program satisfies its
    invariant, its trees are well typed and [write_types] returns, then the heap
    holds a schema and the file is the encoding of it, counters included.  The
    addresses lie in one window of 2 GB. *)
Theorem write_types_only_schemas lrand48 address base fuel s x s' :
  (forall p, base <= address p < base + 2 ^ 31) -> prog_ok s -> typed s ->
  write_types lrand48 address fuel s = Ret (x, s') ->
  exists w, schema_of address fuel s = Ret w /\ file s' = e_schema w.
Proof.
  intros Hw Hs Ht H. destruct (schema_exists _ _ _ _ _ _ _ Hw Hs Ht H) as [w E]. exists w. split; [done|].
  destruct (write_types_follows lrand48 address base fuel s w Hw E) as [d Ed].
  rewrite Ed in H. injection H as _ <-. rewrite (ok_file _ Hs). by destruct s.
Qed.

(** The state of [two_constructors] satisfies the hypotheses. *)
Lemma two_state_ok : prog_ok two_state /\ typed two_state.
Proof.
  assert (E : tl_parse two_constructors some_draws 0 (fun _ => 0) (fun _ _ => 0) 0 20 two_tree init_sstate =
    Ret (true, two_state)) by (vm_compute; reflexivity).
  split.
  - exact (keeps_tl_parse two_constructors some_draws 0 (fun _ => 0) (fun _ _ => 0) 0 20 two_tree
      init_sstate true two_state init_prog_ok E).
  - assert (Hn : no_partial two_tree = true) by (vm_compute; reflexivity).
    exact (proj1 (safe_tl_parse two_constructors some_draws 0 (fun _ => 0) (fun _ _ => 0) 0 20 two_tree Hn
      init_sstate init_typed true two_state E)).
Qed.

Definition two_written : sstate :=
  match write_types some_draws demo_address 20 two_state with Ret (_, s) => s | _ => init_sstate end.

Lemma write_types_only_schemas_witness :
  exists w, schema_of demo_address 20 two_state = Ret w /\ file two_written = e_schema w.
Proof.
  apply (write_types_only_schemas some_draws demo_address 0 20 two_state tt two_written demo_window
    (proj1 two_state_ok) (proj2 two_state_ok)).
  vm_compute. reflexivity.
Defined.
