(* ===== verification/Reader.v ===== *)
(** * The reader of the binary schema (tdtl: tl_simple_parser.h, tl_core.h, tl_core.cpp, tl_config.cpp)

    The code generators read the file that the schema compiler writes.
    [tl_simple_parser] walks over the bytes with a sticky error; the state of
    [tl_config_parser] is that parser, the version of the schema and the
    configuration built so far.  Objects made with [new] are never changed
    once they are linked, except the types, which get constructors: a pointer to
    a type is its index in [types], every other pointer is the value it points to.
    A call of [std::abort] (after a message) is the fault [Aborted]. *)
From Stdlib Require Import ZArith Lia List Bool Ascii String.
From stdpp Require Import base list strings gmap.
From S2P Require Import Prelude.
Open Scope tl_scope.

(** ** tl_simple_parser.h *)

(** [data] is the memory from the pointer to the end of the object it points
    into, [offset] is [data - data_begin] while it points into the input. *)
Record tl_simple_parser := mk_parser {
  data : list Z;
  offset : Z;
  data_len : Z;
  error : option string;
  error_pos : Z
}.

(** The eight zeros (and the terminator) that an error moves the pointer to. *)
Definition zeros : list Z := repeat 0 9.

Definition P : Type -> Type := M tl_simple_parser.

Definition set_error (error_message : string) : P unit :=
  fun p =>
    match error p with
    | None => Ret (tt, mk_parser zeros (offset p) 0 (Some error_message) (offset p))
    | Some e =>
        if data_len p =? 0 then Ret (tt, mk_parser zeros (offset p) 0 (Some e) (error_pos p))
        else Fault AssertFailed
    end.

Definition check_len (len : Z) : P unit :=
  fun p =>
    if data_len p <? len then set_error "Not enough data to read" p
    else Ret (tt, mk_parser (data p) (offset p) (data_len p - len) (error p) (error_pos p)).

(** Read [len] bytes at [data + i]. *)
Definition peek (i len : Z) : P (list Z) :=
  fun p =>
    if i + len <=? Z.of_nat (List.length (data p)) then Ret (slice (data p) i len, p) else Fault OutOfBounds.

(** [data += len]. *)
Definition advance (len : Z) : P unit :=
  modify (fun p => mk_parser (drop (Z.to_nat len) (data p)) (offset p + len) (data_len p) (error p) (error_pos p)).

(** The value of little-endian bytes. *)
Fixpoint le_num (l : list Z) : Z :=
  match l with
  | [] => 0
  | b :: l => b + 256 * le_num l
  end.

Definition fetch_int : P Z :=
  check_len 4 ;;
  let* b := peek 0 4 in
  advance 4 ;;
  ret (i32 (le_num b)).

Definition fetch_long : P Z :=
  check_len 8 ;;
  let* b := peek 0 8 in
  advance 8 ;;
  ret (i64 (le_num b)).

Definition fetch_string : P (list Z) :=
  check_len 4 ;;
  let* b := peek 0 1 in
  let result_len := le_num b in
  if result_len <? 254 then
    check_len (Z.shiftr result_len 2 * 4) ;;
    let* result := peek 1 result_len in
    advance ((Z.shiftr result_len 2 + 1) * 4) ;;
    ret (map schar result)
  else if result_len =? 254 then
    let* b := peek 1 3 in
    let result_len := le_num b in
    check_len (Z.shiftr (result_len + 3) 2 * 4) ;;
    let* result := peek 4 result_len in
    advance (Z.shiftr (result_len + 7) 2 * 4) ;;
    ret (map schar result)
  else
    set_error "Can't fetch string, 255 found" ;;
    ret [].

Definition fetch_end : P unit :=
  fun p => if negb (data_len p =? 0) then set_error "Too much data to fetch" p else Ret (tt, p).

(** ** tl_core.h *)

Definition FLAG_NOVAR : Z := Z.shiftl 1 21.
Definition FLAG_BARE : Z := Z.shiftl 1 0.

Inductive tl_tree :=
| tl_tree_type (flags : Z) (type : nat) (children : list tl_tree)
| tl_tree_nat_const (flags num : Z)
| tl_tree_var_type (flags var_num : Z)
| tl_tree_var_num (flags var_num diff : Z)
| tl_tree_array (flags : Z) (multiplicity : tl_tree) (args : list arg)
with arg :=
| mk_arg (name : list Z) (arg_flags var_num exist_var_num exist_var_bit : Z) (type : tl_tree).

Definition flags_of (t : tl_tree) : Z :=
  match t with
  | tl_tree_type f _ _ | tl_tree_nat_const f _ | tl_tree_var_type f _ | tl_tree_var_num f _ _
  | tl_tree_array f _ _ => f
  end.

Definition arg_flags (a : arg) : Z := let 'mk_arg _ f _ _ _ _ := a in f.

Record tl_combinator := mk_combinator {
  k_id : Z;
  k_name : list Z;
  k_var_count : Z;
  k_type_id : Z;
  k_args : list arg;
  k_result : tl_tree
}.

(** The field [simple_constructors] is not in the record: the reader leaves it 0 and
    only the code generators use it. It is kept beside the types, under the same
    index, in the states of the generator ([Generate.g_simple]) and of the files
    ([Files.l_simple]). *)
Record tl_type := mk_type {
  t_id : Z;
  t_name : list Z;
  t_arity : Z;
  t_flags : Z;
  t_constructors_num : Z;
  t_constructors : list tl_combinator
}.

(** [tl_type::add_constructor] *)
Definition add_constructor (t : tl_type) (new_constructor : tl_combinator) : result tl_type :=
  let cs := t_constructors t ++ [new_constructor] in
  if Z.of_nat (List.length cs) <=? t_constructors_num t
  then Ret (mk_type (t_id t) (t_name t) (t_arity t) (t_flags t) (t_constructors_num t) cs)
  else Fault AssertFailed.

(** ** tl_config *)

Record tl_config := mk_config {
  types : list tl_type;
  id_to_type : gmap Z nat;
  name_to_type : gmap (list Z) nat;
  functions : list tl_combinator;
  id_to_function : gmap Z tl_combinator;
  name_to_function : gmap (list Z) tl_combinator
}.

Definition empty_config : tl_config := mk_config [] ∅ ∅ [] ∅ ∅.

Definition add_type (t : tl_type) (c : tl_config) : tl_config :=
  let i := List.length (types c) in
  mk_config (types c ++ [t]) (<[t_id t := i]> (id_to_type c)) (<[t_name t := i]> (name_to_type c))
    (functions c) (id_to_function c) (name_to_function c).

Definition add_function (f : tl_combinator) (c : tl_config) : tl_config :=
  mk_config (types c) (id_to_type c) (name_to_type c) (functions c ++ [f])
    (<[k_id f := f]> (id_to_function c)) (<[k_name f := f]> (name_to_function c)).

(** The lookups by name, and those of functions, use [operator[]]: a key that is not
    there is inserted with a null pointer.  Nothing else looks at these maps, so that
    a null pointer and no entry are the same. *)
Definition get_type_by_name (type_name : list Z) (c : tl_config) : option tl_type :=
  match name_to_type c !! type_name with Some i => types c !! i | None => None end.
Definition get_function (function_id : Z) (c : tl_config) : option tl_combinator := id_to_function c !! function_id.
Definition get_function_by_name (function_name : list Z) (c : tl_config) : option tl_combinator := name_to_function c !! function_name.

Definition get_type_count (c : tl_config) : Z := Z.of_nat (List.length (types c)).
Definition get_type_by_num (num : nat) (c : tl_config) : result tl_type :=
  match types c !! num with Some t => Ret t | None => Fault OutOfBounds end.
Definition get_function_count (c : tl_config) : Z := Z.of_nat (List.length (functions c)).
Definition get_function_by_num (num : nat) (c : tl_config) : result tl_combinator :=
  match functions c !! num with Some f => Ret f | None => Fault OutOfBounds end.

(** What was added last is found, under each of its keys. *)
Lemma add_type_found t c :
  get_type_by_name (t_name t) (add_type t c) = Some t /\
  get_type_by_num (List.length (types c)) (add_type t c) = Ret t /\ get_type_count (add_type t c) = get_type_count c + 1.
Proof.
  unfold get_type_by_name, get_type_by_num, get_type_count, add_type. cbn [types name_to_type].
  rewrite lookup_insert_eq, list_lookup_middle, length_app by done. cbn [List.length]. split_and!; [done..|lia].
Qed.

Lemma add_function_found f c :
  get_function (k_id f) (add_function f c) = Some f /\ get_function_by_name (k_name f) (add_function f c) = Some f /\
  (forall name, name <> k_name f -> get_function_by_name name (add_function f c) = get_function_by_name name c) /\
  get_function_by_num (List.length (functions c)) (add_function f c) = Ret f /\ get_function_count (add_function f c) = get_function_count c + 1.
Proof.
  unfold get_function, get_function_by_name, get_function_by_num, get_function_count, add_function.
  cbn [functions id_to_function name_to_function]. rewrite !lookup_insert_eq, list_lookup_middle, length_app by done. cbn [List.length].
  split_and!; [done|done| |done|lia]. intros name Hn. by apply lookup_insert_ne.
Qed.

Definition set_types (l : list tl_type) (c : tl_config) : tl_config :=
  mk_config l (id_to_type c) (name_to_type c) (functions c) (id_to_function c) (name_to_function c).

(** ** tl_config_parser *)

Record parser_state := mk_state { p : tl_simple_parser; schema_version : Z; config : tl_config }.

Definition R : Type -> Type := M parser_state.

(** [try_parse (p.fetch ())]: an error ends the program. *)
Definition try_parse {A} (fetch : P A) : R A :=
  fun s =>
    do? (a, q) := fetch (p s) in
    match error q with
    | Some _ => Fault Aborted
    | None => Ret (a, mk_state q (schema_version s) (config s))
    end.

Definition try_parse_int : R Z := try_parse fetch_int.
Definition try_parse_long : R Z := try_parse fetch_long.
Definition try_parse_string : R (list Z) := try_parse fetch_string.

(** [tl_config::get_type], the address and the object. *)
Definition get_type (type_id : Z) : R (nat * tl_type) :=
  let* s := get in
  match id_to_type (config s) !! type_id with
  | Some i =>
      match types (config s) !! i with
      | Some t => ret (i, t)
      | None => fail BadPointer
      end
  | None => fail AssertFailed
  end.

(** The constants of tl_config.cpp, as the [int]s they are. *)
Definition TLS_SCHEMA_V2 : Z := i32 0x3a2f9be2.
Definition TLS_SCHEMA_V3 : Z := i32 0xe4a8604b.
Definition TLS_SCHEMA_V4 : Z := i32 0x90ac88d7.
Definition TLS_TYPE : Z := i32 0x12eb4386.
Definition TLS_COMBINATOR : Z := i32 0x5c0a1ed5.
Definition TLS_COMBINATOR_LEFT_BUILTIN : Z := i32 0xcd211f63.
Definition TLS_COMBINATOR_LEFT : Z := i32 0x4c12c6d9.
Definition TLS_COMBINATOR_RIGHT_V2 : Z := i32 0x2c064372.
Definition TLS_ARG_V2 : Z := i32 0x29dfe61b.
Definition TLS_EXPR_NAT : Z := i32 0xdcb49bd8.
Definition TLS_EXPR_TYPE : Z := i32 0xecc9da78.
Definition TLS_NAT_CONST_OLD : Z := i32 0xdcb49bd8.
Definition TLS_NAT_CONST : Z := i32 0x8ce940b1.
Definition TLS_NAT_VAR : Z := i32 0x4e8a14f0.
Definition TLS_TYPE_VAR : Z := i32 0x0142ceae.
Definition TLS_ARRAY : Z := i32 0xd9fb20de.
Definition TLS_TYPE_EXPR : Z := i32 0xc1863d08.

Definition get_schema_version (version_id : Z) : Z :=
  if version_id =? TLS_SCHEMA_V4 then 4
  else if version_id =? TLS_SCHEMA_V3 then 3
  else if version_id =? TLS_SCHEMA_V2 then 2
  else -1.

(** A function that takes [int *var_count] returns the new count. *)
Definition read_num_const : R tl_tree :=
  let* num := try_parse_int in
  ret (tl_tree_nat_const FLAG_NOVAR num).

Definition grow (var_num var_count : Z) : Z := if var_num >=? var_count then i32 (var_num + 1) else var_count.

Definition read_num_var (var_count : Z) : R (tl_tree * Z) :=
  let* diff := try_parse_int in
  let* var_num := try_parse_int in
  ret (tl_tree_var_num 0 var_num diff, grow var_num var_count).

Definition read_type_var (var_count : Z) : R (tl_tree * Z) :=
  let* var_num := try_parse_int in
  let* flags := try_parse_int in
  assert (Z.land flags (Z.lor FLAG_NOVAR FLAG_BARE) =? 0) ;;
  ret (tl_tree_var_type flags var_num, grow var_num var_count).

Definition read_nat_expr (var_count : Z) : R (tl_tree * Z) :=
  let* tree_type := try_parse_int in
  if (tree_type =? TLS_NAT_CONST_OLD) || (tree_type =? TLS_NAT_CONST) then
    let* t := read_num_const in ret (t, var_count)
  else if tree_type =? TLS_NAT_VAR then read_num_var var_count
  else fail Aborted.

(** Clear [FLAG_NOVAR] if some of the given flags lack it. *)
Definition clear_novar (f : Z) (l : list Z) : Z :=
  fold_left (fun f g => if Z.land g FLAG_NOVAR =? 0 then Z.land f (Z.lnot FLAG_NOVAR) else f) l f.

(** The functions from [read_array] to [read_args_list] call each other; the
    others take [read_type_expr] as an argument. *)
Section Trees.
Context (read_type_expr : Z -> R (tl_tree * Z)).

Definition read_expr (var_count : Z) : R (tl_tree * Z) :=
  let* tree_type := try_parse_int in
  if tree_type =? TLS_EXPR_NAT then read_nat_expr var_count
  else if tree_type =? TLS_EXPR_TYPE then read_type_expr var_count
  else fail Aborted.

Definition read_arg (var_count : Z) : R (arg * Z) :=
  let* s := get in
  let schema_flag_opt_field := Z.shiftl 2 (if schema_version s >=? 3 then 1 else 0) in
  let schema_flag_has_vars := Z.lxor schema_flag_opt_field 6 in
  let* arg_v := try_parse_int in
  if negb (arg_v =? TLS_ARG_V2) then fail Aborted
  else
    let* name := try_parse_string in
    let* flags := try_parse_int in
    let is_optional := negb (Z.land flags schema_flag_opt_field =? 0) in
    let flags := if is_optional then Z.land flags (Z.lnot schema_flag_opt_field) else flags in
    let has_vars := negb (Z.land flags schema_flag_has_vars =? 0) in
    let flags := if has_vars then Z.land flags (Z.lnot schema_flag_has_vars) else flags in
    let* var_num := (if has_vars then try_parse_int else ret (-1)) in
    let var_count := grow var_num var_count in
    let* (exist_var_num, exist_var_bit) :=
      (if is_optional then
         let* num := try_parse_int in
         let* bit := try_parse_int in
         ret (num, bit)
       else ret (-1, 0)) in
    let* (type, var_count) := read_type_expr var_count in
    let flags := if negb (Z.land (flags_of type) FLAG_NOVAR =? 0) then Z.lor flags FLAG_NOVAR else flags in
    ret (mk_arg name flags var_num exist_var_num exist_var_bit type, var_count).

(** [for (i = 0; i < k; i++)] over items that consume data: [fuel] bounds the
    number of iterations. *)
Fixpoint read_loop {A} (read : Z -> R (A * Z)) (fuel : nat) (k var_count : Z) : R (list A * Z) :=
  if k <=? 0 then ret ([], var_count)
  else
    match fuel with
    | O => out_of_fuel
    | S fuel =>
        let* (x, var_count) := read var_count in
        let* (l, var_count) := read_loop read fuel (k - 1) var_count in
        ret (x :: l, var_count)
    end.

(** A negative length makes the constructor of the vector throw. *)
Definition read_args_list (fuel : nat) (var_count : Z) : R (list arg * Z) :=
  let* args_num := try_parse_int in
  if args_num <? 0 then fail Aborted else read_loop read_arg fuel args_num var_count.

Definition read_array (fuel : nat) (var_count : Z) : R (tl_tree * Z) :=
  let* (multiplicity, var_count) := read_nat_expr var_count in
  let* (args, var_count) := read_args_list fuel var_count in
  ret (tl_tree_array (clear_novar FLAG_NOVAR (map arg_flags args)) multiplicity args, var_count).

(** [tl_config_parser::read_type] with the argument [var_count] *)
Definition read_tree_type (fuel : nat) (var_count : Z) : R (tl_tree * Z) :=
  let* id := try_parse_int in
  let* (i, type) := get_type id in
  let* flags := try_parse_int in
  let flags := Z.lor flags FLAG_NOVAR in
  let* arity := try_parse_int in
  assert (t_arity type =? arity) ;;
  if arity <? 0 then fail Aborted
  else
    let* (children, var_count) := read_loop read_expr fuel arity var_count in
    ret (tl_tree_type (clear_novar flags (map flags_of children)) i children, var_count).

End Trees.

Fixpoint read_type_expr (fuel : nat) (var_count : Z) : R (tl_tree * Z) :=
  match fuel with
  | O => out_of_fuel
  | S fuel =>
      let* tree_type := try_parse_int in
      if tree_type =? TLS_TYPE_VAR then read_type_var var_count
      else if tree_type =? TLS_TYPE_EXPR then read_tree_type (read_type_expr fuel) fuel var_count
      else if tree_type =? TLS_ARRAY then read_array (read_type_expr fuel) fuel var_count
      else fail Aborted
  end.

Definition expect (magic : Z) : R unit :=
  let* t := try_parse_int in
  if t =? magic then ret tt else fail Aborted.

Definition read_combinator (fuel : nat) : R tl_combinator :=
  expect TLS_COMBINATOR ;;
  let* id := try_parse_int in
  let* name := try_parse_string in
  let* type_id := try_parse_int in
  let* left_type := try_parse_int in
  let* (args, var_count) :=
    (if left_type =? TLS_COMBINATOR_LEFT then read_args_list (read_type_expr fuel) fuel 0
     else if negb (left_type =? TLS_COMBINATOR_LEFT_BUILTIN) then fail Aborted
     else ret ([], 0)) in
  expect TLS_COMBINATOR_RIGHT_V2 ;;
  let* (result, var_count) := read_type_expr fuel var_count in
  ret (mk_combinator id name var_count type_id args result).

(** A negative number of constructors makes [reserve] throw. *)
Definition read_type : R tl_type :=
  expect TLS_TYPE ;;
  let* id := try_parse_int in
  let* name := try_parse_string in
  let* constructors_num := try_parse_int in
  if constructors_num <? 0 then fail Aborted
  else
    let* flags := try_parse_int in
    let flags := Z.land flags (Z.lnot (Z.lor 1 (Z.lor 8 (Z.lor 16 1024)))) in
    let* arity := try_parse_int in
    let* _ := try_parse_long in
    ret (mk_type id name arity flags constructors_num []).

Definition set_config (f : tl_config -> tl_config) : R unit :=
  modify (fun s => mk_state (p s) (schema_version s) (f (config s))).

(** [config.get_type (constructor->type_id)->add_constructor (constructor)] *)
Definition link_constructor (c : tl_combinator) : R unit :=
  let* (i, t) := get_type (k_type_id c) in
  fun s =>
    do? t := add_constructor t c in
    set_config (fun cfg => set_types (<[i := t]> (types cfg)) cfg) s.

(** The three loops of [parse_config]. *)
Fixpoint read_types (fuel : nat) (k total : Z) : R Z :=
  if k <=? 0 then ret total
  else
    match fuel with
    | O => out_of_fuel
    | S fuel =>
        let* t := read_type in
        set_config (add_type t) ;;
        read_types fuel (k - 1) (u64 (total + t_constructors_num t))
    end.

Fixpoint read_combinators (act : tl_combinator -> R unit) (n fuel : nat) (k : Z) : R unit :=
  if k <=? 0 then ret tt
  else
    match fuel with
    | O => out_of_fuel
    | S fuel =>
        let* c := read_combinator n in
        act c ;;
        read_combinators act n fuel (k - 1)
    end.

Definition set_version (v : Z) : R unit := modify (fun s => mk_state (p s) v (config s)).

Definition parse_config (fuel : nat) : R tl_config :=
  let* id := try_parse_int in
  set_version (get_schema_version id) ;;
  if get_schema_version id <? 2 then fail Aborted
  else
    let* _ := try_parse_int in
    let* _ := try_parse_int in
    let* types_n := try_parse_int in
    let* constructors_total := read_types fuel types_n 0 in
    let* constructors_n := try_parse_int in
    assert (u64 constructors_n =? constructors_total) ;;
    read_combinators link_constructor fuel fuel constructors_n ;;
    let* functions_n := try_parse_int in
    read_combinators (fun f => set_config (add_function f)) fuel fuel functions_n ;;
    let* _ := try_parse fetch_end in
    let* s := get in
    ret (config s).

(** [tl_config_parser (s, len)] and [read_tl_config_from_file] on the contents
    of the file; the loops and the recursion consume data, so its length is
    enough fuel. *)
Definition init_parser (s : list Z) : parser_state :=
  mk_state (mk_parser s 0 (Z.of_nat (List.length s)) None 0) (-1) empty_config.

Definition read_tl_config (contents : list Z) : result tl_config :=
  if bool_decide (contents = []) then Fault Aborted
  else if negb (Z.of_nat (List.length contents) mod 4 =? 0) then Fault Aborted
  else do? (c, _) := parse_config (S (List.length contents)) (init_parser contents) in Ret c.

(** ** Termination *)

(** The input is bytes, and the length that is left is not negative. *)
Definition sane (q : tl_simple_parser) : Prop := 0 <= data_len q /\ Forall is_byte (data q).

(** [fetches k m Q]: [m] returns a value in [Q] or faults; it keeps [sane] and
    the sticky error, and consumes [k] bytes if it sets none. *)
Definition fetches {A} (k : Z) (m : P A) (Q : A -> Prop) : Prop :=
  forall q, sane q ->
  match m q with
  | Ret (a, q') => sane q' /\ Q a /\ (error q' = None -> error q = None /\ data_len q' + k <= data_len q)
  | Fault _ => True
  | OutOfFuel => False
  end.

Lemma fetches_ret {A} (a : A) (Q : A -> Prop) : Q a -> fetches 0 (ret a) Q.
Proof. intros HQ q Hq. cbn. split; [done|]. split; [done|]. intros ?. split; [done|lia]. Qed.

Lemma fetches_bind {A B} k1 k2 (m : P A) (f : A -> P B) (Q1 : A -> Prop) (Q : B -> Prop) :
  fetches k1 m Q1 -> (forall a, Q1 a -> fetches k2 (f a) Q) -> fetches (k1 + k2) (bind m f) Q.
Proof.
  intros Hm Hf q Hq. specialize (Hm q Hq). unfold bind. destruct (m q) as [[a q1]| |]; cbn; try done.
  destruct Hm as (H1 & HQ1 & E1). specialize (Hf a HQ1 q1 H1). destruct (f a q1) as [[b q2]| |]; try done.
  destruct Hf as (H2 & HQ & E2). split; [done|]. split; [done|]. intros E. destruct (E2 E) as [E3 ?].
  destruct (E1 E3). split; [done|lia].
Qed.

Lemma fetches_set_error k e : fetches k (set_error e) (fun _ => True).
Proof.
  intros q [Hq Hb]. unfold set_error.
  destruct (error q); [destruct (_ =? _); [|done]|]; (split; [split; [cbn; lia|repeat constructor; lia]|done]).
Qed.

Lemma fetches_check_len n : 0 <= n -> fetches n (check_len n) (fun _ => True).
Proof.
  intros Hn q Hq. unfold check_len. destruct (_ <? _) eqn:E; zbool; [by apply fetches_set_error|].
  split; [split; [cbn; lia|apply Hq]|]. split; [done|]. cbn. intros ->. split; [done|lia].
Qed.

Lemma fetches_peek i n : fetches 0 (peek i n) (Forall is_byte).
Proof.
  intros q Hq. unfold peek. destruct (_ <=? _); [|done]. split; [done|]. split.
  - unfold slice. apply Forall_take, Forall_drop, Hq.
  - intros ?. split; [done|lia].
Qed.

Lemma fetches_advance n : fetches 0 (advance n) (fun _ => True).
Proof.
  intros q [Hq Hb]. cbn. split; [split; [done|by apply Forall_drop]|]. split; [done|].
  cbn. intros ->. split; [done|lia].
Qed.

Lemma le_num_nonneg l : Forall is_byte l -> 0 <= le_num l.
Proof. induction 1 as [|b l Hb _ IH]; cbn; [lia|]. unfold is_byte in Hb. lia. Qed.

Lemma fetches_load {A B} k (m : P A) (f : A -> P B) (Q1 : A -> Prop) (Q : B -> Prop) :
  fetches 0 m Q1 -> (forall a, Q1 a -> fetches k (f a) Q) -> fetches k (bind m f) Q.
Proof. apply (fetches_bind 0 k). Qed.

Lemma fetches_mono {A} k k' (m : P A) (Q : A -> Prop) : fetches k m Q -> k' <= k -> fetches k' m Q.
Proof.
  intros Hm Hk q Hq. specialize (Hm q Hq). destruct (m q) as [[a q']| |]; try done.
  destruct Hm as (? & ? & H). split; [done|]. split; [done|]. intros E. destruct (H E). split; [done|lia].
Qed.

(** A load of [n] bytes and [data += n]. *)
Lemma fetches_word {A} n (f : list Z -> A) :
  0 <= n -> fetches n (check_len n ;; let* b := peek 0 n in advance n ;; ret (f b)) (fun _ => True).
Proof.
  intros Hn. apply (fetches_mono (n + 0)); [|lia].
  eapply fetches_bind; [by apply fetches_check_len|intros _ _].
  eapply fetches_load; [apply fetches_peek|intros b _].
  eapply fetches_load; [apply fetches_advance|intros _ _]. by apply fetches_ret.
Qed.

Lemma fetches_string : fetches 4 fetch_string (fun _ => True).
Proof.
  unfold fetch_string. apply (fetches_mono (4 + 0)); [|lia].
  eapply fetches_bind; [by apply fetches_check_len|intros _ _].
  eapply fetches_load; [apply fetches_peek|]. intros b Hb%le_num_nonneg. cbv zeta.
  assert (Htail : forall i n m, 0 <= n -> fetches 0
    (check_len n ;; let* r := peek i m in advance (n + 4) ;; ret (map schar r)) (fun _ => True)).
  { intros i n m Hn. apply (fetches_mono (n + 0)); [|lia].
    eapply fetches_bind; [by apply fetches_check_len|intros _ _].
    eapply fetches_load; [apply fetches_peek|intros r _].
    eapply fetches_load; [apply fetches_advance|intros _ _]. by apply fetches_ret. }
  destruct (le_num b <? 254).
  - replace ((Z.shiftr (le_num b) 2 + 1) * 4) with (Z.shiftr (le_num b) 2 * 4 + 4) by lia.
    apply Htail. apply Z.mul_nonneg_nonneg; [by apply Z.shiftr_nonneg|lia].
  - destruct (le_num b =? 254).
    + eapply fetches_load; [apply fetches_peek|]. intros b3 H3%le_num_nonneg. cbv zeta.
      replace (Z.shiftr (le_num b3 + 7) 2 * 4) with (Z.shiftr (le_num b3 + 3) 2 * 4 + 4)
        by (rewrite !Z.shiftr_div_pow2 by lia; change (2 ^ 2) with 4; zmod).
      apply Htail. apply Z.mul_nonneg_nonneg; [apply Z.shiftr_nonneg|]; lia.
    + eapply fetches_load; [apply fetches_set_error|intros _ _]. by apply fetches_ret.
Qed.

(** No error yet. *)
Definition good (s : parser_state) : Prop := error (p s) = None /\ sane (p s).

(** [tot N k m]: from a state with at most [N] bytes left, [m] does not run out
    of fuel, and when it returns it has consumed at least [k] bytes. *)
Definition tot {A} (N k : Z) (m : R A) : Prop :=
  forall s, good s -> data_len (p s) <= N ->
  match m s with
  | Ret (_, s') => good s' /\ data_len (p s') + k <= data_len (p s)
  | Fault _ => True
  | OutOfFuel => False
  end.

Lemma tot_try_parse {A} N k (m : P A) Q : fetches k m Q -> tot N k (try_parse m).
Proof.
  intros Hm s [He Hs] _. specialize (Hm _ Hs). unfold try_parse.
  destruct (m (p s)) as [[a q]| |]; cbn; try done. destruct Hm as (Hq & _ & H).
  destruct (error q) eqn:E; [done|]. destruct (H eq_refl). cbn. split; [by split|lia].
Qed.

Lemma tot_int N : tot N 4 try_parse_int.
Proof. eapply tot_try_parse, (fetches_word 4 (fun b => i32 (le_num b))). lia. Qed.
Lemma tot_long N : tot N 8 try_parse_long.
Proof. eapply tot_try_parse, (fetches_word 8 (fun b => i64 (le_num b))). lia. Qed.
Lemma tot_string N : tot N 4 try_parse_string.
Proof. eapply tot_try_parse, fetches_string. Qed.

Lemma tot_ret {A} N k (a : A) : k <= 0 -> tot N k (ret a).
Proof. intros Hk s Hs HN. cbn. split; [done|lia]. Qed.

Lemma tot_fail {A} N k f : tot N k (@fail _ A f).
Proof. done. Qed.

Lemma tot_mono {A} N N' k k' (m : R A) : tot N k m -> N' <= N -> k' <= k -> tot N' k' m.
Proof.
  intros Hm HN Hk s Hs Hlen. specialize (Hm s Hs ltac:(lia)). destruct (m s) as [[a s']| |]; try done.
  split; [apply Hm|]. lia.
Qed.

(** A step that consumes [k1] bytes, then the rest. *)
Lemma tot_bind {A B} N k1 k (m : R A) (f : A -> R B) :
  tot N k1 m -> (forall a, tot (N - k1) (k - k1) (f a)) -> tot N k (bind m f).
Proof.
  intros Hm Hf s Hs HN. specialize (Hm s Hs HN). unfold bind. destruct (m s) as [[a s1]| |]; cbn; try done.
  destruct Hm as [Hs1 Hk]. specialize (Hf a s1 Hs1 ltac:(lia)).
  destruct (f a s1) as [[b s2]| |]; try done. split; [apply Hf|]. lia.
Qed.

Lemma tot_get {B} N k (f : parser_state -> R B) : (forall s, tot N k (f s)) -> tot N k (bind get f).
Proof. intros Hf s Hs HN. by apply Hf. Qed.

Lemma tot_assert N b : tot N 0 (assert b).
Proof. destruct b; [by apply tot_ret|apply tot_fail]. Qed.

Lemma tot_get_type N id : tot N 0 (get_type id).
Proof. apply tot_get. intros s. repeat case_goal; first [by apply tot_ret|apply tot_fail]. Qed.

(** Follow the code. *)
Ltac tot_leaf := first [apply tot_ret; lia|apply tot_fail].
Ltac tot_step :=
  match goal with
  | |- tot _ _ (bind try_parse_int _) => eapply tot_bind; [apply tot_int|intros ?]
  | |- tot _ _ (bind try_parse_string _) => eapply tot_bind; [apply tot_string|intros ?]
  | |- tot _ _ (bind try_parse_long _) => eapply tot_bind; [apply tot_long|intros ?]
  | |- tot _ _ (bind (assert _) _) => eapply tot_bind; [apply tot_assert|intros ?]
  | |- tot _ _ (bind (get_type _) _) => eapply tot_bind; [apply tot_get_type|intros [? ?]]
  | |- tot _ _ (bind get _) => apply tot_get; intros ?
  | |- tot _ _ (if ?b then _ else _) => destruct b
  | |- tot _ _ (ret _) => tot_leaf
  | |- tot _ _ (fail _) => tot_leaf
  end; cbv beta zeta.
Ltac tot_auto := repeat tot_step.

Lemma tot_nat_expr N vc : tot N 4 (read_nat_expr vc).
Proof.
  unfold read_nat_expr, read_num_const, read_num_var. tot_step. destruct (_ || _).
  - eapply (tot_bind _ 0); [tot_auto|intros ?; tot_auto].
  - destruct (_ =? _); tot_auto.
Qed.

Lemma tot_loop {A} (rd : Z -> R (A * Z)) : forall f M k vc,
  (forall vc, tot M 1 (rd vc)) -> M < Z.of_nat f -> tot M 0 (read_loop rd f k vc).
Proof.
  induction f as [|f IH]; intros M k vc Hrd Hf; cbn [read_loop]; (destruct (k <=? 0); [tot_leaf|]).
  - intros s [_ [Hs _]] HN. lia.
  - eapply tot_bind; [apply Hrd|]. intros [x vc1]. eapply (tot_bind _ 0).
    + apply IH; [|lia]. intros vc2. eapply tot_mono; [apply Hrd|lia|lia].
    + intros [l vc2]. tot_leaf.
Qed.

Section Total.
Context (N : Z) (read : Z -> R (tl_tree * Z)) (fuel : nat).
Hypothesis Hread : forall vc, tot N 1 (read vc).
Hypothesis Hfuel : N < Z.of_nat fuel.

Lemma tot_expr vc : tot N 1 (read_expr read vc).
Proof.
  unfold read_expr. tot_step. destruct (_ =? _); [eapply tot_mono; [apply (tot_nat_expr N)|lia|lia]|].
  destruct (_ =? _); [eapply tot_mono; [apply Hread|lia|lia]|tot_auto].
Qed.

Lemma tot_arg vc : tot N 1 (read_arg read vc).
Proof.
  unfold read_arg. do 2 tot_step. destruct (negb _); [tot_auto|]. do 2 tot_step.
  eapply (tot_bind _ 0); [destruct (negb _); [eapply tot_mono; [apply (tot_int N)|lia|lia]|tot_auto]|]. intros ?.
  eapply (tot_bind _ 0); [destruct (negb _); tot_auto|]. intros [? ?].
  eapply (tot_bind _ 1); [eapply tot_mono; [apply Hread|lia|lia]|]. intros [? ?]. tot_leaf.
Qed.

Lemma tot_args_list vc : tot N 4 (read_args_list read fuel vc).
Proof.
  unfold read_args_list. tot_step. destruct (_ <? _); [tot_auto|].
  apply tot_loop; [|lia]. intros ?. eapply tot_mono; [apply tot_arg|lia|lia].
Qed.

Lemma tot_array vc : tot N 8 (read_array read fuel vc).
Proof.
  unfold read_array. eapply tot_bind; [apply tot_nat_expr|]. intros [? ?].
  eapply (tot_bind _ 4); [eapply tot_mono; [apply tot_args_list|lia|lia]|]. intros [? ?]. tot_leaf.
Qed.

Lemma tot_tree_type vc : tot N 12 (read_tree_type read fuel vc).
Proof.
  unfold read_tree_type. do 5 tot_step. destruct (_ <? _); [tot_auto|].
  eapply (tot_bind _ 0); [apply tot_loop; [|lia]|].
  - intros ?. eapply tot_mono; [apply tot_expr|lia|lia].
  - intros [? ?]. tot_leaf.
Qed.
End Total.

Lemma tot_type_expr n N vc : N < Z.of_nat n -> tot N 4 (read_type_expr n vc).
Proof.
  revert N vc. induction n as [|n IH]; intros N vc Hn; [intros s [_ [Hs _]] HN; lia|]. cbn [read_type_expr].
  assert (IH1 : forall vc, tot (N - 4) 1 (read_type_expr n vc)).
  { intros vc1. eapply tot_mono; [apply (IH (N - 4)); lia|lia|lia]. }
  tot_step. destruct (_ =? _); [unfold read_type_var; eapply (tot_mono (N - 4) _ 8); [tot_auto|lia|lia]|].
  destruct (_ =? _); [eapply tot_mono; [apply (tot_tree_type (N - 4)); [done|lia]|lia|lia]|].
  destruct (_ =? _); [eapply tot_mono; [apply (tot_array (N - 4)); [done|lia]|lia|lia]|tot_auto].
Qed.

Lemma tot_expect N m : tot N 4 (expect m).
Proof. unfold expect. tot_auto. Qed.

Lemma tot_combinator n N : N < Z.of_nat n -> tot N 1 (read_combinator n).
Proof.
  intros Hn. unfold read_combinator. eapply tot_bind; [apply tot_expect|]. intros _. do 4 tot_step.
  eapply (tot_bind _ 0).
  - destruct (_ =? _); [eapply tot_mono; [apply (tot_args_list N)|lia|lia]|destruct (negb _); tot_auto].
    + intros vc. eapply tot_mono; [by apply (tot_type_expr n N)|lia|lia].
    + done.
  - intros [args vc]. eapply tot_bind; [apply tot_expect|]. intros _.
    eapply tot_bind; [apply tot_type_expr; lia|]. intros [? ?]. tot_leaf.
Qed.

Lemma tot_read_type N : tot N 1 read_type.
Proof. unfold read_type. eapply tot_bind; [apply tot_expect|]. intros _. tot_auto. Qed.

Lemma tot_set_config N f : tot N 0 (set_config f).
Proof. intros s Hs HN. cbn. split; [done|lia]. Qed.

Lemma tot_link N c : tot N 0 (link_constructor c).
Proof.
  unfold link_constructor. tot_step. intros s Hs HN. unfold add_constructor. destruct (_ <=? _); [|done].
  cbn. split; [done|lia].
Qed.

Lemma tot_read_types : forall fuel N k total, N < Z.of_nat fuel -> tot N 0 (read_types fuel k total).
Proof.
  induction fuel as [|fuel IH]; intros N k total Hf; cbn [read_types]; (destruct (k <=? 0); [tot_leaf|]).
  - intros s [_ [Hs _]] HN. lia.
  - eapply tot_bind; [apply tot_read_type|]. intros t. eapply tot_bind; [apply tot_set_config|]. intros _.
    eapply tot_mono; [apply (IH (N - 1)); lia|lia|lia].
Qed.

Lemma tot_read_combinators act n M :
  (forall N c, tot N 0 (act c)) -> M < Z.of_nat n ->
  forall fuel N k, N <= M -> N < Z.of_nat fuel -> tot N 0 (read_combinators act n fuel k).
Proof.
  intros Hact Hn. induction fuel as [|fuel IH]; intros N k HM Hf; cbn [read_combinators];
    (destruct (k <=? 0); [tot_leaf|]).
  - intros s [_ [Hs _]] HN. lia.
  - eapply tot_bind; [apply tot_combinator; lia|]. intros c. eapply tot_bind; [apply Hact|]. intros _.
    eapply tot_mono; [apply (IH (N - 1)); lia|lia|lia].
Qed.

Lemma tot_parse_config n N : N < Z.of_nat n -> tot N 0 (parse_config n).
Proof.
  intros Hn. unfold parse_config. tot_step. eapply (tot_bind _ 0); [intros s Hs HN; cbn; split; [done|lia]|]. intros _.
  tot_step; [tot_auto|]. do 3 tot_step.
  eapply (tot_bind _ 0); [apply tot_read_types; lia|]. intros total. do 2 tot_step.
  eapply (tot_bind _ 0); [eapply (tot_read_combinators _ n N); [apply tot_link|lia|lia|lia]|]. intros _. tot_step.
  eapply (tot_bind _ 0); [eapply (tot_read_combinators _ n N); [intros; apply tot_set_config|lia|lia|lia]|].
  intros _. eapply (tot_bind _ 0); [|intros _; tot_auto]. eapply tot_try_parse.
  intros q Hq. unfold fetch_end. destruct (negb _); [by apply fetches_set_error|].
  split; [done|]. split; [exact I|]. intros ?. split; [done|lia].
Qed.

(** C31. The reader returns or stops with a fault on every file, whatever
    counts and lengths it claims to have: the loops and the recursion each
    consume data, so the number of bytes bounds them. *)
Theorem read_tl_config_total contents : Forall is_byte contents -> read_tl_config contents <> OutOfFuel.
Proof.
  intros Hb. unfold read_tl_config. destruct (bool_decide _); [done|]. destruct (negb _); [done|].
  pose proof (tot_parse_config (S (List.length contents)) (Z.of_nat (List.length contents)) ltac:(lia)
    (init_parser contents)) as H.
  destruct (parse_config _ _) as [[c s]| |]; cbn; try done. exfalso. apply H; [|cbn; lia].
  split; [done|]. split; [cbn; lia|done].
Qed.

(** A file that claims two thousand million types. *)
Lemma read_tl_config_total_witness :
  read_tl_config [0xe2; 0x9b; 0x2f; 0x3a; 0; 0; 0; 0; 0; 0; 0; 0; 0xff; 0xff; 0xff; 0x7f] <> OutOfFuel.
Proof. apply read_tl_config_total. repeat constructor; lia. Defined.
