(* ===== verification/RoundTrip.v ===== *)
(** * The reader reads what the writer wrote

    The configuration that the code generators should get from a schema
    ([config_of]), the theorem that [read_tl_config] returns it on the encoding
    of the schema, and, with the theorem of [Wire], the round trip from the
    compiler's heap through the file to the generators. *)
From Stdlib Require Import ZArith Lia List Bool Ascii String.
From stdpp Require Import base list strings gmap.
From S2P Require Import Prelude Treap Lexer Parser Symbols Combinator Unify Values Sema Writer Main Wire.
From S2P Require Import Reader.
Open Scope tl_scope.

(** ** What a schema means to the generators *)

(** The types as the trees see them: the index of an id, the arity at an index. *)
Definition sig_t : Type := gmap Z nat * list Z.

Definition sig_of (c : tl_config) : sig_t := (id_to_type c, t_arity <$> types c).

Definition sig_lookup (sg : sig_t) (id : Z) : option (nat * Z) :=
  match fst sg !! id with
  | Some i => match snd sg !! i with Some a => Some (i, a) | None => None end
  | None => None
  end.

Section Meaning.
Context (sg : sig_t).

Definition t_nat (n : wnat) : tl_tree :=
  match n with
  | WConst n => tl_tree_nat_const FLAG_NOVAR (i32 n)
  | WNat diff var => tl_tree_var_num 0 (i32 var) (i32 diff)
  end.

Definition v_nat (n : wnat) (vc : Z) : Z :=
  match n with WConst _ => vc | WNat _ var => grow (i32 var) vc end.

Definition type_index (id : Z) : nat := match sig_lookup sg (i32 id) with Some (i, _) => i | None => O end.

Definition opt_int (o : option Z) : Z := match o with Some v => i32 v | None => -1 end.

(** The tree of an expression. *)
Fixpoint t_expr (e : wexpr) : tl_tree :=
  match e with
  | WVar var => tl_tree_var_type 0 (i32 var)
  | WType id f args =>
      let children := map t_param args in
      tl_tree_type (clear_novar (Z.lor (i32 f) FLAG_NOVAR) (map flags_of children)) (type_index id) children
  | WArray m items =>
      let args := map t_field items in
      tl_tree_array (clear_novar FLAG_NOVAR (map arg_flags args)) (t_nat m) args
  end
with t_param (q : wparam) : tl_tree :=
  match q with
  | WPNat n => t_nat n
  | WPType e => t_expr e
  end
with t_field (f : wfield) : arg :=
  match f with
  | WField name f var opt ty =>
      let type := t_expr ty in
      mk_arg name (if negb (Z.land (flags_of type) FLAG_NOVAR =? 0) then Z.lor f FLAG_NOVAR else f)
        (opt_int var) (match opt with Some (v, _) => i32 v | None => -1 end)
        (match opt with Some (_, b) => i32 b | None => 0 end) type
  end.

(** The number of variables after an expression, in the order of reading. *)
Fixpoint v_expr (e : wexpr) (vc : Z) : Z :=
  match e with
  | WVar var => grow (i32 var) vc
  | WType _ _ args => fold_left (fun vc a => v_param a vc) args vc
  | WArray m items => fold_left (fun vc a => v_field a vc) items (v_nat m vc)
  end
with v_param (q : wparam) (vc : Z) : Z :=
  match q with
  | WPNat n => v_nat n vc
  | WPType e => v_expr e vc
  end
with v_field (f : wfield) (vc : Z) : Z :=
  match f with WField _ _ var _ ty => v_expr ty (grow (opt_int var) vc) end.

Definition t_comb (c : wcomb) : tl_combinator :=
  let fields := default [] (wc_left c) in
  mk_combinator (i32 (wc_name c)) (wc_id c)
    (v_expr (wc_right c) (fold_left (fun vc a => v_field a vc) fields 0))
    (i32 (wc_type c)) (map t_field fields) (t_expr (wc_right c)).

(** ** Well-formed schemas *)

Definition short {A} (l : list A) : bool := Z.of_nat (List.length l) <? 2 ^ 31.

(** A name that the format can hold: its length is less than 254. *)
Definition ok_name (s : list Z) : bool :=
  (Z.of_nat (List.length s) <? 254) && forallb (fun c => (-128 <=? c) && (c <? 128)) s.

Fixpoint ok_expr (e : wexpr) : bool :=
  match e with
  | WVar _ => true
  | WType id _ args =>
      match sig_lookup sg (i32 id) with Some (_, arity) => arity =? Z.of_nat (List.length args) | None => false end &&
      short args && forallb ok_param args
  | WArray _ items => short items && forallb ok_field items
  end
with ok_param (q : wparam) : bool :=
  match q with WPNat _ => true | WPType e => ok_expr e end
with ok_field (f : wfield) : bool :=
  match f with
  | WField name f _ _ ty =>
      ok_name name && (0 <=? f) && (f <? 2 ^ 31) && (Z.land f 6 =? 0) && ok_expr ty
  end.

Definition ok_comb (c : wcomb) : bool :=
  ok_name (wc_id c) && match wc_left c with Some l => short l && forallb ok_field l | None => true end &&
  ok_expr (wc_right c).

End Meaning.

Definition t_type (t : wtype) : tl_type :=
  mk_type (i32 (wt_name t)) (wt_id t) (i32 (wt_arity t))
    (Z.land (i32 (wt_flags t)) (Z.lnot (Z.lor 1 (Z.lor 8 (Z.lor 16 1024))))) (wt_constructors t) [].

Definition ok_type (t : wtype) : bool := ok_name (wt_id t) && (0 <=? wt_constructors t) && (wt_constructors t <? 2 ^ 31).

(** The constructors of the type [t] among [cs], in order. *)
Definition linked (cs : list tl_combinator) (t : tl_type) : tl_type :=
  mk_type (t_id t) (t_name t) (t_arity t) (t_flags t) (t_constructors_num t)
    (List.filter (fun c => k_type_id c =? t_id t) cs).

(** The configuration after the constructors [cs]. *)
Definition link (c : tl_config) (cs : list tl_combinator) : tl_config := set_types (linked cs <$> types c) c.

Definition config_types (w : wschema) : tl_config :=
  fold_left (fun c t => add_type (t_type t) c) (ws_types w) empty_config.

Definition config_of (w : wschema) : tl_config :=
  let c := config_types w in
  let cs := map (t_comb (sig_of c)) (ws_constructors w) in
  fold_left (fun c' f => add_function (t_comb (sig_of c) f) c') (ws_functions w) (link c cs).

Fixpoint distinct_ids (l : list Z) : bool :=
  match l with
  | [] => true
  | x :: l => negb (existsb (Z.eqb x) l) && distinct_ids l
  end.

(** Distinct type ids, every constructor of a declared type, as many of each
    type as the type says, and well-formed parts. *)
Definition ok_schema (w : wschema) : bool :=
  let c := config_types w in
  let cs := map (t_comb (sig_of c)) (ws_constructors w) in
  short (ws_types w) && short (ws_constructors w) && short (ws_functions w) &&
  forallb ok_type (ws_types w) &&
  forallb (ok_comb (sig_of c)) (ws_constructors w) && forallb (ok_comb (sig_of c)) (ws_functions w) &&
  distinct_ids (map t_id (types c)) &&
  forallb (fun k => existsb (Z.eqb (k_type_id k)) (map t_id (types c))) cs &&
  forallb (fun t => Z.of_nat (List.length (t_constructors (linked cs t))) =? t_constructors_num t) (types c) &&
  (Z.of_nat (List.length cs) =? fold_left Z.add (map t_constructors_num (types c)) 0).

(** ** Reading primitive values *)

(** The reader at the bytes [w] of a schema of version 2. *)
Definition at_bytes (off : Z) (w : list Z) (c : tl_config) : parser_state :=
  mk_state (mk_parser w off (Z.of_nat (List.length w)) None 0) 2 c.

(** [reads c m w a]: with the configuration [c] and the bytes [w] next, [m]
    consumes them and returns [a]. *)
Definition reads {A} (c : tl_config) (m : R A) (w : list Z) (a : A) : Prop :=
  forall off rest,
  m (at_bytes off (w ++ rest) c) = Ret (a, at_bytes (off + Z.of_nat (List.length w)) rest c).

Lemma reads_ret {A} c (a : A) : reads c (ret a) [] a.
Proof. intros off rest. cbn. by rewrite Z.add_0_r. Qed.

Lemma reads_bind {A B} c (m : R A) (k : A -> R B) w1 w2 a b :
  reads c m w1 a -> reads c (k a) w2 b -> reads c (bind m k) (w1 ++ w2) b.
Proof.
  intros Hm Hk off rest. unfold bind. rewrite <- app_assoc, Hm. cbn [rbind]. rewrite Hk, length_app.
  do 2 f_equal. f_equal. lia.
Qed.

Lemma reads_load {A B} c (m : R A) (k : A -> R B) w a b :
  reads c m [] a -> reads c (k a) w b -> reads c (bind m k) w b.
Proof. apply reads_bind. Qed.

Lemma reads_eq {A} c (m : R A) w w' a a' : reads c m w a -> w = w' -> a = a' -> reads c m w' a'.
Proof. by intros H <- <-. Qed.

Lemma le_bytes_length k z : List.length (le_bytes k z) = k.
Proof. revert z. induction k as [|k IH]; intros z; cbn; [done|]. by rewrite IH. Qed.

Lemma le_num_bytes k z : 0 <= z < 256 ^ Z.of_nat k -> le_num (le_bytes k z) = z.
Proof.
  revert z. induction k as [|k IH]; intros z Hz; cbn [le_bytes le_num].
  - cbn in Hz. lia.
  - rewrite Nat2Z.inj_succ, Z.pow_succ_r in Hz by lia. rewrite IH; [zmod|].
    split; [zmod|]. apply Z.div_lt_upper_bound; lia.
Qed.

Lemma slice_prefix (w rest : list Z) n :
  n = Z.of_nat (List.length w) -> slice (w ++ rest) 0 n = w.
Proof. intros ->. unfold slice. cbn [Z.to_nat]. by rewrite drop_0, Nat2Z.id, take_app_length. Qed.

Lemma drop_prefix (w rest : list Z) n : n = Z.of_nat (List.length w) -> drop (Z.to_nat n) (w ++ rest) = rest.
Proof. intros ->. by rewrite Nat2Z.id, drop_app_length. Qed.

(** [check_len], a load of [n] bytes and [data += n], at any version. *)
Lemma fetch_run {A} (f : list Z -> A) v c (w rest : list Z) n off :
  n = Z.of_nat (List.length w) ->
  try_parse (check_len n ;; let* b := peek 0 n in advance n ;; ret (f b))
    (mk_state (mk_parser (w ++ rest) off (Z.of_nat (List.length (w ++ rest))) None 0) v c) =
  Ret (f w, mk_state (mk_parser rest (off + n) (Z.of_nat (List.length rest)) None 0) v c).
Proof.
  intros Hn. unfold try_parse, bind, check_len, peek, advance, modify. cbn.
  rewrite length_app, Nat2Z.inj_add, <- Hn. rewrite (proj2 (Z.ltb_ge _ _)) by lia. cbn.
  rewrite length_app, Nat2Z.inj_add, <- Hn, (proj2 (Z.leb_le _ _)) by lia. cbn.
  rewrite slice_prefix, drop_prefix by done. do 3 f_equal. f_equal. lia.
Qed.

Lemma e_int_length z : List.length (e_int z) = 4%nat.
Proof. apply le_bytes_length. Qed.

Lemma int_run v c z rest off :
  try_parse_int (mk_state (mk_parser (e_int z ++ rest) off (Z.of_nat (List.length (e_int z ++ rest))) None 0) v c) =
  Ret (i32 z, mk_state (mk_parser rest (off + 4) (Z.of_nat (List.length rest)) None 0) v c).
Proof.
  unfold try_parse_int, fetch_int. rewrite fetch_run by (by rewrite e_int_length).
  unfold e_int. rewrite le_num_bytes; [|pose proof (u32_range z); lia].
  f_equal. f_equal. unfold i32, u32. zmod.
Qed.

Lemma reads_int c z : reads c try_parse_int (e_int z) (i32 z).
Proof. intros off rest. unfold at_bytes. by rewrite int_run, e_int_length. Qed.

Lemma reads_long c z : reads c try_parse_long (e_long z) (i64 z).
Proof.
  intros off rest. unfold try_parse_long, fetch_long, e_long, at_bytes.
  rewrite fetch_run by (by rewrite le_bytes_length).
  rewrite le_bytes_length, le_num_bytes; [|unfold u64; zmod].
  f_equal. f_equal. unfold i64, u64. zmod.
Qed.

Lemma schar_uchar l : forallb (fun c => (-128 <=? c) && (c <? 128)) l = true -> map schar (map uchar l) = l.
Proof.
  induction l as [|c l IH]; intros H; cbn in *; [done|]. zbool.
  rewrite IH by done. f_equal. unfold schar, uchar. zmod.
Qed.

Lemma e_str_length s :
  Z.of_nat (List.length (e_str s)) = (Z.of_nat (List.length s) / 4 + 1) * 4.
Proof.
  unfold e_str. rewrite !length_app, length_map, repeat_length. cbn [List.length].
  rewrite !Nat2Z.inj_add, Z2Nat.id by zmod. zmod.
Qed.

Lemma reads_str c s : ok_name s = true -> reads c try_parse_string (e_str s) s.
Proof.
  unfold ok_name. intros H off rest. zbool. pose proof (e_str_length s) as HL.
  set (x := Z.of_nat (List.length s)) in *. set (D := e_str s ++ rest).
  assert (HD : Z.of_nat (List.length D) = (x / 4 + 1) * 4 + Z.of_nat (List.length rest))
    by (unfold D; rewrite length_app; lia).
  assert (Hpeek : forall i n w p, data p = D -> slice D i n = w -> i + n <= Z.of_nat (List.length D) ->
    peek i n p = Ret (w, p)).
  { intros i n w q Hq <- Hin. unfold peek. rewrite Hq. by rewrite (proj2 (Z.leb_le _ _)) by done. }
  assert (Hcheck : forall n p, n <= data_len p ->
    check_len n p = Ret (tt, mk_parser (data p) (offset p) (data_len p - n) (error p) (error_pos p))).
  { intros n q Hn. unfold check_len. by rewrite (proj2 (Z.ltb_ge _ _)) by lia. }
  assert (Hx : le_num [uchar x] = x) by (cbn; unfold uchar; zmod).
  assert (Hs : slice D 1 x = map uchar s).
  { unfold slice, D, e_str, x. cbn [app]. rewrite Nat2Z.id. change (Z.to_nat 1) with 1%nat. cbn [drop].
    rewrite <- app_assoc. apply take_app_length'. by rewrite length_map. }
  unfold try_parse_string, try_parse, fetch_string, at_bytes. unfold bind at 1.
  rewrite Hcheck by (cbn [p data_len]; zmod). cbn [rbind p data offset data_len error error_pos].
  unfold bind at 1. rewrite (Hpeek 0 1 [uchar x]) by first [done|zmod]. cbn [rbind]. rewrite Hx.
  rewrite (proj2 (Z.ltb_lt _ _)) by done. rewrite (Z.shiftr_div_pow2 x) by lia. change (2 ^ 2) with 4.
  unfold bind at 1. rewrite Hcheck by (cbn [p data_len]; zmod). cbn [rbind p data offset data_len error error_pos].
  unfold bind at 1. rewrite (Hpeek 1 x (map uchar s)) by first [done|zmod].
  cbn [rbind]. unfold bind, advance, modify. cbn [rbind ret data offset data_len error error_pos schema_version config p]. rewrite schar_uchar by done.
  unfold D. rewrite drop_prefix by (by rewrite HL). do 3 f_equal. f_equal; [lia|]. unfold D in HD. lia.
Qed.

(** ** Reading expressions *)

(** Decide the comparisons of a magic number that was read. *)
Ltac magic :=
  repeat match goal with
  | |- context [i32 ?z =? ?y] =>
      let v := eval vm_compute in (i32 z =? y) in change (i32 z =? y) with v
  end; cbv iota beta; cbn [orb negb].
Ltac read_int := eapply reads_bind; [apply reads_int|]; cbv beta.
Ltac read_last := eapply reads_eq; [eapply reads_bind; [apply reads_int|]; cbv beta|apply app_nil_r|reflexivity].

Lemma reads_nat c n vc : reads c (read_nat_expr vc) (e_nat n) (t_nat n, v_nat n vc).
Proof.
  unfold read_nat_expr. destruct n as [n|diff var]; cbn [e_nat]; read_int; magic.
  - unfold read_num_const. eapply reads_eq; [|apply app_nil_r|done].
    eapply reads_bind; [|apply reads_ret]. read_last. apply reads_ret.
  - unfold read_num_var. read_int. read_last. apply reads_ret.
Qed.

Lemma reads_loop {A B} c (read : Z -> R (A * Z)) (enc : B -> list Z) (t : B -> A) (vx : B -> Z -> Z) l :
  (forall x vc, x ∈ l -> reads c (read vc) (enc x) (t x, vx x vc)) ->
  forall fuel vc, (List.length l <= fuel)%nat ->
  reads c (read_loop read fuel (Z.of_nat (List.length l)) vc) (concat (map enc l))
    (map t l, fold_left (fun vc a => vx a vc) l vc).
Proof.
  induction l as [|x l IH]; intros Hl fuel vc Hf; [destruct fuel; apply reads_ret|].
  destruct fuel as [|fuel]; cbn [List.length] in Hf; [lia|]. cbn [map concat fold_left].
  change (read_loop read (S fuel) (Z.of_nat (List.length (x :: l))) vc) with
    (if Z.of_nat (List.length (x :: l)) <=? 0 then ret ([], vc) else
     let* (y, vc) := read vc in
     let* (l', vc) := read_loop read fuel (Z.of_nat (List.length (x :: l)) - 1) vc in ret (y :: l', vc)).
  cbn [List.length]. rewrite (proj2 (Z.leb_gt _ _)) by lia.
  eapply reads_bind; [apply Hl; left|]. cbv beta iota.
  replace (Z.of_nat (S (List.length l)) - 1) with (Z.of_nat (List.length l)) by lia.
  eapply reads_eq; [eapply reads_bind; [apply IH; [|lia]|]|apply app_nil_r|done].
  - intros y vc' Hy. apply Hl. by right.
  - apply reads_ret.
Qed.

(** *** Lengths *)

Lemma concat_length_in {A} (enc : A -> list Z) l x :
  x ∈ l -> (List.length (enc x) <= List.length (concat (map enc l)))%nat.
Proof.
  induction 1 as [x l|x y l _ IH]; cbn; rewrite length_app; lia.
Qed.

Lemma concat_length_count {A} (enc : A -> list Z) l :
  (forall x, (1 <= List.length (enc x))%nat) -> (List.length l <= List.length (concat (map enc l)))%nat.
Proof.
  intros H. induction l as [|x l IH]; cbn; [lia|]. rewrite length_app. specialize (H x). lia.
Qed.

Lemma e_param_length q : (1 <= List.length (e_param q))%nat.
Proof. destruct q; cbn [e_param]; rewrite length_app, e_int_length; lia. Qed.
Lemma e_field_length f : (1 <= List.length (e_field f))%nat.
Proof. destruct f; cbn [e_field]; rewrite length_app, e_int_length; lia. Qed.

(** *** Flags of arguments *)

Lemma lor_land_clear f k : Z.land f k = 0 -> Z.land (Z.lor f k) (Z.lnot k) = f.
Proof.
  intros H. apply Z.bits_inj'. intros n Hn. rewrite Z.land_spec, Z.lor_spec, Z.lnot_spec by done.
  assert (Hb : Z.testbit (Z.land f k) n = false) by (rewrite H; apply Z.bits_0). rewrite Z.land_spec in Hb.
  by destruct (Z.testbit f n), (Z.testbit k n).
Qed.

Lemma lor_small f k : 0 <= f < 2 ^ 31 -> 0 <= k < 8 -> i32 (Z.lor f k) = Z.lor f k.
Proof.
  intros Hf Hk. apply i32_small. split; [assert (0 <= Z.lor f k) by (apply Z.lor_nonneg; lia); lia|].
  apply testbit_small; [lia|apply Z.lor_nonneg; lia|]. intros n Hn.
  rewrite Z.lor_spec, (testbit_high f 31), (testbit_high k 3); [done|lia..].
Qed.

(** What the reader makes of the flags of an argument. *)
Lemma flags_read f (o v : bool) :
  0 <= f < 2 ^ 31 -> Z.land f 6 = 0 ->
  let F := i32 (Z.lor f (Z.lor (if o then 2 else 0) (if v then 4 else 0))) in
  negb (Z.land F 2 =? 0) = o /\
  let F1 := if o then Z.land F (Z.lnot 2) else F in
  negb (Z.land F1 4 =? 0) = v /\ (if v then Z.land F1 (Z.lnot 4) else F1) = f.
Proof.
  intros Hf H6. cbv zeta. rewrite lor_small by first [lia|by destruct o, v].
  assert (H2 : Z.land f 2 = 0).
  { change 2 with (Z.land 6 2). by rewrite Z.land_assoc, H6. }
  assert (H4 : Z.land f 4 = 0).
  { change 4 with (Z.land 6 4). by rewrite Z.land_assoc, H6. }
  assert (Hv : Z.land (Z.lor f 4) 2 = 0) by (by rewrite Z.land_lor_distr_l, H2).
  destruct o, v; rewrite ?Z.lor_0_r, ?Z.lor_0_l.
  - rewrite (Z.lor_comm 2 4), Z.lor_assoc. rewrite (lor_land_clear (Z.lor f 4) 2) by done. rewrite (Z.land_lor_distr_l _ 2 2), Hv, Z.land_lor_distr_l, H4.
    by rewrite lor_land_clear.
  - rewrite lor_land_clear by done. by rewrite (Z.land_lor_distr_l _ 2 2), H2, H4.
  - rewrite lor_land_clear by done. by rewrite Hv, Z.land_lor_distr_l, H4.
  - by rewrite H2, H4.
Qed.

Section Trees.
Context (c : tl_config).
Local Abbreviation sg := (sig_of c).
Local Abbreviation reads := (reads c).

Lemma reads_get_type id i a :
  sig_lookup sg id = Some (i, a) -> exists t, t_arity t = a /\ reads (get_type id) [] (i, t).
Proof.
  unfold sig_lookup. cbn [fst snd sig_of]. destruct (id_to_type c !! id) as [j|] eqn:Ej; [|done].
  rewrite list_lookup_fmap.
  destruct (types c !! j) as [t|] eqn:Et; [|done]. intros [= <- <-]. exists t. split; [done|].
  intros off rest. unfold get_type, bind, get. cbn. rewrite Ej. rewrite Et. cbn. by rewrite Z.add_0_r.
Qed.

(** An argument, given that [read] reads its type. *)
Lemma reads_field read f vc :
  ok_field sg f = true ->
  (forall vc, let 'WField _ _ _ _ ty := f in reads (read vc) (e_expr ty) (t_expr sg ty, v_expr ty vc)) ->
  reads (read_arg read vc) (e_field f) (t_field sg f, v_field f vc).
Proof.
  destruct f as [name f var opt ty]. cbn [ok_field]. intros Hok Hty. zbool.
  intros off rest. unfold read_arg, bind at 1, get. cbn [rbind schema_version at_bytes].
  change (Z.shiftl 2 (if 2 >=? 3 then 1 else 0)) with 2. change (Z.lxor 2 6) with 4. cbv zeta.
  match goal with |- ?m (at_bytes off (?w ++ rest) c) = Ret (?a, _) => revert off rest; change (reads m w a) end.
  cbn [e_field t_field v_field]. read_int. magic.
  eapply reads_bind; [by apply reads_str|]. read_int.
  destruct (flags_read f (match opt with Some _ => true | None => false end)
    (match var with Some _ => true | None => false end)) as (Ho & Hv & Hf); [lia|done|].
  assert (Hlast : forall n k b, reads
    (let* (type, vc) := read (grow (opt_int var) vc) in
     ret (mk_arg name (if negb (Z.land (flags_of type) FLAG_NOVAR =? 0) then Z.lor f FLAG_NOVAR else f) n k b type, vc))
    (e_expr ty)
    (mk_arg name (if negb (Z.land (flags_of (t_expr sg ty)) FLAG_NOVAR =? 0) then Z.lor f FLAG_NOVAR else f) n k b
       (t_expr sg ty), v_expr ty (grow (opt_int var) vc))).
  { intros n k b. eapply reads_eq; [eapply reads_bind; [apply Hty|apply reads_ret]|apply app_nil_r|done]. }
  destruct opt as [[ev eb]|], var as [v|]; cbn [e_opt opt_int app] in *; cbv beta iota zeta in Ho, Hv, Hf;
    rewrite Ho, Hv, Hf.
  - read_int. eapply reads_bind; [read_int; read_last; apply reads_ret|]. apply Hlast.
  - eapply reads_load; [apply reads_ret|].
    eapply reads_bind; [read_int; read_last; apply reads_ret|]. apply Hlast.
  - read_int. eapply reads_load; [apply reads_ret|]. apply Hlast.
  - eapply reads_load; [apply reads_ret|]. eapply reads_load; [apply reads_ret|]. apply Hlast.
Qed.

Lemma reads_args read l fuel vc :
  short l = true -> forallb (ok_field sg) l = true ->
  (List.length (concat (map e_field l)) <= fuel)%nat ->
  (forall f vc, f ∈ l -> let 'WField _ _ _ _ ty := f in reads (read vc) (e_expr ty) (t_expr sg ty, v_expr ty vc)) ->
  reads (read_args_list read fuel vc) (e_fields l)
    (map (t_field sg) l, fold_left (fun vc a => v_field a vc) l vc).
Proof.
  intros Hs Hok Hf Hread. unfold read_args_list, e_fields, e_count. read_int.
  unfold short in Hs. rewrite i32_small by lia. rewrite (proj2 (Z.ltb_ge _ _)) by lia.
  apply (reads_loop c (read_arg read)).
  - intros f vc' Hin. apply reads_field; [|intros vc1; by apply Hread].
    rewrite forallb_forall in Hok. by apply Hok, list_elem_of_In.
  - etransitivity; [|exact Hf]. apply concat_length_count, e_field_length.
Qed.

Lemma reads_expr n e vc :
  ok_expr sg e = true -> (List.length (e_expr e) <= n)%nat ->
  reads (read_type_expr n vc) (e_expr e) (t_expr sg e, v_expr e vc).
Proof.
  revert e vc. induction n as [|n IH]; intros e vc Hok Hlen.
  { destruct e; cbn [e_expr] in Hlen; rewrite length_app, e_int_length in Hlen; lia. }
  cbn [read_type_expr].
  destruct e as [var|id f args|m items]; cbn [e_expr ok_expr] in *; read_int; magic.
  - unfold read_type_var. read_int. read_last. eapply reads_load; [apply reads_ret|]. apply reads_ret.
  - destruct (sig_lookup sg (i32 id)) as [[i a]|] eqn:Hid; [|done]. zbool.
    rewrite !length_app, !e_int_length in Hlen.
    destruct (reads_get_type _ _ _ Hid) as (t & Ha & Ht).
    unfold read_tree_type, e_count. read_int. eapply reads_load; [exact Ht|]. cbv beta iota. read_int. read_int.
    unfold short in *. rewrite i32_small by lia. rewrite (proj2 (Z.eqb_eq (t_arity t) _)) by lia.
    eapply reads_load; [apply reads_ret|]. rewrite (proj2 (Z.ltb_ge _ _)) by lia.
    eapply reads_eq; [eapply reads_bind|apply app_nil_r|].
    + apply (reads_loop c (read_expr (read_type_expr n)) e_param (t_param sg) v_param).
      * intros q vc' Hin. pose proof (concat_length_in e_param args q Hin) as HL.
        rewrite forallb_forall in *. unfold read_expr. destruct q as [x|x]; cbn [e_param] in *; read_int; magic.
        -- apply reads_nat.
        -- rewrite length_app in HL. apply IH; [|lia].
           match goal with H : forall x, In x args -> _ |- _ => apply (H (WPType x)) end. by apply list_elem_of_In.
      * pose proof (concat_length_count e_param args e_param_length). unfold e_count in *. lia.
    + apply reads_ret.
    + cbn [t_expr v_expr]. unfold type_index. by rewrite Hid.
  - zbool. unfold read_array. rewrite !length_app, !e_int_length in Hlen.
    eapply reads_bind; [apply reads_nat|]. cbv beta iota. change (e_count items ++ _) with (e_fields items).
    eapply reads_eq; [eapply reads_bind; [apply (reads_args (read_type_expr n) items n)|apply reads_ret]|apply app_nil_r|done];
      [done|done|lia|].
    intros [name f var opt ty] vc' Hin. pose proof (concat_length_in e_field items _ Hin) as HL.
    cbn [e_field] in HL. rewrite !length_app in HL. apply IH; [|lia].
    match goal with H : forallb _ items = true |- _ => rewrite forallb_forall in H;
      apply list_elem_of_In, H in Hin end. cbn [ok_field] in Hin. by zbool.
Qed.
Lemma reads_expect z m : i32 z = m -> reads (expect m) (e_int z) tt.
Proof. intros <-. unfold expect. read_last. rewrite Z.eqb_refl. apply reads_ret. Qed.

Lemma reads_comb n w :
  ok_comb sg w = true -> (List.length (e_item w) <= n)%nat ->
  reads (read_combinator n) (e_item w) (t_comb sg w).
Proof.
  unfold ok_comb, e_item, e_comb. intros Hok Hlen. zbool. rewrite !length_app in Hlen.
  unfold read_combinator. eapply reads_bind; [by apply reads_expect|]. read_int.
  eapply reads_bind; [by apply reads_str|]. read_int.
  set (fields := default [] (wc_left w)). set (vc := fold_left (fun vc a => v_field a vc) fields 0).
  assert (Hrest : reads
    (expect TLS_COMBINATOR_RIGHT_V2 ;;
     let* (result, var_count) := read_type_expr n vc in
     ret (mk_combinator (i32 (wc_name w)) (wc_id w) var_count (i32 (wc_type w)) (map (t_field sg) fields) result))
    (e_int Writer.TLS_COMBINATOR_RIGHT_V2 ++ e_expr (wc_right w)) (t_comb sg w)).
  { eapply reads_bind; [by apply reads_expect|].
    eapply reads_eq; [eapply reads_bind; [apply reads_expr; [done|lia]|apply reads_ret]|apply app_nil_r|done]. }
  destruct (wc_left w) as [l|] eqn:El; zbool.
  - rewrite <- app_assoc. read_int. magic. rewrite length_app in Hlen.
    eapply (reads_bind c _ _ _ _ (map (t_field sg) l, fold_left (fun vc a => v_field a vc) l 0)); [|exact Hrest].
    apply reads_args; [done|done| |].
    + unfold e_fields in Hlen. rewrite length_app in Hlen. lia.
    + intros [name f var opt ty] vc' Hin. pose proof (concat_length_in e_field l _ Hin) as HL.
      unfold e_fields in Hlen. rewrite length_app in Hlen. cbn [e_field] in HL. rewrite !length_app in HL.
      apply reads_expr; [|lia].
      match goal with H : forallb _ l = true |- _ => rewrite forallb_forall in H;
        apply list_elem_of_In, H in Hin end. cbn [ok_field] in Hin. by zbool.
  - read_int. magic. eapply (reads_load c _ _ _ ([], 0)); [apply reads_ret|]. exact Hrest.
Qed.

Lemma reads_type t : ok_type t = true -> reads read_type (e_type t) (t_type t).
Proof.
  unfold ok_type, e_type, read_type. intros Hok. zbool.
  eapply reads_bind; [by apply reads_expect|]. read_int. eapply reads_bind; [by apply reads_str|]. read_int.
  rewrite (i32_small (wt_constructors t)) by lia. rewrite (proj2 (Z.ltb_ge _ _)) by lia. read_int. read_int.
  eapply reads_eq; [eapply reads_bind; [apply reads_long|apply reads_ret]|apply app_nil_r|done].
Qed.
End Trees.

(** ** Reading the schema *)

(** Types are added in order, and their numbers of constructors summed. *)
Lemma read_types_run ts : forall fuel total c off rest,
  forallb ok_type ts = true -> (List.length ts <= fuel)%nat ->
  read_types fuel (Z.of_nat (List.length ts)) (u64 total) (at_bytes off (concat (map e_type ts) ++ rest) c) =
  Ret (u64 (fold_left Z.add (map wt_constructors ts) total),
       at_bytes (off + Z.of_nat (List.length (concat (map e_type ts)))) rest
         (fold_left (fun c t => add_type (t_type t) c) ts c)).
Proof.
  induction ts as [|t ts IH]; intros fuel total c off rest Hok Hf.
  { destruct fuel; cbn; by rewrite Z.add_0_r. }
  cbn [forallb] in Hok. zbool. destruct fuel as [|fuel]; cbn [List.length] in Hf; [lia|].
  cbn [read_types]. rewrite (proj2 (Z.leb_gt _ _)) by (cbn [List.length]; lia). cbn [map concat].
  unfold bind. rewrite <- app_assoc, (reads_type c t) by done. cbn [rbind].
  unfold set_config, modify. cbn [rbind p schema_version config at_bytes].
  replace (u64 (u64 total + t_constructors_num (t_type t))) with (u64 (total + wt_constructors t))
    by (cbn; unfold u64; zmod).
  replace (Z.of_nat (List.length (t :: ts)) - 1) with (Z.of_nat (List.length ts)) by (cbn [List.length]; lia).
  match goal with |- read_types _ _ _ ?st = _ => change st with
    (at_bytes (off + Z.of_nat (List.length (e_type t))) (concat (map e_type ts) ++ rest) (add_type (t_type t) c)) end.
  rewrite IH by (done || lia). cbn [fold_left]. do 3 f_equal. rewrite length_app. lia.
Qed.

(** A loop of combinators: [cfg] is the configuration after a prefix of them,
    which does not change what the trees mean. *)
Lemma read_combinators_run (act : tl_combinator -> R unit) (cfg : list wcomb -> tl_config) sg n l :
  (forall pre, sig_of (cfg pre) = sg) ->
  forallb (ok_comb sg) l = true -> (List.length (concat (map e_item l)) <= n)%nat ->
  (forall pre k post off w, l = pre ++ k :: post ->
     act (t_comb sg k) (at_bytes off w (cfg pre)) = Ret (tt, at_bytes off w (cfg (pre ++ [k])))) ->
  forall fuel pre post off rest, l = pre ++ post -> (List.length post <= fuel)%nat ->
  read_combinators act n fuel (Z.of_nat (List.length post))
    (at_bytes off (concat (map e_item post) ++ rest) (cfg pre)) =
  Ret (tt, at_bytes (off + Z.of_nat (List.length (concat (map e_item post)))) rest (cfg l)).
Proof.
  intros Hsg Hok Hn Hact fuel pre post. revert fuel pre.
  induction post as [|k post IH]; intros fuel pre off rest Hl Hf.
  { rewrite app_nil_r in Hl. subst pre. destruct fuel; cbn; by rewrite Z.add_0_r. }
  destruct fuel as [|fuel]; cbn [List.length] in Hf; [lia|].
  cbn [read_combinators]. rewrite (proj2 (Z.leb_gt _ _)) by (cbn [List.length]; lia). cbn [map concat].
  assert (Hin : k ∈ l) by (rewrite Hl; apply elem_of_app; right; left).
  pose proof (concat_length_in e_item l k Hin) as HL. rewrite forallb_forall in Hok.
  apply list_elem_of_In, Hok in Hin. rewrite <- (Hsg pre) in Hin.
  unfold bind. rewrite <- app_assoc, (reads_comb (cfg pre) n k) by (done || lia). cbn [rbind].
  rewrite Hsg, (Hact pre k post) by done. cbn [rbind].
  replace (Z.of_nat (List.length (k :: post)) - 1) with (Z.of_nat (List.length post)) by (cbn [List.length]; lia).
  rewrite (IH fuel (pre ++ [k])) by (lia || by rewrite <- app_assoc).
  do 3 f_equal. rewrite length_app. lia.
Qed.

(** *** Linking constructors *)

Lemma distinct_ids_spec l : distinct_ids l = true -> NoDup l.
Proof.
  induction l as [|x l IH]; cbn; intros H; [constructor|]. zbool. constructor; [|by apply IH].
  intros Hin. apply not_true_iff_false in H. apply H, existsb_exists. exists x.
  split; [by apply list_elem_of_In|apply Z.eqb_refl].
Qed.

Lemma config_types_list ts : forall c,
  types (fold_left (fun c t => add_type (t_type t) c) ts c) = types c ++ map t_type ts.
Proof.
  induction ts as [|t ts IH]; intros c; cbn [fold_left map]; [by rewrite app_nil_r|].
  rewrite IH. cbn. by rewrite <- app_assoc.
Qed.

(** The map from ids finds every declared type. *)
Lemma config_types_ok ts : forall c,
  NoDup (map t_id (types c) ++ map (fun t => t_id (t_type t)) ts) ->
  (forall i t, types c !! i = Some t -> id_to_type c !! t_id t = Some i) ->
  let c' := fold_left (fun c t => add_type (t_type t) c) ts c in
  forall i t, types c' !! i = Some t -> id_to_type c' !! t_id t = Some i.
Proof.
  induction ts as [|t ts IH]; intros c Hnd Hc; cbn [fold_left map]; [done|].
  apply (IH (add_type (t_type t) c)).
  - cbn. rewrite map_app. cbn. by rewrite <- app_assoc.
  - intros i u. cbn. intros Hu. apply lookup_app_Some in Hu as [Hu|[Hlen Hu]].
    + rewrite lookup_insert_ne; [by apply Hc|]. intros E. apply NoDup_app in Hnd as (_ & Hnd & _).
      apply (Hnd (t_id u)); [|rewrite <- E; left].
      apply list_elem_of_In, in_map, list_elem_of_In. by eapply list_elem_of_lookup_2.
    + apply list_lookup_singleton_Some in Hu as [Hi <-]. rewrite lookup_insert_eq. f_equal. lia.
Qed.

Lemma link_sig c cs : sig_of (link c cs) = sig_of c.
Proof. unfold sig_of, link. cbn. f_equal. rewrite <- list_fmap_compose. by apply list_fmap_ext. Qed.

Lemma linked_app cs k t :
  linked (cs ++ [k]) t =
  if k_type_id k =? t_id t
  then mk_type (t_id t) (t_name t) (t_arity t) (t_flags t) (t_constructors_num t) (t_constructors (linked cs t) ++ [k])
  else linked cs t.
Proof. unfold linked. rewrite List.filter_app. cbn. destruct (_ =? _); [done|]. by rewrite app_nil_r. Qed.

Lemma link_step c cs k post off w :
  (forall i t, types c !! i = Some t -> id_to_type c !! t_id t = Some i) ->
  In (k_type_id k) (map t_id (types c)) ->
  (forall t, t ∈ types c ->
     Z.of_nat (List.length (t_constructors (linked (cs ++ k :: post) t))) = t_constructors_num t) ->
  link_constructor k (at_bytes off w (link c cs)) = Ret (tt, at_bytes off w (link c (cs ++ [k]))).
Proof.
  intros Hid Hin Hnum. apply in_map_iff in Hin as (t & Ek & Ht).
  apply list_elem_of_In, list_elem_of_lookup in Ht as [i Hi].
  assert (Hk : k_type_id k = t_id t) by done.
  unfold link_constructor, get_type, bind, get. cbn [rbind config at_bytes link set_types id_to_type types].
  rewrite Hk, (Hid i t Hi), list_lookup_fmap, Hi. cbn [fmap option_fmap option_map ret rbind].
  unfold add_constructor. cbn [t_constructors linked t_constructors_num t_id t_name t_arity t_flags].
  assert (Hle : Z.of_nat (List.length (List.filter (fun c => k_type_id c =? t_id t) cs ++ [k])) <= t_constructors_num t).
  { rewrite <- (Hnum t) by (by eapply list_elem_of_lookup_2). cbn [t_constructors linked].
    rewrite List.filter_app, !length_app. cbn [List.filter]. rewrite Hk, Z.eqb_refl. cbn [List.length]. lia. }
  rewrite (proj2 (Z.leb_le _ _) Hle). cbn [rbind]. unfold set_config, modify.
  cbn [p schema_version config at_bytes set_types types id_to_type name_to_type functions id_to_function name_to_function].
  do 2 f_equal. unfold at_bytes, link. f_equal. unfold set_types. cbn. f_equal.
  apply list_eq. intros j. rewrite list_lookup_fmap. destruct (decide (j = i)) as [->|Hne].
  - rewrite list_lookup_insert_eq; [|rewrite length_fmap; by eapply lookup_lt_Some].
    rewrite Hi. cbn. rewrite linked_app, Hk, Z.eqb_refl. done.
  - rewrite list_lookup_insert_ne, list_lookup_fmap by done.
    destruct (types c !! j) as [u|] eqn:Hj; [|done]. cbn. rewrite linked_app, Hk.
    destruct (Z.eqb_spec (t_id t) (t_id u)) as [E|]; [|done]. exfalso. apply Hne.
    pose proof (Hid i t Hi). pose proof (Hid j u Hj). congruence.
Qed.

(** *** The length of the file *)

Definition words (w : list Z) : Prop := Z.of_nat (List.length w) mod 4 = 0.

Lemma words_nil : words [].
Proof. done. Qed.
Lemma words_app a b : words a -> words b -> words (a ++ b).
Proof. unfold words. rewrite length_app. zmod. Qed.
Lemma words_int z : words (e_int z).
Proof. unfold words. by rewrite e_int_length. Qed.
Lemma words_str s : words (e_str s).
Proof. unfold words. rewrite e_str_length. zmod. Qed.
Lemma words_long z : words (e_long z).
Proof. unfold words, e_long. by rewrite le_bytes_length. Qed.
Lemma words_concat {A} (enc : A -> list Z) l : (forall x, x ∈ l -> words (enc x)) -> words (concat (map enc l)).
Proof.
  induction l as [|x l IH]; intros H; cbn; [apply words_nil|].
  apply words_app; [apply H; left|apply IH; intros y Hy; apply H; by right].
Qed.

Create HintDb words.
#[export] Hint Resolve words_nil words_app words_int words_str words_long words_concat : words.

Lemma words_nat n : words (e_nat n).
Proof. destruct n; cbn [e_nat]; auto with words. Qed.
#[export] Hint Resolve words_nat : words.

Lemma words_expr n e : (List.length (e_expr e) <= n)%nat -> words (e_expr e).
Proof.
  revert e. induction n as [|n IH]; intros e Hlen.
  { destruct e; cbn [e_expr] in Hlen; rewrite length_app, e_int_length in Hlen; lia. }
  destruct e as [var|id f args|m items]; cbn [e_expr] in *; unfold e_count; auto 10 with words.
  - rewrite !length_app, !e_int_length in Hlen. repeat apply words_app; auto with words. apply words_concat.
    intros q Hq. pose proof (concat_length_in e_param args q Hq). destruct q as [x|x]; cbn [e_param] in *; auto with words.
    apply words_app; auto with words. apply IH. rewrite length_app in *. lia.
  - rewrite !length_app, !e_int_length in Hlen. repeat apply words_app; auto with words. apply words_concat.
    intros f Hf. pose proof (concat_length_in e_field items f Hf).
    destruct f as [name f var opt ty]; cbn [e_field] in *. rewrite !length_app in *.
    assert (words (e_expr ty)) by (apply IH; lia).
    destruct var, opt as [[]|]; cbn [e_opt]; auto 10 with words.
Qed.

Lemma words_schema w : words (e_schema w).
Proof.
  assert (Hexpr : forall e, words (e_expr e)) by (intros e; by eapply words_expr).
  assert (Hfield : forall f, words (e_field f)).
  { intros [name f var opt ty]. cbn [e_field]. destruct var, opt as [[]|]; cbn [e_opt]; auto 10 with words. }
  assert (Hcomb : forall k, words (e_item k)).
  { intros k. unfold e_item, e_comb, e_fields, e_count. destruct (wc_left k); auto 15 with words. }
  assert (Htype : forall t, words (e_type t)) by (intros t; unfold e_type; auto 15 with words).
  unfold e_schema, e_count. auto 20 with words.
Qed.

Lemma short_count {A} (l : list A) : short l = true -> i32 (Z.of_nat (List.length l)) = Z.of_nat (List.length l).
Proof. unfold short. intros H. apply i32_small. lia. Qed.

Lemma e_type_length t : (1 <= List.length (e_type t))%nat.
Proof. unfold e_type. rewrite length_app, e_int_length. lia. Qed.
Lemma e_item_length k : (1 <= List.length (e_item k))%nat.
Proof. unfold e_item. rewrite length_app, e_int_length. lia. Qed.

Lemma map_fold_add (ts : list wtype) n :
  fold_left Z.add (map wt_constructors ts) n = fold_left Z.add (map t_constructors_num (map t_type ts)) n.
Proof. revert n. induction ts as [|t ts IH]; intros n; cbn; [done|]. by rewrite IH. Qed.

Lemma add_functions_sig sg l c :
  sig_of (fold_left (fun c' f => add_function (t_comb sg f) c') l c) = sig_of c.
Proof. revert c. induction l as [|f l IH]; intros c; cbn [fold_left]; [done|]. by rewrite IH. Qed.

Lemma run_bind {A B} (m : R A) (k : A -> R B) s a s' : m s = Ret (a, s') -> bind m k s = k a s'.
Proof. unfold bind. by intros ->. Qed.

(** The three loops of [parse_config] on their part of the schema. *)
Section Loops.
Context (w : wschema) (n : nat).
Hypothesis Hok : ok_schema w = true.
Hypothesis Hn : (List.length (e_schema w) <= n)%nat.
Local Abbreviation c := (config_types w).
Local Abbreviation cs := (map (t_comb (sig_of (config_types w))) (ws_constructors w)).

Lemma schema_lengths :
  (List.length (concat (map e_type (ws_types w))) <= n)%nat /\
  (List.length (concat (map e_item (ws_constructors w))) <= n)%nat /\
  (List.length (concat (map e_item (ws_functions w))) <= n)%nat.
Proof. unfold e_schema in Hn. rewrite !length_app in Hn. lia. Qed.

Lemma types_run off rest :
  read_types n (Z.of_nat (List.length (ws_types w))) 0
    (at_bytes off (concat (map e_type (ws_types w)) ++ rest) empty_config) =
  Ret (u64 (Z.of_nat (List.length (ws_constructors w))),
       at_bytes (off + Z.of_nat (List.length (concat (map e_type (ws_types w))))) rest c).
Proof.
  destruct schema_lengths as (HL & _ & _). unfold ok_schema in Hok. cbv zeta in Hok. zbool.
  change 0 with (u64 0) at 1. rewrite read_types_run; [|done|].
  - rewrite map_fold_add. do 3 f_equal.
    match goal with H : Z.of_nat _ = fold_left Z.add _ _ |- _ => revert H end.
    unfold config_types. rewrite config_types_list. cbn [types empty_config app]. by rewrite length_map.
  - etransitivity; [|exact HL]. apply concat_length_count, e_type_length.
Qed.

Lemma link_nil : link c [] = c.
Proof.
  assert (H : linked [] <$> types c = types c).
  { unfold config_types. rewrite config_types_list. cbn [types empty_config app].
    rewrite <- (list_fmap_id (map t_type (ws_types w))) at 2. apply list_fmap_ext.
    intros i t Ht. apply list_elem_of_lookup_2, list_elem_of_In, in_map_iff in Ht as (u & <- & _). done. }
  unfold link. rewrite H. by destruct c.
Qed.

Lemma constructors_run off rest :
  read_combinators link_constructor n n (Z.of_nat (List.length (ws_constructors w)))
    (at_bytes off (concat (map e_item (ws_constructors w)) ++ rest) c) =
  Ret (tt, at_bytes (off + Z.of_nat (List.length (concat (map e_item (ws_constructors w))))) rest (link c cs)).
Proof.
  destruct schema_lengths as (_ & HL & _). unfold ok_schema in Hok. cbv zeta in Hok. zbool.
  assert (Hid : forall i t, types c !! i = Some t -> id_to_type c !! t_id t = Some i).
  { unfold config_types. apply config_types_ok; [|done]. cbn [types empty_config map app].
    match goal with H : distinct_ids _ = true |- _ => apply distinct_ids_spec in H; revert H end.
    unfold config_types. rewrite config_types_list. cbn [types empty_config app]. by rewrite map_map. }
  rewrite <- link_nil at 1.
  apply (read_combinators_run link_constructor (fun pre => link c (map (t_comb (sig_of c)) pre)) (sig_of c) n
    (ws_constructors w)) with (pre := []); try done.
  - intros pre. apply link_sig.
  - intros pre k post off' w' E. rewrite map_app. eapply (link_step _ _ _ (map (t_comb (sig_of c)) post)); [done|..].
    + rewrite forallb_forall in *.
      match goal with H : forall x, In x cs -> existsb _ _ = true |- _ =>
        specialize (H (t_comb (sig_of c) k)); apply existsb_exists in H as (x & Hx & Ex%Z.eqb_eq) end.
      * by rewrite Ex.
      * rewrite E, map_app. apply in_or_app. right. by left.
    + intros t Ht. rewrite forallb_forall in *. apply Z.eqb_eq.
      apply list_elem_of_In in Ht. rewrite E, map_app in *. auto.
  - etransitivity; [|exact HL]. apply concat_length_count, e_item_length.
Qed.

Lemma functions_run off rest :
  read_combinators (fun f => set_config (add_function f)) n n (Z.of_nat (List.length (ws_functions w)))
    (at_bytes off (concat (map e_item (ws_functions w)) ++ rest) (link c cs)) =
  Ret (tt, at_bytes (off + Z.of_nat (List.length (concat (map e_item (ws_functions w))))) rest (config_of w)).
Proof.
  destruct schema_lengths as (_ & _ & HL). unfold ok_schema in Hok. cbv zeta in Hok. zbool.
  apply (read_combinators_run (fun f => set_config (add_function f))
    (fun pre => fold_left (fun c' f => add_function (t_comb (sig_of c) f) c') pre (link c cs)) (sig_of c) n
    (ws_functions w)) with (pre := []); try done.
  - intros pre. by rewrite add_functions_sig, link_sig.
  - intros pre k post off' w' _. by rewrite fold_left_app.
  - etransitivity; [|exact HL]. apply concat_length_count, e_item_length.
Qed.

(** The run of [parse_config] on the encoding of a well-formed schema. *)
Lemma parse_config_run :
  exists s, parse_config n (init_parser (e_schema w)) = Ret (config_of w, s).
Proof.
  pose proof Hok as H. unfold ok_schema in H. cbv zeta in H. zbool.
  unfold parse_config, init_parser, e_schema, e_count.
  erewrite run_bind by apply int_run. magic. unfold bind at 1, set_version, modify. cbn [rbind].
  change (get_schema_version (i32 Writer.TLS_SCHEMA_V2)) with 2. cbn [Z.ltb Z.compare Pos.compare Pos.compare_cont].
  cbn [p config]. change (mk_state (mk_parser ?l (0 + 4) _ None 0) 2 empty_config) with (at_bytes 4 l empty_config).
  do 3 (erewrite run_bind by apply reads_int; cbv beta). rewrite short_count by done.
  erewrite run_bind by apply types_run. cbv beta. erewrite run_bind by apply reads_int. cbv beta.
  rewrite short_count by done. rewrite Z.eqb_refl. unfold bind at 1. cbn [assert ret rbind].
  erewrite run_bind by apply constructors_run. cbv beta. erewrite run_bind by apply reads_int. cbv beta.
  rewrite short_count by done.
  match goal with |- context [at_bytes ?o _ (link _ _)] => pose proof (functions_run o []) as Hf end.
  rewrite app_nil_r in Hf. erewrite run_bind by exact Hf. cbv beta. eexists. reflexivity.
Qed.
End Loops.

(** ** The round trip *)

Lemma read_encoded w : ok_schema w = true -> read_tl_config (e_schema w) = Ret (config_of w).
Proof.
  intros Hok. unfold read_tl_config. rewrite bool_decide_eq_false_2.
  - pose proof (words_schema w) as Hw. unfold words in Hw. rewrite Hw. cbn [Z.eqb negb].
    destruct (parse_config_run w (S (List.length (e_schema w))) Hok) as [s ->]; [lia|done].
  - intros E. apply (f_equal (@List.length Z)) in E. unfold e_schema in E.
    rewrite length_app, e_int_length in E. cbn in E. lia.
Qed.

(** C11. The code generators read what the format says: on the encoding of a
    well-formed schema [read_tl_config] returns the configuration of the
    schema, with the trees, the flags, the numbers of variables, the
    constructors linked to their types and the functions. *)
Theorem read_tl_config_encoded w : ok_schema w = true -> read_tl_config (e_schema w) = Ret (config_of w).
Proof. apply read_encoded. Qed.

Lemma read_tl_config_encoded_witness :
  read_tl_config (e_schema demo_schema) = Ret (config_of demo_schema).
Proof. apply read_tl_config_encoded. vm_compute. reflexivity. Defined.

(** C8. Compiler to generators: from a heap that holds a well-formed schema,
    with its addresses in one window of 2 GB, the file that [write_types] writes
    is read back by [read_tl_config] as the configuration of that schema. *)
Theorem schema_roundtrip lrand48 address base fuel s w :
  (forall p, base <= address p < base + 2 ^ 31) ->
  schema_of address fuel s = Ret w -> ok_schema w = true -> file s = [] ->
  exists s', write_types lrand48 address fuel s = Ret (tt, s') /\ read_tl_config (file s') = Ret (config_of w).
Proof.
  intros Hw H Hok Hf. destruct (write_types_follows lrand48 address base fuel s w Hw H) as [d E].
  eexists. split; [exact E|]. rewrite <- (read_encoded w Hok). rewrite Hf. by destruct s.
Qed.

Lemma schema_roundtrip_witness :
  exists s', write_types demo_draws demo_address 40 demo_state = Ret (tt, s') /\
    read_tl_config (file s') = Ret (config_of demo_schema).
Proof.
  apply (schema_roundtrip demo_draws demo_address 0 40 demo_state demo_schema demo_window);
    vm_compute; reflexivity.
Defined.

(** ** Names of 254 characters *)

(** C37. The writer accepts a name of 254 characters, and writes 254 as its
    length byte; to the reader that byte means that a length of three bytes
    follows.  With the first three characters of a name as the length, the
    reader wants more than the file has left, and copies from beyond the
    eight zero bytes that its error handling put in place of the data. *)
Theorem name_254_not_read c name rest off s :
  List.length name = 254%nat -> Forall (fun x => 0 < x < 128) name -> Z.of_nat (List.length rest) < 65000 ->
  (exists s', wstr (Some name) s = Ret (tt, s') /\ file s' = file s ++ e_str name) /\
  try_parse_string (at_bytes off (e_str name ++ rest) c) = Fault OutOfBounds.
Proof.
  intros HL HF Hrest. split.
  - destruct (emits_wstr (nodes s) (tys s) (constructors s) name) with (s := s) as ([] & d & E & _);
      [rewrite HL; lia|done..|]. eexists. split; [exact E|]. by destruct s.
  - pose proof (e_str_length name) as Hlen. rewrite HL in Hlen. change ((Z.of_nat 254 / 4 + 1) * 4) with 256 in Hlen.
    destruct name as [|a [|b [|d name]]]; try done. inversion_clear HF as [|? ? Ha HF1].
    inversion_clear HF1 as [|? ? Hb HF2]. inversion_clear HF2 as [|? ? Hd _].
    set (D := e_str (a :: b :: d :: name) ++ rest).
    assert (HD : Z.of_nat (List.length D) = 256 + Z.of_nat (List.length rest)) by (unfold D; rewrite length_app; lia).
    assert (ED : exists tl, D = [254; uchar a; uchar b; uchar d] ++ tl).
    { eexists. unfold D, e_str. rewrite HL. reflexivity. }
    destruct ED as [tl ED]. set (L := le_num [uchar a; uchar b; uchar d]).
    assert (HL3 : 65793 <= L) by (unfold L, uchar; cbn [le_num]; rewrite !Z.mod_small by lia; lia).
    unfold try_parse_string, try_parse, fetch_string, at_bytes, bind, check_len, peek.
    cbn [p data offset data_len error error_pos rbind].
    rewrite (proj2 (Z.ltb_ge _ 4)) by lia. cbn [rbind data offset data_len error error_pos].
    rewrite (proj2 (Z.leb_le (0 + 1) _)) by lia.
    replace (slice D 0 1) with [254] by (by rewrite ED). cbn [rbind].
    change (le_num [254] <? 254) with false. change (le_num [254] =? 254) with true. cbn [rbind].
    cbn [data offset data_len error error_pos]. rewrite (proj2 (Z.leb_le (1 + 3) _)) by lia.
    replace (slice D 1 3) with [uchar a; uchar b; uchar d] by (by rewrite ED). fold L. cbn [rbind].
    rewrite (Z.shiftr_div_pow2 (L + 3)) by lia. change (2 ^ 2) with 4.
    cbn [data offset data_len error error_pos]. rewrite (proj2 (Z.ltb_lt _ ((L + 3) / 4 * 4))) by zmod.
    cbn [set_error error rbind data]. change (Z.of_nat (List.length zeros)) with 9.
    by rewrite (proj2 (Z.leb_gt _ 9)) by lia.
Qed.

Lemma name_254_not_read_witness :
  try_parse_string (at_bytes 0 (e_str (repeat 97 254)) empty_config) = Fault OutOfBounds.
Proof.
  rewrite <- (app_nil_r (e_str (repeat 97 254))).
  apply (name_254_not_read empty_config (repeat 97 254) [] 0 init_sstate); [done| |cbn; lia].
  repeat constructor; lia.
Defined.
