(* ===== verification/Whole.v ===== *)
(** * From the text to the generators

    The parts put together: a run of [Main.main] that writes a file, on a source
    without partial applications, has parsed the source and accepted its tree,
    has written the encoding of the schema in the tables that [tl_parse] built
    from it, and the reader of the generators returns the configuration of that
    schema, provided it is one that the format can carry ([readable]). *)
From Stdlib Require Import ZArith Lia List Bool Ascii String.
From stdpp Require Import base list strings gmap.
From S2P Require Import Prelude Treap Lexer Parser Symbols Tables Combinator Unify Values Sema Invariant Writer Main Typing Wire Written.
From S2P Require Import Reader RoundTrip.
Open Scope tl_scope.

(** ** Readable schemas *)

(** Fewer than 2^31 of everything, names of less than 254 characters, the
    right number of arguments for every type, and distinct numbers of types.  The
    links between types and constructors are not part of it. *)
Definition readable (w : wschema) : bool :=
  let c := config_types w in
  short (ws_types w) && short (ws_constructors w) && short (ws_functions w) &&
  forallb ok_type (ws_types w) &&
  forallb (ok_comb (sig_of c)) (ws_constructors w) && forallb (ok_comb (sig_of c)) (ws_functions w) &&
  distinct_ids (map t_id (types c)).

(** A type and the constructors that follow from it. *)
Definition owns (t : wtype) (l : list wcomb) : Prop :=
  Forall (fun c => wc_type c = wt_name t) l /\ wt_constructors t = Z.of_nat (List.length l).

Definition in_type (t : wtype) (c : wcomb) : bool := i32 (wc_type c) =? i32 (wt_name t).

Lemma filter_all {A} (f : A -> bool) l : Forall (fun x => f x = true) l -> List.filter f l = l.
Proof. induction 1 as [|x l Hx _ IH]; cbn; [done|]. by rewrite Hx, IH. Qed.

Lemma filter_none {A} (f : A -> bool) l : Forall (fun x => f x = false) l -> List.filter f l = [].
Proof. induction 1 as [|x l Hx _ IH]; cbn; [done|]. by rewrite Hx. Qed.

(** The constructors of other types are not counted. *)
Lemma owns_other t ts css :
  i32 (wt_name t) ∉ map (fun t => i32 (wt_name t)) ts -> Forall2 owns ts css ->
  Forall (fun c => in_type t c = false) (concat css).
Proof.
  intros Hn. induction 1 as [|u l ts css [Hu _] _ IH]; cbn in *; [done|]. rewrite not_elem_of_cons in Hn.
  apply Forall_app. split; [|apply IH; tauto]. eapply Forall_impl; [exact Hu|]. intros c Hc. cbn in Hc.
  unfold in_type. rewrite Hc. apply Z.eqb_neq. intros E. apply (proj1 Hn). congruence.
Qed.

Lemma owns_self t l : owns t l -> Forall (fun c => in_type t c = true) l.
Proof. intros [H _]. eapply Forall_impl; [exact H|]. intros c Hc. unfold in_type. rewrite Hc. apply Z.eqb_refl. Qed.

Lemma owned_count ts css t :
  NoDup (map (fun t => i32 (wt_name t)) ts) -> Forall2 owns ts css -> t ∈ ts ->
  Z.of_nat (List.length (List.filter (in_type t) (concat css))) = wt_constructors t.
Proof.
  intros Hnd H. induction H as [|u l ts css Hu HF IH]; intros Ht; [by apply not_elem_of_nil in Ht|].
  cbn in Hnd. apply NoDup_cons in Hnd as [Hn Hnd]. cbn [concat]. rewrite List.filter_app, length_app.
  apply elem_of_cons in Ht as [->|Ht].
  - rewrite (filter_all _ l), (filter_none _ (concat css)); [|by eapply owns_other|by apply owns_self].
    cbn. destruct Hu as [_ ->]. lia.
  - rewrite (filter_none _ l); [cbn; by apply IH|]. eapply Forall_impl; [apply owns_self, Hu|]. intros c Hc.
    unfold in_type in *. apply Z.eqb_eq in Hc. rewrite Hc. apply Z.eqb_neq. intros E. apply Hn.
    apply list_elem_of_fmap. exists t. done.
Qed.

Lemma owned_total ts css :
  Forall2 owns ts css ->
  Z.of_nat (List.length (concat css)) = fold_left Z.add (map wt_constructors ts) 0.
Proof.
  intros H. enough (forall n, n + Z.of_nat (List.length (concat css)) = fold_left Z.add (map wt_constructors ts) n) as E
    by by rewrite <- E.
  induction H as [|t l ts css [_ Ht] _ IH]; intros n; cbn [concat map fold_left]; [cbn; lia|].
  rewrite <- IH, length_app, Ht. lia.
Qed.

Lemma owned_declared ts css :
  Forall2 owns ts css -> Forall (fun c => i32 (wc_type c) ∈ map (fun t => i32 (wt_name t)) ts) (concat css).
Proof.
  induction 1 as [|t l ts css [Ht _] _ IH]; cbn; [done|]. apply Forall_app. split.
  - eapply Forall_impl; [exact Ht|]. intros c Hc. cbn in Hc. rewrite Hc. left.
  - eapply Forall_impl; [exact IH|]. intros c Hc. by right.
Qed.

Lemma filter_map_length {A B} (f : A -> B) (p : B -> bool) l :
  List.length (List.filter p (map f l)) = List.length (List.filter (fun x => p (f x)) l).
Proof. induction l as [|x l IH]; cbn; [done|]. destruct (p (f x)); cbn; by rewrite IH. Qed.

(** ** The links of a program *)

(** Each type of the table is followed by its own constructors. *)
Lemma schema_owns address fuel s ids ts css :
  prog_ok s -> d_all (d_wtype (tys s)) ids = Ret ts ->
  d_all (d_constructors address (nodes s) (tys s) (constructors s) fuel) ids = Ret css -> Forall2 owns ts css.
Proof.
  intros Hs. revert ts css. induction ids as [|a ids IH]; intros ts css Ht Hc; cbn [d_all] in *; inv_do; [done|].
  constructor; [|by apply IH]. unfold d_wtype, d_constructors in *. inv_do. cbn [d_type] in *.
  destruct (tys s !! a) as [u|] eqn:Hu; [|done].
  repeat match goal with H : Ret u = Ret _ |- _ => injection H as <- end. rename select (d_all _ (ty_constructors _) = _) into Hl.
  split; cbn [wt_name wt_constructors]; [|by rewrite (d_all_length _ _ _ Hl)].
  assert (forall l, (forall k, k ∈ l -> k ∈ ty_constructors u) -> forall cs,
    d_all (d_comb address (nodes s) (tys s) (constructors s) fuel) l = Ret cs ->
    Forall (fun c => wc_type c = ty_name u) cs) as Hall; [|by eapply Hall].
  induction l as [|k l IHl]; intros Hk cs Hcs; cbn [d_all] in Hcs; inv_do; [done|].
  constructor; [|apply IHl; [intros j Hj; apply Hk; by right|done]].
  destruct (ok_linked _ Hs a u k Hu (Hk k ltac:(left))) as (c & Hc & Hct).
  match goal with H : d_comb _ _ _ _ _ k = Ret _ |- _ => unfold d_comb in H; rewrite Hc in H end. inv_do.
  cbn [wc_type]. match goal with H : d_type_name _ (k_type _) = Ret _ |- _ => rewrite Hct in H; cbn in H end.
  rewrite Hu in *. by inv_do.
Qed.

(** What is left of [ok_schema] for the schema of a program. *)
Lemma readable_ok address fuel s w :
  prog_ok s -> schema_of address fuel s = Ret w -> readable w = true -> ok_schema w = true.
Proof.
  intros Hs H Hr. unfold schema_of in H. inv_do.
  match goal with H1 : d_all (d_wtype _) _ = Ret ?t, H2 : d_all (d_constructors _ _ _ _ _) _ = Ret ?c |- _ =>
    pose proof (schema_owns _ _ _ _ _ _ Hs H1 H2) as HO; set (ts := t) in *; set (css := c) in * end.
  unfold readable in Hr. unfold ok_schema. rewrite Hr. cbn [andb ws_types ws_constructors].
  apply andb_true_iff in Hr as [_ Hd%distinct_ids_spec].
  set (c := config_types _) in *.
  assert (Hty : types c = map t_type ts) by (unfold c, config_types; by rewrite config_types_list).
  rewrite Hty, map_map in *. cbn [t_id t_type] in *.
  rewrite !andb_true_iff. split_and!.
  - apply forallb_forall. intros k Hk. apply in_map_iff in Hk as (y & <- & Hy). cbn [k_type_id t_comb].
    apply existsb_exists. exists (i32 (wc_type y)). split; [|apply Z.eqb_refl].
    pose proof (owned_declared ts css HO) as Hdec. rewrite Forall_forall in Hdec.
    apply list_elem_of_In, Hdec. by apply list_elem_of_In.
  - apply forallb_forall. intros u Hu. apply in_map_iff in Hu as (t & <- & Ht). cbn [linked t_constructors t_type t_constructors_num t_id].
    apply Z.eqb_eq. rewrite <- (owned_count ts css t Hd HO) by (by apply list_elem_of_In).
    by rewrite filter_map_length.
  - rewrite length_map, map_map. cbn [t_constructors_num t_type]. apply Z.eqb_eq. by apply owned_total.
Qed.

(** ** The theorem *)

(** The source has no partial applications (or does not parse). *)
Definition plain_source (src : list Z) : bool :=
  match tl_init_parse_file src with
  | Some (text, P) =>
      match tl_parse_lex text (text_fuel text) P init_state with
      | Ret (Some T, _) => no_partial T
      | _ => true
      end
  | None => true
  end.

Section Run.
Context (lrand48 : nat -> Z) (garbage : Z) (address : ptr -> Z) (beyond : list Z -> nat -> Z) (fuel : nat).

(** The compiler accepts the source [src] under the options [o] and leaves the
    state [s]: the source has the tree [T], and [tl_parse] accepts it, from the
    initial state. *)
Definition accepts (src : list Z) (o : options) (T : ptree) (s : sstate) : Prop :=
  exists text P ls, tl_init_parse_file src = Some (text, P) /\
    tl_parse_lex text (text_fuel text) P init_state = Ret (Some T, ls) /\
    tl_parse text lrand48 garbage address beyond (output_expressions o) fuel T init_sstate = Ret (true, s).

(** A run of [main] that writes a file goes through [tl_parse] and [write_types]. *)
Lemma main_run fopen_rb fopen_wb opts argv optind src st f bytes :
  fopen_rb (nth optind argv []) = Some src ->
  main lrand48 garbage address beyond fuel fopen_rb fopen_wb opts argv optind = Ret (st, Some (f, bytes)) ->
  plain_source src = true ->
  st = 0 /\ fopen_wb f = true /\ exists o T s s', getopt_loop opts (mk_options 0 0 None) = Some o /\
    vkext_file o = Some f /\ no_partial T = true /\ accepts src o T s /\
    write_types lrand48 address fuel s = Ret (tt, s') /\ bytes = file s'.
Proof.
  intros Hsrc H Hplain. unfold main in H. destruct (getopt_loop _ _) as [o|] eqn:Eo; [|done].
  destruct (negb _); [done|]. rewrite Hsrc in H. unfold plain_source in Hplain.
  destruct (tl_init_parse_file src) as [[text P]|] eqn:Einit; [|done].
  destruct (tl_parse_lex text (text_fuel text) P init_state) as [[[T|] ls]| |] eqn:Elex; try done. cbn [rbind] in H.
  apply rbind_Ret in H as ([r s1] & E & H). injection H as ->. unfold compile in E.
  apply bind_Ret in E as (ok & s & Ep & E). destruct ok; cbn [negb] in E; [|done].
  destruct (vkext_file o) as [name|] eqn:Ef; [|done].
  apply bind_Ret in E as (bs & s2 & Ew & E). injection E as <- <- <- <-.
  unfold vkext_write in Ew. apply bind_Ret in Ew as ([] & s3 & E1 & Ew).
  destruct (fopen_wb name) eqn:Ewb; [|done]. injection E1 as <-.
  apply bind_Ret in Ew as ([] & s3 & E1 & Ew). injection Ew as <- <-.
  split_and!; [done|done|]. exists o, T, s, s3. split_and!; try done. by exists text, P, ls.
Qed.

(** C1. The whole chain: if [main], on a source without partial applications,
    writes a file, then it exits with 0, the file is the one of the last [-e]
    option, and the source was accepted: it parses to a tree, and [tl_parse],
    from the initial state, accepts this tree and leaves a state [s]. This
    [s] satisfies the invariant and holds a schema, the file is the encoding
    of that schema, and when the schema is one that the format can carry the
    reader of the generators returns exactly its configuration. *)
Theorem main_to_generators base fopen_rb fopen_wb opts argv optind src st f bytes :
  (forall p, base <= address p < base + 2 ^ 31) ->
  fopen_rb (nth optind argv []) = Some src -> plain_source src = true ->
  main lrand48 garbage address beyond fuel fopen_rb fopen_wb opts argv optind = Ret (st, Some (f, bytes)) ->
  st = 0 /\ fopen_wb f = true /\ exists o T s w,
    getopt_loop opts (mk_options 0 0 None) = Some o /\ vkext_file o = Some f /\ accepts src o T s /\
    prog_ok s /\ schema_of address fuel s = Ret w /\ bytes = e_schema w /\
    (readable w = true -> read_tl_config bytes = Ret (config_of w)).
Proof.
  intros Hw Hsrc Hplain H. destruct (main_run _ _ _ _ _ _ _ _ _ Hsrc H Hplain)
    as (-> & Hwb & o & T & s & s' & Ho & Hf & HT & Hacc & Ewr & ->).
  pose proof Hacc as (text & P & ls & _ & _ & Ep).
  assert (Hs : prog_ok s) by (by eapply keeps_tl_parse; [apply init_prog_ok|]).
  destruct (safe_tl_parse _ _ _ _ _ _ _ _ HT _ init_typed _ _ Ep) as (Ht & _).
  destruct (schema_exists _ _ _ _ _ _ _ Hw Hs Ht Ewr) as [w E].
  destruct (write_types_follows lrand48 address base fuel s w Hw E) as [d Ed].
  rewrite Ed in Ewr. injection Ewr as <-.
  assert (Hfile : file (set_draws d (set_file (file s ++ e_schema w) s)) = e_schema w)
    by (rewrite (ok_file _ Hs); by destruct s).
  rewrite Hfile. split_and!; [done|done|]. exists o, T, s, w. split_and!; try done.
  intros Hr. by apply read_encoded, (readable_ok _ _ _ _ Hs E).
Qed.
End Run.

(** [tlc -e out] on the schema of [demo_text]. *)
Definition demo_run : result status :=
  main demo_draws 0 demo_address (fun _ _ => 0) 40 (fun _ => Some demo_text) (fun _ => true)
    [(chr "e", str "out")] [str "tlc"; str "schema.tl"] 1.

Definition demo_bytes : list Z := match demo_run with Ret (_, Some (_, b)) => b | _ => [] end.

Lemma main_to_generators_witness :
  plain_source demo_text = true /\ readable demo_schema = true /\
  exists o T s w, getopt_loop [(chr "e", str "out")] (mk_options 0 0 None) = Some o /\
    vkext_file o = Some (str "out") /\ accepts demo_draws 0 demo_address (fun _ _ => 0) 40 demo_text o T s /\
    prog_ok s /\ schema_of demo_address 40 s = Ret w /\ demo_bytes = e_schema w /\
    (readable w = true -> read_tl_config demo_bytes = Ret (config_of w)).
Proof.
  split; [vm_compute; reflexivity|]. split; [vm_compute; reflexivity|].
  refine (proj2 (proj2 (main_to_generators demo_draws 0 demo_address (fun _ _ => 0) 40 0 (fun _ => Some demo_text)
    (fun _ => true) [(chr "e", str "out")] [str "tlc"; str "schema.tl"] 1 demo_text 0 (str "out") demo_bytes
    demo_window eq_refl _ _))); vm_compute; reflexivity.
Defined.
