(* ===== verification/Simple.v ===== *)
(** * The simplified schema (tdtl: tl_simple.h)

    [tl::simple::Schema] turns a configuration into the graph of types,
    constructors and functions that the JSON and documentation generators walk.
    The objects are owned by four vectors and never move: a pointer to one is its
    index.  [type_by_id] and the other maps make the objects once per number,
    so the recursion through types that refer to each other ends.  The field
    [is_bare] of a type, which stays false, is left out.

    Fuel: [get_type] takes one unit per nested call for a type, [do_mark] one unit
    per level. *)
From Stdlib Require Import ZArith Lia List Bool Ascii String.
From stdpp Require Import base list strings gmap.
From S2P Require Import Prelude Reader.
Open Scope tl_scope.

(** ** Names *)

Definition is_alnum (c : Z) : bool :=
  ((chr "0" <=? c) && (c <=? chr "9")) || ((chr "a" <=? c) && (c <=? chr "z")) ||
  ((chr "A" <=? c) && (c <=? chr "Z")).

Definition gen_cpp_name (name : list Z) : result (list Z) :=
  let name := map (fun c => if is_alnum c then c else chr "_") name in
  match last name with
  | None => Fault AssertFailed
  | Some c => if c =? chr "_" then Fault AssertFailed else Ret name
  end.

Definition gen_cpp_field_name (name : list Z) : result (list Z) :=
  do? name := gen_cpp_name name in Ret (name ++ [chr "_"]).

(** ** Objects *)

Inductive type_tag := Int32 | Int53 | Int64 | Double | TString | Bytes | Vector | TBool | Custom.

#[export] Instance type_tag_eq_dec : EqDecision type_tag.
Proof. solve_decision. Defined.

Record Type_ := mk_Type { tag : type_tag; custom : option nat; vector_value_type : option nat }.

Record Arg := mk_Arg { arg_type : nat; arg_name : list Z }.

Record Constructor := mk_Constructor {
  c_name : list Z;
  c_id : Z;
  c_args : list Arg;
  c_type : option nat
}.

Record CustomType := mk_CustomType {
  ct_name : list Z;
  ct_constructors : list nat;
  is_result_ : bool;
  is_query_ : bool
}.

Record Function_ := mk_Function { f_name : list Z; f_id : Z; f_args : list Arg; f_type : option nat }.

Record schema := mk_schema {
  custom_types : list nat;
  functions_out : list nat;             (* the public [functions] *)
  functions_ : list Function_;
  constructors_ : list Constructor;
  custom_types_ : list CustomType;
  types_ : list Type_;
  type_by_id : gmap Z nat;
  constructor_by_id : gmap Z nat;
  function_by_id : gmap Z nat
}.

Definition empty_schema : schema := mk_schema [] [] [] [] [] [] ∅ ∅ ∅.

Definition set_custom_types x s := let 'mk_schema _ b c d e f g h i := s in mk_schema x b c d e f g h i.
Definition set_functions_out x s := let 'mk_schema a _ c d e f g h i := s in mk_schema a x c d e f g h i.
Definition set_functions_ x s := let 'mk_schema a b _ d e f g h i := s in mk_schema a b x d e f g h i.
Definition set_constructors_ x s := let 'mk_schema a b c _ e f g h i := s in mk_schema a b c x e f g h i.
Definition set_custom_types_ x s := let 'mk_schema a b c d _ f g h i := s in mk_schema a b c d x f g h i.
Definition set_types_ x s := let 'mk_schema a b c d e _ g h i := s in mk_schema a b c d e x g h i.
Definition set_type_by_id x s := let 'mk_schema a b c d e f _ h i := s in mk_schema a b c d e f x h i.
Definition set_constructor_by_id x s := let 'mk_schema a b c d e f g _ i := s in mk_schema a b c d e f g x i.
Definition set_function_by_id x s := let 'mk_schema a b c d e f g h _ := s in mk_schema a b c d e f g h x.

Definition SM : Type -> Type := M schema.

(** [v.push_back (std::make_unique<X> ())], and the pointer to the new object. *)
Definition push {A} (vec : schema -> list A) (set : list A -> schema -> schema) (x : A) : SM nat :=
  fun s => Ret (List.length (vec s), set (vec s ++ [x]) s).

(** [p->field = ...] and [*p]. *)
Definition update {A} (vec : schema -> list A) (set : list A -> schema -> schema) (i : nat) (f : A -> A) : SM unit :=
  fun s => match vec s !! i with
           | Some x => Ret (tt, set (<[i := f x]> (vec s)) s)
           | None => Fault BadPointer
           end.
Definition deref {A} (vec : schema -> list A) (i : nat) : SM A :=
  fun s => match vec s !! i with Some x => Ret (x, s) | None => Fault BadPointer end.

Definition set_tag t (x : Type_) := mk_Type t (custom x) (vector_value_type x).
Definition set_custom c (x : Type_) := mk_Type (tag x) (Some c) (vector_value_type x).
Definition set_value v (x : Type_) := mk_Type (tag x) (custom x) (Some v).
Definition add_ct_constructor k (x : CustomType) :=
  mk_CustomType (ct_name x) (ct_constructors x ++ [k]) (is_result_ x) (is_query_ x).
Definition set_ct_name n (x : CustomType) := mk_CustomType n (ct_constructors x) (is_result_ x) (is_query_ x).
Definition set_c_type t (x : Constructor) := mk_Constructor (c_name x) (c_id x) (c_args x) (Some t).
Definition add_c_arg a (x : Constructor) := mk_Constructor (c_name x) (c_id x) (c_args x ++ [a]) (c_type x).
Definition set_f_type t (x : Function_) := mk_Function (f_name x) (f_id x) (f_args x) (Some t).
Definition add_f_arg a (x : Function_) := mk_Function (f_name x) (f_id x) (f_args x ++ [a]) (f_type x).

(** [from_arg.name] and [from_arg.type] *)
Definition from_name (a : arg) : list Z := let 'mk_arg name _ _ _ _ _ := a in name.
Definition from_type (a : arg) : tl_tree := let 'mk_arg _ _ _ _ _ type := a in type.

(** ** Building the graph *)

Section Build.
Context (config : tl_config).

(** [config_->get_type (type_id)] *)
Definition config_type (type_id : Z) : SM tl_type :=
  match id_to_type config !! type_id with
  | Some i => match types config !! i with Some t => ret t | None => fail BadPointer end
  | None => fail AssertFailed
  end.

(** The names of the types that are not [Custom]. *)
Definition builtin_tag (name : list Z) : option type_tag :=
  if bool_decide (name = str "Int32") then Some Int32
  else if bool_decide (name = str "Int53") then Some Int53
  else if bool_decide (name = str "Int64") then Some Int64
  else if bool_decide (name = str "Double") then Some Double
  else if bool_decide (name = str "String") then Some TString
  else if bool_decide (name = str "Bytes") then Some Bytes
  else if bool_decide (name = str "Bool") then Some TBool
  else None.

Definition is_Vector (name : list Z) : bool := bool_decide (name = str "Vector").

Section With.
(** [get_type] on a [tl_type]. *)
Context (get_type : tl_type -> SM nat).

Fixpoint get_tree_type (tree : tl_tree) : SM nat :=
  match tree with
  | tl_tree_type _ i children =>
      match types config !! i with
      | None => fail BadPointer
      | Some from =>
          if is_Vector (t_name from) then
            match children with
            | [child] =>
                let* type := push types_ set_types_ (mk_Type Vector None None) in
                let* v := get_tree_type child in
                update types_ set_types_ type (set_value v) ;;
                ret type
            | _ => fail AssertFailed
            end
          else
            match children with
            | [] => get_type from
            | _ => fail AssertFailed
            end
      end
  | _ => fail AssertFailed
  end.

Definition get_custom_type (from : tl_type) : SM nat :=
  let* i := get_type from in
  let* type := deref types_ i in
  assert (bool_decide (tag type = Custom)) ;;
  match custom type with Some c => ret c | None => fail BadPointer end.

(** The loop over the arguments: [add] is [->args.push_back]. *)
Fixpoint get_args (add : Arg -> SM unit) (l : list arg) : SM unit :=
  match l with
  | [] => ret tt
  | a :: l =>
      let* t := get_tree_type (from_type a) in
      add (mk_Arg t (from_name a)) ;;
      get_args add l
  end.

Definition get_constructor (from : tl_combinator) : SM nat :=
  let* s := get in
  match constructor_by_id s !! k_id from with
  | Some k => ret k
  | None =>
      let* k := push constructors_ set_constructors_ (mk_Constructor (k_name from) (k_id from) [] None) in
      modify (fun s => set_constructor_by_id (<[k_id from := k]> (constructor_by_id s)) s) ;;
      let* t := config_type (k_type_id from) in
      let* c := get_custom_type t in
      update constructors_ set_constructors_ k (set_c_type c) ;;
      get_args (fun a => update constructors_ set_constructors_ k (add_c_arg a)) (k_args from) ;;
      ret k
  end.

Definition get_function (from : tl_combinator) : SM nat :=
  let* s := get in
  match function_by_id s !! k_id from with
  | Some f => ret f
  | None =>
      let* f := push functions_ set_functions_ (mk_Function (k_name from) (k_id from) [] None) in
      modify (fun s => set_function_by_id (<[k_id from := f]> (function_by_id s)) s) ;;
      let* t := config_type (k_type_id from) in
      let* t := get_type t in
      update functions_ set_functions_ f (set_f_type t) ;;
      get_args (fun a => update functions_ set_functions_ f (add_f_arg a)) (k_args from) ;;
      ret f
  end.

(** The constructors of a custom type. *)
Fixpoint get_constructors (c : nat) (l : list tl_combinator) : SM unit :=
  match l with
  | [] => ret tt
  | k :: l =>
      let* k := get_constructor k in
      update custom_types_ set_custom_types_ c (add_ct_constructor k) ;;
      get_constructors c l
  end.

Definition get_type_body (from : tl_type) : SM nat :=
  let* s := get in
  match type_by_id s !! t_id from with
  | Some i => ret i
  | None =>
      let* i := push types_ set_types_ (mk_Type Int32 None None) in
      modify (fun s => set_type_by_id (<[t_id from := i]> (type_by_id s)) s) ;;
      match builtin_tag (t_name from) with
      | Some t => update types_ set_types_ i (set_tag t) ;; ret i
      | None =>
          if is_Vector (t_name from) then fail AssertFailed
          else
            update types_ set_types_ i (set_tag Custom) ;;
            let* c := push custom_types_ set_custom_types_ (mk_CustomType [] [] false false) in
            update types_ set_types_ i (set_custom c) ;;
            update custom_types_ set_custom_types_ c (set_ct_name (t_name from)) ;;
            get_constructors c (t_constructors from) ;;
            ret i
      end
  end.
End With.

Fixpoint get_type (n : nat) (from : tl_type) : SM nat :=
  match n with
  | O => out_of_fuel
  | S n => get_type_body (get_type n) from
  end.

(** ** Marks *)

Definition was (is_result : bool) (c : CustomType) : bool := if is_result then is_result_ c else is_query_ c.
Definition set_was (is_result : bool) (c : CustomType) : CustomType :=
  if is_result then mk_CustomType (ct_name c) (ct_constructors c) true (is_query_ c)
  else mk_CustomType (ct_name c) (ct_constructors c) (is_result_ c) true.

Fixpoint do_mark (n : nat) (is_result : bool) (i : nat) : SM unit :=
  match n with
  | O => out_of_fuel
  | S n =>
      let* type := deref types_ i in
      if bool_decide (tag type = Vector) then
        match vector_value_type type with
        | Some j => do_mark n is_result j
        | None => fail BadPointer
        end
      else if negb (bool_decide (tag type = Custom)) then ret tt
      else
        match custom type with
        | None => fail BadPointer
        | Some c =>
            let* ct := deref custom_types_ c in
            if was is_result ct then ret tt
            else
              update custom_types_ set_custom_types_ c (set_was is_result) ;;
              each (fun k =>
                let* k := deref constructors_ k in
                each (fun a => do_mark n is_result (arg_type a)) (c_args k)) (ct_constructors ct)
        end
  end.

(** ** The constructor of [Schema] *)

Definition add_custom_type (n : nat) (from : tl_type) : SM unit :=
  if is_Vector (t_name from) then ret tt
  else
    let* i := get_type n from in
    let* type := deref types_ i in
    if bool_decide (tag type = Custom) then
      match custom type with
      | Some c => modify (fun s => set_custom_types (custom_types s ++ [c]) s)
      | None => fail BadPointer
      end
    else ret tt.

Definition add_function_out (n : nat) (from : tl_combinator) : SM unit :=
  let* f := get_function (get_type n) from in
  modify (fun s => set_functions_out (functions_out s ++ [f]) s).

(** [mark_result (function->type)], [mark_query (arg.type)] *)
Definition mark_function (n : nat) (f : Function_) : SM unit :=
  match f_type f with
  | Some t => do_mark n true t
  | None => fail BadPointer
  end ;;
  each (fun a => do_mark n false (arg_type a)) (f_args f).

(** One unit for each type of the configuration. *)
Definition type_fuel : nat := S (List.length (types config)).

(** How many vectors an argument nests. *)
Fixpoint vectors (tree : tl_tree) : nat :=
  match tree with
  | tl_tree_type _ _ children => S (list_max (map vectors children))
  | _ => 0
  end.

Definition max_vectors : nat :=
  list_max (map (fun a => vectors (from_type a))
    (concat (map k_args (concat (map t_constructors (types config)) ++ functions config)))).

(** A search marks each custom type once, and passes at most [max_vectors] vectors to get to the next one. *)
Definition mark_fuel (s : schema) : nat :=
  S (List.length (custom_types_ s) * S max_vectors + max_vectors).

Definition Schema : SM unit :=
  each (add_custom_type type_fuel) (types config) ;;
  each (add_function_out type_fuel) (functions config) ;;
  let* s := get in
  each (mark_function (mark_fuel s)) (functions_ s).

Definition make_schema : result schema :=
  do? (_, s) := Schema empty_schema in Ret s.
End Build.
