(* ===== verification/Marks.v ===== *)
(** * Correctness of the simplified schema

    [do_mark] is a depth-first search over the graph of types: the marks it
    leaves are exactly the custom types that can be reached.  Building the graph
    and marking it ends, and never trips an assertion, on the configurations
    that the generators are made for ([simple_config]). *)
From Stdlib Require Import ZArith Lia List Bool Ascii String.
From stdpp Require Import base list strings gmap relations.
From S2P Require Import Prelude Reader Simple.
Open Scope tl_scope.

(** ** The graph *)

(** What the marks do not change. *)
Record skeleton := mk_skeleton { sk_types : list Type_; sk_constructors : list Constructor; sk_customs : list (list nat) }.

Definition skel (s : schema) : skeleton := mk_skeleton (types_ s) (constructors_ s) (map ct_constructors (custom_types_ s)).

Section Graph.
Context (g : skeleton).

(** The custom type that a type is, or is a vector of. *)
Inductive head : nat -> nat -> Prop :=
| head_vector i t j c :
    sk_types g !! i = Some t -> tag t = Vector -> vector_value_type t = Some j -> head j c -> head i c
| head_custom i t c : sk_types g !! i = Some t -> tag t = Custom -> custom t = Some c -> head i c.

(** The types of the arguments of the constructors of a custom type. *)
Definition field_type (c i : nat) : Prop :=
  exists ks k kk a, sk_customs g !! c = Some ks /\ k ∈ ks /\ sk_constructors g !! k = Some kk /\
    a ∈ c_args kk /\ i = arg_type a.

(** A custom type has a field of another one. *)
Definition uses (c d : nat) : Prop := exists i, field_type c i /\ head i d.

(** The custom types behind a type. *)
Definition reaches (i d : nat) : Prop := exists c, head i c /\ rtc uses c d.

Lemma head_vector_inv i t j c :
  sk_types g !! i = Some t -> tag t = Vector -> vector_value_type t = Some j -> head i c -> head j c.
Proof.
  intros Ht Hv Hj H. destruct H as [i t' j' c Ht' Hv' Hj' H|i t' c Ht' Hc' Hcc]; simplify_eq; [done|congruence].
Qed.

Lemma head_custom_inv i t c d :
  sk_types g !! i = Some t -> tag t = Custom -> custom t = Some c -> head i d -> d = c.
Proof.
  intros Ht Hc Hcc H. destruct H as [i t' j' d Ht' Hv' Hj' H|i t' d Ht' Hc' Hdc]; simplify_eq; congruence.
Qed.
End Graph.

(** ** Marks *)

Definition marked (b : bool) (s : schema) (c : nat) : Prop :=
  exists ct, custom_types_ s !! c = Some ct /\ was b ct = true.

(** [m], in a graph [g], marks what can be reached from the types in [P]: the
    heads of [P] are marked, a new mark can be reached, and what a newly marked
    type uses is marked. *)
Record searches (g : skeleton) (b : bool) (P : nat -> Prop) (s s' : schema) : Prop := {
  se_skel : skel s' = g;
  se_functions : functions_ s' = functions_ s;
  se_keep c : marked b s c -> marked b s' c;
  se_roots i c : P i -> head g i c -> marked b s' c;
  se_sound c : marked b s' c -> marked b s c \/ exists i, P i /\ reaches g i c;
  se_closed c d : marked b s' c -> ~ marked b s c -> uses g c d -> marked b s' d
}.

Definition searching (g : skeleton) (b : bool) (P : nat -> Prop) (m : SM unit) : Prop :=
  forall s x s', skel s = g -> m s = Ret (x, s') -> searches g b P s s'.

Lemma marked_dec b s c : marked b s c \/ ~ marked b s c.
Proof.
  unfold marked. destruct (custom_types_ s !! c) as [ct|] eqn:E.
  - destruct (was b ct) eqn:Ew; [left; eauto|right]. intros (ct' & E' & Ew'). simplify_eq. congruence.
  - right. by intros (ct & ? & _).
Qed.

Section Search.
Context (g : skeleton) (b : bool).

Lemma searches_refl (P : nat -> Prop) s :
  skel s = g -> (forall i c, P i -> head g i c -> marked b s c) -> searches g b P s s.
Proof. intros Hs HP. constructor; auto; try done. Qed.

Lemma searches_trans P Q s s1 s2 :
  searches g b P s s1 -> searches g b Q s1 s2 -> searches g b (fun i => P i \/ Q i) s s2.
Proof.
  intros H1 H2. constructor.
  - exact (se_skel _ _ _ _ _ H2).
  - by rewrite (se_functions _ _ _ _ _ H2), (se_functions _ _ _ _ _ H1).
  - intros c Hc. by apply (se_keep _ _ _ _ _ H2), (se_keep _ _ _ _ _ H1).
  - intros i c [HP|HQ] Hh; [apply (se_keep _ _ _ _ _ H2), (se_roots _ _ _ _ _ H1 i)|apply (se_roots _ _ _ _ _ H2 i)]; done.
  - intros c Hc. destruct (se_sound _ _ _ _ _ H2 c Hc) as [Hc1|(i & Hi & Hr)]; [|right; eauto].
    destruct (se_sound _ _ _ _ _ H1 c Hc1) as [Hc0|(i & Hi & Hr)]; [by left|right; eauto].
  - intros c d Hc Hn Hu. destruct (marked_dec b s1 c) as [H|H].
    + apply (se_keep _ _ _ _ _ H2). by apply (se_closed _ _ _ _ _ H1 c d).
    + eapply (se_closed _ _ _ _ _ H2 c d); eauto.
Qed.

Lemma searches_mono (P Q : nat -> Prop) s s' :
  (forall i, P i <-> Q i) -> searches g b P s s' -> searches g b Q s s'.
Proof.
  intros HPQ []. constructor; try done.
  - intros i c HQ. apply se_roots0. by apply HPQ.
  - intros c Hc. destruct (se_sound0 c Hc) as [?|(i & Hi & Hr)]; [by left|right]. exists i. by rewrite <- HPQ.
Qed.

Lemma searching_each {A} (P : A -> nat -> Prop) (act : A -> SM unit) l :
  (forall x, x ∈ l -> searching g b (P x) (act x)) ->
  searching g b (fun i => exists x, x ∈ l /\ P x i) (each act l).
Proof.
  induction l as [|x l IH]; intros Ha s y s' Hs E; cbn [each] in E.
  - injection E as _ <-. apply searches_refl; [done|]. intros i c (x & Hx & _). by apply not_elem_of_nil in Hx.
  - apply bind_Ret in E as (u & s1 & E1 & E2). pose proof (Ha x ltac:(left) s u s1 Hs E1) as H1.
    assert (H2 : searches g b (fun i => exists x, x ∈ l /\ P x i) s1 s').
    { eapply IH; [intros z Hz; apply Ha; by right|by eapply se_skel|done]. }
    eapply searches_mono; [|by apply (searches_trans _ _ _ _ _ H1 H2)]. intros i. split.
    + intros [?|(z & Hz & ?)]; [exists x; split; [left|done]|exists z; split; [by right|done]].
    + intros (z & Hz & HP). apply elem_of_cons in Hz as [->|Hz]; [by left|right; eauto].
Qed.
End Search.

(** Setting the mark of [c]. *)
Lemma set_mark b s c ct s' :
  custom_types_ s !! c = Some ct -> update custom_types_ set_custom_types_ c (set_was b) s = Ret (tt, s') ->
  skel s' = skel s /\ functions_ s' = functions_ s /\
  (forall b' d, marked b' s' d <-> marked b' s d \/ d = c /\ b' = b).
Proof.
  intros Hc. unfold update. rewrite Hc. intros [= <-]. destruct s as [l1 l2 l3 l4 cts l5 m1 m2 m3]; cbn in *.
  split_and!; [|done|].
  - unfold skel. cbn. f_equal. rewrite list_fmap_insert. apply list_insert_id.
    rewrite list_lookup_fmap, Hc. cbn. by destruct b.
  - intros b' d. unfold marked. cbn. destruct (decide (c = d)) as [<-|Hne].
    + rewrite list_lookup_insert_eq by (by eapply lookup_lt_Some). split.
      * intros (ct' & [= <-] & Hw). destruct (decide (b' = b)) as [->|Hb]; [by right|left]. exists ct.
        split; [done|]. by destruct b, b', ct.
      * intros [(ct' & Hct' & Hw)|[_ ->]]; eexists; (split; [done|]); [simplify_eq|]; by destruct b, ct; try destruct b'.
    + rewrite list_lookup_insert_ne by done. split; [by left|]. by intros [?|[-> _]].
Qed.

(** ** The search *)

Lemma deref_Ret {A} (vec : schema -> list A) i s x s' :
  deref vec i s = Ret (x, s') <-> vec s !! i = Some x /\ s' = s.
Proof. unfold deref. destruct (vec s !! i); split; [intros [= <- <-]|intros [[= <-] ->]|..]; naive_solver. Qed.

(** Reading an object leaves the state as it is. *)
Lemma searching_deref {A} g b P (vec : schema -> list A) i (f : A -> SM unit) :
  (forall s x, skel s = g -> vec s !! i = Some x -> searching g b P (f x)) ->
  searching g b P (bind (deref vec i) f).
Proof.
  intros Hf s x s' Hs E. apply bind_Ret in E as (y & s1 & E1 & E2).
  apply deref_Ret in E1 as [E1 ->]. by eapply Hf.
Qed.

Lemma searching_mono g b (P Q : nat -> Prop) m :
  (forall i, P i <-> Q i) -> searching g b P m -> searching g b Q m.
Proof. intros HPQ Hm s x s' Hs E. by eapply searches_mono; [|eapply Hm]. Qed.

(** The types of the arguments of constructor [k]. *)
Definition arg_types (g : skeleton) (k i : nat) : Prop :=
  exists kk a, sk_constructors g !! k = Some kk /\ a ∈ c_args kk /\ i = arg_type a.

Section Fields.
Context (g : skeleton) (b b' : bool) (n : nat).
Hypothesis Hmark : forall i, searching g b (fun j => b = b' /\ j = i) (do_mark n b' i).

Lemma searching_args k :
  searching g b (fun i => b = b' /\ arg_types g k i)
    (bind (deref constructors_ k) (fun k => each (fun a => do_mark n b' (arg_type a)) (c_args k))).
Proof.
  apply searching_deref. intros s kk Hs Hk.
  eapply searching_mono; [|apply (searching_each g b (fun a j => b = b' /\ j = arg_type a)); intros a _; apply Hmark].
  intros i. unfold arg_types. subst g. cbn. naive_solver.
Qed.

Lemma searching_fields c ks :
  sk_customs g !! c = Some ks ->
  searching g b (fun i => b = b' /\ field_type g c i)
    (each (fun k => bind (deref constructors_ k) (fun k => each (fun a => do_mark n b' (arg_type a)) (c_args k))) ks).
Proof.
  intros Hks. eapply searching_mono; [|apply (searching_each g b (fun k i => b = b' /\ arg_types g k i)); intros k _; apply searching_args].
  intros i. unfold arg_types, field_type. naive_solver.
Qed.
End Fields.

(** [do_mark] on a type whose custom type has no mark yet. *)
Lemma searches_fresh g b b' i t c s s1 s2 :
  skel s = g -> types_ s !! i = Some t -> tag t = Custom -> custom t = Some c ->
  skel s1 = g -> functions_ s1 = functions_ s -> (forall d, marked b s1 d <-> marked b s d \/ d = c /\ b = b') ->
  searches g b (fun i => b = b' /\ field_type g c i) s1 s2 -> searches g b (fun j => b = b' /\ j = i) s s2.
Proof.
  intros Hs Ht Htag Hc Hs1 Hf Hm HS.
  assert (Hi : sk_types g !! i = Some t) by by subst g.
  constructor.
  - exact (se_skel _ _ _ _ _ HS).
  - by rewrite (se_functions _ _ _ _ _ HS).
  - intros d Hd. apply (se_keep _ _ _ _ _ HS), Hm. by left.
  - intros j d [Hb ->] Hd. apply (head_custom_inv g i t c d) in Hd as ->; try done.
    apply (se_keep _ _ _ _ _ HS), Hm. by right.
  - intros d Hd. destruct (se_sound _ _ _ _ _ HS d Hd) as [Hd1|(j & [Hb Hj] & e & He & Hr)].
    + apply Hm in Hd1 as [?|[-> Hb]]; [by left|right]. exists i. split; [done|]. exists c. split; [by eapply head_custom|done].
    + right. exists i. split; [done|]. exists c. split; [by eapply head_custom|]. apply rtc_l with e; [by exists j|done].
  - intros d e Hd Hn Hu. destruct (marked_dec b s1 d) as [Hd1|Hd1].
    + apply Hm in Hd1 as [?|[-> Hb]]; [done|]. destruct Hu as (j & Hj & Hh). by apply (se_roots _ _ _ _ _ HS j).
    + by apply (se_closed _ _ _ _ _ HS d e).
Qed.

Lemma searching_vector g b b' i j t m :
  (forall s, skel s = g -> types_ s !! i = Some t) -> tag t = Vector -> vector_value_type t = Some j ->
  searching g b (fun k => b = b' /\ k = j) m -> searching g b (fun k => b = b' /\ k = i) m.
Proof.
  intros Ht Hv Hj Hm s x s' Hs E. destruct (Hm s x s' Hs E) as [R1 R2 R3 R4 R5 R6].
  assert (Hi : sk_types g !! i = Some t) by (subst g; by apply Ht).
  constructor; try done.
  - intros k c [Hb ->] Hh. apply (R4 j); [done|]. by apply (head_vector_inv g i t j c).
  - intros c Hc. destruct (R5 c Hc) as [?|(k & [Hb ->] & d & Hd & Hr)]; [by left|right].
    exists i. split; [done|]. exists d. split; [by eapply head_vector|done].
Qed.

(** [do_mark] searches the graph from its type. *)
Lemma searching_do_mark g b b' n i : searching g b (fun j => b = b' /\ j = i) (do_mark n b' i).
Proof.
  revert i. induction n as [|n IH]; intros i; cbn [do_mark]; [by intros s x s' _ E|].
  apply searching_deref. intros s t Hs Ht.
  assert (Hall : forall s, skel s = g -> types_ s !! i = Some t).
  { intros s0 Hs0. subst g. by injection Hs0 as -> _ _. }
  case_bool_decide as Hv.
  { destruct (vector_value_type t) as [j|] eqn:Hj; [|by intros ? ? ? _ E].
    by eapply searching_vector. }
  case_bool_decide as Hc; cbn [negb].
  2: { intros s0 x s' Hs0 [= _ <-]. apply searches_refl; [done|]. intros j c [_ ->] Hh.
       destruct Hh; subst g; cbn in *; rewrite Ht in *; simplify_eq. }
  destruct (custom t) as [c|] eqn:Hcc; [|by intros ? ? ? _ E].
  intros s0 x s' Hs0 E. apply bind_Ret in E as (ct & s1 & E1 & E2). apply deref_Ret in E1 as [Hct ->].
  destruct (was b' ct) eqn:Hw.
  { injection E2 as _ <-. apply searches_refl; [done|]. intros j d [-> ->] Hh.
    apply (head_custom_inv g i t c d) in Hh as ->; [by exists ct|subst g; by apply Hall|done|done]. }
  apply bind_Ret in E2 as ([] & s1 & E1 & E2). destruct (set_mark _ _ _ _ _ Hct E1) as (Hs1 & Hf1 & Hm1).
  eapply (searches_fresh g b b' i t c s0 s1 s'); eauto; [by rewrite Hs1|].
  eapply searching_fields; [exact IH| |by rewrite Hs1|exact E2].
  rewrite <- Hs0. cbn. by rewrite list_lookup_fmap, Hct.
Qed.

(** ** The search ends *)

Lemma each_total {S A} (I : S -> Prop) (act : A -> M S unit) l s :
  (forall x s, x ∈ l -> I s -> exists s', act x s = Ret (tt, s') /\ I s') -> I s ->
  exists s', each act l s = Ret (tt, s') /\ I s'.
Proof.
  revert s. induction l as [|x l IH]; intros s Ha Hs; cbn [each]; [by eexists|].
  destruct (Ha x s ltac:(left) Hs) as (s1 & E1 & H1). unfold bind. rewrite E1. cbn.
  apply IH; [intros y t Hy; apply Ha; by right|done].
Qed.

Definition unmarked (b : bool) (s : schema) : nat :=
  List.length (filter (fun ct => was b ct = false) (custom_types_ s)).

Lemma unmarked_set b s c ct s' :
  custom_types_ s !! c = Some ct -> was b ct = false ->
  update custom_types_ set_custom_types_ c (set_was b) s = Ret (tt, s') -> unmarked b s = S (unmarked b s').
Proof.
  intros Hc Hw. unfold update. rewrite Hc. intros [= <-]. unfold unmarked.
  destruct s as [l1 l2 l3 l4 cts l5 m1 m2 m3]; cbn in *.
  assert (Hlt : (c < List.length cts)%nat) by by eapply lookup_lt_Some.
  rewrite <- (take_drop_middle cts c ct Hc) at 1. rewrite insert_take_drop by done.
  rewrite !filter_app, !filter_cons, !length_app.
  rewrite decide_True by done. rewrite decide_False by (by destruct b, ct). cbn. lia.
Qed.

Section Walk.
Context (g : skeleton) (D : nat) (G : nat -> Prop).

(** A type that the search can enter, behind at most [d] vectors. *)
Inductive node : nat -> nat -> Prop :=
| node_vector d i t j :
    sk_types g !! i = Some t -> tag t = Vector -> vector_value_type t = Some j -> node d j -> node (S d) i
| node_builtin d i t : sk_types g !! i = Some t -> tag t <> Vector -> tag t <> Custom -> node d i
| node_custom d i t c : sk_types g !! i = Some t -> tag t = Custom -> custom t = Some c -> G c -> node d i.

(** The custom types in [G] are well built, and their arguments lead back to [G]. *)
Definition closed : Prop :=
  forall c, G c -> exists ks, sk_customs g !! c = Some ks /\
    forall k, k ∈ ks -> exists kk, sk_constructors g !! k = Some kk /\ forall a, a ∈ c_args kk -> node D (arg_type a).

Definition walking (b : bool) (u : nat) (s : schema) : Prop := skel s = g /\ (unmarked b s <= u)%nat.

Lemma do_mark_total n b d i s :
  closed -> skel s = g -> node d i -> (d <= D)%nat -> (unmarked b s * S D + d < n)%nat ->
  exists s', do_mark n b i s = Ret (tt, s') /\ walking b (unmarked b s) s'.
Proof.
  intros Hcl. revert d i s. induction n as [|n IH]; intros d i s Hs Hn Hd Hfuel; [lia|].
  cbn [do_mark]. unfold bind at 1. unfold deref.
  inversion Hn as [d' i' t j Ht Hv Hj Hn'|d' i' t Ht Hv Hc|d' i' t c Ht Htag Hc HG]; subst i';
    (assert (Ht' : types_ s !! i = Some t) by (rewrite <- Hs in Ht; exact Ht)); rewrite Ht'; cbn.
  - rewrite bool_decide_true, Hj by done. apply (IH d'); try done; lia.
  - rewrite !bool_decide_false by done. by eexists.
  - rewrite bool_decide_false, bool_decide_true, Hc by congruence. cbn [negb].
    destruct (Hcl c HG) as (ks & Hks & Hkk). rewrite <- Hs in Hks. cbn in Hks.
    apply list_lookup_fmap_Some in Hks as (ct & -> & Hct). unfold bind at 1. rewrite Hct. cbn.
    destruct (was b ct) eqn:Hw; [by eexists|]. unfold bind at 1.
    destruct (update custom_types_ set_custom_types_ c (set_was b) s) as [[[] s1]| |] eqn:E1;
      [|unfold update in E1; by rewrite Hct in E1..]. cbn.
    pose proof (unmarked_set _ _ _ _ _ Hct Hw E1) as Hu. destruct (set_mark _ _ _ _ _ Hct E1) as (Hs1 & _ & _).
    rewrite Hs in Hs1.
    destruct (each_total (walking b (unmarked b s1))
      (fun k => bind (deref constructors_ k) (fun k => each (fun a => do_mark n b (arg_type a)) (c_args k)))
      (ct_constructors ct) s1) as (s' & E & Hw'); [|done|exists s'; split; [exact E|split; [apply Hw'|unfold walking in Hw'; lia]]].
    intros k s2 Hk [Hs2 Hu2]. destruct (Hkk k Hk) as (kk & Hkk' & Ha). rewrite <- Hs2 in Hkk'. cbn in Hkk'.
    unfold bind, deref. rewrite Hkk'. cbn. apply each_total; [|done].
    intros a s3 Hin [Hs3 Hu3]. destruct (IH D (arg_type a) s3) as (s4 & E4 & Hs4 & Hu4); [done|by apply Ha|done|nia|].
    exists s4. split; [done|]. split; [done|lia].
Qed.
End Walk.

(** ** The marking of a schema *)

(** The types that [mark_result] and [mark_query] start from. *)
Definition root (b : bool) (f : Function_) (i : nat) : Prop :=
  if b then f_type f = Some i else exists a, a ∈ f_args f /\ i = arg_type a.

Lemma searching_bind g b P Q m1 (m2 : SM unit) :
  searching g b P m1 -> searching g b Q m2 -> searching g b (fun i => P i \/ Q i) (bind m1 (fun _ => m2)).
Proof.
  intros H1 H2 s x s' Hs E. apply bind_Ret in E as (u & s1 & E1 & E2). pose proof (H1 s u s1 Hs E1) as HS1.
  eapply searches_trans; [exact HS1|]. apply (H2 s1 x s'); [by eapply se_skel|done].
Qed.

Lemma searching_mark_function g b n f : searching g b (root b f) (mark_function n f).
Proof.
  unfold mark_function, root. destruct (f_type f) as [t|]; [|by intros s x s' _ E].
  eapply searching_mono;
    [|apply searching_bind; [apply searching_do_mark|
      apply (searching_each g b (fun a j => b = false /\ j = arg_type a)); intros a _; apply searching_do_mark]].
  intros i. destruct b; naive_solver.
Qed.

(** A search that starts without marks leaves exactly the custom types it can reach. *)
Lemma searches_exact g b (P : nat -> Prop) s s' :
  (forall c, ~ marked b s c) -> searches g b P s s' ->
  forall c, marked b s' c <-> exists i, P i /\ reaches g i c.
Proof.
  intros Hno HS c. split.
  - intros Hc. by destruct (se_sound _ _ _ _ _ HS c Hc) as [?%Hno|?].
  - intros (i & Hi & d & Hd & Hr). assert (Hm : marked b s' d) by by eapply se_roots.
    clear Hd. induction Hr as [|d e c Hu Hr IH]; [done|]. apply IH. by apply (se_closed _ _ _ _ _ HS d).
Qed.

Lemma mark_function_total g D G n f s :
  closed g D G -> skel s = g -> (List.length (sk_customs g) * S D + D < n)%nat ->
  (exists t, f_type f = Some t /\ node g G D t) -> (forall a, a ∈ f_args f -> node g G D (arg_type a)) ->
  exists s', mark_function n f s = Ret (tt, s') /\ skel s' = g.
Proof.
  intros Hcl Hs Hn (t & Ht & Hnode) Hargs. unfold mark_function. rewrite Ht.
  assert (Hone : forall b i s, skel s = g -> node g G D i -> exists s', do_mark n b i s = Ret (tt, s') /\ skel s' = g).
  { intros b i s0 Hs0 Hi. destruct (do_mark_total g D G n b D i s0) as (s' & E & Hs' & _); try done; [|by exists s'].
    assert (unmarked b s0 <= List.length (sk_customs g))%nat; [|nia].
    subst g. rewrite <- Hs0. cbn. rewrite length_map. apply length_filter. }
  destruct (Hone true t s Hs Hnode) as (s1 & E1 & Hs1). unfold bind. rewrite E1. cbn.
  apply (each_total (fun s => skel s = g)); [|done]. intros a s2 Ha Hs2. by apply Hone, Hargs.
Qed.

(** ** Marking changes nothing but marks *)

Definition unmark (c : CustomType) : CustomType := mk_CustomType (ct_name c) (ct_constructors c) false false.
Definition erase (s : schema) : schema := set_custom_types_ (map unmark (custom_types_ s)) s.

Definition erases {A} (m : SM A) : Prop := forall s x s', m s = Ret (x, s') -> erase s' = erase s.

Lemma erases_bind {A B} (m : SM A) (k : A -> SM B) : erases m -> (forall a, erases (k a)) -> erases (bind m k).
Proof. intros Hm Hk s b s' (a & s1 & E1 & E2)%bind_Ret. by rewrite (Hk a s1 b s' E2), (Hm s a s1 E1). Qed.

Lemma erases_ret {A} (a : A) : erases (ret a).
Proof. by intros s x s' [= _ <-]. Qed.

Lemma erases_fail {A} f : erases (fail f : SM A).
Proof. by intros s x s' E. Qed.

Lemma erases_deref {A} (vec : schema -> list A) i : erases (deref vec i).
Proof. intros s x s' E. by apply deref_Ret in E as [_ ->]. Qed.

Lemma erases_each {A} (act : A -> SM unit) l : (forall x, erases (act x)) -> erases (each act l).
Proof. intros Ha. induction l as [|x l IH]; [apply erases_ret|]. by apply erases_bind. Qed.

Lemma erases_set_was b c : erases (update custom_types_ set_custom_types_ c (set_was b)).
Proof.
  intros s x s'. unfold update. destruct (custom_types_ s !! c) as [ct|] eqn:Hc; [|done]. intros [= _ <-].
  destruct s as [l1 l2 l3 l4 cts l5 m1 m2 m3]; cbn in *. unfold erase. cbn. f_equal. rewrite list_fmap_insert.
  apply list_insert_id. rewrite list_lookup_fmap, Hc. cbn. by destruct b.
Qed.

Create HintDb erases.
#[export] Hint Resolve erases_ret erases_fail erases_deref erases_set_was : erases.

Lemma erases_do_mark n b i : erases (do_mark n b i).
Proof.
  revert i. induction n as [|n IH]; intros i; cbn [do_mark]; [by intros s x s' E|].
  apply erases_bind; [auto with erases|intros t]. case_bool_decide; [destruct (vector_value_type t); auto with erases|].
  case_bool_decide; cbn [negb]; [|auto with erases]. destruct (custom t) as [c|]; [|auto with erases].
  apply erases_bind; [auto with erases|intros ct]. destruct (was b ct); [auto with erases|].
  apply erases_bind; [auto with erases|intros _]. apply erases_each. intros k. apply erases_bind; [auto with erases|].
  intros kk. by apply erases_each.
Qed.

Lemma erases_mark_function n f : erases (mark_function n f).
Proof.
  unfold mark_function. destruct (f_type f) as [t|]; (apply erases_bind; [|intros _]).
  - apply erases_do_mark.
  - apply erases_each. intros a. apply erases_do_mark.
  - apply erases_fail.
  - apply erases_each. intros a. apply erases_do_mark.
Qed.
