(* ===== verification/Shape.v ===== *)
(** * The simplified schema represents the configuration

    Building the graph ends, without tripping an assertion, on the configurations
    the generators are made for ([simple_config]): types without parameters but
    for [Vector], which has one, and distinct numbers.  The objects then mirror
    the types, constructors and functions of the configuration one by one
    ([represents]), and the marks are reachability in the configuration itself.

    A call only adds objects.  While it is under way one object may be open: a
    vector whose item is not known yet, a custom type or a constructor whose list
    is still growing.  [ext h s s'] says that the call went from [s] to [s'] with at
    most the object [h] open, and that every number it registered is finished. *)
From Stdlib Require Import ZArith Lia List Bool Ascii String.
From stdpp Require Import base list strings gmap relations.
From S2P Require Import Prelude Reader Simple Marks.
Open Scope tl_scope.

Ltac open_schema s := destruct s as [cts fos fs ks cus ts tm cm fm]; cbn in *.

(** ** Simple configurations *)

Section Config.
Context (config : tl_config).

(** The types that become a [CustomType]. *)
Definition is_custom (t : tl_type) : bool :=
  negb (is_Vector (t_name t)) && bool_decide (builtin_tag (t_name t) = None).

Definition custom_list : list tl_type := List.filter is_custom (types config).

(** [config_->get_type (from->type_id)] *)
Definition owner (k : tl_combinator) : option tl_type :=
  match id_to_type config !! k_type_id k with Some i => types config !! i | None => None end.

Fixpoint simple_tree (x : tl_tree) : bool :=
  match x with
  | tl_tree_type _ i children =>
      match types config !! i, children with
      | Some t, [] => negb (is_Vector (t_name t))
      | Some t, [child] => is_Vector (t_name t) && simple_tree child
      | _, _ => false
      end
  | _ => false
  end.

Definition simple_args (k : tl_combinator) : bool := forallb (fun a => simple_tree (from_type a)) (k_args k).

Definition simple_constructor (t : tl_type) (k : tl_combinator) : bool :=
  match owner k with Some t' => t_id t' =? t_id t | None => false end && simple_args k.

Definition simple_function (f : tl_combinator) : bool :=
  match owner f with Some t => negb (is_Vector (t_name t)) | None => false end && simple_args f.

Definition simple_config : bool :=
  bool_decide (NoDup (map t_id (types config))) &&
  bool_decide (NoDup (map k_id (concat (map t_constructors custom_list)))) &&
  bool_decide (NoDup (map k_id (functions config))) &&
  forallb (fun t => forallb (simple_constructor t) (t_constructors t)) custom_list &&
  forallb simple_function (functions config).

(** ** What the objects stand for *)

(** Type object [p] is built from the tree. *)
Inductive rep_tree (s : schema) : tl_tree -> nat -> Prop :=
| rep_vector f i t x p ty q :
    types config !! i = Some t -> is_Vector (t_name t) = true ->
    types_ s !! p = Some ty -> tag ty = Vector -> vector_value_type ty = Some q ->
    rep_tree s x q -> rep_tree s (tl_tree_type f i [x]) p
| rep_type f i t p :
    types config !! i = Some t -> is_Vector (t_name t) = false -> type_by_id s !! t_id t = Some p ->
    rep_tree s (tl_tree_type f i []) p.

Definition rep_args (s : schema) : list arg -> list Arg -> Prop :=
  Forall2 (fun a b => arg_name b = from_name a /\ rep_tree s (from_type a) (arg_type b)).

(** The type object of number [t_id t]. *)
Definition shape (s : schema) (t : tl_type) (p : nat) : Prop :=
  exists ty, types_ s !! p = Some ty /\
    match builtin_tag (t_name t) with
    | Some g => tag ty = g
    | None => tag ty = Custom /\ exists c ct, custom ty = Some c /\ custom_types_ s !! c = Some ct /\ ct_name ct = t_name t
    end.

(** [c] is the custom type made for [t]. *)
Definition custom_of (s : schema) (t : tl_type) (c : nat) : Prop :=
  exists p ty, type_by_id s !! t_id t = Some p /\ types_ s !! p = Some ty /\ tag ty = Custom /\ custom ty = Some c.

(** The custom type made for [t] has an object for each constructor. *)
Definition type_done (N : nat) (s : schema) (t : tl_type) : Prop :=
  exists c ct, (N <= c)%nat /\ custom_of s t c /\ custom_types_ s !! c = Some ct /\ ct_name ct = t_name t /\
    Forall2 (fun k q => constructor_by_id s !! k_id k = Some q) (t_constructors t) (ct_constructors ct).

(** Constructor [k] of [t] has an object with its name, number, type and arguments. *)
Definition cons_done (N : nat) (s : schema) (t : tl_type) (k : tl_combinator) : Prop :=
  exists q kk c, (N <= q)%nat /\ constructor_by_id s !! k_id k = Some q /\ constructors_ s !! q = Some kk /\
    c_name kk = k_name k /\ c_id kk = k_id k /\ c_type kk = Some c /\ custom_of s t c /\
    rep_args s (k_args k) (c_args kk).

(** ** Growth *)

Inductive hole := Closed | OpenVector (p : nat) | OpenType (c : nat) | OpenConstructor (q : nat).

Definition ty_le (ty ty' : Type_) : Prop :=
  tag ty' = tag ty /\ custom ty' = custom ty /\
  (vector_value_type ty = None \/ vector_value_type ty' = vector_value_type ty).

(** The objects of [s] are those of [s'], but for the open one. *)
Record le (h : hole) (s s' : schema) : Prop := {
  le_types p ty : types_ s !! p = Some ty ->
    exists ty', types_ s' !! p = Some ty' /\ ty_le ty ty' /\ (h = OpenVector p \/ ty' = ty);
  le_customs c ct : custom_types_ s !! c = Some ct ->
    exists ct', custom_types_ s' !! c = Some ct' /\ ct_name ct' = ct_name ct /\ (h = OpenType c \/ ct' = ct);
  le_constructors q k : constructors_ s !! q = Some k ->
    exists k', constructors_ s' !! q = Some k' /\ (h = OpenConstructor q \/ k' = k);
  le_tmap : type_by_id s ⊆ type_by_id s';
  le_cmap : constructor_by_id s ⊆ constructor_by_id s'
}.

Lemma ty_le_trans a b c : ty_le a b -> ty_le b c -> ty_le a c.
Proof. unfold ty_le. intros (? & ? & [?|?]) (? & ? & [?|?]); (split_and!; [congruence..|]);
  solve [left; congruence|right; congruence]. Qed.

Lemma le_refl h s : le h s s.
Proof. constructor; try done; eauto 10. intros p ty Hp. exists ty. split_and!; [done|split_and!; auto|by right]. Qed.

Lemma le_trans h s1 s2 s3 : le h s1 s2 -> le h s2 s3 -> le h s1 s3.
Proof.
  intros [A1 A2 A3 A4 A5] [B1 B2 B3 B4 B5]. constructor; [| | |by etrans..].
  - intros p ty Hp. destruct (A1 p ty Hp) as (ty1 & H1 & L1 & E1). destruct (B1 p ty1 H1) as (ty2 & H2 & L2 & E2).
    exists ty2. split_and!; [done|by eapply ty_le_trans|]. destruct E1, E2; subst; auto.
  - intros c ct Hc. destruct (A2 c ct Hc) as (ct1 & H1 & L1 & E1). destruct (B2 c ct1 H1) as (ct2 & H2 & L2 & E2).
    exists ct2. split_and!; [done|congruence|]. destruct E1, E2; subst; auto.
  - intros q k Hq. destruct (A3 q k Hq) as (k1 & H1 & E1). destruct (B3 q k1 H1) as (k2 & H2 & E2).
    exists k2. split; [done|]. destruct E1, E2; subst; auto.
Qed.

Lemma le_open h s s' : le Closed s s' -> le h s s'.
Proof.
  intros [A1 A2 A3 A4 A5]. constructor; try done.
  - intros p ty Hp. destruct (A1 p ty Hp) as (ty' & ? & ? & [|]); [done|eauto].
  - intros c ct Hc. destruct (A2 c ct Hc) as (ct' & ? & ? & [|]); [done|eauto].
  - intros q k Hq. destruct (A3 q k Hq) as (k' & ? & [|]); [done|eauto].
Qed.

(** An open object that was not there before. *)
Definition fresh_hole (h : hole) (s : schema) : Prop :=
  match h with
  | Closed => True
  | OpenVector p => types_ s !! p = None
  | OpenType c => custom_types_ s !! c = None
  | OpenConstructor q => constructors_ s !! q = None
  end.

Lemma le_close h s s' : fresh_hole h s -> le h s s' -> le Closed s s'.
Proof.
  intros Hh [A1 A2 A3 A4 A5]. constructor; try done.
  - intros p ty Hp. destruct (A1 p ty Hp) as (ty' & ? & ? & [->|]); [cbn in Hh; congruence|eauto].
  - intros c ct Hc. destruct (A2 c ct Hc) as (ct' & ? & ? & [->|]); [cbn in Hh; congruence|eauto].
  - intros q k Hq. destruct (A3 q k Hq) as (k' & ? & [->|]); [cbn in Hh; congruence|eauto].
Qed.

Lemma le_customs_length h s s' : le h s s' -> (List.length (custom_types_ s) <= List.length (custom_types_ s'))%nat.
Proof.
  intros L. apply Nat.nlt_ge. intros Hlt. apply lookup_lt_is_Some_2 in Hlt as [ct Hct].
  destruct (le_customs _ _ _ L _ _ Hct) as (ct' & Hct' & _). apply lookup_lt_Some in Hct'. lia.
Qed.

Lemma le_constructors_length h s s' : le h s s' -> (List.length (constructors_ s) <= List.length (constructors_ s'))%nat.
Proof.
  intros L. apply Nat.nlt_ge. intros Hlt. apply lookup_lt_is_Some_2 in Hlt as [ct Hct].
  destruct (le_constructors _ _ _ L _ _ Hct) as (ct' & Hct' & _). apply lookup_lt_Some in Hct'. lia.
Qed.

Section Mono.
Context (h : hole) (s s' : schema) (L : le h s s').

Lemma rep_tree_mono x p : rep_tree s x p -> rep_tree s' x p.
Proof.
  induction 1 as [f i t x p ty q Ht Hv Hp Htag Hq _ IH|f i t p Ht Hv Hp].
  - destruct (le_types _ _ _ L p ty Hp) as (ty' & Hp' & (T1 & _ & T2) & _).
    eapply rep_vector; eauto; [congruence|]. destruct T2; congruence.
  - eapply rep_type; eauto. by eapply lookup_weaken; [|eapply le_tmap].
Qed.

Lemma rep_args_mono l bs : rep_args s l bs -> rep_args s' l bs.
Proof. intros HF. eapply Forall2_impl; [exact HF|]. intros a b [? ?]. split; [done|by apply rep_tree_mono]. Qed.

Lemma shape_mono t p : shape s t p -> shape s' t p.
Proof.
  intros (ty & Hp & Hs). destruct (le_types _ _ _ L p ty Hp) as (ty' & Hp' & (T1 & T2 & _) & _). exists ty'. split; [done|].
  destruct (builtin_tag (t_name t)); [congruence|]. destruct Hs as (Hc & c & ct & Hcc & Hct & Hn). split; [congruence|].
  destruct (le_customs _ _ _ L c ct Hct) as (ct' & Hct' & Hn' & _). exists c, ct'. split_and!; congruence.
Qed.

Lemma custom_of_mono t c : custom_of s t c -> custom_of s' t c.
Proof.
  intros (p & ty & Ht & Hp & Htag & Hc). destruct (le_types _ _ _ L p ty Hp) as (ty' & Hp' & (T1 & T2 & _) & _).
  exists p, ty'. split_and!; [by eapply lookup_weaken; [|eapply le_tmap]|done|congruence..].
Qed.

Lemma type_done_mono N t : (forall c, h = OpenType c -> (c < N)%nat) -> type_done N s t -> type_done N s' t.
Proof.
  intros Hh (c & ct & HN & Hc & Hct & Hn & HF). destruct (le_customs _ _ _ L c ct Hct) as (ct' & Hct' & _ & [Heq| ->]).
  { specialize (Hh c Heq). lia. }
  exists c, ct. split_and!; try done; [by apply custom_of_mono|]. eapply Forall2_impl; [exact HF|]. intros k q Hk.
  exact (lookup_weaken _ _ _ _ Hk (le_cmap _ _ _ L)).
Qed.

Lemma cons_done_mono N t k : (forall q, h = OpenConstructor q -> (q < N)%nat) -> cons_done N s t k -> cons_done N s' t k.
Proof.
  intros Hh (q & kk & c & HN & Hq & Hk & Hn & Hi & Hty & Hc & Ha).
  destruct (le_constructors _ _ _ L q kk Hk) as (kk' & Hk' & [Heq| ->]); [specialize (Hh q Heq); lia|].
  exists q, kk, c. split_and!; try done; [|by apply custom_of_mono|by apply rep_args_mono].
  exact (lookup_weaken _ _ _ _ Hq (le_cmap _ _ _ L)).
Qed.
End Mono.

Lemma type_done_lower N N' s t : (N' <= N)%nat -> type_done N s t -> type_done N' s t.
Proof. intros HN (c & ct & ? & ?). exists c, ct. split; [lia|done]. Qed.

Lemma cons_done_lower N N' s t k : (N' <= N)%nat -> cons_done N s t k -> cons_done N' s t k.
Proof. intros HN (q & kk & c & ? & ?). exists q, kk, c. split; [lia|done]. Qed.

(** ** Calls *)

(** The registered numbers have objects of their kind, and nothing is marked. *)
Record wf (s : schema) : Prop := {
  wf_types t p : t ∈ types config -> type_by_id s !! t_id t = Some p -> shape s t p;
  wf_inj t t' c : t ∈ types config -> t' ∈ types config -> custom_of s t c -> custom_of s t' c -> t_id t = t_id t';
  wf_marks : Forall (fun ct => is_result_ ct = false /\ is_query_ ct = false) (custom_types_ s)
}.

Lemma builtin_not_custom name g : builtin_tag name = Some g -> g <> Custom /\ g <> Vector.
Proof. unfold builtin_tag. repeat case_bool_decide; intros [= <-]; done. Qed.

(** A step that registers no type. *)
Lemma wf_same h s s' :
  le h s s' -> type_by_id s' = type_by_id s ->
  Forall (fun ct => is_result_ ct = false /\ is_query_ ct = false) (custom_types_ s') -> wf s -> wf s'.
Proof.
  intros L Et Hm W.
  assert (Hback : forall t c, t ∈ types config -> custom_of s' t c -> custom_of s t c).
  { intros t c Ht (p & ty' & Hp & Hty' & Htag & Hc). rewrite Et in Hp. destruct (wf_types _ W t p Ht Hp) as (ty & Hty & _).
    destruct (le_types _ _ _ L _ _ Hty) as (ty1 & Hty1 & (T1 & T2 & _) & _). exists p, ty. split_and!; [done..|congruence|congruence]. }
  constructor; [|by eauto using wf_inj|done]. intros t p Ht Hp. rewrite Et in Hp. eapply shape_mono; [exact L|]. by apply W.
Qed.

Lemma custom_of_bound s t c :
  wf s -> t ∈ types config -> custom_of s t c -> (c < List.length (custom_types_ s))%nat.
Proof.
  intros W Ht (p & ty & Hp & Hty & Htag & Hc). destruct (wf_types _ W t p Ht Hp) as (ty' & Hty' & Hs).
  rewrite Hty in Hty'. injection Hty' as <-. destruct (builtin_tag (t_name t)) eqn:Hb.
  - apply builtin_not_custom in Hb as [? _]. congruence.
  - destruct Hs as (_ & c' & ct & Hc' & Hct & _). rewrite Hc in Hc'. injection Hc' as <-. by eapply lookup_lt_Some.
Qed.

(** The numbers that a call registers are finished when it returns. *)
Definition new_types (s s' : schema) : Prop :=
  forall t, t ∈ custom_list -> type_by_id s !! t_id t = None -> is_Some (type_by_id s' !! t_id t) ->
    type_done (List.length (custom_types_ s)) s' t.

Definition new_constructors (s s' : schema) : Prop :=
  forall t k, t ∈ custom_list -> k ∈ t_constructors t -> constructor_by_id s !! k_id k = None ->
    is_Some (constructor_by_id s' !! k_id k) -> cons_done (List.length (constructors_ s)) s' t k.

Record ext (h : hole) (s s' : schema) : Prop := {
  ext_le : le h s s';
  ext_types : new_types s s';
  ext_constructors : new_constructors s s';
  ext_wf : wf s -> wf s'
}.

(** The open object is one of [s]. *)
Definition hole_in (h : hole) (s : schema) : Prop :=
  (forall c, h = OpenType c -> (c < List.length (custom_types_ s))%nat) /\
  (forall q, h = OpenConstructor q -> (q < List.length (constructors_ s))%nat).

Lemma ext_refl h s : ext h s s.
Proof. constructor; [apply le_refl|..|done]; [intros t _ E|intros t k _ _ E]; rewrite E; by intros [? ?]. Qed.

Lemma ext_trans h s1 s2 s3 : hole_in h s1 -> ext h s1 s2 -> ext h s2 s3 -> ext h s1 s3.
Proof.
  intros [H1 H2] [L1 T1 C1 W1] [L2 T2 C2 W2]. constructor; [by eapply le_trans| | |by auto].
  - intros t Ht E1 E3. destruct (type_by_id s2 !! t_id t) eqn:E2.
    + eapply type_done_mono; [exact L2|done|]. apply T1; [done..|by rewrite E2].
    + eapply type_done_lower; [by eapply le_customs_length|]. by apply T2.
  - intros t k Ht Hk E1 E3. destruct (constructor_by_id s2 !! k_id k) eqn:E2.
    + eapply cons_done_mono; [exact L2|done|]. apply C1; [done..|by rewrite E2].
    + eapply cons_done_lower; [by eapply le_constructors_length|]. by apply C2.
Qed.

Lemma ext_open h s s' : ext Closed s s' -> ext h s s'.
Proof. intros [L T C W]. constructor; try done. by apply le_open. Qed.

(** A step that registers nothing. *)
Lemma ext_same h s s' :
  le h s s' -> type_by_id s' = type_by_id s -> constructor_by_id s' = constructor_by_id s ->
  (wf s -> Forall (fun ct => is_result_ ct = false /\ is_query_ ct = false) (custom_types_ s')) -> ext h s s'.
Proof.
  intros L Et Ec Hm. constructor; [done|..].
  - intros t _ E. rewrite Et, E. by intros [? ?].
  - intros t k _ _ E. rewrite Ec, E. by intros [? ?].
  - intros W. by eapply wf_same; [..|apply Hm|].
Qed.

(** ** Total correctness of a call *)

Definition yields {A} (m : SM A) (s : schema) (Q : A -> schema -> Prop) : Prop :=
  exists a s', m s = Ret (a, s') /\ Q a s'.

Lemma yields_bind {A B} (m : SM A) (k : A -> SM B) s Q Q' :
  yields m s Q' -> (forall a s', Q' a s' -> yields (k a) s' Q) -> yields (bind m k) s Q.
Proof.
  intros (a & s1 & E & HQ) Hk. destruct (Hk a s1 HQ) as (b & s2 & E2 & HQ2). exists b, s2. split; [|done].
  unfold bind. rewrite E. exact E2.
Qed.

Lemma yields_ret {A} (a : A) s (Q : A -> schema -> Prop) : Q a s -> yields (ret a) s Q.
Proof. intros. by exists a, s. Qed.

Lemma yields_impl {A} (m : SM A) s (Q Q' : A -> schema -> Prop) :
  yields m s Q -> (forall a s', Q a s' -> Q' a s') -> yields m s Q'.
Proof. intros (a & s' & E & HQ) HI. exists a, s'. auto. Qed.

Section Steps.
Context {B : Type} (s : schema) (Q : B -> schema -> Prop).

Lemma push_step {A} (vec : schema -> list A) set x (k : nat -> SM B) :
  yields (k (List.length (vec s))) (set (vec s ++ [x]) s) Q -> yields (bind (push vec set x) k) s Q.
Proof. intros (b & s' & E & HQ). by exists b, s'. Qed.

Lemma update_step {A} (vec : schema -> list A) set i (f : A -> A) x (k : unit -> SM B) :
  vec s !! i = Some x -> yields (k tt) (set (<[i := f x]> (vec s)) s) Q -> yields (bind (update vec set i f) k) s Q.
Proof. intros E (b & s' & Ek & HQ). exists b, s'. split; [|done]. unfold bind, update. by rewrite E. Qed.

Lemma deref_step {A} (vec : schema -> list A) i x (k : A -> SM B) :
  vec s !! i = Some x -> yields (k x) s Q -> yields (bind (deref vec i) k) s Q.
Proof. intros E (b & s' & Ek & HQ). exists b, s'. split; [|done]. unfold bind, deref. by rewrite E. Qed.

Lemma modify_step (f : schema -> schema) (k : unit -> SM B) : yields (k tt) (f s) Q -> yields (bind (modify f) k) s Q.
Proof. intros (b & s' & E & HQ). by exists b, s'. Qed.

Lemma get_step (k : schema -> SM B) : yields (k s) s Q -> yields (bind get k) s Q.
Proof. intros (b & s' & E & HQ). by exists b, s'. Qed.
End Steps.

(** What [get_type] leaves alone. *)
Definition rest (s : schema) := (custom_types s, functions_out s, functions_ s, function_by_id s).

(** The types without a number yet. *)
Definition without (s : schema) (l : list tl_type) : nat :=
  List.length (filter (fun t => type_by_id s !! t_id t = None) l).

Definition missing (s : schema) : nat := without s (types config).

Lemma without_le s s' l : type_by_id s ⊆ type_by_id s' -> (without s' l <= without s l)%nat.
Proof.
  intros L. unfold without. induction l as [|t l IH]; [done|]. rewrite !filter_cons.
  repeat case_decide; cbn; try lia. destruct (type_by_id s !! t_id t) eqn:E; [|done].
  by rewrite (lookup_weaken _ _ _ _ E L) in *.
Qed.

Lemma missing_lt s s' t :
  t ∈ types config -> type_by_id s !! t_id t = None -> is_Some (type_by_id s' !! t_id t) ->
  type_by_id s ⊆ type_by_id s' -> (missing s' < missing s)%nat.
Proof.
  intros Ht E [p E'] L. unfold missing. apply list_elem_of_split in Ht as (l1 & l2 & ->).
  pose proof (without_le s s' l1 L). pose proof (without_le s s' l2 L). unfold without in *.
  rewrite !filter_app, !filter_cons, !length_app, (decide_True (P := type_by_id s !! t_id t = None)) by done.
  rewrite (decide_False (P := type_by_id s' !! t_id t = None)) by congruence. cbn. lia.
Qed.

Lemma ext_missing h s s' u : ext h s s' -> (missing s < u)%nat -> (missing s' < u)%nat.
Proof. intros [L _ _ _] Hu. eapply Nat.le_lt_trans; [|exact Hu]. apply without_le, (le_tmap _ _ _ L). Qed.

(** ** Steps *)

Lemma le_grow s s' a b c :
  types_ s' = types_ s ++ a -> custom_types_ s' = custom_types_ s ++ b -> constructors_ s' = constructors_ s ++ c ->
  type_by_id s ⊆ type_by_id s' -> constructor_by_id s ⊆ constructor_by_id s' -> le Closed s s'.
Proof.
  intros Ea Eb Ec Et Ek. constructor; [..|done|done]; rewrite ?Ea, ?Eb, ?Ec.
  - intros p ty Hp. exists ty. split_and!; [by apply lookup_app_l_Some|split_and!; auto|by right].
  - intros p ct Hp. exists ct. split_and!; [by apply lookup_app_l_Some|done|by right].
  - intros q k Hq. exists k. split; [by apply lookup_app_l_Some|by right].
Qed.

Lemma le_push_type s x : le Closed s (set_types_ (types_ s ++ [x]) s).
Proof. open_schema s. by apply (le_grow _ _ [x] [] []); cbn; rewrite ?app_nil_r. Qed.

Lemma le_set_type s p ty ty' :
  types_ s !! p = Some ty -> ty_le ty ty' -> le (OpenVector p) s (set_types_ (<[p := ty']> (types_ s)) s).
Proof.
  open_schema s. intros Hp Hle. constructor; cbn; try done; eauto 6. intros i t Hi. destruct (decide (p = i)) as [<-|Hne].
  - simplify_eq. exists ty'. split_and!; [|done|by left]. apply list_lookup_insert_eq. by eapply lookup_lt_Some.
  - exists t. rewrite list_lookup_insert_ne by done. split_and!; [done|split_and!; auto|by right].
Qed.

Lemma le_set_custom s c ct ct' :
  custom_types_ s !! c = Some ct -> ct_name ct' = ct_name ct ->
  le (OpenType c) s (set_custom_types_ (<[c := ct']> (custom_types_ s)) s).
Proof.
  open_schema s. intros Hc Hn. constructor; cbn; try done; eauto 6.
  - intros p ty Hp. exists ty. split_and!; [done|split_and!; auto|by right].
  - intros i t Hi. destruct (decide (c = i)) as [<-|Hne].
    + simplify_eq. exists ct'. split_and!; [|done|by left]. apply list_lookup_insert_eq. by eapply lookup_lt_Some.
    + exists t. rewrite list_lookup_insert_ne by done. by split_and!; [..|right].
Qed.

Lemma le_set_constructor s q k k' :
  constructors_ s !! q = Some k -> le (OpenConstructor q) s (set_constructors_ (<[q := k']> (constructors_ s)) s).
Proof.
  open_schema s. intros Hq. constructor; cbn; try done; eauto 6.
  - intros p ty Hp. exists ty. split_and!; [done|split_and!; auto|by right].
  - intros i t Hi. destruct (decide (q = i)) as [<-|Hne].
    + exists k'. split; [|by left]. apply list_lookup_insert_eq. by eapply lookup_lt_Some.
    + exists t. rewrite list_lookup_insert_ne by done. by split; [|right].
Qed.

(** ** What a simple configuration gives *)

Lemma custom_list_types t : t ∈ custom_list -> t ∈ types config /\ is_Vector (t_name t) = false /\ builtin_tag (t_name t) = None.
Proof.
  unfold custom_list, is_custom. rewrite list_elem_of_In, filter_In, <- list_elem_of_In.
  intros (Ht & [Hv%negb_true_iff Hb%bool_decide_eq_true]%andb_true_iff). done.
Qed.

Lemma simple_parts :
  simple_config = true ->
  NoDup (map t_id (types config)) /\ NoDup (map k_id (concat (map t_constructors custom_list))) /\
  NoDup (map k_id (functions config)) /\
  (forall t k, t ∈ custom_list -> k ∈ t_constructors t -> simple_constructor t k = true) /\
  (forall f, f ∈ functions config -> simple_function f = true).
Proof.
  unfold simple_config. rewrite !andb_true_iff, !bool_decide_eq_true, !forallb_forall.
  intros ((((N1 & N2) & N3) & HC) & HF). split_and!; try done.
  - intros t k Ht%list_elem_of_In Hk%list_elem_of_In. specialize (HC t Ht). rewrite forallb_forall in HC. by apply HC.
  - intros f Hf%list_elem_of_In. by apply HF.
Qed.

Section Simple.
Hypothesis Hsc : simple_config = true.

Lemma types_inj t t' : t ∈ types config -> t' ∈ types config -> t_id t = t_id t' -> t = t'.
Proof. destruct (simple_parts Hsc) as (ND & _). by apply NoDup_map_inj. Qed.

Lemma owner_types k t : owner k = Some t -> t ∈ types config.
Proof. unfold owner. destruct (id_to_type config !! k_type_id k); [|done]. apply list_elem_of_lookup_2. Qed.

Lemma constructor_simple t k :
  t ∈ custom_list -> k ∈ t_constructors t -> owner k = Some t /\ simple_args k = true.
Proof.
  intros Ht Hk. destruct (simple_parts Hsc) as (_ & _ & _ & HC & _). specialize (HC t k Ht Hk).
  unfold simple_constructor in HC. apply andb_true_iff in HC as [HO HA]. split; [|done].
  destruct (owner k) as [t'|] eqn:E; [|done]. apply Z.eqb_eq in HO. f_equal. apply types_inj; [|by apply custom_list_types|done].
  by eapply owner_types.
Qed.

Lemma constructors_inj t t' k k' :
  t ∈ custom_list -> k ∈ t_constructors t -> t' ∈ custom_list -> k' ∈ t_constructors t' ->
  k_id k = k_id k' -> t = t' /\ k = k'.
Proof.
  intros Ht Hk Ht' Hk' E. assert (k = k') as <-.
  { destruct (simple_parts Hsc) as (_ & ND & _). revert E. apply (NoDup_map_inj _ _ _ _ ND); apply elem_of_concat_map; eauto. }
  split; [|done]. destruct (constructor_simple t k Ht Hk) as [E1 _], (constructor_simple t' k Ht' Hk') as [E2 _]. congruence.
Qed.

Lemma function_simple f :
  f ∈ functions config -> exists t, owner f = Some t /\ t ∈ types config /\ is_Vector (t_name t) = false /\ simple_args f = true.
Proof.
  intros Hf. destruct (simple_parts Hsc) as (_ & _ & _ & _ & HF). specialize (HF f Hf).
  unfold simple_function in HF. apply andb_true_iff in HF as [HO HA]. destruct (owner f) as [t|] eqn:E; [|done].
  apply negb_true_iff in HO. exists t. split_and!; try done. by eapply owner_types.
Qed.
End Simple.

Lemma owner_step {B} k t (f : tl_type -> SM B) s Q :
  owner k = Some t -> yields (f t) s Q -> yields (bind (config_type config (k_type_id k)) f) s Q.
Proof.
  unfold owner, config_type. destruct (id_to_type config !! k_type_id k) as [i|]; [|done]. intros E (b & s' & Ef & HQ).
  exists b, s'. by rewrite E.
Qed.

(** ** The calls *)

Definition called (s s' : schema) : Prop := ext Closed s s' /\ rest s' = rest s.

Lemma called_refl s : called s s.
Proof. split; [apply ext_refl|done]. Qed.

Lemma hole_in_Closed s : hole_in Closed s.
Proof. by split. Qed.

Lemma called_trans s1 s2 s3 : called s1 s2 -> called s2 s3 -> called s1 s3.
Proof. intros [E1 R1] [E2 R2]. split; [by eapply ext_trans; [apply hole_in_Closed|..]|congruence]. Qed.

Lemma called_wf s s' : called s s' -> wf s -> wf s'.
Proof. intros [[] _]. done. Qed.

Lemma called_missing s s' u : called s s' -> (missing s < u)%nat -> (missing s' < u)%nat.
Proof. intros [E _]. by eapply ext_missing. Qed.

Section Calls.
Hypothesis Hsc : simple_config = true.
Context (gt : tl_type -> SM nat) (u : nat).
Hypothesis Hgt : forall t s, t ∈ types config -> is_Vector (t_name t) = false -> wf s -> (missing s < u)%nat ->
  yields (gt t) s (fun p s' => called s s' /\ type_by_id s' !! t_id t = Some p).

(** A vector: its item is built while it is open. *)
Lemma vector_call f i t x s :
  types config !! i = Some t -> is_Vector (t_name t) = true -> wf s -> (missing s < u)%nat ->
  (forall s, wf s -> (missing s < u)%nat -> yields (get_tree_type config gt x) s (fun p s' => called s s' /\ rep_tree s' x p)) ->
  yields (get_tree_type config gt (tl_tree_type f i [x])) s
    (fun p s' => called s s' /\ rep_tree s' (tl_tree_type f i [x]) p).
Proof.
  intros Ht Hv W Hu IH. cbn [get_tree_type]. rewrite Ht, Hv.
  pose (s1 := set_types_ (types_ s ++ [mk_Type Vector None None]) s). pose (p := List.length (types_ s)).
  assert (C1 : called s s1).
  { split; [|by open_schema s]. apply ext_same; [apply le_push_type|by open_schema s..|intros [_ _ Hm]; by open_schema s]. }
  assert (Hp : types_ s1 !! p = Some (mk_Type Vector None None)).
  { subst s1 p. open_schema s. by apply list_lookup_middle. }
  apply push_step. change (set_types_ _ s) with s1. change (List.length (types_ s)) with p.
  eapply yields_bind; [apply IH; [by eapply called_wf|by eapply called_missing]|]. intros v s2 [C2 Hr]. cbn beta in *.
  destruct (le_types _ _ _ (ext_le _ _ _ (proj1 C2)) p _ Hp) as (ty & Hp2 & _ & [| ->]); [done|].
  eapply update_step; [exact Hp2|]. remember (set_types_ _ s2) as s3 eqn:Hs3. apply yields_ret.
  assert (L3 : le (OpenVector p) s2 s3) by (subst s3; apply (le_set_type _ _ _ _ Hp2); split_and!; auto).
  assert (E3 : ext (OpenVector p) s2 s3).
  { apply ext_same; [done|subst s3; by open_schema s2..|]. intros [_ _ Hm]. subst s3. by open_schema s2. }
  assert (E : ext (OpenVector p) s s3).
  { eapply ext_trans; [done|by apply ext_open, (called_trans _ _ _ C1 C2)|done]. }
  split; [split|].
  - destruct E as [L T C Wf]. constructor; try done. apply (le_close (OpenVector p)); [|done].
    apply lookup_ge_None. subst p. lia.
  - rewrite <- (proj2 (called_trans _ _ _ C1 C2)). subst s3. by open_schema s2.
  - eapply (rep_vector s3 f i t x p (mk_Type Vector None (Some v)) v); try done; [|by eapply rep_tree_mono].
    subst s3. open_schema s2. apply list_lookup_insert_eq. by eapply lookup_lt_Some.
Qed.

Lemma tree_call x s :
  simple_tree x = true -> wf s -> (missing s < u)%nat ->
  yields (get_tree_type config gt x) s (fun p s' => called s s' /\ rep_tree s' x p).
Proof.
  revert x s. fix IH 1. intros [f i children| | | | ] s; try done. cbn [simple_tree].
  destruct (types config !! i) as [t|] eqn:Ht; [|done]. destruct children as [|x [|]]; [| |done].
  - intros Hv%negb_true_iff W Hu. cbn [get_tree_type]. rewrite Ht, Hv.
    eapply yields_impl; [apply (Hgt t s); [by eapply list_elem_of_lookup_2|done..]|].
    intros p s' [C Hp]. split; [done|]. by eapply rep_type.
  - intros [Hv Hx]%andb_true_iff W Hu. eapply vector_call; [done..|]. intros s' W' Hu'. by apply IH.
Qed.

(** The arguments of an open object: [J bs] says that it has the arguments [bs] so far. *)
Lemma args_call h (J : list Arg -> schema -> Prop) (add : Arg -> SM unit) l acc s :
  (forall acc s s', called s s' -> J acc s -> J acc s') -> (forall acc s, J acc s -> hole_in h s) ->
  (forall acc a s, J acc s -> yields (add a) s (fun _ s' => ext h s s' /\ J (acc ++ [a]) s')) ->
  forallb (fun a => simple_tree (from_type a)) l = true -> wf s -> (missing s < u)%nat -> J acc s ->
  yields (get_args config gt add l) s (fun _ s' => ext h s s' /\ exists bs, J (acc ++ bs) s' /\ rep_args s' l bs).
Proof.
  intros HJ Hin Hadd. revert acc s. induction l as [|a l IH]; intros acc s Hl W Hu Hs; cbn [get_args].
  { apply yields_ret. split; [apply ext_refl|]. exists []. rewrite app_nil_r. split; [done|constructor]. }
  cbn in Hl. apply andb_true_iff in Hl as [Ha Hl].
  eapply yields_bind; [by apply tree_call|]. intros p s1 [C1 Hp]. cbn beta.
  eapply yields_bind; [by apply (Hadd acc); [eapply HJ]|]. intros _ s2 [E2 J2]. cbn beta.
  assert (E12 : ext h s s2) by (eapply ext_trans; [by eapply Hin|by apply ext_open, C1|done]).
  eapply yields_impl; [apply (IH (acc ++ [mk_Arg p (from_name a)])); try done|].
  - by apply E12.
  - by eapply ext_missing.
  - intros _ s3 (E3 & bs & J3 & R3). split; [by eapply ext_trans; [eapply Hin|..]|].
    exists (mk_Arg p (from_name a) :: bs). split; [by rewrite <- app_assoc in J3|]. constructor; [|done]. split; [done|].
    eapply rep_tree_mono; [exact (ext_le _ _ _ E3)|]. eapply rep_tree_mono; [exact (ext_le _ _ _ E2)|done].
Qed.

Lemma custom_type_call t s :
  t ∈ custom_list -> wf s -> (missing s < u)%nat ->
  yields (get_custom_type gt t) s (fun c s' => called s s' /\ custom_of s' t c).
Proof.
  intros (Ht & Hv & Hb)%custom_list_types W Hu. unfold get_custom_type.
  eapply yields_bind; [by apply Hgt|]. intros p s' [C Hp]. cbn beta.
  destruct (wf_types s' (called_wf _ _ C W) t p Ht Hp) as (ty & Hty & Hs). rewrite Hb in Hs.
  destruct Hs as (Htag & c & ct & Hc & _). eapply deref_step; [exact Hty|].
  rewrite bool_decide_true, Hc by done. exists c, s'. split; [done|]. split; [done|]. by exists p, ty.
Qed.

(** The object of a constructor while its arguments are added. *)
Definition open_constructor (r : list nat * list nat * list Function_ * gmap Z nat) (q : nat) (k : tl_combinator) (c : nat)
    (bs : list Arg) (s : schema) : Prop :=
  constructors_ s !! q = Some (mk_Constructor (k_name k) (k_id k) bs (Some c)) /\ rest s = r.

Lemma set_constructor_ext q k k' s :
  constructors_ s !! q = Some k -> ext (OpenConstructor q) s (set_constructors_ (<[q := k']> (constructors_ s)) s).
Proof.
  intros Hq. apply ext_same; [by eapply le_set_constructor|by open_schema s..|]. intros [_ _ Hm]. by open_schema s.
Qed.

Lemma constructor_args_call q k c s :
  simple_args k = true -> wf s -> (missing s < u)%nat -> open_constructor (rest s) q k c [] s ->
  yields (get_args config gt (fun a => update constructors_ set_constructors_ q (add_c_arg a)) (k_args k)) s
    (fun _ s' => ext (OpenConstructor q) s s' /\ exists bs, open_constructor (rest s) q k c bs s' /\ rep_args s' (k_args k) bs).
Proof.
  intros Hk W Hu J0. apply (args_call (OpenConstructor q) (open_constructor (rest s) q k c) _ (k_args k) []); try done.
  - intros bs s0 s1 [E R] [Hq R0]. split; [|congruence].
    destruct (le_constructors _ _ _ (ext_le _ _ _ E) _ _ Hq) as (kk & Hkk & [|Heq]); [done|congruence].
  - intros bs s0 [Hq _]. split; [done|]. intros ? [= <-]. by eapply lookup_lt_Some.
  - intros bs a s0 [Hq R0]. eexists tt, _. split; [unfold update; by rewrite Hq|]. split; [by eapply set_constructor_ext|].
    split; [|by open_schema s0]. open_schema s0. apply list_lookup_insert_eq. by eapply lookup_lt_Some.
Qed.

(** A constructor that is registered in [s1], and finished in [s2]. *)
Lemma constructor_close t k q s s1 s2 kk :
  t ∈ custom_list -> k ∈ t_constructors t -> wf s -> constructor_by_id s !! k_id k = None -> q = List.length (constructors_ s) ->
  types_ s1 = types_ s -> custom_types_ s1 = custom_types_ s -> type_by_id s1 = type_by_id s ->
  constructors_ s1 = constructors_ s ++ [kk] -> constructor_by_id s1 = <[k_id k := q]> (constructor_by_id s) ->
  ext (OpenConstructor q) s1 s2 -> cons_done q s2 t k -> ext Closed s s2.
Proof.
  intros Ht Hk W E Hq Ety Ecu Etm Eco Ecm [L T C Wf] Hdone.
  assert (L1 : le Closed s s1).
  { apply (le_grow _ _ [] [] [kk]); rewrite ?app_nil_r; try done; [by rewrite Etm|]. rewrite Ecm. by apply insert_subseteq. }
  constructor.
  - apply (le_close (OpenConstructor q)); [apply lookup_ge_None; lia|]. by eapply le_trans; [apply le_open|].
  - intros t' Ht' E1 E2. rewrite <- Ecu. apply T; [done|by rewrite Etm|done].
  - intros t' k' Ht' Hk' E1 E2. destruct (decide (k_id k' = k_id k)) as [Heq|Hne].
    + destruct (constructors_inj Hsc t' t k' k) as [-> ->]; try done. by rewrite <- Hq.
    + apply (cons_done_lower (List.length (constructors_ s1))); [rewrite Eco, length_app; lia|].
      apply C; [done..| |done]. by rewrite Ecm, lookup_insert_ne by done.
  - intros _. apply Wf. eapply wf_same; [exact L1|done|rewrite Ecu; apply W|done].
Qed.

Lemma constructor_call t k s :
  t ∈ custom_list -> k ∈ t_constructors t -> wf s -> (missing s < u)%nat ->
  yields (get_constructor config gt k) s (fun q s' => called s s' /\ constructor_by_id s' !! k_id k = Some q).
Proof.
  intros Ht Hk W Hu. destruct (constructor_simple Hsc t k Ht Hk) as [Hown Hargs]. unfold get_constructor.
  apply get_step. destruct (constructor_by_id s !! k_id k) as [q|] eqn:E.
  { apply yields_ret. split; [apply called_refl|done]. }
  apply push_step, modify_step. set (q := List.length (constructors_ s)).
  set (kk := mk_Constructor (k_name k) (k_id k) [] None).
  match goal with |- yields _ ?x _ => set (s1 := x) end.
  assert (F1 : types_ s1 = types_ s /\ custom_types_ s1 = custom_types_ s /\ type_by_id s1 = type_by_id s /\
    constructors_ s1 = constructors_ s ++ [kk] /\ constructor_by_id s1 = <[k_id k := q]> (constructor_by_id s) /\
    rest s1 = rest s) by (subst s1; by open_schema s).
  clearbody s1. destruct F1 as (Ety & Ecu & Etm & Eco & Ecm & R1).
  assert (W1 : wf s1).
  { eapply (wf_same Closed s); [|done|rewrite Ecu; apply W|done].
    apply (le_grow _ _ [] [] [kk]); rewrite ?app_nil_r; try done; [by rewrite Etm|rewrite Ecm; by apply insert_subseteq]. }
  assert (Hu1 : (missing s1 < u)%nat) by (unfold missing, without; by rewrite Etm).
  assert (Hq1 : constructors_ s1 !! q = Some kk) by (rewrite Eco; by apply list_lookup_middle).
  apply (owner_step k t); [done|]. eapply yields_bind; [by apply custom_type_call|]. intros c s2 [C2 Hc2]. cbn beta.
  destruct (le_constructors _ _ _ (ext_le _ _ _ (proj1 C2)) _ _ Hq1) as (k2 & Hq2 & [|Heq]); [done|subst k2].
  eapply update_step; [exact Hq2|]. pose proof (set_constructor_ext q kk (set_c_type c kk) s2 Hq2) as E3.
  match goal with |- yields _ ?x _ => set (s3 := x) in * end.
  assert (F3 : constructors_ s3 !! q = Some (set_c_type c kk) /\ rest s3 = rest s).
  { split; [|rewrite <- R1, <- (proj2 C2); subst s3; by open_schema s2]. subst s3. open_schema s2.
    apply list_lookup_insert_eq. by eapply lookup_lt_Some. }
  clearbody s3. destruct F3 as [Hq3 R3].
  assert (Hin : hole_in (OpenConstructor q) s1) by (split; [done|]; intros ? [= <-]; by eapply lookup_lt_Some).
  assert (E13 : ext (OpenConstructor q) s1 s3) by (eapply ext_trans; [done|apply ext_open, C2|done]).
  eapply yields_bind.
  { apply (constructor_args_call q k c); [done|by apply E13|by eapply ext_missing|done]. }
  intros _ s4 (E4 & bs & [Hq4 R4] & Ha4). apply yields_ret.
  assert (Hcm : constructor_by_id s4 !! k_id k = Some q).
  { eapply lookup_weaken; [|apply (le_cmap _ _ _ (ext_le _ _ _ E4))]. eapply lookup_weaken; [|apply (le_cmap _ _ _ (ext_le _ _ _ E13))].
    rewrite Ecm. apply lookup_insert_eq. }
  split; [|done]. split; [|congruence].
  eapply (constructor_close t k q s s1 s4); try done; [by eapply ext_trans|].
  exists q, (mk_Constructor (k_name k) (k_id k) bs (Some c)), c. split_and!; try done.
  eapply custom_of_mono; [exact (ext_le _ _ _ E4)|]. by eapply custom_of_mono; [exact (ext_le _ _ _ E3)|].
Qed.

(** ** Types *)

Definition open_type (r : list nat * list nat * list Function_ * gmap Z nat) (c : nat) (t : tl_type) (qs : list nat)
    (s : schema) : Prop :=
  custom_types_ s !! c = Some (mk_CustomType (t_name t) qs false false) /\ rest s = r.

Lemma add_constructor_ext c t q qs s :
  open_type (rest s) c t qs s ->
  yields (update custom_types_ set_custom_types_ c (add_ct_constructor q)) s
    (fun _ s' => ext (OpenType c) s s' /\ open_type (rest s) c t (qs ++ [q]) s').
Proof.
  intros [Hc _]. eexists tt, _. split; [unfold update; by rewrite Hc|]. split.
  - apply ext_same; [by eapply le_set_custom|by open_schema s..|]. intros [_ _ Hm]. open_schema s.
    by apply Forall_insert.
  - split; [|by open_schema s]. open_schema s. apply list_lookup_insert_eq. by eapply lookup_lt_Some.
Qed.

Lemma constructors_call t c l qs s :
  t ∈ custom_list -> (forall k, k ∈ l -> k ∈ t_constructors t) -> wf s -> (missing s < u)%nat -> open_type (rest s) c t qs s ->
  yields (get_constructors config gt c l) s (fun _ s' => ext (OpenType c) s s' /\ rest s' = rest s /\
    exists qs', open_type (rest s) c t (qs ++ qs') s' /\
      Forall2 (fun k q => constructor_by_id s' !! k_id k = Some q) l qs').
Proof.
  intros Ht. revert qs s. induction l as [|k l IH]; intros qs s Hl W Hu J; cbn [get_constructors].
  { apply yields_ret. split; [apply ext_refl|]. split; [done|]. exists []. rewrite app_nil_r. split; [done|constructor]. }
  eapply yields_bind; [apply (constructor_call t k); [done|apply Hl; by left|done..]|]. intros q s1 [C1 Hq]. cbn beta.
  assert (Hin : hole_in (OpenType c) s) by (split; [|done]; intros ? [= <-]; eapply lookup_lt_Some, J).
  assert (J1 : open_type (rest s1) c t qs s1).
  { split; [|done]. destruct (le_customs _ _ _ (ext_le _ _ _ (proj1 C1)) _ _ (proj1 J)) as (ct & Hct & _ & [|Heq]); [done|].
    by rewrite <- Heq. }
  eapply yields_bind; [by apply (add_constructor_ext c t q qs)|]. intros _ s2 [E2 J2]. cbn beta.
  assert (E12 : ext (OpenType c) s s2) by (eapply ext_trans; [done|apply ext_open, C1|done]).
  assert (R2 : rest s2 = rest s) by (rewrite <- (proj2 C1); apply J2).
  eapply yields_impl; [apply (IH (qs ++ [q]))|].
  - intros k' Hk'. apply Hl. by right.
  - by apply E12.
  - by eapply ext_missing.
  - split; [apply J2|done].
  - intros _ s3 (E3 & R3 & qs' & J3 & HF). split; [by eapply ext_trans|]. split; [congruence|].
    exists (q :: qs'). split; [rewrite <- R2; by rewrite <- app_assoc in J3|]. constructor; [|done].
    eapply lookup_weaken; [|apply (le_cmap _ _ _ (ext_le _ _ _ E3))].
    eapply lookup_weaken; [exact Hq|apply (le_cmap _ _ _ (ext_le _ _ _ E2))].
Qed.

(** The state in which number [t_id t] is registered, with its object and, for a custom type, its open [CustomType]. *)
Record registered (t : tl_type) (ty : Type_) (cus : list CustomType) (s s1 : schema) : Prop := {
  rg_types : types_ s1 = types_ s ++ [ty];
  rg_customs : custom_types_ s1 = custom_types_ s ++ cus;
  rg_constructors : constructors_ s1 = constructors_ s;
  rg_tmap : type_by_id s1 = <[t_id t := List.length (types_ s)]> (type_by_id s);
  rg_cmap : constructor_by_id s1 = constructor_by_id s;
  rg_rest : rest s1 = rest s
}.

Section Register.
Context (t : tl_type) (ty : Type_) (cus : list CustomType) (s s1 : schema) (R : registered t ty cus s s1).
Hypothesis Ht : t ∈ types config.
Hypothesis W : wf s.
Hypothesis Hnew : type_by_id s !! t_id t = None.
Hypothesis Hmarks : Forall (fun ct => is_result_ ct = false /\ is_query_ ct = false) cus.
Hypothesis Hshape : shape s1 t (List.length (types_ s)).
Hypothesis Hcustom : forall c, custom ty = Some c -> (List.length (custom_types_ s) <= c)%nat.

Lemma registered_le : le Closed s s1.
Proof.
  destruct R as [R1 R2 R3 R4 R5 R6]. apply (le_grow _ _ [ty] cus []); rewrite ?app_nil_r; try done.
  - rewrite R4. by apply insert_subseteq.
  - by rewrite R5.
Qed.

(** The custom types in [s1]: that of [t], and those of [s]. *)
Lemma registered_custom t' c :
  t' ∈ types config -> custom_of s1 t' c ->
  t_id t' = t_id t /\ (List.length (custom_types_ s) <= c)%nat \/ custom_of s t' c /\ (c < List.length (custom_types_ s))%nat.
Proof.
  intros Ht' (p & ty' & Hp & Hty & Htag & Hc). rewrite (rg_tmap _ _ _ _ _ R) in Hp.
  rewrite (rg_types _ _ _ _ _ R) in Hty. apply lookup_insert_Some in Hp as [[Heq <-]|[Hne Hp]].
  - left. split; [done|]. apply Hcustom. rewrite list_lookup_middle in Hty by done. congruence.
  - right. destruct (wf_types _ W t' p Ht' Hp) as (ty1 & Hty1 & _). apply lookup_app_l_Some with (l2 := [ty]) in Hty1 as Hty2.
    assert (ty1 = ty') as -> by congruence. assert (Hof : custom_of s t' c) by by exists p, ty'.
    split; [done|]. by eapply custom_of_bound.
Qed.

Lemma registered_wf : wf s1.
Proof.
  constructor; [| |rewrite (rg_customs _ _ _ _ _ R); apply Forall_app; split; [apply W|done]].
  - intros t' p Ht' Hp. rewrite (rg_tmap _ _ _ _ _ R) in Hp. apply lookup_insert_Some in Hp as [[Heq <-]|[Hne Hp]].
    + by rewrite <- (types_inj Hsc t t').
    + eapply shape_mono; [apply registered_le|]. by apply W.
  - intros t1 t2 c H1 H2 C1%registered_custom C2%registered_custom; [|done..].
    destruct C1 as [[-> ?]|[C1 ?]], C2 as [[-> ?]|[C2 ?]]; try lia. by eapply wf_inj.
Qed.

(** What remains to show that the call is complete. *)
Lemma registered_close h s2 :
  ext h s1 s2 -> fresh_hole h s -> (t ∈ custom_list -> type_done (List.length (custom_types_ s)) s2 t) -> ext Closed s s2.
Proof.
  intros [L T C Wf] Hf Hdone. constructor.
  - apply (le_close h); [done|]. eapply le_trans; [apply le_open, registered_le|done].
  - intros t' Ht' E1 E2. destruct (decide (t_id t' = t_id t)) as [Heq|Hne].
    + apply custom_list_types in Ht' as Hc'. destruct (types_inj Hsc t' t) as []; [by apply Hc'|done|done|by apply Hdone].
    + apply (type_done_lower (List.length (custom_types_ s1))); [rewrite (rg_customs _ _ _ _ _ R), length_app; lia|].
      apply T; [done| |done]. by rewrite (rg_tmap _ _ _ _ _ R), lookup_insert_ne by done.
  - intros t' k Ht' Hk E1 E2. rewrite <- (rg_constructors _ _ _ _ _ R). apply C; [done..| |done].
    by rewrite (rg_cmap _ _ _ _ _ R).
  - intros _. apply Wf, registered_wf.
Qed.
End Register.

Lemma insert_last {A} (l : list A) x y : <[List.length l := x]> (l ++ [y]) = l ++ [x].
Proof. rewrite <- (Nat.add_0_r (List.length l)). by rewrite insert_app_r. Qed.

Lemma lookup_last {A} (l : list A) x : (l ++ [x]) !! List.length l = Some x.
Proof. by apply list_lookup_middle. Qed.

Ltac registered s := subst; open_schema s; constructor; cbn; rewrite ?insert_last, ?app_nil_r; done.

Section Type_.
Context (t : tl_type) (s : schema).
Hypothesis Ht : t ∈ types config.
Hypothesis Hv : is_Vector (t_name t) = false.
Hypothesis W : wf s.
Hypothesis Hnew : type_by_id s !! t_id t = None.

Lemma builtin_call g :
  builtin_tag (t_name t) = Some g ->
  yields (get_type_body config gt t) s (fun p s' => called s s' /\ type_by_id s' !! t_id t = Some p).
Proof.
  intros Hb. unfold get_type_body. apply get_step. rewrite Hnew, Hb. apply push_step, modify_step.
  eapply update_step; [open_schema s; apply lookup_last|]. apply yields_ret. match goal with |- called _ ?x /\ _ => set (s1 := x) end.
  assert (R : registered t (mk_Type g None None) [] s s1) by registered s. clearbody s1.
  assert (Hs : shape s1 t (List.length (types_ s))).
  { exists (mk_Type g None None). by rewrite Hb, (rg_types _ _ _ _ _ R), lookup_last. }
  split; [split|]; [|apply R|rewrite (rg_tmap _ _ _ _ _ R); apply lookup_insert_eq].
  apply (registered_close t _ _ s s1 R Ht W Hnew (Forall_nil_2 _) Hs ltac:(done) Closed); [apply ext_refl|done|].
  intros (_ & _ & ?)%custom_list_types. congruence.
Qed.

Lemma custom_call :
  builtin_tag (t_name t) = None -> (missing s < S u)%nat ->
  yields (get_type_body config gt t) s (fun p s' => called s s' /\ type_by_id s' !! t_id t = Some p).
Proof.
  intros Hb Hu. unfold get_type_body. apply get_step. rewrite Hnew, Hb, Hv. apply push_step, modify_step.
  eapply update_step; [open_schema s; apply lookup_last|]. apply push_step.
  eapply update_step; [open_schema s; rewrite insert_last; apply lookup_last|].
  eapply update_step; [open_schema s; apply lookup_last|].
  pose (c := List.length (custom_types_ s)). pose (ty := mk_Type Custom (Some c) None).
  match goal with |- yields _ ?x _ => set (s1 := x) end.
  assert (R : registered t ty [mk_CustomType (t_name t) [] false false] s s1) by (subst ty c; registered s).
  replace (List.length (custom_types_ _)) with c by (by open_schema s). clearbody s1.
  assert (Hc1 : custom_types_ s1 !! c = Some (mk_CustomType (t_name t) [] false false)).
  { rewrite (rg_customs _ _ _ _ _ R). apply lookup_last. }
  assert (Hp1 : types_ s1 !! List.length (types_ s) = Some ty) by (rewrite (rg_types _ _ _ _ _ R); apply lookup_last).
  assert (Hs : shape s1 t (List.length (types_ s))).
  { exists ty. rewrite Hb. split; [done|]. split; [done|]. by eexists c, _. }
  assert (Hm : Forall (fun ct => is_result_ ct = false /\ is_query_ ct = false) [mk_CustomType (t_name t) [] false false]) by by constructor.
  assert (HL : t ∈ custom_list).
  { apply list_elem_of_In, filter_In. rewrite <- list_elem_of_In. split; [done|]. unfold is_custom. by rewrite Hv, Hb. }
  pose proof (registered_le t _ _ s s1 R Hnew) as L1.
  assert (Ht1 : type_by_id s1 !! t_id t = Some (List.length (types_ s))) by (rewrite (rg_tmap _ _ _ _ _ R); apply lookup_insert_eq).
  eapply yields_bind.
  { apply (constructors_call t c _ []); [done|done| | |by split].
    { apply (registered_wf t _ _ s s1 R); try done. intros ? [= <-]. subst c. lia. }
    enough (missing s1 < missing s)%nat by lia. by eapply missing_lt; [..|apply (le_tmap _ _ _ L1)]. }
  intros _ s2 (E2 & R2 & qs & [Hc2 _] & HF). apply yields_ret.
  assert (Ht2 : type_by_id s2 !! t_id t = Some (List.length (types_ s))).
  { eapply lookup_weaken; [exact Ht1|apply (le_tmap _ _ _ (ext_le _ _ _ E2))]. }
  split; [|done]. split; [|rewrite R2; apply R].
  apply (registered_close t _ _ s s1 R Ht W Hnew Hm Hs ltac:(intros ? [= <-]; subst c; lia) (OpenType c)); [done|apply lookup_ge_None; subst c; lia|].
  intros _. exists c. eexists. split; [subst c; lia|]. split_and!; [|exact Hc2|done|exact HF].
  eapply custom_of_mono; [exact (ext_le _ _ _ E2)|]. by exists (List.length (types_ s)), ty.
Qed.
End Type_.

Lemma type_call t s :
  t ∈ types config -> is_Vector (t_name t) = false -> wf s -> (missing s < S u)%nat ->
  yields (get_type_body config gt t) s (fun p s' => called s s' /\ type_by_id s' !! t_id t = Some p).
Proof.
  intros Ht Hv W Hu. destruct (type_by_id s !! t_id t) as [p|] eqn:E.
  - unfold get_type_body. apply get_step. rewrite E. apply yields_ret. split; [apply called_refl|done].
  - destruct (builtin_tag (t_name t)) as [g|] eqn:Hb; [by eapply builtin_call|by apply custom_call].
Qed.
End Calls.

(** [get_type] with fuel for the types without a number. *)
Lemma get_type_call n t s :
  simple_config = true -> t ∈ types config -> is_Vector (t_name t) = false -> wf s -> (missing s < n)%nat ->
  yields (Simple.get_type config n t) s (fun p s' => called s s' /\ type_by_id s' !! t_id t = Some p).
Proof.
  intros Hsc. revert t s. induction n as [|n IH]; intros t s Ht Hv W Hn; [lia|]. by apply (type_call Hsc _ n).
Qed.
End Config.
