(* ===== verification/Mirror.v ===== *)
(** * The whole constructor of the simplified schema

    The loops over the types and the functions of the configuration, then the
    marks, put together: on a simple configuration [make_schema] returns, the
    schema mirrors the configuration, and a custom type is marked exactly when
    the configuration itself leads to it from a function. *)
From Stdlib Require Import ZArith Lia List Bool Ascii String.
From stdpp Require Import base list strings gmap relations.
From S2P Require Import Prelude Reader Simple Marks Shape.
Open Scope tl_scope.

Section Mirror.
Context (config : tl_config).

(** ** Functions *)

(** Function object [ff] is built from [f]. *)
Definition function_rep (s : schema) (f : tl_combinator) (ff : Function_) : Prop :=
  f_name ff = k_name f /\ f_id ff = k_id f /\
  (exists t p, owner config f = Some t /\ f_type ff = Some p /\ type_by_id s !! t_id t = Some p) /\
  rep_args config s (k_args f) (f_args ff).

Lemma function_rep_mono h s s' f ff : le h s s' -> function_rep s f ff -> function_rep s' f ff.
Proof.
  intros L (? & ? & (t & p & ? & ? & Hp) & Ha). split_and!; try done; [|by eapply rep_args_mono].
  exists t, p. split_and!; try done. exact (lookup_weaken _ _ _ _ Hp (le_tmap _ _ _ L)).
Qed.

(** A step that leaves the graph of types as it is. *)
Definition graph (s : schema) := (types_ s, custom_types_ s, constructors_ s, type_by_id s, constructor_by_id s).

Lemma ext_graph s s' : graph s' = graph s -> ext config Closed s s'.
Proof.
  intros [= E1 E2 E3 E4 E5]. apply ext_same; [|done..|intros W; rewrite E2; apply W].
  apply (le_grow _ _ [] [] []); rewrite ?app_nil_r; try done; [by rewrite E4|by rewrite E5].
Qed.

Context (Hsc : simple_config config = true).

(** The lists of the schema while function [f], result [p], is built as object [q] with the arguments [bs]. *)
Definition open_function (s : schema) (f : tl_combinator) (bs : list Arg) (p : option nat) (s' : schema) : Prop :=
  rest s' = (custom_types s, functions_out s, functions_ s ++ [mk_Function (k_name f) (k_id f) bs p],
    <[k_id f := List.length (functions_ s)]> (function_by_id s)).

Lemma open_function_object s f bs p s' :
  open_function s f bs p s' -> functions_ s' !! List.length (functions_ s) = Some (mk_Function (k_name f) (k_id f) bs p).
Proof. intros [= _ _ -> _]. apply lookup_last. Qed.

(** Changing the object of the function. *)
Lemma open_function_set s f bs p s' bs' p' (g : Function_ -> Function_) :
  open_function s f bs p s' ->
  g (mk_Function (k_name f) (k_id f) bs p) = mk_Function (k_name f) (k_id f) bs' p' ->
  yields (update functions_ set_functions_ (List.length (functions_ s)) g) s'
    (fun _ s2 => ext config Closed s' s2 /\ open_function s f bs' p' s2).
Proof.
  intros J Hg. eexists tt, _. split; [unfold update; by rewrite (open_function_object _ _ _ _ _ J)|]. rewrite Hg.
  split; [apply ext_graph; by open_schema s'|]. unfold open_function in *. open_schema s'. injection J as -> -> -> ->.
  unfold rest. cbn. by rewrite insert_last.
Qed.

Lemma function_call n f s :
  f ∈ functions config -> wf config s -> (missing config s < n)%nat -> function_by_id s !! k_id f = None ->
  yields (get_function config (Simple.get_type config n) f) s (fun q s' =>
    ext config Closed s s' /\ q = List.length (functions_ s) /\
    exists bs p, function_rep s' f (mk_Function (k_name f) (k_id f) bs (Some p)) /\ open_function s f bs (Some p) s').
Proof.
  intros Hf W Hn Hnew. destruct (function_simple config Hsc f Hf) as (t & Hown & Ht & Hv & Hargs).
  assert (Hgt := fun t s => get_type_call config n t s Hsc).
  unfold get_function. apply get_step. rewrite Hnew. apply push_step, modify_step.
  match goal with |- yields _ ?x _ => set (s1 := x) end.
  assert (E1 : ext config Closed s s1) by (apply ext_graph; subst s1; by open_schema s).
  assert (J1 : open_function s f [] None s1) by (subst s1; by open_schema s). clearbody s1.
  apply (owner_step config f t); [done|].
  eapply yields_bind; [apply Hgt; [done|done|by apply E1|by eapply ext_missing]|]. intros p s2 [C2 Hp]. cbn beta.
  assert (J2 : open_function s f [] None s2) by (unfold open_function; by rewrite (proj2 C2)).
  eapply yields_bind; [by eapply (open_function_set s f [] None s2 [] (Some p))|]. intros _ s3 [E3 J3]. cbn beta.
  assert (E13 : ext config Closed s s3).
  { eapply ext_trans; [done|exact E1|]. by eapply ext_trans; [done|apply C2|]. }
  eapply yields_bind.
  { apply (args_call config _ n Hgt Closed (fun bs => open_function s f bs (Some p)) _ (k_args f) []); try done.
    - intros bs s0 s0' [_ R] J. unfold open_function. congruence.
    - intros bs a s0 J. by eapply open_function_set.
    - by apply E13.
    - by eapply ext_missing. }
  intros _ s4 (E4 & bs & R4 & Ha). apply yields_ret. split; [by eapply ext_trans|]. split; [done|].
  exists bs, p. split; [|exact R4]. split_and!; try done. exists t, p. split_and!; try done.
  eapply lookup_weaken; [|apply (le_tmap _ _ _ (ext_le _ _ _ _ E4))].
  exact (lookup_weaken _ _ _ _ Hp (le_tmap _ _ _ (ext_le _ _ _ _ E3))).
Qed.

(** ** The loops *)

Lemma customs_call n l s :
  (forall t, t ∈ l -> t ∈ types config) -> wf config s -> (missing config s < n)%nat ->
  yields (each (add_custom_type config n) l) s (fun _ s' => ext config Closed s s' /\ exists cs,
    Forall2 (custom_of s') (List.filter is_custom l) cs /\
    rest s' = (custom_types s ++ cs, functions_out s, functions_ s, function_by_id s)).
Proof.
  revert s. induction l as [|t l IH]; intros s Hl W Hn; cbn [each].
  { apply yields_ret. split; [apply ext_refl|]. exists []. split; [constructor|]. by rewrite app_nil_r. }
  eapply yields_bind with (Q' := fun _ s1 => ext config Closed s s1 /\ exists cs,
    Forall2 (custom_of s1) (List.filter is_custom [t]) cs /\
    rest s1 = (custom_types s ++ cs, functions_out s, functions_ s, function_by_id s)).
  - unfold add_custom_type. cbn [List.filter]. destruct (is_Vector (t_name t)) eqn:Hv.
    { apply yields_ret. split; [apply ext_refl|]. unfold is_custom. rewrite Hv. cbn. exists []. rewrite app_nil_r. by split. }
    assert (Ht : t ∈ types config) by (apply Hl; by left).
    eapply yields_bind; [by apply get_type_call|]. intros p s1 [C1 Hp]. cbn beta.
    destruct (wf_types _ _ (called_wf _ _ _ C1 W) t p Ht Hp) as (ty & Hty & Hs). eapply deref_step; [exact Hty|].
    unfold is_custom. rewrite Hv. destruct (builtin_tag (t_name t)) as [g|] eqn:Hb.
    + apply builtin_not_custom in Hb as [Hg _]. rewrite bool_decide_false by congruence. apply yields_ret.
      split; [apply C1|]. exists []. rewrite app_nil_r. split; [constructor|]. apply C1.
    + destruct Hs as (Htag & c & ct & Hc & _). rewrite bool_decide_true, Hc by done. eexists tt, _. split; [done|].
      assert (E2 : ext config Closed s1 (set_custom_types (custom_types s1 ++ [c]) s1)) by (apply ext_graph; by open_schema s1).
      split; [by eapply ext_trans; [|apply C1|]|]. exists [c]. split.
      * rewrite bool_decide_true by done. constructor; [|constructor]. eapply custom_of_mono; [exact (ext_le _ _ _ _ E2)|].
        by exists p, ty.
      * pose proof (proj2 C1) as R1. open_schema s1. injection R1 as -> -> -> ->. done.
  - intros _ s1 (E1 & cs1 & F1 & R1). cbn beta.
    eapply yields_impl; [apply IH; [intros ? ?; apply Hl; by right|by apply E1|by eapply ext_missing]|].
    intros _ s2 (E2 & cs2 & F2 & R2). split; [by eapply ext_trans|]. exists (cs1 ++ cs2). split.
    + change (t :: l) with ([t] ++ l). rewrite List.filter_app. apply Forall2_app; [|done].
      eapply Forall2_impl; [exact F1|]. intros t' c. apply (custom_of_mono _ _ _ (ext_le _ _ _ _ E2)).
    + injection R1 as R1 R1' R1'' R1'''. by rewrite R2, R1, R1', R1'', R1''', app_assoc.
Qed.

Lemma functions_call n l s :
  (forall f, f ∈ l -> f ∈ functions config) -> NoDup (map k_id l) -> wf config s -> (missing config s < n)%nat ->
  (forall f, f ∈ l -> function_by_id s !! k_id f = None) ->
  yields (each (add_function_out config n) l) s (fun _ s' => ext config Closed s s' /\ exists ffs,
    Forall2 (function_rep s') l ffs /\ custom_types s' = custom_types s /\ functions_ s' = functions_ s ++ ffs /\
    functions_out s' = functions_out s ++ seq (List.length (functions_ s)) (List.length l)).
Proof.
  revert s. induction l as [|f l IH]; intros s Hl ND W Hn Hnew; cbn [each].
  { apply yields_ret. split; [apply ext_refl|]. exists []. cbn. rewrite !app_nil_r. split; [constructor|done]. }
  cbn in ND. apply NoDup_cons in ND as [Hf ND].
  eapply yields_bind with (Q' := fun _ s1 => ext config Closed s s1 /\ exists ff, function_rep s1 f ff /\
    rest s1 = (custom_types s, functions_out s ++ [List.length (functions_ s)], functions_ s ++ [ff],
      <[k_id f := List.length (functions_ s)]> (function_by_id s))).
  - unfold add_function_out.
    eapply yields_bind; [apply function_call; [apply Hl; by left|done|done|apply Hnew; by left]|].
    intros q s1 (E1 & -> & bs & p & Hrep & J). eexists tt, _. split; [done|].
    match goal with |- ext _ _ _ ?x /\ _ => assert (E2 : ext config Closed s1 x) by (apply ext_graph; by open_schema s1) end.
    split; [by eapply ext_trans|]. eexists. split; [by eapply function_rep_mono; [exact (ext_le _ _ _ _ E2)|]|].
    unfold open_function in J. open_schema s1. injection J as -> -> -> ->. done.
  - intros _ s1 (E1 & ff & Hrep & [= Rc Ro Rf Rm]). cbn beta. eapply yields_impl; [apply IH|].
    + intros g Hg. apply Hl. by right.
    + done.
    + by apply E1.
    + by eapply ext_missing.
    + intros g Hg. rewrite Rm, lookup_insert_ne; [apply Hnew; by right|]. intros Heq. apply Hf. rewrite Heq.
      by apply list_elem_of_fmap_2.
    + intros _ s2 (E2 & ffs & HF & Hc & Hfs & Ho). split; [by eapply ext_trans|]. exists (ff :: ffs).
      rewrite Hc, Hfs, Ho, Rc, Rf, Ro, length_app, <- !app_assoc, Nat.add_1_r. cbn. split_and!; try done. constructor; [|done].
      by eapply function_rep_mono; [exact (ext_le _ _ _ _ E2)|].
Qed.

(** ** The built graph *)

Record built (s : schema) : Prop := {
  b_wf : wf config s;
  b_types t : t ∈ custom_list config -> type_done 0 s t;
  b_constructors t k : t ∈ custom_list config -> k ∈ t_constructors t -> cons_done config 0 s t k;
  b_custom_types : Forall2 (custom_of s) (custom_list config) (custom_types s);
  b_functions : Forall2 (function_rep s) (functions config) (functions_ s);
  b_functions_out : functions_out s = seq 0 (List.length (functions_ s))
}.

Lemma empty_wf : wf config empty_schema.
Proof. constructor; [by intros t p _ [=]| |constructor]. by intros t t' c _ _ (p & ty & [=] & _). Qed.

(** What a call from the empty schema has registered is finished. *)
Lemma ext_empty s t :
  ext config Closed empty_schema s -> t ∈ custom_list config -> is_Some (type_by_id s !! t_id t) ->
  type_done 0 s t /\ forall k, k ∈ t_constructors t -> cons_done config 0 s t k.
Proof.
  intros [L T C W] Ht Hr. assert (HD : type_done 0 s t) by by apply T. split; [done|]. intros k Hk.
  apply C; [done..|]. destruct HD as (c & ct & _ & _ & _ & _ & HF). apply list_elem_of_lookup in Hk as (i & Hi).
  destruct (Forall2_lookup_l _ _ _ _ _ HF Hi) as (q & _ & Hq). by exists q.
Qed.

Lemma build_call :
  yields (bind (each (add_custom_type config (type_fuel config)) (types config))
    (fun _ => each (add_function_out config (type_fuel config)) (functions config))) empty_schema (fun _ s => built s).
Proof.
  assert (Hm : (missing config empty_schema < type_fuel config)%nat).
  { apply Nat.lt_succ_r, length_filter. }
  eapply yields_bind; [by apply customs_call; [|apply empty_wf|]|]. intros _ s1 (E1 & cs & F1 & [= Rc Ro Rf Rm]). cbn beta.
  eapply yields_impl; [apply functions_call; [done|by apply (simple_parts config Hsc)|apply E1, empty_wf|by eapply ext_missing|]|].
  { intros f _. by rewrite Rm. }
  intros _ s2 (E2 & ffs & F2 & Hc & Hfs & Ho). cbn in *. rewrite Rf in Hfs. cbn in Hfs.
  assert (E : ext config Closed empty_schema s2) by by eapply ext_trans.
  assert (F : Forall2 (custom_of s2) (custom_list config) (custom_types s2)).
  { rewrite Hc, Rc. eapply Forall2_impl; [exact F1|]. intros t c. apply (custom_of_mono _ _ _ (ext_le _ _ _ _ E2)). }
  assert (Hreg : forall t, t ∈ custom_list config -> is_Some (type_by_id s2 !! t_id t)).
  { intros t (i & Hi)%list_elem_of_lookup. destruct (Forall2_lookup_l _ _ _ _ _ F Hi) as (c & _ & p & ty & Hp & _). by exists p. }
  constructor; [by apply E, empty_wf|..|done|by rewrite Hfs|].
  - intros t Ht. by apply ext_empty; [..|apply Hreg].
  - intros t k Ht. by apply ext_empty; [..|apply Hreg].
  - rewrite Ho, Rf, Ro, Hfs. cbn. by rewrite (Forall2_length _ _ _ F2).
Qed.

(** ** Reachability in the configuration *)

(** The type that a tree is, or is a vector of. *)
Fixpoint tree_type (x : tl_tree) : option tl_type :=
  match x with
  | tl_tree_type _ i [] => types config !! i
  | tl_tree_type _ _ [child] => tree_type child
  | _ => None
  end.

(** Custom type [t] has a field of custom type [t']. *)
Definition config_uses (t t' : tl_type) : Prop :=
  t' ∈ custom_list config /\ exists k a, k ∈ t_constructors t /\ a ∈ k_args k /\ tree_type (from_type a) = Some t'.

(** The types of results, or of arguments, of functions. *)
Definition start (b : bool) (t : tl_type) : Prop :=
  t ∈ custom_list config /\ exists f, f ∈ functions config /\
    if b then owner config f = Some t else exists a, a ∈ k_args f /\ tree_type (from_type a) = Some t.

Section Built.
Context (s : schema) (B : built s).

Lemma custom_of_fun t c c' : custom_of s t c -> custom_of s t c' -> c = c'.
Proof. intros (p & ty & Hp & Hty & _ & Hc) (p' & ty' & Hp' & Hty' & _ & Hc'). congruence. Qed.

Lemma custom_of_inj t t' c :
  t ∈ custom_list config -> t' ∈ custom_list config -> custom_of s t c -> custom_of s t' c -> t = t'.
Proof.
  intros Ht%custom_list_types Ht'%custom_list_types C C'. apply (types_inj config Hsc); [apply Ht|apply Ht'|].
  eapply (wf_inj config s (b_wf s B)); [apply Ht|apply Ht'|exact C|exact C'].
Qed.

(** A type object by its number: a custom type, or nothing to search. *)
Lemma type_object t p :
  t ∈ types config -> is_Vector (t_name t) = false -> type_by_id s !! t_id t = Some p ->
  exists ty, types_ s !! p = Some ty /\
    ((t ∉ custom_list config) /\ tag ty <> Vector /\ tag ty <> Custom \/
     t ∈ custom_list config /\ tag ty = Custom /\ exists c, custom ty = Some c /\ custom_of s t c).
Proof.
  intros Ht Hv Hp. destruct (wf_types _ _ (b_wf s B) t p Ht Hp) as (ty & Hty & Hs). exists ty. split; [done|].
  destruct (builtin_tag (t_name t)) as [g|] eqn:Hb.
  - left. split; [intros (_ & _ & ?)%custom_list_types; congruence|]. apply builtin_not_custom in Hb. split; naive_solver.
  - right. destruct Hs as (Htag & c & ct & Hc & _). split; [|split; [done|exists c; split; [done|by exists p, ty]]].
    apply list_elem_of_In, filter_In. rewrite <- list_elem_of_In. unfold is_custom. by rewrite Hv, Hb.
Qed.

Lemma type_head t p c :
  t ∈ types config -> is_Vector (t_name t) = false -> type_by_id s !! t_id t = Some p ->
  (head (skel s) p c <-> t ∈ custom_list config /\ custom_of s t c).
Proof.
  intros Ht Hv Hp. destruct (type_object t p Ht Hv Hp) as (ty & Hty & Hcase). split.
  - intros Hh. destruct Hcase as [(_ & Hnv & Hnc)|(HL & Htag & d & Hd & Hof)].
    + destruct Hh as [i ty' j c Hi Hv' _ _|i ty' c Hi Hc' _]; cbn in Hi; congruence.
    + split; [done|]. by rewrite (head_custom_inv (skel s) p ty d c Hty Htag Hd Hh).
  - intros [HL Hof]. destruct Hcase as [(? & _)|(_ & Htag & d & Hd & Hof')]; [done|].
    rewrite (custom_of_fun t c d Hof Hof'). by eapply head_custom.
Qed.

Lemma tree_head x p c :
  rep_tree config s x p ->
  (head (skel s) p c <-> exists t, tree_type x = Some t /\ t ∈ custom_list config /\ custom_of s t c).
Proof.
  induction 1 as [f i t x p ty q Ht Hv Hp Htag Hq _ IH|f i t p Ht Hv Hp]; cbn [tree_type].
  - rewrite <- IH. split; [by apply (head_vector_inv _ _ ty)|by apply (head_vector _ _ ty)].
  - rewrite Ht, (type_head t p c); [|by eapply list_elem_of_lookup_2|done|done]. naive_solver.
Qed.

(** The fields of a custom type. *)
Lemma field_config t c i :
  t ∈ custom_list config -> custom_of s t c -> field_type (skel s) c i ->
  exists k a, k ∈ t_constructors t /\ a ∈ k_args k /\ rep_tree config s (from_type a) i.
Proof.
  intros Ht Hc (ks & q & kk & b & Hks & Hq & Hkk & Hb & ->).
  destruct (b_types s B t Ht) as (c' & ct & _ & Hc' & Hct & _ & HF). rewrite <- (custom_of_fun t c c') in Hct by done.
  cbn in Hks. rewrite list_lookup_fmap, Hct in Hks. injection Hks as <-.
  apply list_elem_of_lookup in Hq as (j & Hj). destruct (Forall2_lookup_r _ _ _ _ _ HF Hj) as (k & Hk & Hq).
  apply list_elem_of_lookup_2 in Hk. destruct (b_constructors s B t k Ht Hk) as (q' & kk' & d & _ & Hq' & Hkk' & _ & _ & _ & _ & HA).
  cbn in Hkk. assert (kk' = kk) as -> by congruence. apply list_elem_of_lookup in Hb as (m & Hm).
  destruct (Forall2_lookup_r _ _ _ _ _ HA Hm) as (a & Ha & _ & Hr). exists k, a. split_and!; [done|by eapply list_elem_of_lookup_2|done].
Qed.

Lemma config_field t c k a :
  t ∈ custom_list config -> custom_of s t c -> k ∈ t_constructors t -> a ∈ k_args k ->
  exists i, field_type (skel s) c i /\ rep_tree config s (from_type a) i.
Proof.
  intros Ht Hc Hk Ha. destruct (b_types s B t Ht) as (c' & ct & _ & Hc' & Hct & _ & HF).
  rewrite <- (custom_of_fun t c c') in Hct by done.
  destruct (b_constructors s B t k Ht Hk) as (q & kk & d & _ & Hq & Hkk & _ & _ & _ & _ & HA).
  apply list_elem_of_lookup in Ha as (m & Hm). destruct (Forall2_lookup_l _ _ _ _ _ HA Hm) as (b & Hb & _ & Hr).
  exists (arg_type b). split; [|done]. apply list_elem_of_lookup in Hk as (j & Hj).
  destruct (Forall2_lookup_l _ _ _ _ _ HF Hj) as (q' & Hq' & Hq''). assert (q' = q) as -> by congruence.
  exists (ct_constructors ct), q, kk, b. cbn. rewrite list_lookup_fmap, Hct. split_and!; try done; by eapply list_elem_of_lookup_2.
Qed.

Lemma uses_config t c d :
  t ∈ custom_list config -> custom_of s t c ->
  (uses (skel s) c d <-> exists t', config_uses t t' /\ custom_of s t' d).
Proof.
  intros Ht Hc. split.
  - intros (i & Hi & Hh). destruct (field_config t c i Ht Hc Hi) as (k & a & Hk & Ha & Hr).
    apply (tree_head _ _ _ Hr) in Hh as (t' & E & Ht' & Hd). exists t'. split; [|done]. split; [done|]. by exists k, a.
  - intros (t' & (Ht' & k & a & Hk & Ha & E) & Hd). destruct (config_field t c k a Ht Hc Hk Ha) as (i & Hi & Hr).
    exists i. split; [done|]. apply (tree_head _ _ _ Hr). by exists t'.
Qed.

Lemma reach_to_config c d t :
  rtc (uses (skel s)) c d -> t ∈ custom_list config -> custom_of s t c ->
  exists t', rtc config_uses t t' /\ t' ∈ custom_list config /\ custom_of s t' d.
Proof.
  intros Hr. revert t. induction Hr as [c|c e d Hu _ IH]; intros t Ht Hc; [by exists t|].
  apply (uses_config t c e Ht Hc) in Hu as (t1 & Hu & H1). destruct (IH t1 (proj1 Hu) H1) as (t' & Hr & ?).
  exists t'. split; [by eapply rtc_l|done].
Qed.

Lemma reach_from_config t t' c d :
  rtc config_uses t t' -> t ∈ custom_list config -> custom_of s t c -> custom_of s t' d -> rtc (uses (skel s)) c d.
Proof.
  intros Hr. revert c. induction Hr as [t|t t1 t' Hu _ IH]; intros c Ht Hc Hd.
  { by rewrite (custom_of_fun t c d Hc Hd). }
  destruct (b_types s B t1 (proj1 Hu)) as (e & _ & _ & He & _). eapply rtc_l; [|by apply IH; [apply Hu|exact He|]].
  apply (uses_config t c e Ht Hc). by exists t1.
Qed.
End Built.

(** ** The search on the built graph *)

Definition owned (s : schema) (c : nat) : Prop := exists t, t ∈ custom_list config /\ custom_of s t c.

Lemma node_mono g G d d' i : (d <= d')%nat -> node g G d i -> node g G d' i.
Proof.
  intros Hd Hn. revert d' Hd. induction Hn as [d i t j Ht Hv Hj _ IH|d i t Ht Hv Hc|d i t c Ht Hc Hcc HG]; intros d' Hd.
  - destruct d' as [|d']; [lia|]. eapply node_vector; eauto. apply IH. lia.
  - by eapply node_builtin.
  - by eapply node_custom.
Qed.

Section Search.
Context (s : schema) (B : built s).

Lemma type_node t p d :
  t ∈ types config -> is_Vector (t_name t) = false -> type_by_id s !! t_id t = Some p -> node (skel s) (owned s) d p.
Proof.
  intros Ht Hv Hp. destruct (type_object s B t p Ht Hv Hp) as (ty & Hty & [(_ & Hnv & Hnc)|(HL & Htag & c & Hc & Hof)]).
  - by eapply node_builtin.
  - eapply node_custom; [done..|]. by exists t.
Qed.

Lemma tree_node x p : rep_tree config s x p -> node (skel s) (owned s) (vectors x) p.
Proof.
  induction 1 as [f i t x p ty q Ht Hv Hp Htag Hq _ IH|f i t p Ht Hv Hp].
  - cbn [vectors]. eapply node_vector; [done..|]. eapply node_mono; [|exact IH]. cbn. lia.
  - eapply (type_node t); try done. by eapply list_elem_of_lookup_2.
Qed.

Lemma vectors_bound k a :
  (exists t, t ∈ types config /\ k ∈ t_constructors t) \/ k ∈ functions config -> a ∈ k_args k ->
  (vectors (from_type a) <= max_vectors config)%nat.
Proof.
  intros Hk Ha. unfold max_vectors. set (l := map _ _).
  assert (HF : List.Forall (fun n => n <= list_max l)%nat l) by (by apply list_max_le).
  rewrite List.Forall_forall in HF. apply HF. apply in_map_iff. exists a. split; [done|].
  apply list_elem_of_In, elem_of_concat_map. exists k. split; [|done]. apply elem_of_app.
  destruct Hk as [(t & Ht & Hk)|Hk]; [left|by right]. apply elem_of_concat_map. eauto.
Qed.

Lemma args_node k a b i :
  (exists t, t ∈ types config /\ k ∈ t_constructors t) \/ k ∈ functions config ->
  rep_args config s (k_args k) b -> i ∈ b -> a = arg_type i -> node (skel s) (owned s) (max_vectors config) a.
Proof.
  intros Hk HA Hi ->. apply list_elem_of_lookup in Hi as (m & Hm).
  destruct (Forall2_lookup_r _ _ _ _ _ HA Hm) as (x & Hx & _ & Hr). eapply node_mono; [|by apply tree_node].
  apply (vectors_bound k); [done|by eapply list_elem_of_lookup_2].
Qed.

Lemma built_closed : closed (skel s) (max_vectors config) (owned s).
Proof.
  intros c (t & Ht & Hc). destruct (b_types s B t Ht) as (c' & ct & _ & Hc' & Hct & _ & HF).
  rewrite <- (custom_of_fun s t c c') in Hct by done. exists (ct_constructors ct). cbn. rewrite list_lookup_fmap, Hct.
  split; [done|]. intros q Hq. apply list_elem_of_lookup in Hq as (j & Hj).
  destruct (Forall2_lookup_r _ _ _ _ _ HF Hj) as (k & Hk & Hq). apply list_elem_of_lookup_2 in Hk.
  destruct (b_constructors s B t k Ht Hk) as (q' & kk & d & _ & Hq' & Hkk & _ & _ & _ & _ & HA).
  assert (q' = q) as -> by congruence. exists kk. split; [done|]. intros a Ha. eapply (args_node k); try done.
  left. exists t. split; [by apply custom_list_types|done].
Qed.

Lemma function_nodes f ff :
  f ∈ functions config -> function_rep s f ff ->
  (exists t, f_type ff = Some t /\ node (skel s) (owned s) (max_vectors config) t) /\
  (forall a, a ∈ f_args ff -> node (skel s) (owned s) (max_vectors config) (arg_type a)).
Proof.
  intros Hf (_ & _ & (t & p & Hown & Hp & Htp) & HA). split.
  - exists p. split; [done|]. destruct (function_simple config Hsc f Hf) as (t' & Hown' & Ht & Hv & _).
    assert (t' = t) as -> by congruence. by eapply type_node.
  - intros a Ha. eapply (args_node f); try done. by right.
Qed.

(** Where a search starts. *)
Lemma root_config b f ff i d :
  f ∈ functions config -> function_rep s f ff -> root b ff i -> head (skel s) i d ->
  exists t0, start b t0 /\ custom_of s t0 d.
Proof.
  intros Hf (_ & _ & (t1 & p & Hown & Hp & Htp) & HA) Hr Hd. destruct b; cbn in Hr.
  - assert (p = i) as -> by congruence. destruct (function_simple config Hsc f Hf) as (t' & Hown' & Ht' & Hv & _).
    assert (t' = t1) as -> by congruence. destruct (proj1 (type_head s B t1 i d Ht' Hv Htp) Hd) as [HL Hd'].
    exists t1. split; [|done]. split; [done|]. by exists f.
  - destruct Hr as (a & Ha & ->). apply list_elem_of_lookup in Ha as (m & Hm).
    destruct (Forall2_lookup_r _ _ _ _ _ HA Hm) as (x & Hx & _ & Hrx).
    destruct (proj1 (tree_head s B _ _ _ Hrx) Hd) as (t0 & E & HL & Hd'). exists t0. split; [|done]. split; [done|].
    exists f. split; [done|]. exists x. split; [exact (list_elem_of_lookup_2 _ _ _ Hx)|done].
Qed.

(** The marks, in terms of the configuration. *)
Lemma reaches_config b t c :
  t ∈ custom_list config -> custom_of s t c ->
  ((exists i, (exists ff, ff ∈ functions_ s /\ root b ff i) /\ reaches (skel s) i c) <->
   exists t0, start b t0 /\ rtc config_uses t0 t).
Proof.
  intros Ht Hc.
  split.
  - intros (i & (ff & Hff & Hr) & d & Hd & Hreach). apply list_elem_of_lookup in Hff as (j & Hj).
    destruct (Forall2_lookup_r _ _ _ _ _ (b_functions s B) Hj) as (f & Hf & Hrep). apply list_elem_of_lookup_2 in Hf.
    destruct (root_config b f ff i d Hf Hrep Hr Hd) as (t0 & Hs0 & Hd0). exists t0. split; [done|].
    destruct (reach_to_config s B d c t0 Hreach (proj1 Hs0) Hd0) as (t' & Hr' & HL' & Hc').
    by rewrite (custom_of_inj s B t t' c).
  - intros (t0 & (HL0 & f & Hf & Hs) & Hr). destruct (b_types s B t0 HL0) as (d & _ & _ & Hd & _).
    pose proof (reach_from_config s B t0 t d c Hr HL0 Hd Hc) as Hreach. apply list_elem_of_lookup in Hf as (j & Hj).
    destruct (Forall2_lookup_l _ _ _ _ _ (b_functions s B) Hj) as (ff & Hff & _ & _ & (t1 & p & Hown & Hp & Htp) & HA).
    apply list_elem_of_lookup_2 in Hff. destruct b.
    + assert (t1 = t0) as -> by congruence. exists p. split; [by exists ff|]. exists d. split; [|done].
      apply (type_head s B t0 p d); [apply custom_list_types, HL0|apply (custom_list_types config), HL0|done|done].
    + destruct Hs as (a & Ha & E). apply list_elem_of_lookup in Ha as (m & Hm).
      destruct (Forall2_lookup_l _ _ _ _ _ HA Hm) as (x & Hx & _ & Hrx). exists (arg_type x).
      split; [exists ff; split; [exact Hff|]; exists x; split; [exact (list_elem_of_lookup_2 _ _ _ Hx)|reflexivity]|].
      exists d. split; [|exact Hreach]. apply (tree_head s B _ _ _ Hrx). by exists t0.
Qed.
End Search.

(** ** The whole constructor *)

(** Constructor object [q] is built from [k], for custom type [c]. *)
Definition constructor_rep (s : schema) (c : nat) (k : tl_combinator) (q : nat) : Prop :=
  exists kk, constructors_ s !! q = Some kk /\ c_name kk = k_name k /\ c_id kk = k_id k /\ c_type kk = Some c /\
    rep_args config s (k_args k) (c_args kk).

(** Custom type [c] is built from [t]. *)
Definition custom_rep (s : schema) (t : tl_type) (c : nat) : Prop :=
  custom_of s t c /\ exists ct, custom_types_ s !! c = Some ct /\ ct_name ct = t_name t /\
    Forall2 (constructor_rep s c) (t_constructors t) (ct_constructors ct).

(** The schema lists the custom types and the functions of the configuration, in order. *)
Record represents (s : schema) : Prop := {
  rp_custom_types : Forall2 (custom_rep s) (custom_list config) (custom_types s);
  rp_functions : Forall2 (function_rep s) (functions config) (functions_ s);
  rp_functions_out : functions_out s = seq 0 (List.length (functions_ s))
}.

Lemma built_rep s t c : built s -> t ∈ custom_list config -> custom_of s t c -> custom_rep s t c.
Proof.
  intros B Ht Hc. split; [done|]. destruct (b_types s B t Ht) as (c' & ct & _ & Hc' & Hct & Hn & HF).
  rewrite <- (custom_of_fun s t c c') in Hct by done. exists ct. split_and!; [done..|].
  apply Forall2_same_length_lookup. split; [by eapply Forall2_length|]. intros i k q Hk Hq.
  pose proof (Forall2_lookup_lr _ _ _ _ _ _ HF Hk Hq) as Hq'. cbn in Hq'. apply list_elem_of_lookup_2 in Hk.
  destruct (b_constructors s B t k Ht Hk) as (q' & kk & d & _ & Hq'' & Hkk & E1 & E2 & E3 & Hd & HA).
  assert (q' = q) as -> by congruence. rewrite (custom_of_fun s t d c Hd Hc) in E3. by exists kk.
Qed.

(** Marks do not matter for what the objects stand for. *)
Section Erase.
Context (s : schema).

Lemma rep_tree_erase x p : rep_tree config (erase s) x p -> rep_tree config s x p.
Proof. induction 1; [eapply rep_vector|eapply rep_type]; eauto; by destruct s. Qed.

Lemma rep_args_erase l bs : rep_args config (erase s) l bs -> rep_args config s l bs.
Proof. intros HF. eapply Forall2_impl; [exact HF|]. intros a b [? ?]. split; [done|by apply rep_tree_erase]. Qed.

Lemma custom_of_erase t c : custom_of (erase s) t c <-> custom_of s t c.
Proof. by destruct s. Qed.

Lemma function_rep_erase f ff : function_rep (erase s) f ff -> function_rep s f ff.
Proof. intros (? & ? & H & ?). split_and!; try done; [by destruct s|by apply rep_args_erase]. Qed.

Lemma custom_rep_erase t c : custom_rep (erase s) t c -> custom_rep s t c.
Proof.
  intros (Hc & ct & Hct & Hn & HF). split; [by apply custom_of_erase|].
  assert (exists ct0, custom_types_ s !! c = Some ct0 /\ ct = unmark ct0) as (ct0 & H0 & ->).
  { destruct s as [l1 l2 l3 l4 cts l5 m1 m2 m3]. cbn in *. apply list_lookup_fmap_Some in Hct as (ct0 & -> & H0). by exists ct0. }
  exists ct0. split_and!; try done. eapply Forall2_impl; [exact HF|]. intros k q (kk & ? & ? & ? & ? & ?). exists kk.
  split_and!; try done; [by destruct s|by apply rep_args_erase].
Qed.

Lemma represents_erase : built (erase s) -> represents s.
Proof.
  intros B. constructor.
  - apply Forall2_same_length_lookup. pose proof (b_custom_types _ B) as HF. split; [apply Forall2_length in HF; by destruct s|].
    intros i t c Ht Hc. apply custom_rep_erase, built_rep; [done|by eapply list_elem_of_lookup_2|].
    eapply (Forall2_lookup_lr _ _ _ _ _ _ HF Ht). by destruct s.
  - pose proof (b_functions _ B) as HF. assert (E : functions_ (erase s) = functions_ s) by by destruct s. rewrite E in HF.
    eapply Forall2_impl; [exact HF|]. intros f ff. apply function_rep_erase.
  - pose proof (b_functions_out _ B) as HF. by destruct s.
Qed.
End Erase.

Lemma built_erase s : built s -> erase s = s.
Proof.
  intros B. pose proof (wf_marks _ _ (b_wf _ B)) as Hm. unfold erase. destruct s as [l1 l2 l3 l4 cts l5 m1 m2 m3]. cbn in *.
  f_equal. clear -Hm. induction Hm as [|ct l [E1 E2] _ IH]; [done|]. cbn. rewrite IH. f_equal. destruct ct. cbn in *.
  by subst.
Qed.

Lemma marks_call s :
  built s ->
  yields (each (mark_function (mark_fuel config s)) (functions_ s)) s (fun _ s' =>
    erase s' = s /\ forall b t c, t ∈ custom_list config -> custom_of s t c ->
      (marked b s' c <-> exists t0, start b t0 /\ rtc config_uses t0 t)).
Proof.
  intros B. destruct (each_total (fun s0 => skel s0 = skel s) (mark_function (mark_fuel config s)) (functions_ s) s)
    as (s' & E & _); [|done|].
  { intros ff s0 Hff Hs0. apply list_elem_of_lookup in Hff as (j & Hj).
    destruct (Forall2_lookup_r _ _ _ _ _ (b_functions s B) Hj) as (f & Hf & Hrep). apply list_elem_of_lookup_2 in Hf.
    destruct (function_nodes s B f ff Hf Hrep) as [Hres Hargs].
    eapply (mark_function_total (skel s)); [by apply built_closed|done| |done|done]. cbn. rewrite length_map. unfold mark_fuel. lia. }
  exists tt, s'. split; [done|]. split.
  - rewrite (erases_each _ _ (erases_mark_function _) _ _ _ E). by apply built_erase.
  - intros b t c Ht Hc. rewrite <- (reaches_config s B b t c Ht Hc).
    apply (searches_exact (skel s) b _ s); [|by apply (searching_each (skel s) b (root b) _ (functions_ s) (fun f _ => searching_mark_function (skel s) b (mark_fuel config s) f) s tt s')].
    intros d (ct & Hd & Hw). pose proof (Forall_lookup_1 _ _ _ _ (wf_marks _ _ (b_wf _ B)) Hd) as [E1 E2].
    destruct b; cbn in Hw; congruence.
Qed.

(** The object of a type says which builtin it is. *)
Definition tagged (s : schema) : Prop :=
  forall t p, t ∈ types config -> type_by_id s !! t_id t = Some p ->
  exists ty, types_ s !! p = Some ty /\ tag ty = match builtin_tag (t_name t) with Some g => g | None => Custom end.

Lemma built_tagged s : built s -> tagged s.
Proof.
  intros B t p Ht Hp. destruct (wf_types _ _ (b_wf _ B) t p Ht Hp) as (ty & Hty & Hs). exists ty. split; [done|].
  destruct (builtin_tag (t_name t)); [done|apply Hs].
Qed.

Lemma make_schema_spec :
  exists s, make_schema config = Ret s /\ represents s /\ tagged s /\
    forall b t c, t ∈ custom_list config -> custom_of s t c ->
      (marked b s c <-> exists t0, start b t0 /\ rtc config_uses t0 t).
Proof.
  destruct build_call as ([] & s1 & E1 & B). destruct (marks_call s1 B) as ([] & s2 & E2 & Her & Hm).
  exists s2. split; [|split; [|split]].
  - unfold make_schema, Schema. apply bind_Ret in E1 as ([] & s0 & E0 & E1). unfold bind, get. rewrite E0. cbn. rewrite E1. cbn.
    by rewrite E2.
  - apply represents_erase. by rewrite Her.
  - pose proof (built_tagged s1 B) as Ht. rewrite <- Her in Ht. by destruct s2.
  - intros b t c Ht Hc. apply Hm; [done|]. rewrite <- Her. by apply custom_of_erase.
Qed.
End Mirror.

(** ** A configuration *)

(** [user id:Int32 friends:Vector<User> = User], [file name:String = File],
    [chat owner:User = Chat], and the function [send to:Chat = File]. *)
Module Sample.
Local Abbreviation ty i := (tl_tree_type 0 i []).
Local Abbreviation field name x := (mk_arg (str name) 0 (-1) (-1) 0 x).

Definition user := mk_combinator 11 (str "user") 0 3 [field "id" (ty 0); field "friends" (tl_tree_type 0 2 [ty 3])] (ty 3).
Definition file := mk_combinator 12 (str "file") 0 4 [field "name" (ty 1)] (ty 4).
Definition chat := mk_combinator 13 (str "chat") 0 5 [field "owner" (ty 3)] (ty 5).
Definition send := mk_combinator 21 (str "send") 0 4 [field "to" (ty 5)] (ty 4).
Definition User := mk_type 3 (str "User") 0 0 1 [user].
Definition File := mk_type 4 (str "File") 0 0 1 [file].
Definition Chat := mk_type 5 (str "Chat") 0 0 1 [chat].

Definition sample : tl_config :=
  add_function send (add_type Chat (add_type File (add_type User (add_type (mk_type 2 (str "Vector") 1 0 0 [])
    (add_type (mk_type 1 (str "String") 0 0 0 []) (add_type (mk_type 0 (str "Int32") 0 0 0 []) empty_config)))))).

Definition sample_schema : schema := match make_schema sample with Ret s => s | _ => empty_schema end.
End Sample.

(** ** Claims *)

(** C27. On every simple configuration the constructor of [Schema] returns, with the
    fuel of [type_fuel] and [mark_fuel] and without tripping an assertion, and the
    schema mirrors the configuration: in order, one custom type for each type that
    is neither [Vector] nor built in, with its name and one object per constructor
    that points back to it, and one function for each function, all with their
    names, numbers, and arguments of the type that the tree says. *)
Theorem make_schema_represents config :
  simple_config config = true -> exists s, make_schema config = Ret s /\ represents config s.
Proof. intros Hsc. destruct (make_schema_spec config Hsc) as (s & E & Hr & _). by exists s. Qed.

(** C28. The marks are reachability in the configuration: a custom type is marked as
    a result exactly when it can be reached, through the fields of constructors and
    through vectors, from the result type of some function, and as part of a query
    exactly when it can be reached from the type of an argument of some function. *)
Theorem make_schema_marks config s t c ct :
  simple_config config = true -> make_schema config = Ret s ->
  t ∈ custom_list config -> custom_of s t c -> custom_types_ s !! c = Some ct ->
  (is_result_ ct = true <-> exists t0, start config true t0 /\ rtc (config_uses config) t0 t) /\
  (is_query_ ct = true <-> exists t0, start config false t0 /\ rtc (config_uses config) t0 t).
Proof.
  intros Hsc E Ht Hc Hct. destruct (make_schema_spec config Hsc) as (s' & E' & _ & _ & Hm).
  rewrite E in E'. injection E' as <-. rewrite <- (Hm true t c Ht Hc), <- (Hm false t c Ht Hc). unfold marked. rewrite Hct.
  split; (split; [intros Hw; by exists ct|intros (ct' & [= <-] & Hw); exact Hw]).
Qed.

Lemma make_schema_represents_witness :
  simple_config Sample.sample = true /\ List.length (custom_list Sample.sample) = 3%nat /\
  exists s, make_schema Sample.sample = Ret s /\ represents Sample.sample s.
Proof.
  split; [vm_compute; reflexivity|]. split; [vm_compute; reflexivity|].
  apply (make_schema_represents Sample.sample). vm_compute. reflexivity.
Defined.

(** [User] is the first custom type; it is no result, and part of a query as the owner of a chat. *)
Lemma make_schema_marks_witness :
  exists ct, custom_types_ Sample.sample_schema !! 0%nat = Some ct /\ is_result_ ct = false /\ is_query_ ct = true /\
    exists t0, start Sample.sample false t0 /\ rtc (config_uses Sample.sample) t0 Sample.User.
Proof.
  pose (ct := mk_CustomType (str "User") [0%nat] false true).
  assert (E : custom_types_ Sample.sample_schema !! 0%nat = Some ct) by (vm_compute; reflexivity).
  exists ct. split; [exact E|]. split; [reflexivity|]. split; [reflexivity|].
  refine (proj1 (proj2 (make_schema_marks Sample.sample Sample.sample_schema Sample.User 0 ct _ _ _ _ E)) _).
  - vm_compute. reflexivity.
  - vm_compute. reflexivity.
  - apply list_elem_of_here.
  - exists 2%nat, (mk_Type Custom (Some 0%nat) None). vm_compute. repeat split; reflexivity.
  - reflexivity.
Defined.
