(* ===== verification/Writers.v ===== *)
(** * The writers of the generators (tdtl: tl_writer.h, tl_writer.cpp; td/generate: tl_writer_td.cpp)

    [TL_writer] is the abstract class that [write_tl] calls: each virtual method is
    a field of a record, so that the theorems about [write_tl] hold for every
    subclass.  What the base class and [TD_TL_writer] implement themselves are
    definitions, [TL_writer_*] and [TD_*].  A method reads the types behind the
    pointers of its arguments: [heap] is what it can see.  Text is a list of
    characters, and a method may fail an assertion. *)
From Stdlib Require Import ZArith Lia List Bool Ascii String.
From stdpp Require Import base list strings gmap.
From S2P Require Import Prelude Reader.
Open Scope tl_scope.

(** ** tl_core.h *)

Definition NODE_TYPE_TYPE : Z := 1.
Definition NODE_TYPE_NAT_CONST : Z := 2.
Definition NODE_TYPE_VAR_TYPE : Z := 3.
Definition NODE_TYPE_VAR_NUM : Z := 4.
Definition NODE_TYPE_ARRAY : Z := 5.

(** [tree->get_type ()] *)
Definition node_type (x : tl_tree) : Z :=
  match x with
  | tl_tree_type _ _ _ => NODE_TYPE_TYPE
  | tl_tree_nat_const _ _ => NODE_TYPE_NAT_CONST
  | tl_tree_var_type _ _ => NODE_TYPE_VAR_TYPE
  | tl_tree_var_num _ _ _ => NODE_TYPE_VAR_NUM
  | tl_tree_array _ _ _ => NODE_TYPE_ARRAY
  end.

Definition ID_VAR_NUM : Z := 0x70659eff.
Definition ID_VAR_TYPE : Z := 0x2cecf817.

Definition FLAG_OPT_VAR : Z := Z.shiftl 1 17.
Definition FLAG_EXCL : Z := Z.shiftl 1 18.
Definition FLAG_COMPLEX : Z := Z.shiftl 1 1.

(** [flags & f] as a condition *)
Definition has_flag (flags f : Z) : bool := negb (Z.land flags f =? 0).

Definition a_name (a : arg) : list Z := let 'mk_arg name _ _ _ _ _ := a in name.
Definition a_var_num (a : arg) : Z := let 'mk_arg _ _ v _ _ _ := a in v.
Definition a_exist_var_num (a : arg) : Z := let 'mk_arg _ _ _ e _ _ := a in e.
Definition a_exist_var_bit (a : arg) : Z := let 'mk_arg _ _ _ _ b _ := a in b.
Definition a_type (a : arg) : tl_tree := let 'mk_arg _ _ _ _ _ t := a in t.

(** ** The interface *)

Record var_description := mk_var {
  index : Z;
  is_stored : bool;
  is_type : bool;
  parameter_num : Z;
  function_arg_num : Z
}.

Definition empty_var : var_description := mk_var (-1) false false (-1) (-1).

Inductive Mode := All | Client | Server.

#[export] Instance Mode_eq_dec : EqDecision Mode.
Proof. solve_decision. Defined.

(** The types of the configuration, and the [simple_constructors] of each. *)
Record heap := mk_heap { h_types : list tl_type; h_simple : list Z }.

Definition Name : Type := list Z.
Definition Text : Type := heap -> result (list Z).
(** A method that takes [std::vector<var_description> &]. *)
Definition TextVars : Type := list var_description -> heap -> result (list Z * list var_description).

Record TL_writer := mk_writer {
  get_max_arity : Z;
  is_built_in_simple_type : Name -> bool;
  is_built_in_complex_type : Name -> bool;
  is_combinator_supported : list tl_type -> tl_combinator -> result bool;
  is_documentation_generated : bool;
  is_default_constructor_generated : tl_combinator -> bool -> bool -> bool;
  is_full_constructor_generated : tl_combinator -> bool -> bool -> bool;
  get_parser_type : tl_combinator -> Name -> Z;
  get_storer_type : tl_combinator -> Name -> Z;
  get_additional_function_type : Name -> result Z;
  get_parser_mode : Z -> Mode;
  get_storer_mode : Z -> Mode;
  get_parsers : list Name;
  get_storers : list Name;
  get_additional_functions : list Name;
  gen_base_tl_class_name : Text;
  gen_base_type_class_name : Z -> Text;
  gen_base_function_class_name : Text;
  gen_class_name : Name -> Text;
  gen_field_name : Name -> Text;
  gen_field_type : arg -> Text;
  gen_output_begin : Text;
  gen_output_end : Text;
  gen_forward_class_declaration : Name -> bool -> Text;
  gen_class_begin : Name -> Name -> bool -> Text;
  gen_class_end : Text;
  gen_class_alias : Name -> Name -> Text;
  gen_field_definition : Name -> Name -> Name -> Text;
  gen_flags_definitions : tl_combinator -> bool -> Text;
  gen_vars : tl_combinator -> option tl_tree -> TextVars;
  gen_function_vars : tl_combinator -> TextVars;
  gen_uni : tl_tree -> bool -> TextVars;
  gen_constructor_id_store : Z -> Z -> Text;
  gen_field_fetch : Z -> arg -> bool -> Z -> TextVars;
  gen_field_store : arg -> bool -> Z -> TextVars;
  gen_type_fetch : Name -> tl_tree -> list var_description -> Z -> Text;
  gen_var_type_fetch : arg -> Text;
  gen_get_id : Name -> Z -> bool -> Text;
  gen_function_result_type : tl_tree -> Text;
  gen_fetch_function_begin : Name -> Name -> Name -> Z -> Z -> Z -> TextVars;
  gen_fetch_function_end : bool -> Z -> list var_description -> Z -> Text;
  gen_fetch_function_result_begin : Name -> Name -> tl_tree -> Text;
  gen_fetch_function_result_end : Text;
  gen_fetch_function_result_any_begin : Name -> Name -> bool -> Text;
  gen_fetch_function_result_any_end : bool -> Text;
  gen_store_function_begin : Name -> Name -> Z -> Z -> TextVars;
  gen_store_function_end : list var_description -> Z -> Text;
  gen_fetch_switch_begin : Text;
  gen_fetch_switch_case : tl_combinator -> Z -> Text;
  gen_fetch_switch_end : Text;
  gen_constructor_begin : Z -> Name -> bool -> Text;
  gen_constructor_parameter : Z -> Name -> arg -> bool -> Text;
  gen_constructor_field_init : Z -> Name -> arg -> bool -> Text;
  gen_constructor_end : tl_combinator -> Z -> bool -> Text;
  gen_additional_function : Name -> tl_combinator -> bool -> Text;
  gen_additional_proxy_function_begin : Name -> option nat -> Name -> Z -> bool -> Text;
  gen_additional_proxy_function_case_class : Name -> option nat -> Name -> Z -> Text;
  gen_additional_proxy_function_case : Name -> option nat -> tl_combinator -> Z -> bool -> Text;
  gen_additional_proxy_function_end : Name -> option nat -> bool -> Text
}.

(** ** The base class *)

(** [is_type_supported], on a tree that is a [tl_tree_type]. *)
Fixpoint is_type_supported (ts : list tl_type) (x : tl_tree) : result bool :=
  match x with
  | tl_tree_type _ i children =>
      match ts !! i with
      | None => Fault BadPointer
      | Some t =>
          if has_flag (t_flags t) FLAG_COMPLEX then Ret false
          else
            (fix children_supported (l : list tl_tree) : result bool :=
               match l with
               | [] => Ret true
               | child :: l =>
                   match child with
                   | tl_tree_type _ _ _ =>
                       do? b := is_type_supported ts child in
                       if b then children_supported l else Ret false
                   | tl_tree_var_type _ _ => Ret false
                   | tl_tree_nat_const _ _ | tl_tree_var_num _ _ _ => children_supported l
                   | tl_tree_array _ _ _ => Fault AssertFailed
                   end
               end) children
      end
  | _ => Fault BadPointer
  end.

(** [is_function_result[i]] *)
Definition vec_at (v : list bool) (i : Z) : result bool :=
  if i <? 0 then Fault OutOfBounds
  else match v !! Z.to_nat i with Some b => Ret b | None => Fault OutOfBounds end.

(** The first loop of [is_combinator_supported]: [None] is its [return false]. *)
Fixpoint function_results (args : list arg) (v : list bool) : result (option (list bool)) :=
  match args with
  | [] => Ret (Some v)
  | a :: args =>
      match a_type a with
      | tl_tree_var_type _ var_num =>
          if has_flag (arg_flags a) FLAG_EXCL then
            if var_num <? 0 then Fault AssertFailed
            else
              do? b := vec_at v var_num in
              if b then Ret None else function_results args (<[Z.to_nat var_num := true]> v)
          else Ret None
      | _ => function_results args v
      end
  end.

(** The items of an array. *)
Fixpoint items_supported (ts : list tl_type) (items : list arg) : result bool :=
  match items with
  | [] => Ret true
  | b :: items =>
      if (node_type (a_type b) =? NODE_TYPE_TYPE) && (a_var_num b =? -1) then
        do? ok := is_type_supported ts (a_type b) in
        if ok then items_supported ts items else Ret false
      else Fault AssertFailed
  end.

(** The part of the second loop that looks at the type of an argument. *)
Definition arg_supported (ts : list tl_type) (a : arg) : result bool :=
  match a_type a with
  | tl_tree_var_type _ _ => Ret true
  | tl_tree_type _ _ _ => is_type_supported ts (a_type a)
  | tl_tree_array _ _ items => items_supported ts items
  | _ => Fault AssertFailed
  end.

(** An argument that declares a variable of type [Type]: [Some true] is [continue]. *)
Definition type_variable (ts : list tl_type) (v : list bool) (a : arg) : result bool :=
  if a_var_num a >=? 0 then
    match a_type a with
    | tl_tree_type flags i _ =>
        match ts !! i with
        | None => Fault BadPointer
        | Some t =>
            if t_id t =? ID_VAR_TYPE then
              if has_flag flags FLAG_EXCL then Fault AssertFailed
              else
                do? b := vec_at v (a_var_num a) in
                if b then Ret true else Fault AssertFailed
            else Ret false
        end
    | _ => Fault AssertFailed
    end
  else Ret false.

Fixpoint args_supported (ts : list tl_type) (v : list bool) (args : list arg) : result bool :=
  match args with
  | [] => Ret true
  | a :: args =>
      do? continue := type_variable ts v a in
      if continue then args_supported ts v args
      else
        do? ok := arg_supported ts a in
        if ok then args_supported ts v args else Ret false
  end.

(** [std::vector<bool> is_function_result (n)]: a negative [n] throws. *)
Definition TL_writer_is_combinator_supported (ts : list tl_type) (k : tl_combinator) : result bool :=
  if k_var_count k <? 0 then Fault Aborted
  else
    do? v := function_results (k_args k) (replicate (Z.to_nat (k_var_count k)) false) in
    match v with
    | None => Ret false
    | Some v =>
        do? ok := args_supported ts v (k_args k) in
        if ok then
          match k_result k with
          | tl_tree_type _ _ _ => is_type_supported ts (k_result k)
          | tl_tree_var_type _ var_num => vec_at v var_num
          | _ => Fault AssertFailed
          end
        else Ret false
    end.

Definition TL_writer_get_additional_functions : list Name := [].
Definition TL_writer_is_documentation_generated : bool := false.
Definition TL_writer_is_default_constructor_generated (_ : tl_combinator) (_ _ : bool) : bool := true.
Definition TL_writer_is_full_constructor_generated (_ : tl_combinator) (_ _ : bool) : bool := true.
Definition TL_writer_get_parser_type (t : tl_combinator) (_ : Name) : Z := if k_var_count t >? 0 then 1 else 0.
Definition TL_writer_get_storer_type (_ : tl_combinator) (_ : Name) : Z := 0.
Definition TL_writer_get_additional_function_type (_ : Name) : result Z := Ret 0.
Definition TL_writer_get_parser_mode (_ : Z) : Mode := All.
Definition TL_writer_get_storer_mode (_ : Z) : Mode := All.

Definition TL_writer_is_alnum (c : Z) : bool :=
  ((chr "0" <=? c) && (c <=? chr "9")) || ((chr "a" <=? c) && (c <=? chr "z")) ||
  ((chr "A" <=? c) && (c <=? chr "Z")).

Definition TL_writer_to_lower (c : Z) : Z :=
  if (chr "A" <=? c) && (c <=? chr "Z") then c - chr "A" + chr "a" else c.

Definition TL_writer_to_upper (c : Z) : Z :=
  if (chr "a" <=? c) && (c <=? chr "z") then c - chr "a" + chr "A" else c.

(** [gen_main_class_name], for a class whose other methods are [supported] and [class_name]. *)
Definition TL_writer_gen_main_class_name (supported : list tl_type -> tl_combinator -> result bool)
    (class_name : Name -> Text) (i : nat) : Text :=
  fun h =>
    match h_types h !! i, h_simple h !! i with
    | Some t, Some simple =>
        if simple =? 1 then
          (fix first (n : nat) (l : list tl_combinator) : result (list Z) :=
             match n, l with
             | O, _ => class_name (t_name t) h
             | S _, [] => Fault OutOfBounds
             | S n, k :: l =>
                 do? b := supported (h_types h) k in
                 if b then class_name (k_name k) h else first n l
             end) (Z.to_nat (t_constructors_num t)) (t_constructors t)
        else class_name (t_name t) h
    | _, _ => Fault BadPointer
    end.

(** [gen_field_type], for a class whose other methods are given. *)
Definition TL_writer_gen_field_type (gen_var_type_name : Text) (gen_type_name : tl_tree -> Text)
    (gen_array_type_name : tl_tree -> Name -> Text) (a : arg) : Text :=
  fun h =>
    let flags := arg_flags a in
    if has_flag flags FLAG_EXCL then
      if negb (flags =? FLAG_EXCL) || negb (node_type (a_type a) =? NODE_TYPE_VAR_TYPE) then Fault AssertFailed
      else gen_var_type_name h
    else if negb ((flags =? FLAG_NOVAR) || (flags =? 0) || (flags =? Z.lor (Z.lor FLAG_OPT_VAR FLAG_NOVAR) FLAG_BARE))
    then Fault AssertFailed
    else
      match a_type a with
      | tl_tree_type _ i children =>
          match h_types h !! i with
          | None => Fault BadPointer
          | Some t =>
              if negb (Z.of_nat (List.length children) =? u64 (t_arity t)) then Fault AssertFailed
              else if t_id t =? ID_VAR_TYPE then Ret []
              else gen_type_name (a_type a) h
          end
      | x =>
          if negb ((flags =? FLAG_NOVAR) || (flags =? 0)) then Fault AssertFailed
          else
            match x with
            | tl_tree_array f _ _ =>
                if negb (Z.land f (Z.lnot FLAG_NOVAR) =? 0) then Fault AssertFailed
                else gen_array_type_name x (a_name a) h
            | _ => Fault AssertFailed
            end
      end.

(** [gen_additional_function] and the like: a class that has additional functions overrides them. *)
Definition TL_writer_no_additional : Text := fun _ => Fault AssertFailed.

(** ** TD_TL_writer *)

Definition one_of (name : Name) (l : list string) : bool := existsb (fun s => bool_decide (name = str s)) l.

Definition TD_get_max_arity : Z := 0.

Definition TD_is_built_in_simple_type (name : Name) : bool :=
  one_of name ["True"; "Bool"; "Int"; "Long"; "Double"; "String"; "Int32"; "Int53"; "Int64"; "Int128"; "Int256"; "Bytes"]%string.

Definition TD_is_built_in_complex_type (name : Name) : bool := one_of name ["Vector"%string].

Definition TD_is_type_bare (h : heap) (i : nat) : result bool :=
  match h_types h !! i, h_simple h !! i with
  | Some t, Some simple =>
      Ret ((simple <=? 1) || (TD_is_built_in_simple_type (t_name t) && negb (one_of (t_name t) ["Bool"%string])) ||
           TD_is_built_in_complex_type (t_name t))
  | _, _ => Fault BadPointer
  end.

Definition TD_is_combinator_supported (ts : list tl_type) (k : tl_combinator) : result bool :=
  do? b := TL_writer_is_combinator_supported ts k in
  if b then Ret (forallb (fun a => negb (node_type (a_type a) =? NODE_TYPE_VAR_TYPE)) (k_args k)) else Ret false.

Definition TD_is_default_constructor_generated (tl_name : Name) (t : tl_combinator) (can_be_parsed _ : bool) : bool :=
  one_of tl_name ["td_api"; "TdApi"]%string || ((k_var_count t >? 0) && can_be_parsed) || one_of (k_name t) ["updates"%string].

Definition TD_is_full_constructor_generated (tl_name : Name) (t : tl_combinator) (_ can_be_stored : bool) : bool :=
  one_of tl_name ["td_api"; "TdApi"]%string || can_be_stored ||
  one_of (k_name t) ["phone.groupParticipants"; "user"; "userProfilePhoto"; "channelForbidden"; "photoSizeEmpty";
    "photoSize"; "photoCachedSize"; "document"; "updateDeleteMessages"; "updateEditChannelMessage";
    "encryptedChatWaiting"; "encryptedChatRequested"; "encryptedChat"; "langPackString"; "langPackStringPluralized";
    "langPackStringDeleted"; "peerUser"; "peerChat"; "updateServiceNotification"; "updateNewMessage"; "message";
    "updateChannelTooLong"]%string.

Definition TD_get_storer_type (_ : tl_combinator) (storer_name : Name) : Z :=
  if one_of storer_name ["TlStorerToString"%string] then 1 else 0.

(** [TD_ENABLE_JNI] is a choice of the build. *)
Definition TD_get_parser_mode (TD_ENABLE_JNI : bool) (tl_name : Name) (_ : Z) : Mode :=
  if one_of tl_name ["td_api"%string] && negb TD_ENABLE_JNI then Server
  else if one_of tl_name ["telegram_api"%string] then Client
  else All.

Definition TD_get_storer_mode (tl_name : Name) (type : Z) : Mode :=
  if type =? 1 then All
  else if one_of tl_name ["td_api"%string] then Server
  else if one_of tl_name ["telegram_api"%string] then Client
  else All.

Definition TD_get_parsers (tl_name : Name) : list Name :=
  if one_of tl_name ["telegram_api"%string] then [str "TlBufferParser"]
  else if one_of tl_name ["mtproto_api"; "secret_api"]%string then [str "TlParser"]
  else [].

Definition TD_get_storers (tl_name : Name) : list Name :=
  (if one_of tl_name ["telegram_api"; "mtproto_api"; "secret_api"]%string
   then [str "TlStorerCalcLength"; str "TlStorerUnsafe"] else []) ++ [str "TlStorerToString"].

Definition TD_gen_base_tl_class_name : Text := fun _ => Ret (str "TlObject").
Definition TD_gen_base_type_class_name (arity : Z) : Text :=
  fun _ => if arity =? 0 then Ret (str "Object") else Fault AssertFailed.
Definition TD_gen_base_function_class_name : Text := fun _ => Ret (str "Function").

Definition alnum_or_underscore (name : Name) : list Z :=
  map (fun c => if TL_writer_is_alnum c then c else chr "_") name.

Definition TD_gen_class_name (name : Name) : Text :=
  fun _ =>
    if one_of name ["Object"%string] then Fault AssertFailed
    else if one_of name ["#"%string] then Ret (str "int32")
    else Ret (alnum_or_underscore name).

Definition TD_gen_field_name (name : Name) : Text :=
  fun _ =>
    let name := alnum_or_underscore name in
    match last name with
    | None => Fault AssertFailed
    | Some c => if c =? chr "_" then Fault AssertFailed else Ret (name ++ [chr "_"])
    end.

(** The names that [gen_type_name] knows. *)
Definition TD_simple_type_name (name : Name) : option string :=
  if one_of name ["#"%string] then Some "int32"%string
  else if one_of name ["True"; "Bool"]%string then Some "bool"%string
  else if one_of name ["Int"; "Int32"]%string then Some "int32"%string
  else if one_of name ["Int53"%string] then Some "int53"%string
  else if one_of name ["Long"; "Int64"]%string then Some "int64"%string
  else if one_of name ["Double"%string] then Some "double"%string
  else if one_of name ["String"%string] then Some "string"%string
  else if one_of name ["Int128"%string] then Some "UInt128"%string
  else if one_of name ["Int256"%string] then Some "UInt256"%string
  else if one_of name ["Bytes"%string] then Some "bytes"%string
  else None.

Fixpoint TD_gen_type_name (tree_type : tl_tree) : Text :=
  fun h =>
    match tree_type with
    | tl_tree_type _ i children =>
        match h_types h !! i with
        | None => Fault BadPointer
        | Some t =>
            match TD_simple_type_name (t_name t) with
            | Some s => Ret (str s)
            | None =>
                if one_of (t_name t) ["Vector"%string] then
                  if negb (t_arity t =? 1) then Fault AssertFailed
                  else
                    match children with
                    | [tl_tree_type _ _ _ as child] =>
                        do? s := TD_gen_type_name child h in Ret (str "array<" ++ s ++ str ">")
                    | _ => Fault AssertFailed
                    end
                else if TD_is_built_in_simple_type (t_name t) || TD_is_built_in_complex_type (t_name t) then Fault AssertFailed
                else if forallb (fun c => node_type c =? NODE_TYPE_NAT_CONST) children then
                  do? s := TL_writer_gen_main_class_name TD_is_combinator_supported TD_gen_class_name i h in
                  Ret (str "object_ptr<" ++ s ++ str ">")
                else Fault AssertFailed
            end
        end
    | _ => Fault BadPointer
    end.

Definition TD_gen_var_type_name : Text := fun _ => Ret (str "object_ptr<" ++ str "Function" ++ str ">").

Definition TD_gen_array_type_name (_ : tl_tree) (_ : Name) : Text := fun _ => Fault AssertFailed.

Definition TD_gen_field_type : arg -> Text :=
  TL_writer_gen_field_type TD_gen_var_type_name TD_gen_type_name TD_gen_array_type_name.

(** [s.compare (0, n, p) == 0] for a string [p] of length [n]. *)
Definition starts_with (p s : list Z) : bool := bool_decide (take (List.length p) s = p).

Definition TD_gen_constructor_parameter (string_type bytes_type : Name) (field_num : Z) (_ : Name) (a : arg)
    (is_default : bool) : Text :=
  fun h =>
    if is_default then Ret []
    else
      do? field_type := TD_gen_field_type a h in
      match last field_type with
      | None => Ret []
      | Some c =>
          let field_type := if c =? chr " " then field_type else field_type ++ [chr " "] in
          let res := if field_num =? 0 then [] else str ", " in
          do? res :=
            if one_of field_type ["bool "; "int32 "; "int53 "; "int64 "; "double "]%string then Ret (res ++ field_type)
            else if one_of field_type ["UInt128 "; "UInt256 "; "string "]%string ||
                    (bool_decide (string_type = bytes_type) && one_of field_type ["bytes "%string])
            then Ret (res ++ field_type ++ str "const &")
            else if starts_with (str "array") field_type || one_of field_type ["bytes "%string] ||
                    starts_with (str "object_ptr") field_type
            then Ret (res ++ field_type ++ str "&&")
            else Fault AssertFailed in
          do? name := TD_gen_field_name (a_name a) h in
          Ret (res ++ name)
      end.
