(* ===== verification/Generate.v ===== *)
(** * The generator (tdtl: tl_generate.cpp, tl_file_utils.cpp, tl_string_outputer.cpp)

    [write_tl] checks the types, marks those it cannot generate as complex until
    nothing changes, finds the types that requests and results lead to, and calls
    the writer for every class.  It changes the [flags] and [simple_constructors]
    of the types behind the [const tl_config &] it is given; a type is its index.

    Fuel: the loop that looks for complex types takes one unit per round, [dfs_type]
    one unit per nested type. *)
From Stdlib Require Import ZArith Lia List Bool Ascii String.
From stdpp Require Import base list strings gmap.
From S2P Require Import Prelude Reader Writers.
Open Scope tl_scope.

Definition names : Type := gset (list Z).

Record gstate := mk_g { g_types : list tl_type; g_simple : list Z; g_out : list Z }.

Definition G : Type -> Type := M gstate.

Definition to_heap (s : gstate) : heap := mk_heap (g_types s) (g_simple s).

Definition set_flags (f : Z) (t : tl_type) : tl_type :=
  mk_type (t_id t) (t_name t) (t_arity t) f (t_constructors_num t) (t_constructors t).

(** [*t] *)
Definition type_at (i : nat) : G tl_type :=
  fun s => match g_types s !! i with Some t => Ret (t, s) | None => Fault BadPointer end.

(** [t->flags = f (t->flags)], [t->simple_constructors = n] *)
Definition update_flags (i : nat) (f : Z -> Z) : G unit :=
  fun s => match g_types s !! i with
           | Some t => Ret (tt, mk_g (<[i := set_flags (f (t_flags t)) t]> (g_types s)) (g_simple s) (g_out s))
           | None => Fault BadPointer
           end.

Definition set_simple (i : nat) (n : Z) : G unit :=
  fun s => Ret (tt, mk_g (g_types s) (<[i := n]> (g_simple s)) (g_out s)).

Definition simple_at (i : nat) : G Z :=
  fun s => match g_simple s !! i with Some n => Ret (n, s) | None => Fault BadPointer end.

(** [out.append (text)] *)
Definition append (text : list Z) : G unit :=
  fun s => Ret (tt, mk_g (g_types s) (g_simple s) (g_out s ++ text)).

(** A call of the writer, and [out.append] of what it returns. *)
Definition call (m : Text) : G (list Z) := fun s => do? text := m (to_heap s) in Ret (text, s).
Definition emit (m : Text) : G unit := let* text := call m in append text.

Definition call_vars (m : TextVars) (vars : list var_description) : G (list Z * list var_description) :=
  fun s => do? r := m vars (to_heap s) in Ret (r, s).
Definition emit_vars (m : TextVars) (vars : list var_description) : G (list var_description) :=
  let* r := call_vars m vars in
  append (fst r) ;;
  ret (snd r).

(** [for (i = 0; i < t->constructors_num; i++) ... t->constructors[i]] *)
Definition constructors_of (t : tl_type) : G (list tl_combinator) :=
  if t_constructors_num t <=? Z.of_nat (List.length (t_constructors t))
  then ret (take (Z.to_nat (t_constructors_num t)) (t_constructors t))
  else fail OutOfBounds.

(** [std::vector<var_description> vars (n)] *)
Definition new_vars (n : Z) : G (list var_description) :=
  if n <? 0 then fail Aborted else ret (replicate (Z.to_nat n) empty_var).

Definition bool_int (b : bool) : Z := if b then 1 else 0.

Section Writer.
Context (w : TL_writer).

Definition supported (k : tl_combinator) : G bool :=
  fun s => do? b := is_combinator_supported w (g_types s) k in Ret (b, s).

(** [if (w.is_combinator_supported (k)) ...] for the constructors of a type. *)
Definition each_supported (act : tl_combinator -> G unit) (l : list tl_combinator) : G unit :=
  each (fun k => let* b := supported k in if b then act k else ret tt) l.

Definition is_reachable_for_parser (parser_type : Z) (name : Name) (request_types result_types : names) : bool :=
  match get_parser_mode w parser_type with
  | Client => bool_decide (name ∈ result_types)
  | Server => bool_decide (name ∈ request_types)
  | All => true
  end.

Definition is_reachable_for_storer (storer_type : Z) (name : Name) (request_types result_types : names) : bool :=
  match get_storer_mode w storer_type with
  | Client => bool_decide (name ∈ request_types)
  | Server => bool_decide (name ∈ result_types)
  | All => true
  end.

(** ** Classes *)

(** The loops of [write_class_constructor]: they count the texts that are not empty. *)
Fixpoint count_parameters (class_name : Name) (is_default : bool) (args : list arg) (field_count : Z) : G Z :=
  match args with
  | [] => ret field_count
  | a :: args =>
      let* p := call (gen_constructor_parameter w field_count class_name a is_default) in
      count_parameters class_name is_default args (field_count + bool_int (negb (bool_decide (p = []))))
  end.

Fixpoint append_fields (gen : Z -> arg -> Text) (args : list arg) (field_num : Z) : G Z :=
  match args with
  | [] => ret field_num
  | a :: args =>
      let* p := call (gen field_num a) in
      if bool_decide (p = []) then append_fields gen args field_num
      else append p ;; append_fields gen args (field_num + 1)
  end.

Definition write_class_constructor (t : tl_combinator) (class_name : Name) (is_default : bool) : G unit :=
  let* field_count := count_parameters class_name is_default (k_args t) 0 in
  emit (gen_constructor_begin w field_count class_name is_default) ;;
  let* field_num := append_fields (fun n a => gen_constructor_parameter w n class_name a is_default) (k_args t) 0 in
  assert (field_num =? field_count) ;;
  let* field_num := append_fields (fun n a => gen_constructor_field_init w n class_name a is_default) (k_args t) 0 in
  emit (gen_constructor_end w t field_num is_default).

(** The loop over [gen_field_fetch], which can change [vars]. *)
Fixpoint fetch_fields (flat : bool) (parser_type : Z) (args : list arg) (field_num : Z) (vars : list var_description) :
    G (Z * list var_description) :=
  match args with
  | [] => ret (field_num, vars)
  | a :: args =>
      let* r := call_vars (gen_field_fetch w field_num a flat parser_type) vars in
      if bool_decide (fst r = []) then fetch_fields flat parser_type args field_num (snd r)
      else append (fst r) ;; fetch_fields flat parser_type args (field_num + 1) (snd r)
  end.

Fixpoint store_fields (flat : bool) (storer_type : Z) (args : list arg) (vars : list var_description) :
    G (list var_description) :=
  match args with
  | [] => ret vars
  | a :: args =>
      let* vars := emit_vars (gen_field_store w a flat storer_type) vars in
      store_fields flat storer_type args vars
  end.

Definition write_function_fetch (parser_name : Name) (t : tl_combinator) (class_name : Name)
    (request_types result_types : names) : G unit :=
  let parser_type := get_parser_type w t parser_name in
  if negb (is_reachable_for_parser parser_type (k_name t) request_types result_types) then ret tt
  else
    let* vars := new_vars (k_var_count t) in
    let* vars := emit_vars (gen_fetch_function_begin w parser_name class_name class_name 0
                   (Z.of_nat (List.length (k_args t))) parser_type) vars in
    let* vars := emit_vars (gen_vars w t None) vars in
    let* r := fetch_fields false parser_type (k_args t) 0 vars in
    emit (gen_fetch_function_end w false (fst r) (snd r) parser_type).

Definition write_function_store (storer_name : Name) (t : tl_combinator) (class_name : Name)
    (request_types result_types : names) (vars : list var_description) : G (list var_description) :=
  let storer_type := get_storer_type w t storer_name in
  if negb (is_reachable_for_storer storer_type (k_name t) request_types result_types) then ret vars
  else
    let* vars := emit_vars (gen_store_function_begin w storer_name class_name 0 storer_type) vars in
    emit (gen_constructor_id_store w (k_id t) storer_type) ;;
    let* vars := store_fields false storer_type (k_args t) vars in
    emit (gen_store_function_end w vars storer_type) ;;
    ret vars.

Definition write_function_result_fetch (parser_name : Name) (t : tl_combinator) (class_name : Name) (result : tl_tree)
    (vars : list var_description) : G unit :=
  let parser_type := get_parser_type w t parser_name in
  emit (gen_fetch_function_result_begin w parser_name class_name result) ;;
  match result with
  | tl_tree_var_type _ result_num =>
      each (fun a =>
        match a_type a with
        | tl_tree_var_type _ var_num =>
            assert (has_flag (arg_flags a) FLAG_EXCL) ;;
            assert (var_num >=? 0) ;;
            if var_num =? result_num then emit (gen_var_type_fetch w a) else ret tt
        | _ => ret tt
        end) (k_args t)
  | tl_tree_type _ _ _ => emit (gen_type_fetch w [] result vars parser_type)
  | _ => fail AssertFailed
  end ;;
  emit (gen_fetch_function_result_end w) ;;
  emit (gen_fetch_function_result_any_begin w parser_name class_name false) ;;
  emit (gen_fetch_function_result_any_end w false).

(** [result_type->children.size ()] *)
Definition child_count (result_type : tl_tree) : Z :=
  match result_type with tl_tree_type _ _ children => Z.of_nat (List.length children) | _ => 0 end.

Definition write_constructor_fetch (parser_name : Name) (t : tl_combinator) (class_name parent_class_name : Name)
    (result_type : tl_tree) (is_flat : bool) (request_types result_types : names) : G unit :=
  let parser_type := get_parser_type w t parser_name in
  if negb (is_reachable_for_parser parser_type (k_name t) request_types result_types) then ret tt
  else
    let* vars := new_vars (k_var_count t) in
    let* vars := emit_vars (gen_fetch_function_begin w parser_name class_name parent_class_name (child_count result_type)
                   (Z.of_nat (List.length (k_args t))) parser_type) vars in
    let* vars := emit_vars (gen_vars w t (Some result_type)) vars in
    let* vars := emit_vars (gen_uni w result_type true) vars in
    let* r := fetch_fields is_flat parser_type (k_args t) 0 vars in
    emit (gen_fetch_function_end w (negb (bool_decide (class_name = parent_class_name))) (fst r) (snd r) parser_type).

Definition write_constructor_store (storer_name : Name) (t : tl_combinator) (class_name : Name)
    (result_type : tl_tree) (is_flat : bool) (request_types result_types : names) : G unit :=
  let* vars := new_vars (k_var_count t) in
  let storer_type := get_storer_type w t storer_name in
  if negb (is_reachable_for_storer storer_type (k_name t) request_types result_types) then ret tt
  else
    let* vars := emit_vars (gen_store_function_begin w storer_name class_name (child_count result_type) storer_type) vars in
    let* vars := emit_vars (gen_vars w t (Some result_type)) vars in
    let* vars := emit_vars (gen_uni w result_type false) vars in
    let* vars := store_fields is_flat storer_type (k_args t) vars in
    emit (gen_store_function_end w vars storer_type).

Fixpoint field_definitions (var_count : Z) (class_name : Name) (args : list arg) (required_args : Z) : G Z :=
  match args with
  | [] => ret required_args
  | a :: args =>
      assert ((-1 <=? a_var_num a) && (a_var_num a <? var_count)) ;;
      let required_args := required_args + bool_int (negb (has_flag (arg_flags a) FLAG_OPT_VAR)) in
      let* type_name := call (gen_field_type w a) in
      (if bool_decide (type_name = []) then ret tt
       else
         let* field_name := call (gen_field_name w (a_name a)) in
         emit (gen_field_definition w class_name type_name field_name)) ;;
      field_definitions var_count class_name args required_args
  end.

Definition gen_field_definitions (t : tl_combinator) (class_name : Name) : G Z :=
  field_definitions (k_var_count t) class_name (k_args t) 0.

(** The loop over the storers of a function shares [vars]. *)
Fixpoint function_stores (t : tl_combinator) (class_name : Name) (request_types result_types : names)
    (storers : list Name) (vars : list var_description) : G (list var_description) :=
  match storers with
  | [] => ret vars
  | storer :: storers =>
      let* vars := write_function_store storer t class_name request_types result_types vars in
      function_stores t class_name request_types result_types storers vars
  end.

Definition write_function (t : tl_combinator) (request_types result_types : names) : G unit :=
  let* b := supported t in
  assert b ;;
  let* class_name := call (gen_class_name w (k_name t)) in
  let* base := call (gen_base_function_class_name w) in
  emit (gen_class_begin w class_name base false) ;;
  let* required_args := gen_field_definitions t class_name in
  emit (gen_flags_definitions w t true) ;;
  let* vars := new_vars (k_var_count t) in
  let* vars := emit_vars (gen_function_vars w t) vars in
  (if is_default_constructor_generated w t false true then write_class_constructor t class_name true else ret tt) ;;
  (if negb (required_args =? 0) && is_full_constructor_generated w t false true
   then write_class_constructor t class_name false else ret tt) ;;
  emit (gen_get_id w class_name (k_id t) false) ;;
  emit (gen_function_result_type w (k_result t)) ;;
  each (fun parser => write_function_fetch parser t class_name request_types result_types) (get_parsers w) ;;
  let* vars := function_stores t class_name request_types result_types (get_storers w) vars in
  each (fun parser =>
    if bool_decide (get_parser_mode w (-1) = Server) then ret tt
    else write_function_result_fetch parser t class_name (k_result t) vars) (get_parsers w) ;;
  each (fun f => emit (gen_additional_function w f t true)) (get_additional_functions w) ;;
  emit (gen_class_end w).

(** [can_be_parsed] and [can_be_stored]: some mode that is not [All] reaches the name, or all modes are [All]. *)
Definition can_be (modes : list (Mode * bool)) : bool :=
  if existsb (fun m => negb (bool_decide (fst m = All))) modes
  then existsb (fun m => negb (bool_decide (fst m = All)) && snd m) modes
  else true.

Definition write_constructor (t : tl_combinator) (base_class parent_class : Name) (is_proxy : bool)
    (request_types result_types : names) : G unit :=
  let* b := supported t in
  assert b ;;
  let* class_name := call (gen_class_name w (k_name t)) in
  emit (gen_class_begin w class_name base_class is_proxy) ;;
  let* required_args := gen_field_definitions t class_name in
  let can_be_parsed := can_be (map (fun parser =>
    let parser_type := get_parser_type w t parser in
    (get_parser_mode w parser_type, is_reachable_for_parser parser_type (k_name t) request_types result_types)) (get_parsers w)) in
  let can_be_stored := can_be (map (fun storer =>
    let storer_type := get_storer_type w t storer in
    (get_storer_mode w storer_type, is_reachable_for_storer storer_type (k_name t) request_types result_types)) (get_storers w)) in
  emit (gen_flags_definitions w t can_be_stored) ;;
  (if is_default_constructor_generated w t can_be_parsed can_be_stored
   then write_class_constructor t class_name true else ret tt) ;;
  (if negb (required_args =? 0) && is_full_constructor_generated w t can_be_parsed can_be_stored
   then write_class_constructor t class_name false else ret tt) ;;
  emit (gen_get_id w class_name (k_id t) false) ;;
  match k_result t with
  | tl_tree_type _ i _ =>
      each (fun parser =>
        let* simple := simple_at i in
        write_constructor_fetch parser t class_name parent_class (k_result t)
          ((required_args =? 1) && (simple =? 1)) request_types result_types) (get_parsers w) ;;
      each (fun storer =>
        let* simple := simple_at i in
        write_constructor_store storer t class_name (k_result t)
          ((required_args =? 1) && (simple =? 1)) request_types result_types) (get_storers w)
  | _ => fail AssertFailed
  end ;;
  each (fun f => emit (gen_additional_function w f t false)) (get_additional_functions w) ;;
  emit (gen_class_end w).

(** The proxy class of a type with several constructors; its loops share [empty_vars]. *)
Fixpoint proxy_fetches (t : tl_type) (class_name : Name) (request_types result_types : names) (parsers : list Name)
    (empty_vars : list var_description) : G (list var_description) :=
  match parsers with
  | [] => ret empty_vars
  | parser :: parsers =>
      if negb (is_reachable_for_parser (-1) (t_name t) request_types result_types)
      then proxy_fetches t class_name request_types result_types parsers empty_vars
      else
        let* empty_vars := emit_vars (gen_fetch_function_begin w parser class_name class_name (t_arity t) (-1) (-1)) empty_vars in
        emit (gen_fetch_switch_begin w) ;;
        let* ks := constructors_of t in
        each_supported (fun k => emit (gen_fetch_switch_case w k (t_arity t))) ks ;;
        emit (gen_fetch_switch_end w) ;;
        emit (gen_fetch_function_end w false (-1) empty_vars (-1)) ;;
        proxy_fetches t class_name request_types result_types parsers empty_vars
  end.

Fixpoint proxy_stores (t : tl_type) (class_name : Name) (request_types result_types : names) (storers : list Name)
    (empty_vars : list var_description) : G (list var_description) :=
  match storers with
  | [] => ret empty_vars
  | storer :: storers =>
      if negb (is_reachable_for_storer (-1) (t_name t) request_types result_types)
      then proxy_stores t class_name request_types result_types storers empty_vars
      else
        let* empty_vars := emit_vars (gen_store_function_begin w storer class_name (t_arity t) (-1)) empty_vars in
        emit (gen_store_function_end w empty_vars (-1)) ;;
        proxy_stores t class_name request_types result_types storers empty_vars
  end.

Definition write_proxy_class (i : nat) (t : tl_type) (class_name base_class : Name) (request_types result_types : names) : G unit :=
  emit (gen_class_begin w class_name base_class true) ;;
  emit (gen_get_id w class_name 0 true) ;;
  let* empty_vars := proxy_fetches t class_name request_types result_types (get_parsers w) [] in
  let* _ := proxy_stores t class_name request_types result_types (get_storers w) empty_vars in
  each (fun f =>
    emit (gen_additional_proxy_function_begin w f (Some i) class_name (t_arity t) false) ;;
    let* ks := constructors_of t in
    each_supported (fun k => emit (gen_additional_proxy_function_case w f (Some i) k (t_arity t) false)) ks ;;
    emit (gen_additional_proxy_function_end w f (Some i) false)) (get_additional_functions w) ;;
  emit (gen_class_end w).

(** The loop over the constructors counts the classes it writes. *)
Fixpoint write_constructors (optimize_one_constructor : bool) (class_name base_class : Name)
    (request_types result_types : names) (l : list tl_combinator) (written : Z) : G Z :=
  match l with
  | [] => ret written
  | k :: l =>
      let* b := supported k in
      if b then
        (if optimize_one_constructor then
           let* parent := call (gen_class_name w (k_name k)) in
           write_constructor k base_class parent false request_types result_types ;;
           let* alias := call (gen_class_name w (k_name k)) in
           emit (gen_class_alias w alias class_name)
         else write_constructor k class_name class_name false request_types result_types) ;;
        write_constructors optimize_one_constructor class_name base_class request_types result_types l (written + 1)
      else write_constructors optimize_one_constructor class_name base_class request_types result_types l written
  end.

Definition write_class (i : nat) (request_types result_types : names) : G unit :=
  let* t := type_at i in
  assert (t_constructors_num t >? 0) ;;
  assert (negb (is_built_in_simple_type w (t_name t))) ;;
  assert (negb (is_built_in_complex_type w (t_name t))) ;;
  assert (negb (has_flag (t_flags t) FLAG_COMPLEX)) ;;
  assert (t_arity t >=? 0) ;;
  let* simple := simple_at i in
  assert (simple >? 0) ;;
  assert (t_flags t =? 0) ;;
  let* base_class := call (gen_base_type_class_name w (t_arity t)) in
  let* class_name := call (gen_class_name w (t_name t)) in
  (if negb (simple =? 1) then write_proxy_class i t class_name base_class request_types result_types else ret tt) ;;
  let* ks := constructors_of t in
  let* written := write_constructors (simple =? 1) class_name base_class request_types result_types ks 0 in
  assert (written =? simple).

(** ** Reachable types *)

Section Dfs.
Context (ts : list tl_type).

Section With.
(** [dfs_type] *)
Context (dfs_type : nat -> names -> result names).

Fixpoint dfs_tree (x : tl_tree) (found : names) : result names :=
  match x with
  | tl_tree_array _ _ args =>
      (fix each_arg (l : list arg) (found : names) : result names :=
         match l with
         | [] => Ret found
         | mk_arg _ _ _ _ _ y :: l => do? found := dfs_tree y found in each_arg l found
         end) args found
  | tl_tree_type _ i children =>
      do? found := dfs_type i found in
      (fix each_child (l : list tl_tree) (found : names) : result names :=
         match l with
         | [] => Ret found
         | y :: l => do? found := dfs_tree y found in each_child l found
         end) children found
  | tl_tree_var_type _ _ => Ret found
  | _ => Fault AssertFailed
  end.

Fixpoint dfs_args (l : list arg) (found : names) : result names :=
  match l with
  | [] => Ret found
  | a :: l => do? found := dfs_tree (a_type a) found in dfs_args l found
  end.

Definition dfs_combinator (k : tl_combinator) (found : names) : result names :=
  do? b := is_combinator_supported w ts k in
  if negb b then Ret found
  else if bool_decide (k_name k ∈ found) then Ret found
  else dfs_args (k_args k) ({[k_name k]} ∪ found).

Fixpoint dfs_combinators (l : list tl_combinator) (found : names) : result names :=
  match l with
  | [] => Ret found
  | k :: l => do? found := dfs_combinator k found in dfs_combinators l found
  end.

Definition dfs_type_body (i : nat) (found : names) : result names :=
  match ts !! i with
  | None => Fault BadPointer
  | Some t =>
      if bool_decide (t_name t ∈ found) then Ret found
      else
        let found := {[t_name t]} ∪ found in
        if (t_constructors_num t =? 0) || is_built_in_simple_type w (t_name t) || is_built_in_complex_type w (t_name t)
        then Ret found
        else if has_flag (t_flags t) FLAG_COMPLEX then Fault AssertFailed
        else if t_constructors_num t <=? Z.of_nat (List.length (t_constructors t))
        then dfs_combinators (take (Z.to_nat (t_constructors_num t)) (t_constructors t)) found
        else Fault OutOfBounds
  end.
End With.

Fixpoint dfs_type (n : nat) (i : nat) (found : names) : result names :=
  match n with
  | O => OutOfFuel
  | S n => dfs_type_body (dfs_type n) i found
  end.

(** The loop over the functions: [request_types], then [result_types]. *)
Fixpoint reachable_types (n : nat) (l : list tl_combinator) (found : names * names) : result (names * names) :=
  match l with
  | [] => Ret found
  | f :: l =>
      do? request_types := dfs_combinator (dfs_type n) f (fst found) in
      do? result_types := dfs_tree (dfs_type n) (k_result f) (snd found) in
      reachable_types n l (request_types, result_types)
  end.

(** One unit for each type. *)
Definition dfs_fuel : nat := S (List.length ts).
End Dfs.

(** ** Complex types *)

Definition set_complex (i : nat) (t : tl_type) : G unit :=
  if is_built_in_complex_type w (t_name t) then ret tt else update_flags i (fun f => Z.lor f FLAG_COMPLEX).

(** An item of an array in an argument of a constructor of type [i]. *)
Definition check_item (i : nat) (t : tl_type) (b : arg) : G unit :=
  let k := node_type (a_type b) in
  (if (k =? NODE_TYPE_VAR_TYPE) || (k =? NODE_TYPE_ARRAY) || negb (a_var_num b =? -1) || negb (a_exist_var_num b =? -1)
   then set_complex i t
   else assert (k =? NODE_TYPE_TYPE)) ;;
  assert ((arg_flags b =? FLAG_NOVAR) || (arg_flags b =? 0)).

Definition check_arg (i : nat) (t : tl_type) (k : tl_combinator) (a : arg) : G unit :=
  assert ((-1 <=? a_var_num a) && (a_var_num a <=? k_var_count k)) ;;
  let arg_type := node_type (a_type a) in
  assert ((arg_type =? NODE_TYPE_TYPE) || (arg_type =? NODE_TYPE_VAR_TYPE) || (arg_type =? NODE_TYPE_ARRAY)) ;;
  (if a_var_num a >=? 0 then
     match a_type a with
     | tl_tree_type _ j _ =>
         let* u := type_at j in
         assert ((t_id u =? ID_VAR_NUM) || (t_id u =? ID_VAR_TYPE))
     | _ => fail AssertFailed
     end
   else ret tt) ;;
  match a_type a with
  | tl_tree_array _ multiplicity items =>
      assert ((node_type multiplicity =? NODE_TYPE_NAT_CONST) || (node_type multiplicity =? NODE_TYPE_VAR_NUM)) ;;
      each (check_item i t) items
  | _ => ret tt
  end.

Definition check_constructor (i : nat) (t : tl_type) (k : tl_combinator) : G unit :=
  assert (k_type_id k =? t_id t) ;;
  match k_result k with
  | tl_tree_type flags j children =>
      assert (bool_decide (j = i)) ;;
      assert (Z.of_nat (List.length children) =? u64 (t_arity t)) ;;
      assert (flags =? (if t_arity t >? 0 then 0 else FLAG_NOVAR))
  | _ => fail AssertFailed
  end ;;
  each (check_arg i t k) (k_args k).

(** [static_cast<const tl_tree_type *> (k->result)->children[j]->get_type ()] *)
Definition result_child (k : tl_combinator) (j : nat) : G Z :=
  match k_result k with
  | tl_tree_type _ _ children =>
      match children !! j with Some c => ret (node_type c) | None => fail OutOfBounds end
  | _ => fail BadPointer
  end.

(** Parameter [j] of the type. *)
Definition check_parameter (i : nat) (t : tl_type) (ks : list tl_combinator) (j : nat) : G unit :=
  match ks with
  | [] => fail OutOfBounds
  | k0 :: ks =>
      let* main_type := result_child k0 j in
      each (fun k => let* c := result_child k j in assert (c =? main_type)) ks ;;
      assert ((main_type =? NODE_TYPE_VAR_TYPE) || (main_type =? NODE_TYPE_VAR_NUM)) ;;
      if main_type =? NODE_TYPE_VAR_TYPE then set_complex i t else ret tt
  end.

Definition check_type (i : nat) : G unit :=
  let* t := type_at i in
  assert (t_constructors_num t =? Z.of_nat (List.length (t_constructors t))) ;;
  if t_constructors_num t =? 0 then
    if bool_decide (t_name t = str "Type") then
      assert (t_id t =? ID_VAR_TYPE) ;;
      update_flags i (fun f => Z.lor f FLAG_COMPLEX)
    else ret tt
  else
    each (check_constructor i t) (t_constructors t) ;;
    each (check_parameter i t (t_constructors t)) (seq 0 (Z.to_nat (t_arity t))).

Fixpoint count_supported (l : list tl_combinator) (n : Z) : G Z :=
  match l with
  | [] => ret n
  | k :: l => let* b := supported k in count_supported l (n + bool_int b)
  end.

(** One round: whether a complex type was found. *)
Definition complex_step (i : nat) (found_complex : bool) : G bool :=
  let* t := type_at i in
  if (t_constructors_num t =? 0) || is_built_in_complex_type w (t_name t) then ret found_complex
  else if has_flag (t_flags t) FLAG_COMPLEX then ret found_complex
  else
    let* ks := constructors_of t in
    let* n := count_supported ks 0 in
    set_simple i n ;;
    if n =? 0 then update_flags i (fun f => Z.lor f FLAG_COMPLEX) ;; ret true
    else ret found_complex.

Fixpoint complex_round (l : list nat) (found_complex : bool) : G bool :=
  match l with
  | [] => ret found_complex
  | i :: l => let* found_complex := complex_step i found_complex in complex_round l found_complex
  end.

Fixpoint complex_loop (n : nat) (l : list nat) : G unit :=
  match n with
  | O => out_of_fuel
  | S n =>
      let* found_complex := complex_round l false in
      if found_complex then complex_loop n l else ret tt
  end.

(** ** write_tl *)

(** The condition by which the loops skip built-in and complex types. *)
Definition is_generated (t : tl_type) : bool :=
  negb ((t_constructors_num t =? 0) || is_built_in_simple_type w (t_name t) ||
        is_built_in_complex_type w (t_name t) || has_flag (t_flags t) FLAG_COMPLEX).

Definition each_generated (act : nat -> tl_type -> G unit) (l : list nat) : G unit :=
  each (fun i => let* t := type_at i in if is_generated t then act i t else ret tt) l.

Definition write_forward (i : nat) (t : tl_type) : G unit :=
  assert (t_flags t =? 0) ;;
  let* simple := simple_at i in
  if negb (simple =? 1) then
    let* name := call (gen_class_name w (t_name t)) in
    emit (gen_forward_class_declaration w name true)
  else
    let* ks := constructors_of t in
    each_supported (fun k =>
      let* name := call (gen_class_name w (k_name k)) in
      emit (gen_forward_class_declaration w name false)) ks.

(** [case_count]: the constructors of the types with [arity] parameters that the parser has to know. *)
Fixpoint count_cases (request_types result_types : names) (ks : list tl_combinator) (n : Z) : G Z :=
  match ks with
  | [] => ret n
  | k :: ks =>
      let* b := supported k in
      count_cases request_types result_types ks
        (n + bool_int (b && is_reachable_for_parser (-1) (k_name k) request_types result_types))
  end.

Fixpoint case_count (arity : Z) (request_types result_types : names) (l : list nat) (n : Z) : G Z :=
  match l with
  | [] => ret n
  | i :: l =>
      let* t := type_at i in
      if is_generated t && (t_arity t =? arity) then
        let* ks := constructors_of t in
        let* n := count_cases request_types result_types ks n in
        case_count arity request_types result_types l n
      else case_count arity request_types result_types l n
  end.

Section Output.
Context (types_n : nat) (functions : list tl_combinator) (request_types result_types : names).

Let all_types : list nat := seq 0 types_n.

(** The base class of the types with [arity] parameters. *)
Fixpoint base_fetches (arity : Z) (parsers : list Name) (vars : list var_description) : G (list var_description) :=
  match parsers with
  | [] => ret vars
  | parser :: parsers =>
      let* n := case_count arity request_types result_types all_types 0 in
      if n =? 0 then base_fetches arity parsers vars
      else
        let* name := call (gen_base_type_class_name w arity) in
        let* vars := emit_vars (gen_fetch_function_begin w parser name name arity (-1) (-1)) vars in
        emit (gen_fetch_switch_begin w) ;;
        each_generated (fun i t =>
          if t_arity t =? arity then
            let* ks := constructors_of t in
            each_supported (fun k =>
              if is_reachable_for_parser (-1) (k_name k) request_types result_types
              then emit (gen_fetch_switch_case w k arity) else ret tt) ks
          else ret tt) all_types ;;
        emit (gen_fetch_switch_end w) ;;
        emit (gen_fetch_function_end w false (-1) vars (-1)) ;;
        base_fetches arity parsers vars
  end.

Fixpoint base_stores (class_name : Text) (arity : Z) (storers : list Name) (vars : list var_description) :
    G (list var_description) :=
  match storers with
  | [] => ret vars
  | storer :: storers =>
      let* name := call class_name in
      let* vars := emit_vars (gen_store_function_begin w storer name arity (-1)) vars in
      emit (gen_store_function_end w vars (-1)) ;;
      base_stores class_name arity storers vars
  end.

Definition additional_function_type (f : Name) : G Z :=
  fun s => do? n := get_additional_function_type w f in Ret (n, s).

Definition base_additional (arity : Z) (f : Name) : G unit :=
  let* name := call (gen_base_type_class_name w arity) in
  emit (gen_additional_proxy_function_begin w f None name arity false) ;;
  each_generated (fun i t =>
    if t_arity t =? arity then
      let* function_type := additional_function_type f in
      let* simple := simple_at i in
      (if has_flag function_type 1 && negb (simple =? 1) then
         let* name := call (gen_class_name w (t_name t)) in
         emit (gen_additional_proxy_function_case_class w f None name arity)
       else ret tt) ;;
      (if has_flag function_type 2 || (has_flag function_type 1 && (simple =? 1)) then
         let* ks := constructors_of t in
         each_supported (fun k => emit (gen_additional_proxy_function_case w f None k arity false)) ks
       else ret tt)
    else ret tt) all_types ;;
  emit (gen_additional_proxy_function_end w f None false).

Definition write_base_class (arity : Z) (vars : list var_description) : G (list var_description) :=
  let* name := call (gen_base_type_class_name w arity) in
  let* base := call (gen_base_tl_class_name w) in
  emit (gen_class_begin w name base true) ;;
  let* name := call (gen_base_type_class_name w arity) in
  emit (gen_get_id w name 0 true) ;;
  let* vars := base_fetches arity (get_parsers w) vars in
  each (base_additional arity) (get_additional_functions w) ;;
  let* vars := base_stores (gen_base_type_class_name w arity) arity (get_storers w) vars in
  emit (gen_class_end w) ;;
  ret vars.

Fixpoint write_base_classes (arities : list nat) (vars : list var_description) : G (list var_description) :=
  match arities with
  | [] => ret vars
  | i :: arities =>
      let* vars := write_base_class (Z.of_nat i) vars in
      write_base_classes arities vars
  end.

(** The base class of functions. *)
Fixpoint function_fetches (parsers : list Name) (vars : list var_description) : G (list var_description) :=
  match parsers with
  | [] => ret vars
  | parser :: parsers =>
      if bool_decide (get_parser_mode w (-1) = Client) then function_fetches parsers vars
      else
        let* name := call (gen_base_function_class_name w) in
        let* vars := emit_vars (gen_fetch_function_begin w parser name name 0 (-1) (-1)) vars in
        emit (gen_fetch_switch_begin w) ;;
        each_supported (fun t => emit (gen_fetch_switch_case w t 0)) functions ;;
        emit (gen_fetch_switch_end w) ;;
        emit (gen_fetch_function_end w false (-1) vars (-1)) ;;
        function_fetches parsers vars
  end.

Definition write_base_function (vars : list var_description) : G unit :=
  let* name := call (gen_base_function_class_name w) in
  let* base := call (gen_base_tl_class_name w) in
  emit (gen_class_begin w name base true) ;;
  emit (gen_get_id w name 0 true) ;;
  let* vars := function_fetches (get_parsers w) vars in
  let* _ := (if bool_decide (get_storer_mode w (-1) = Server) then ret vars
             else base_stores (gen_base_function_class_name w) 0 (get_storers w) vars) in
  each (fun parser =>
    if bool_decide (get_parser_mode w (-1) = Server) then ret tt
    else
      emit (gen_fetch_function_result_any_begin w parser name true) ;;
      emit (gen_fetch_function_result_any_end w true)) (get_parsers w) ;;
  each (fun f =>
    emit (gen_additional_proxy_function_begin w f None name 0 true) ;;
    each_supported (fun t => emit (gen_additional_proxy_function_case w f None t 0 true)) functions ;;
    emit (gen_additional_proxy_function_end w f None true)) (get_additional_functions w) ;;
  emit (gen_class_end w).

Definition arities : list nat := seq 0 (Z.to_nat (get_max_arity w + 1)).

Definition write_output : G unit :=
  each_generated write_forward all_types ;;
  each (fun i =>
    let* name := call (gen_base_type_class_name w (Z.of_nat i)) in
    emit (gen_forward_class_declaration w name true)) arities ;;
  each (fun f => let* _ := supported f in ret tt) functions ;;
  let* vars := write_base_classes arities [] in
  write_base_function vars ;;
  each (fun i =>
    let* t := type_at i in
    if (t_constructors_num t =? 0) || is_built_in_simple_type w (t_name t) || is_built_in_complex_type w (t_name t) ||
       has_flag (t_flags t) FLAG_COMPLEX
    then ret tt
    else write_class i request_types result_types) all_types ;;
  each_supported (fun f => write_function f request_types result_types) functions ;;
  emit (gen_output_end w).
End Output.

(** [t->flags &= ~FLAG_COMPLEX] *)
Definition clear_complex (i : nat) : G unit :=
  let* t := type_at i in
  if has_flag (t_flags t) FLAG_COMPLEX then update_flags i (fun f => Z.land f (Z.lnot FLAG_COMPLEX)) else ret tt.

(** Which types can be generated, and what requests and results lead to. *)
Definition analyse (functions : list tl_combinator) : G (names * names) :=
  let* s := get in
  let all_types := seq 0 (List.length (g_types s)) in
  each check_type all_types ;;
  complex_loop (S (List.length (g_types s))) all_types ;;
  let* s := get in
  fun s' => do? r := reachable_types (g_types s) (dfs_fuel (g_types s)) functions (∅, ∅) in Ret (r, s').

Definition write_tl (functions : list tl_combinator) : G unit :=
  emit (gen_output_begin w) ;;
  let* found := analyse functions in
  let* s := get in
  write_output (List.length (g_types s)) functions (fst found) (snd found) ;;
  each clear_complex (seq 0 (List.length (g_types s))).
End Writer.
