(* ===== verification/HeaderWriter.v ===== *)
(** * The writer of the header files (td/generate: tl_writer_h.cpp)

    [TD_TL_writer_h] declares a C++ class for every constructor and function.  It
    is an instance of the interface [TL_writer]; what it inherits are the
    definitions [TD_*] and [TL_writer_*].  In the texts below, a bar stands for a
    newline and an apostrophe for a quotation mark. *)
From Stdlib Require Import ZArith Lia List Bool Ascii String.
From stdpp Require Import base list strings gmap.
From S2P Require Import Prelude Combinator Reader Writers Generate.
Open Scope tl_scope.

Definition code (s : string) : list Z :=
  map (fun c => if c =? chr "|" then 10 else if c =? chr "'" then 34 else c) (str s).

(** [TL_writer::int_to_string] *)
Definition int_to_string (x : Z) : list Z := lld x.

Definition plain_text (text : list Z) : Text := fun _ => Ret text.
Definition no_text_vars : TextVars := fun vars _ => Ret ([], vars).

(** [type.find ("::")]: what is before it and after it. *)
Fixpoint cut_colons (s : list Z) : option (list Z * list Z) :=
  match s with
  | [] => None
  | c :: s' =>
      match s' with
      | d :: rest =>
          if (c =? chr ":") && (d =? chr ":") then Some ([], rest)
          else match cut_colons s' with Some (a, b) => Some (c :: a, b) | None => None end
      | [] => None
      end
  end.

(** The loop, with one unit of fuel for each character. *)
Fixpoint forward_declaration_loop (n : nat) (type prefix suffix : list Z) : result (list Z) :=
  match n with
  | O => OutOfFuel
  | S n =>
      match cut_colons type with
      | None => Ret (prefix ++ code "class " ++ type ++ code ";|" ++ suffix)
      | Some (namespace_name, type) =>
          forward_declaration_loop n type (prefix ++ code "namespace " ++ namespace_name ++ code " {|")
            (suffix ++ code "}  // namespace " ++ namespace_name ++ code "|")
      end
  end.

Definition forward_declaration (type : list Z) : result (list Z) := forward_declaration_loop (S (List.length type)) type [] [].

Fixpoint forward_declarations (l : list Name) : result (list Z) :=
  match l with
  | [] => Ret []
  | n :: l => do? a := forward_declaration n in do? b := forward_declarations l in Ret (a ++ b)
  end.

(** [gen_var_name], of the class [TD_TL_writer] *)
Definition TD_gen_var_name (desc : var_description) : result (list Z) :=
  if is_type desc then Fault AssertFailed
  else if negb (parameter_num desc =? -1) then Fault AssertFailed
  else Ret (code "var" ++ int_to_string (index desc)).

Section H.
Context (TD_ENABLE_JNI : bool) (tl_name string_type bytes_type : Name) (ext_include : list Name).

Definition H_gen_output_begin : Text :=
  fun _ =>
    let ext_include_str := concat (map (fun it => code "#include " ++ it ++ code "|") ext_include) in
    let ext_include_str := if bool_decide (ext_include_str = []) then [] else ext_include_str ++ code "|" in
    do? a := forward_declarations (TD_get_storers tl_name) in
    do? b := forward_declarations (TD_get_parsers tl_name) in
    let ext_forward_declaration := a ++ b in
    let ext_forward_declaration :=
      if bool_decide (ext_forward_declaration = []) then [] else ext_forward_declaration ++ code "|" in
    Ret (code "#pragma once||#include 'td/tl/TlObject.h'||" ++ ext_include_str ++
    code "#include <cstdint>|#include <utility>|#include <vector>||namespace td {|" ++
    ext_forward_declaration ++ code "namespace " ++ tl_name ++ code " {||" ++
    code "using int32 = std::int32_t;|using int53 = std::int64_t;|using int64 = std::int64_t;||" ++
    code "using string = " ++ string_type ++ code ";||" ++
    code "using bytes = " ++ bytes_type ++ code ";||" ++
    code "template <class Type>|using array = std::vector<Type>;||using BaseObject = ::td::TlObject;||" ++
    code "template <class Type>|using object_ptr = ::td::tl_object_ptr<Type>;||" ++
    code "template <class Type, class... Args>|object_ptr<Type> make_object(Args &&... args) {|" ++
    code "  return object_ptr<Type>(new Type(std::forward<Args>(args)...));|}||" ++
    code "template <class ToType, class FromType>|object_ptr<ToType> move_object_as(FromType &&from) {|" ++
    code "  return object_ptr<ToType>(static_cast<ToType *>(from.release()));|}||" ++
    code "std::string to_string(const BaseObject &value);||template <class T>|" ++
    code "std::string to_string(const object_ptr<T> &value) {|  if (value == nullptr) {|    return 'null';|" ++
    code "  }||  return to_string(" ++ code "*value);|}||template <class T>|" ++
    code "std::string to_string(const std::vector<object_ptr<T>> &values) {|  std::string result = '{\n';|" ++
    code "  for (const auto &value : values) {|    if (value == nullptr) {|      result += 'null\n';|" ++
    code "    } else {|      result += to_string(" ++ code "*value);|    }|  }|  result += '}\n';|  return result;|}||").

Definition H_gen_output_end : Text := plain_text (code "}  // namespace " ++ tl_name ++ code "|}  // namespace td|").

Definition H_gen_field_definition (class_name type_name field_name : Name) : Text :=
  plain_text (code "  " ++ type_name ++
    match last type_name with None => [] | Some c => if c =? chr " " then [] else code " " end ++
    field_name ++ code ";|").

(** The loops of [gen_function_vars]. *)
Definition reset_vars (vars : list var_description) : list var_description :=
  imap (fun i _ => mk_var (Z.of_nat i) false false (-1) (-1)) vars.

Fixpoint mark_function_args (i : Z) (args : list arg) (vars : list var_description) : result (list var_description) :=
  match args with
  | [] => Ret vars
  | a :: args =>
      match a_type a with
      | tl_tree_var_type _ var_num =>
          if negb (has_flag (arg_flags a) FLAG_EXCL) then Fault AssertFailed
          else if var_num <? 0 then Fault AssertFailed
          else
            match vars !! Z.to_nat var_num with
            | None => Fault OutOfBounds
            | Some v =>
                if is_type v then Fault AssertFailed
                else mark_function_args (i + 1) args
                  (<[Z.to_nat var_num := mk_var (index v) (is_stored v) true (parameter_num v) i]> vars)
            end
      | _ => mark_function_args (i + 1) args vars
      end
  end.

Fixpoint declare_vars (prefix : list Z) (vars : list var_description) (h : heap) : result (list Z) :=
  match vars with
  | [] => Ret []
  | v :: vars =>
      if is_type v then declare_vars prefix vars h
      else if negb (parameter_num v =? -1) || negb (function_arg_num v =? -1) || is_stored v then Fault AssertFailed
      else
        do? class_name := TD_gen_class_name (str "#") h in
        do? var_name := TD_gen_var_name v in
        do? rest := declare_vars prefix vars h in
        Ret (prefix ++ class_name ++ code " " ++ var_name ++ code ";|" ++ rest)
  end.

Definition H_gen_function_vars (t : tl_combinator) : TextVars :=
  fun vars h =>
    do? vars := mark_function_args 0 (k_args t) (reset_vars vars) in
    do? res := declare_vars (code "  mutable ") vars h in
    Ret (res, vars).

(** [built_in] is the method [is_built_in_simple_type], which a subclass overrides. *)
Definition H_need_arg_mask (built_in : Name -> bool) (h : heap) (a : arg) (can_be_stored : bool) : result bool :=
  if a_exist_var_num a =? -1 then Ret false
  else if can_be_stored then Ret true
  else
    match a_type a with
    | tl_tree_type _ i _ =>
        match h_types h !! i with
        | None => Fault BadPointer
        | Some t => Ret (built_in (t_name t) && negb (one_of (t_name t) ["True"%string]))
        end
    | _ => Ret true
    end.

(** The arguments that have a mask: name and bit. *)
Fixpoint masked_args (built_in : Name -> bool) (h : heap) (can_be_stored : bool) (args : list arg) : result (list (Name * Z)) :=
  match args with
  | [] => Ret []
  | a :: args =>
      do? b := H_need_arg_mask built_in h a can_be_stored in
      do? flags := masked_args built_in h can_be_stored args in
      Ret (if b then (map TL_writer_to_upper (a_name a), a_exist_var_bit a) :: flags else flags)
  end.

(** [1 << bit], which is undefined unless the bit is one of the 32. *)
Definition shift_one (bit : Z) : result Z :=
  if (0 <=? bit) && (bit <? 32) then Ret (i32 (Z.shiftl 1 bit)) else Fault OutOfBounds.

Fixpoint mask_texts (flags : list (Name * Z)) : result (list (list Z)) :=
  match flags with
  | [] => Ret []
  | (name, bit) :: flags =>
      do? mask := shift_one bit in
      do? rest := mask_texts flags in
      Ret ((name ++ code "_MASK = " ++ int_to_string mask) :: rest)
  end.

Definition H_gen_flags_definitions (built_in : Name -> bool) (t : tl_combinator) (can_be_stored : bool) : Text :=
  fun h =>
    do? flags := masked_args built_in h can_be_stored (k_args t) in
    match flags with
    | [] => Ret []
    | _ =>
        do? texts := mask_texts flags in
        Ret (code "  enum Flags : std::int32_t { " ++
             match texts with [] => [] | x :: l => x ++ concat (map (fun y => code ", " ++ y) l) end ++
             code " };|")
    end.

Definition H_gen_var_type_fetch (_ : arg) : Text := fun _ => Fault AssertFailed.

Definition H_gen_forward_class_declaration (class_name : Name) (_ : bool) : Text :=
  plain_text (code "class " ++ class_name ++ code ";||").

Definition H_gen_class_begin (class_name base_class_name : Name) (is_proxy : bool) : Text :=
  plain_text (code "class " ++ class_name ++ (if is_proxy then [] else code " final ") ++ code ": public " ++
              base_class_name ++ code " {| public:|").

Definition H_gen_class_end : Text := plain_text (code "};||").

(** [base_tl_class_name] is the method [gen_base_tl_class_name]. *)
Definition H_gen_get_id (base_tl_class_name : Text) (class_name : Name) (id : Z) (is_proxy : bool) : Text :=
  fun h =>
    if is_proxy then
      do? base := base_tl_class_name h in
      Ret (if bool_decide (class_name = base) then code "|  virtual std::int32_t get_id() const = 0;|" else [])
    else Ret (code "|  static const std::int32_t ID = " ++ int_to_string id ++
              code ";|  std::int32_t get_id() const final {|    return ID;|  }|").

Definition H_gen_function_result_type (result : tl_tree) : Text :=
  fun h =>
    match result with
    | tl_tree_type _ _ _ =>
        do? fetched_type := TD_gen_type_name result h in
        let fetched_type :=
          match last fetched_type with
          | Some c => if c =? chr " " then removelast fetched_type else fetched_type
          | None => fetched_type
          end in
        Ret (code "|  using ReturnType = " ++ fetched_type ++ code ";|")
    | _ => Fault AssertFailed
    end.

Definition H_gen_fetch_function_begin (parser_name class_name parent_class_name : Name) (arity field_count parser_type : Z) : TextVars :=
  fun vars _ =>
    let returned_type := code "object_ptr<" ++ parent_class_name ++ code "> " in
    let fetch := code "|  static " ++ returned_type ++ code "fetch(" ++ parser_name ++ code " &p);|" in
    if parser_type =? 0 then
      Ret (fetch ++ (if field_count =? 0 then [] else code "|  explicit " ++ class_name ++ code "(" ++ parser_name ++ code " &p);|"), vars)
    else if arity =? 0 then Ret (fetch, vars)
    else Fault AssertFailed.

Definition H_gen_fetch_function_result_begin (parser_name _ : Name) (_ : tl_tree) : Text :=
  plain_text (code "|  static ReturnType fetch_result(" ++ parser_name ++ code " &p);|").

Definition H_gen_store_function_begin (storer_name _ : Name) (arity storer_type : Z) : TextVars :=
  fun vars _ =>
    if negb (arity =? 0) then Fault AssertFailed
    else if storer_type =? -1 then Ret ([], vars)
    else Ret (code "|  void store(" ++ storer_name ++ code " &s" ++
              (if storer_type =? 0 then [] else code ", const char *field_name") ++ code ") const final;|", vars).

Definition H_gen_constructor_begin (field_count : Z) (class_name : Name) (_ : bool) : Text :=
  plain_text (code "|  " ++ (if field_count =? 1 then code "explicit " else []) ++ class_name ++ code "(").

Definition H_gen_constructor_end (_ : tl_combinator) (_ : Z) (_ : bool) : Text := plain_text (code ");|").

(** The class, with what it inherits. *)
Definition TD_TL_writer_h : TL_writer := {|
  get_max_arity := TD_get_max_arity;
  is_built_in_simple_type := TD_is_built_in_simple_type;
  is_built_in_complex_type := TD_is_built_in_complex_type;
  is_combinator_supported := TD_is_combinator_supported;
  is_documentation_generated := TL_writer_is_documentation_generated;
  is_default_constructor_generated := TD_is_default_constructor_generated tl_name;
  is_full_constructor_generated := TD_is_full_constructor_generated tl_name;
  get_parser_type := TL_writer_get_parser_type;
  get_storer_type := TD_get_storer_type;
  get_additional_function_type := TL_writer_get_additional_function_type;
  get_parser_mode := TD_get_parser_mode TD_ENABLE_JNI tl_name;
  get_storer_mode := TD_get_storer_mode tl_name;
  get_parsers := TD_get_parsers tl_name;
  get_storers := TD_get_storers tl_name;
  get_additional_functions := TL_writer_get_additional_functions;
  gen_base_tl_class_name := TD_gen_base_tl_class_name;
  gen_base_type_class_name := TD_gen_base_type_class_name;
  gen_base_function_class_name := TD_gen_base_function_class_name;
  gen_class_name := TD_gen_class_name;
  gen_field_name := TD_gen_field_name;
  gen_field_type := TD_gen_field_type;
  gen_output_begin := H_gen_output_begin;
  gen_output_end := H_gen_output_end;
  gen_forward_class_declaration := H_gen_forward_class_declaration;
  gen_class_begin := H_gen_class_begin;
  gen_class_end := H_gen_class_end;
  gen_class_alias := fun _ _ => plain_text [];
  gen_field_definition := H_gen_field_definition;
  gen_flags_definitions := H_gen_flags_definitions TD_is_built_in_simple_type;
  gen_vars := fun _ _ => no_text_vars;
  gen_function_vars := H_gen_function_vars;
  gen_uni := fun _ _ => no_text_vars;
  gen_constructor_id_store := fun _ _ => plain_text [];
  gen_field_fetch := fun _ _ _ _ => no_text_vars;
  gen_field_store := fun _ _ _ => no_text_vars;
  gen_type_fetch := fun _ _ _ _ => plain_text [];
  gen_var_type_fetch := H_gen_var_type_fetch;
  gen_get_id := H_gen_get_id TD_gen_base_tl_class_name;
  gen_function_result_type := H_gen_function_result_type;
  gen_fetch_function_begin := H_gen_fetch_function_begin;
  gen_fetch_function_end := fun _ _ _ _ => plain_text [];
  gen_fetch_function_result_begin := H_gen_fetch_function_result_begin;
  gen_fetch_function_result_end := plain_text [];
  gen_fetch_function_result_any_begin := fun _ _ _ => plain_text [];
  gen_fetch_function_result_any_end := fun _ => plain_text [];
  gen_store_function_begin := H_gen_store_function_begin;
  gen_store_function_end := fun _ _ => plain_text [];
  gen_fetch_switch_begin := plain_text [];
  gen_fetch_switch_case := fun _ _ => plain_text [];
  gen_fetch_switch_end := plain_text [];
  gen_constructor_begin := H_gen_constructor_begin;
  gen_constructor_parameter := TD_gen_constructor_parameter string_type bytes_type;
  gen_constructor_field_init := fun _ _ _ _ => plain_text [];
  gen_constructor_end := H_gen_constructor_end;
  gen_additional_function := fun _ _ _ => TL_writer_no_additional;
  gen_additional_proxy_function_begin := fun _ _ _ _ _ => TL_writer_no_additional;
  gen_additional_proxy_function_case_class := fun _ _ _ _ => TL_writer_no_additional;
  gen_additional_proxy_function_case := fun _ _ _ _ _ => TL_writer_no_additional;
  gen_additional_proxy_function_end := fun _ _ _ => TL_writer_no_additional
|}.
End H.
