(* ===== verification/CppWriter.v ===== *)
(** * The writer of the C++ sources (td/generate: tl_writer_cpp.cpp)

    [TD_TL_writer_cpp] prints the constructors of the classes and the functions that
    fetch and store them.  The descriptions of the variables are its state: a
    variable is stored once the field that declares it has been printed, and a
    field that depends on a bit of a variable may only come after that. *)
From Stdlib Require Import ZArith Lia List Bool Ascii String.
From stdpp Require Import base list strings gmap.
From S2P Require Import Prelude Combinator Reader Writers Generate HeaderWriter.
Open Scope tl_scope.

Definition FLAG_DEFAULT_CONSTRUCTOR : Z := Z.shiftl 1 25.

(** [assert] in a method *)
Definition check (b : bool) : result unit := if b then Ret tt else Fault AssertFailed.

Definition var_at (vars : list var_description) (i : Z) : result var_description :=
  if i <? 0 then Fault OutOfBounds
  else match vars !! Z.to_nat i with Some v => Ret v | None => Fault OutOfBounds end.

Definition set_stored (b : bool) (v : var_description) : var_description :=
  mk_var (index v) b (is_type v) (parameter_num v) (function_arg_num v).

Definition store_var (vars : list var_description) (i : Z) (v : var_description) : list var_description :=
  <[Z.to_nat i := set_stored true v]> vars.

Definition vars_size (vars : list var_description) : Z := Z.of_nat (List.length vars).

Definition type_of (h : heap) (i : nat) : result tl_type :=
  match h_types h !! i with Some t => Ret t | None => Fault BadPointer end.

(** [1 << a.exist_var_bit] in a condition on a variable *)
Definition bit_condition (v : var_description) (bit : Z) : result (list Z) :=
  do? name := TD_gen_var_name v in
  do? mask := shift_one bit in
  Ret (code "if (" ++ name ++ code " & " ++ int_to_string mask ++ code ") { ").

Section Cpp.
Context (TD_ENABLE_JNI : bool) (tl_name string_type bytes_type : Name) (ext_include : list Name).

Definition C_gen_output_begin : Text :=
  fun _ =>
    let ext_include_str := concat (map (fun it => code "#include " ++ it ++ code "|") ext_include) in
    let ext_include_str := if bool_decide (ext_include_str = []) then [] else ext_include_str ++ code "|" in
    Ret (code "#include '" ++ tl_name ++ code ".h'||" ++ ext_include_str ++
         code "#include 'td/utils/common.h'|#include 'td/utils/format.h'|#include 'td/utils/logging.h'|" ++
         code "#include 'td/utils/SliceBuilder.h'|#include 'td/utils/tl_parsers.h'|#include 'td/utils/tl_storers.h'|" ++
         code "#include 'td/utils/TlStorerToString.h'||namespace td {|namespace " ++ tl_name ++
         code " {||std::string to_string(const BaseObject &value) {|  TlStorerToString storer;|" ++
         code "  value.store(storer, '');|  return storer.move_as_string();|}|").

(** ** Variables *)

(** The loop over the arguments in [gen_vars]. *)
Fixpoint C_mark_args (i : Z) (args : list arg) (vars : list var_description) : result (list var_description) :=
  match args with
  | [] => Ret vars
  | a :: args =>
      match a_type a with
      | tl_tree_var_type _ var_num =>
          do? _ := check (has_flag (arg_flags a) FLAG_EXCL) in
          do? _ := check (var_num <? vars_size vars) in
          do? _ := check (var_num >=? 0) in
          do? v := var_at vars var_num in
          do? _ := check (negb (is_type v)) in
          C_mark_args (i + 1) args (<[Z.to_nat var_num := mk_var (index v) (is_stored v) true (parameter_num v) i]> vars)
      | _ => C_mark_args (i + 1) args vars
      end
  end.

(** [result_type->children.empty ()] *)
Definition no_children (result_type : tl_tree) : bool := child_count result_type =? 0.

Definition C_gen_vars (t : tl_combinator) (result_type : option tl_tree) : TextVars :=
  fun vars h =>
    let vars := reset_vars vars in
    do? _ := check (match result_type with Some x => no_children x | None => true end) in
    do? vars := C_mark_args 0 (k_args t) vars in
    do? res := declare_vars (code "  ") vars h in
    Ret (res, vars).

Definition C_gen_function_vars (t : tl_combinator) : TextVars :=
  fun vars _ =>
    do? vars := mark_function_args 0 (k_args t) (reset_vars vars) in
    Ret ([], vars).

Definition C_gen_uni (result_type : tl_tree) (_ : bool) : TextVars :=
  fun vars _ => do? _ := check (no_children result_type) in Ret ([], vars).

Definition C_gen_constructor_id_store_raw (id : list Z) : list Z := code "s.store_binary(" ++ id ++ code ");".

Definition C_gen_constructor_id_store (id storer_type : Z) : Text :=
  plain_text (if storer_type =? 1 then [] else code "  " ++ C_gen_constructor_id_store_raw (int_to_string id) ++ code "|").

(** ** Fetching *)

(** The names that [gen_fetch_class_name] knows. *)
Definition C_simple_fetch (name : Name) : option (list Z) :=
  if one_of name ["#"; "Int32"]%string then Some (str "TlFetchInt")
  else if one_of name ["Int53"; "Int64"]%string then Some (str "TlFetchLong")
  else if one_of name ["True"; "Bool"; "Int"; "Long"; "Double"; "Int128"; "Int256"]%string then Some (str "TlFetch" ++ name)
  else if one_of name ["String"%string] then Some (str "TlFetchString<string>")
  else if one_of name ["Bytes"%string] then Some (str "TlFetchBytes<bytes>")
  else None.

(** The loop that looks for the number of the only constructor. *)
Fixpoint expected_id (h : heap) (built_in_complex : bool) (n : nat) (l : list tl_combinator) (id : Z) : result Z :=
  match n, l with
  | O, _ => Ret id
  | S _, [] => Fault OutOfBounds
  | S n, k :: l =>
      do? b := (if built_in_complex then Ret true else TD_is_combinator_supported (h_types h) k) in
      if b then
        do? _ := check (id =? 0) in
        do? _ := check (negb (k_id k =? 0)) in
        expected_id h built_in_complex n l (k_id k)
      else expected_id h built_in_complex n l id
  end.

(** The number that a boxed value starts with, 0 if the class fetches it. *)
Definition C_expected_constructor (h : heap) (flags : Z) (i : nat) (t : tl_type) : result Z :=
  do? _ := check (negb (has_flag (t_flags t) FLAG_DEFAULT_CONSTRUCTOR)) in
  do? bare := TD_is_type_bare h i in
  if has_flag flags FLAG_BARE then do? _ := check bare in Ret 0
  else if bare then
    expected_id h (TD_is_built_in_complex_type (t_name t)) (Z.to_nat (t_constructors_num t)) (t_constructors t) 0
  else Ret 0.

(** [gen_full_fetch_class_name], with [gen_fetch_class_name] in it. *)
Fixpoint C_gen_full_fetch_class_name (tree_type : tl_tree) : Text :=
  fun h =>
    match tree_type with
    | tl_tree_type flags i children =>
        do? t := type_of h i in
        do? expected_constructor_id := C_expected_constructor h flags i t in
        do? fetch_class_name :=
          match C_simple_fetch (t_name t) with
          | Some s => Ret s
          | None =>
              if one_of (t_name t) ["Vector"%string] then
                if negb (t_arity t =? 1) then Fault AssertFailed
                else
                  match children with
                  | [tl_tree_type _ _ _ as child] =>
                      do? s := C_gen_full_fetch_class_name child h in Ret (str "TlFetchVector<" ++ s ++ str ">")
                  | _ => Fault AssertFailed
                  end
              else
                do? _ := check (negb (TD_is_built_in_simple_type (t_name t)) && negb (TD_is_built_in_complex_type (t_name t))) in
                do? _ := check (forallb (fun c => node_type c =? NODE_TYPE_NAT_CONST) children) in
                do? _ := check (bool_decide (children = [])) in
                do? s := TL_writer_gen_main_class_name TD_is_combinator_supported TD_gen_class_name i h in
                Ret (str "TlFetchObject<" ++ s ++ str ">")
          end in
        Ret (if expected_constructor_id =? 0 then fetch_class_name
             else str "TlFetchBoxed<" ++ fetch_class_name ++ str ", " ++ int_to_string expected_constructor_id ++ str ">")
    | _ => Fault BadPointer
    end.

Definition C_gen_type_fetch (_ : Name) (tree_type : tl_tree) (_ : list var_description) (_ : Z) : Text :=
  fun h => do? s := C_gen_full_fetch_class_name tree_type h in Ret (s ++ str "::parse(p)").

(** A variable that the field declares: the text before it, and the variables after it. *)
Definition C_declare (a : arg) (vars : list var_description) (h : heap) : result (option (list Z * var_description)) :=
  if a_var_num a >=? 0 then
    match a_type a with
    | tl_tree_type _ i _ =>
        do? t := type_of h i in
        do? _ := check (t_id t =? ID_VAR_NUM) in
        do? _ := check (a_var_num a <? vars_size vars) in
        do? v := var_at vars (a_var_num a) in
        do? _ := check (negb (is_stored v)) in
        do? name := TD_gen_var_name v in
        Ret (Some (name, v))
    | _ => Fault AssertFailed
    end
  else Ret None.

Definition C_gen_field_fetch (field_num : Z) (a : arg) (_ : bool) (parser_type : Z) : TextVars :=
  fun vars h =>
    do? _ := check (parser_type >=? 0) in
    do? name := TD_gen_field_name (a_name a) h in
    let field_name := (if parser_type =? 0 then if field_num =? 0 then code ": " else code ", " else code "res->") ++ name in
    match a_type a with
    | tl_tree_var_type _ var_num =>
        do? _ := check (parser_type =? 1) in
        do? _ := check (arg_flags a =? FLAG_EXCL) in
        do? _ := check (a_var_num a =? -1) in
        do? _ := check (a_exist_var_num a =? -1) in
        do? _ := check (var_num >=? 0) in
        do? v := var_at vars var_num in
        do? _ := check (is_type v) in
        do? _ := check (negb (is_stored v)) in
        do? base := TD_gen_base_function_class_name h in
        Ret (code "  " ++ field_name ++ code " = " ++ base ++ code "::fetch(p);|", store_var vars var_num v)
    | _ =>
        do? _ := check (negb (has_flag (arg_flags a) FLAG_EXCL)) in
        do? _ := check (negb (has_flag (arg_flags a) FLAG_OPT_VAR)) in
        do? condition :=
          (if a_exist_var_num a =? -1 then Ret []
           else
             do? _ := check ((0 <=? a_exist_var_num a) && (a_exist_var_num a <? vars_size vars)) in
             do? v := var_at vars (a_exist_var_num a) in
             do? _ := check (is_stored v) in
             bit_condition v (a_exist_var_bit a)) in
        do? declared := C_declare a vars h in
        let '(store, vars) :=
          match declared with
          | Some (var, v) => (code "if ((" ++ var ++ code " = ", store_var vars (a_var_num a) v)
          | None => ([], vars)
          end in
        do? fetch := match a_type a with tl_tree_type _ _ _ => C_gen_type_fetch field_name (a_type a) vars parser_type h | _ => Fault AssertFailed end in
        do? close :=
          (if a_exist_var_num a >=? 0 then
             match declared with
             | Some _ =>
                 do? v := var_at vars (a_var_num a) in
                 do? var := TD_gen_var_name v in
                 Ret (code " } else { " ++ var ++ code " = 0; }")
             | None => Ret (code " }")
             end
           else Ret []) in
        Ret (code "  " ++ condition ++ store ++ field_name ++ (if parser_type =? 0 then code "(" else code " = ") ++ fetch ++
             match declared with
             | Some _ => code ") < 0) { FAIL('Variable of type # can" ++ str "'" ++ code "t be negative'); }"
             | None => if parser_type =? 0 then code ")" else code ";"
             end ++ close ++ code "|", vars)
    end.

(** ** Storing *)

(** [while (!field_name.empty () && field_name.back () == '_') field_name.pop_back ()] *)
Definition drop_underscores (s : list Z) : list Z :=
  rev ((fix go (l : list Z) := match l with [] => [] | c :: l' => if c =? chr "_" then go l' else l end) (rev s)).

(** [field_name.find ('=')] *)
Fixpoint find_equals (s : list Z) : option nat :=
  match s with
  | [] => None
  | c :: s => if c =? chr "=" then Some O else option_map S (find_equals s)
  end.

Definition C_get_pretty_field_name (field_name : list Z) : list Z :=
  match field_name with
  | c :: _ =>
      if c =? chr "_" then []
      else
        let field_name :=
          match find_equals field_name with
          | Some equals_pos =>
              if (equals_pos + 3 <? List.length field_name)%nat then
                let rest := drop (equals_pos + 2) field_name in
                match last rest with
                | Some c => if c =? chr ")" then removelast rest else rest
                | None => rest
                end
              else field_name
          | None => field_name
          end in
        drop_underscores field_name
  | [] => []
  end.

Definition C_get_pretty_class_name (class_name : list Z) : list Z :=
  if one_of tl_name ["mtproto_api"%string] then class_name
  else map (fun c => if c =? chr "_" then chr "." else c) class_name.

(** The names that [gen_store_class_name] knows; [True] fails an assertion. *)
Definition C_simple_store (name : Name) : option (result (list Z)) :=
  if one_of name ["#"; "Int"; "Long"; "Int32"; "Int53"; "Int64"; "Double"; "Int128"; "Int256"]%string then Some (Ret (str "TlStoreBinary"))
  else if one_of name ["Bool"%string] then Some (Ret (str "TlStoreBool"))
  else if one_of name ["True"%string] then Some (Fault AssertFailed)
  else if one_of name ["String"; "Bytes"]%string then Some (Ret (str "TlStoreString"))
  else None.

(** The loop over the constructors in [gen_full_store_class_name]. *)
Fixpoint first_supported (h : heap) (n : nat) (l : list tl_combinator) : result Z :=
  match n, l with
  | O, _ => Fault AssertFailed
  | S _, [] => Fault OutOfBounds
  | S n, k :: l =>
      do? b := TD_is_combinator_supported (h_types h) k in
      if b then Ret (k_id k) else first_supported h n l
  end.

(** [gen_full_store_class_name], with [gen_store_class_name] in it. *)
Fixpoint C_gen_full_store_class_name (tree_type : tl_tree) : Text :=
  fun h =>
    match tree_type with
    | tl_tree_type flags i children =>
        do? t := type_of h i in
        do? _ := check (negb (has_flag (t_flags t) FLAG_DEFAULT_CONSTRUCTOR)) in
        let gen_store_class_name : result (list Z) :=
          match C_simple_store (t_name t) with
          | Some r => r
          | None =>
              if one_of (t_name t) ["Vector"%string] then
                if negb (t_arity t =? 1) then Fault AssertFailed
                else
                  match children with
                  | [tl_tree_type _ _ _ as child] =>
                      do? s := C_gen_full_store_class_name child h in Ret (str "TlStoreVector<" ++ s ++ str ">")
                  | _ => Fault AssertFailed
                  end
              else
                do? _ := check (negb (TD_is_built_in_simple_type (t_name t)) && negb (TD_is_built_in_complex_type (t_name t))) in
                do? _ := check (forallb (fun c => node_type c =? NODE_TYPE_NAT_CONST) children) in
                do? _ := check (bool_decide (children = [])) in
                Ret (str "TlStoreObject")
          end in
        let boxed (id : Z) : result (list Z) :=
          do? s := gen_store_class_name in Ret (str "TlStoreBoxed<" ++ s ++ str ", " ++ int_to_string id ++ str ">") in
        if has_flag flags FLAG_BARE || one_of (t_name t) ["#"; "Bool"]%string then gen_store_class_name
        else if TD_is_built_in_complex_type (t_name t) then
          match t_constructors t with
          | k :: _ => boxed (k_id k)
          | [] => Fault OutOfBounds
          end
        else
          do? bare := TD_is_type_bare h i in
          if negb bare then do? s := gen_store_class_name in Ret (str "TlStoreBoxedUnknown<" ++ s ++ str ">")
          else do? id := first_supported h (Z.to_nat (t_constructors_num t)) (t_constructors t) in boxed id
    | _ => Fault BadPointer
    end.

(** [gen_type_store], with [gen_vector_store] in it. *)
Fixpoint C_gen_type_store (field_name : list Z) (tree_type : tl_tree) (storer_type : Z) : Text :=
  fun h =>
    if storer_type =? 0 then
      do? s := C_gen_full_store_class_name tree_type h in Ret (s ++ str "::store(" ++ field_name ++ str ", s);")
    else
      match tree_type with
      | tl_tree_type _ i children =>
          do? t := type_of h i in
          do? _ := check (negb (has_flag (t_flags t) FLAG_DEFAULT_CONSTRUCTOR)) in
          let pretty := C_get_pretty_field_name field_name in
          if one_of (t_name t) ["#"; "Int"; "Long"; "Int32"; "Int53"; "Int64"; "Double"; "Bool"; "String"; "Int128"; "Int256"]%string
          then Ret (code "s.store_field('" ++ pretty ++ code "', " ++ field_name ++ code ");")
          else if one_of (t_name t) ["True"%string] then Ret []
          else if one_of (t_name t) ["Bytes"%string] then
            Ret (code "s.store_bytes_field('" ++ pretty ++ code "', " ++ field_name ++ code ");")
          else if one_of (t_name t) ["Vector"%string] then
            match children with
            | child :: _ =>
                let num := match field_name with c :: _ => if c =? chr "_" then str "2" else [] | [] => [] end in
                do? s := C_gen_type_store (str "_value" ++ num) child storer_type h in
                Ret (code "{ s.store_vector_begin('" ++ pretty ++ code "', " ++ field_name ++
                     code ".size()); for (const auto &_value" ++ num ++ code " : " ++ field_name ++ code ") { " ++ s ++
                     code " } s.store_class_end(); }")
            | [] => Fault OutOfBounds
            end
          else
            do? _ := check (bool_decide (children = [])) in
            Ret (code "s.store_object_field('" ++ pretty ++ code "', static_cast<const BaseObject *>(" ++ field_name ++ code ".get()));")
      | _ => Fault BadPointer
      end.

(** A conditional field of type [True] is only a bit of the flags. *)
Definition only_a_bit (a : arg) (h : heap) : result bool :=
  if (a_exist_var_num a >=? 0) && (a_var_num a <? 0) then
    match a_type a with
    | tl_tree_type _ i _ => do? t := type_of h i in Ret (one_of (t_name t) ["True"%string])
    | _ => Ret false
    end
  else Ret false.

Definition C_gen_field_store (a : arg) (_ : bool) (storer_type : Z) : TextVars :=
  fun vars h =>
    do? field_name := TD_gen_field_name (a_name a) h in
    let res := if storer_type =? 1 then code "    " else code "  " in
    match a_type a with
    | tl_tree_var_type _ var_num =>
        do? _ := check (arg_flags a =? FLAG_EXCL) in
        do? _ := check (a_var_num a =? -1) in
        do? _ := check (a_exist_var_num a =? -1) in
        do? _ := check (var_num >=? 0) in
        do? v := var_at vars var_num in
        do? _ := check (negb (is_stored v)) in
        do? _ := check (is_type v) in
        Ret (res ++ field_name ++ code "->store(s);|", store_var vars var_num v)
    | _ =>
        do? _ := check (negb (has_flag (arg_flags a) FLAG_EXCL)) in
        do? _ := check (negb (has_flag (arg_flags a) FLAG_OPT_VAR)) in
        do? skip := only_a_bit a h in
        if skip then Ret ([], vars)
        else
          do? condition :=
            (if a_exist_var_num a >=? 0 then
               do? _ := check (a_exist_var_num a <? vars_size vars) in
               do? v := var_at vars (a_exist_var_num a) in
               do? _ := check (is_stored v) in
               bit_condition v (a_exist_var_bit a)
             else Ret []) in
          do? declared := C_declare a vars h in
          let '(field_name, vars) :=
            match declared with
            | Some (var, v) => (code "(" ++ var ++ code " = " ++ field_name ++ code ")", store_var vars (a_var_num a) v)
            | None => (field_name, vars)
            end in
          do? store := match a_type a with tl_tree_type _ _ _ => C_gen_type_store field_name (a_type a) storer_type h | _ => Fault AssertFailed end in
          Ret (res ++ condition ++ store ++ (if a_exist_var_num a >=? 0 then code " }" else []) ++ code "|", vars)
    end.

(** ** The functions *)

Definition C_gen_get_id (class_name : Name) (_ : Z) (is_proxy : bool) : Text :=
  plain_text (if is_proxy then [] else code "|const std::int32_t " ++ class_name ++ code "::ID;|").

Definition C_gen_fetch_function_begin (parser_name class_name parent_class_name : Name) (arity field_count parser_type : Z) : TextVars :=
  fun vars _ =>
    do? _ := check (forallb (fun v => negb (is_stored v)) vars) in
    let fetched_type := code "object_ptr<" ++ class_name ++ code "> " in
    let returned_type := code "object_ptr<" ++ parent_class_name ++ code "> " in
    do? _ := check (arity =? 0) in
    if parser_type =? 0 then
      Ret (code "|" ++ returned_type ++ class_name ++ code "::fetch(" ++ parser_name ++
           code " &p) {|  return make_tl_object<" ++ class_name ++ code ">(" ++
           (if field_count =? 0 then code ");|"
            else code "p);|}||" ++ class_name ++ code "::" ++ class_name ++ code "(" ++ parser_name ++
                 code " &p)|#define FAIL(error) p.set_error(error)|"), vars)
    else
      Ret (code "|" ++ returned_type ++ class_name ++ code "::fetch(" ++ parser_name ++
           code " &p) {|#define FAIL(error) p.set_error(error); return nullptr;|" ++
           (if parser_type =? -1 then [] else code "  " ++ fetched_type ++ code "res = make_tl_object<" ++ class_name ++ code ">();|"), vars).

Definition C_gen_fetch_function_end (has_parent : bool) (field_count : Z) (vars : list var_description) (parser_type : Z) : Text :=
  fun _ =>
    do? _ := check (forallb is_stored vars) in
    if parser_type =? 0 then Ret (if field_count =? 0 then code "}|" else code "#undef FAIL|{}|")
    else if parser_type =? -1 then Ret (code "#undef FAIL|}|")
    else Ret (code "  if (p.get_error()) { FAIL(''); }|  return " ++ (if has_parent then code "std::move(res)" else code "res") ++
              code ";|#undef FAIL|}|").

Definition C_gen_fetch_function_result_begin (parser_name class_name : Name) (_ : tl_tree) : Text :=
  plain_text (code "|" ++ class_name ++ code "::ReturnType " ++ class_name ++ code "::fetch_result(" ++ parser_name ++
              code " &p) {|#define FAIL(error) p.set_error(error); return ReturnType()|  return ").

Definition C_gen_fetch_function_result_end : Text := plain_text (code ";|#undef FAIL|}|").

Definition C_gen_store_function_begin (storer_name class_name : Name) (arity storer_type : Z) : TextVars :=
  fun vars _ =>
    let vars := map (set_stored false) vars in
    if storer_type =? -1 then Ret ([], vars)
    else
      do? _ := check (arity =? 0) in
      Ret (code "|void " ++ class_name ++ code "::store(" ++ storer_name ++ code " &s" ++
           (if storer_type <=? 0 then [] else code ", const char *field_name") ++ code ") const {|" ++
           (if storer_type <=? 0 then code "  (void)sizeof(s);|"
            else code "  if (!LOG_IS_STRIPPED(ERROR)) {|    s.store_class_begin(field_name, '" ++
                 C_get_pretty_class_name class_name ++ code "');|"), vars).

Definition C_gen_store_function_end (vars : list var_description) (storer_type : Z) : Text :=
  fun _ =>
    do? _ := check (forallb is_stored vars) in
    if storer_type =? -1 then Ret []
    else Ret ((if storer_type <=? 0 then [] else code "    s.store_class_end();|  }|") ++ code "}|").

Definition C_gen_fetch_switch_begin : Text := plain_text (code "  int constructor = p.fetch_int();|  switch (constructor) {|").

Definition C_gen_fetch_switch_case (t : tl_combinator) (arity : Z) : Text :=
  fun h =>
    do? _ := check (arity =? 0) in
    do? class_name := TD_gen_class_name (k_name t) h in
    Ret (code "    case " ++ class_name ++ code "::ID:|      return " ++ class_name ++ code "::fetch(p);|").

Definition C_gen_fetch_switch_end : Text :=
  plain_text (code "    default:|      FAIL(PSTRING() << 'Unknown constructor found ' << format::as_hex(constructor));|  }|").

Definition C_gen_constructor_begin (_ : Z) (class_name : Name) (_ : bool) : Text :=
  plain_text (code "|" ++ class_name ++ code "::" ++ class_name ++ code "(").

Definition C_gen_constructor_field_init (field_num : Z) (_ : Name) (a : arg) (is_default : bool) : Text :=
  fun h =>
    do? field_type := TD_gen_field_type a h in
    if bool_decide (field_type = []) then Ret []
    else
      let moved := (one_of field_type ["bytes"%string] || starts_with (str "array") field_type ||
                    starts_with (str "object_ptr") field_type) && negb is_default in
      do? name := TD_gen_field_name (a_name a) h in
      Ret ((if field_num =? 0 then code ")|  : " else code "  , ") ++ name ++ code "(" ++
           (if moved then code "std::move(" else []) ++ (if is_default then [] else name) ++ (if moved then code ")" else []) ++ code ")|").

Definition C_gen_constructor_end (_ : tl_combinator) (field_count : Z) (_ : bool) : Text :=
  plain_text (if field_count =? 0 then code ") {|}|" else code "{}|").

(** The class, with what it inherits. *)
Definition TD_TL_writer_cpp : TL_writer := {|
  get_max_arity := TD_get_max_arity;
  is_built_in_simple_type := TD_is_built_in_simple_type;
  is_built_in_complex_type := TD_is_built_in_complex_type;
  is_combinator_supported := TD_is_combinator_supported;
  is_documentation_generated := TL_writer_is_documentation_generated;
  is_default_constructor_generated := TD_is_default_constructor_generated tl_name;
  is_full_constructor_generated := TD_is_full_constructor_generated tl_name;
  get_parser_type := TL_writer_get_parser_type;
  get_storer_type := TD_get_storer_type;
  get_additional_function_type := TL_writer_get_additional_function_type;
  get_parser_mode := TD_get_parser_mode TD_ENABLE_JNI tl_name;
  get_storer_mode := TD_get_storer_mode tl_name;
  get_parsers := TD_get_parsers tl_name;
  get_storers := TD_get_storers tl_name;
  get_additional_functions := TL_writer_get_additional_functions;
  gen_base_tl_class_name := TD_gen_base_tl_class_name;
  gen_base_type_class_name := TD_gen_base_type_class_name;
  gen_base_function_class_name := TD_gen_base_function_class_name;
  gen_class_name := TD_gen_class_name;
  gen_field_name := TD_gen_field_name;
  gen_field_type := TD_gen_field_type;
  gen_output_begin := C_gen_output_begin;
  gen_output_end := H_gen_output_end tl_name;
  gen_forward_class_declaration := fun _ _ => plain_text [];
  gen_class_begin := fun _ _ _ => plain_text [];
  gen_class_end := plain_text [];
  gen_class_alias := fun _ _ => plain_text [];
  gen_field_definition := fun _ _ _ => plain_text [];
  gen_flags_definitions := fun _ _ => plain_text [];
  gen_vars := C_gen_vars;
  gen_function_vars := C_gen_function_vars;
  gen_uni := C_gen_uni;
  gen_constructor_id_store := C_gen_constructor_id_store;
  gen_field_fetch := C_gen_field_fetch;
  gen_field_store := C_gen_field_store;
  gen_type_fetch := C_gen_type_fetch;
  gen_var_type_fetch := fun _ _ => Fault AssertFailed;
  gen_get_id := C_gen_get_id;
  gen_function_result_type := fun _ => plain_text [];
  gen_fetch_function_begin := C_gen_fetch_function_begin;
  gen_fetch_function_end := C_gen_fetch_function_end;
  gen_fetch_function_result_begin := C_gen_fetch_function_result_begin;
  gen_fetch_function_result_end := C_gen_fetch_function_result_end;
  gen_fetch_function_result_any_begin := fun _ _ _ => plain_text [];
  gen_fetch_function_result_any_end := fun _ => plain_text [];
  gen_store_function_begin := C_gen_store_function_begin;
  gen_store_function_end := C_gen_store_function_end;
  gen_fetch_switch_begin := C_gen_fetch_switch_begin;
  gen_fetch_switch_case := C_gen_fetch_switch_case;
  gen_fetch_switch_end := C_gen_fetch_switch_end;
  gen_constructor_begin := C_gen_constructor_begin;
  gen_constructor_parameter := TD_gen_constructor_parameter string_type bytes_type;
  gen_constructor_field_init := C_gen_constructor_field_init;
  gen_constructor_end := C_gen_constructor_end;
  gen_additional_function := fun _ _ _ => TL_writer_no_additional;
  gen_additional_proxy_function_begin := fun _ _ _ _ _ => TL_writer_no_additional;
  gen_additional_proxy_function_case_class := fun _ _ _ _ => TL_writer_no_additional;
  gen_additional_proxy_function_case := fun _ _ _ _ _ => TL_writer_no_additional;
  gen_additional_proxy_function_end := fun _ _ _ => TL_writer_no_additional
|}.
End Cpp.
