(* ===== verification/HppWriter.v ===== *)
(** * The writer of downcast_call (td/generate: tl_writer_hpp.cpp)

    [TD_TL_writer_hpp] prints one function template for each class that has
    subclasses: a switch over the numbers of its constructors.  It is the only
    writer here that has an additional function. *)
From Stdlib Require Import ZArith Lia List Bool Ascii String.
From stdpp Require Import base list strings gmap.
From S2P Require Import Prelude Reader Writers Generate HeaderWriter CppWriter.
Open Scope tl_scope.

Section Hpp.
Context (TD_ENABLE_JNI DISABLE_HPP_DOCUMENTATION : bool) (tl_name : Name).

Definition P_is_documentation_generated : bool := negb DISABLE_HPP_DOCUMENTATION.

(** [assert (function_name == "downcast_call")] *)
Definition downcast_only (function_name : Name) : result unit := check (one_of function_name ["downcast_call"%string]).

Definition P_get_additional_function_type (additional_function_name : Name) : result Z :=
  do? _ := downcast_only additional_function_name in Ret 2.

Definition P_get_additional_functions : list Name := [str "downcast_call"].

Definition P_gen_base_type_class_name (arity : Z) : Text := fun _ => do? _ := check (arity =? 0) in Ret (str "Object").

Definition P_gen_base_tl_class_name : Text := plain_text (str "BaseObject").

Definition P_gen_output_begin : Text :=
  plain_text (code "#pragma once||" ++
    (if DISABLE_HPP_DOCUMENTATION then []
     else code "/**| * \file| * Contains downcast_call methods for calling a function object on downcasted to|" ++
          code " * the most derived class TDLib API object.| */|") ++
    code "#include '" ++ tl_name ++ code ".h'||namespace td {|namespace " ++ tl_name ++ code " {||").

Definition P_gen_additional_function (function_name : Name) (_ : tl_combinator) (_ : bool) : Text :=
  fun _ => do? _ := downcast_only function_name in Ret [].

Definition P_gen_additional_proxy_function_begin (function_name : Name) (_ : option nat) (class_name : Name) (_ : Z) (_ : bool) : Text :=
  fun _ =>
    do? _ := downcast_only function_name in
    Ret ((if DISABLE_HPP_DOCUMENTATION then []
          else code "/**| * Calls the specified function object with the given object downcasted to its most derived type.|" ++
               code " * \param[in] obj Object to pass as an argument to the function object.|" ++
               code " * \param[in] func Function object to which the object will be passed.|" ++
               code " * \returns Whether function object call has happened. Should always return true for correct parameters.| */|") ++
         code "template <class T>|bool downcast_call(" ++ class_name ++ code " &obj, const T &func) {|  switch (obj.get_id()) {|").

(** The overload for a class. *)
Definition P_gen_additional_proxy_function_case_class (function_name : Name) (_ : option nat) (_ : Name) (_ : Z) : Text :=
  fun _ => do? _ := downcast_only function_name in Fault AssertFailed.

Definition P_gen_additional_proxy_function_case (function_name : Name) (_ : option nat) (t : tl_combinator) (_ : Z) (_ : bool) : Text :=
  fun h =>
    do? _ := downcast_only function_name in
    do? class_name := TD_gen_class_name (k_name t) h in
    Ret (code "    case " ++ class_name ++ code "::ID:|      func(static_cast<" ++ class_name ++ code " &>(obj));|      return true;|").

Definition P_gen_additional_proxy_function_end (function_name : Name) (_ : option nat) (_ : bool) : Text :=
  fun _ => do? _ := downcast_only function_name in Ret (code "    default:|      return false;|  }|}||").

(** The class, with what it inherits. *)
Definition TD_TL_writer_hpp : TL_writer := {|
  get_max_arity := TD_get_max_arity;
  is_built_in_simple_type := TD_is_built_in_simple_type;
  is_built_in_complex_type := TD_is_built_in_complex_type;
  is_combinator_supported := TD_is_combinator_supported;
  is_documentation_generated := P_is_documentation_generated;
  is_default_constructor_generated := TD_is_default_constructor_generated tl_name;
  is_full_constructor_generated := TD_is_full_constructor_generated tl_name;
  get_parser_type := TL_writer_get_parser_type;
  get_storer_type := TD_get_storer_type;
  get_additional_function_type := P_get_additional_function_type;
  get_parser_mode := TD_get_parser_mode TD_ENABLE_JNI tl_name;
  get_storer_mode := TD_get_storer_mode tl_name;
  get_parsers := TD_get_parsers tl_name;
  get_storers := TD_get_storers tl_name;
  get_additional_functions := P_get_additional_functions;
  gen_base_tl_class_name := P_gen_base_tl_class_name;
  gen_base_type_class_name := P_gen_base_type_class_name;
  gen_base_function_class_name := TD_gen_base_function_class_name;
  gen_class_name := TD_gen_class_name;
  gen_field_name := TD_gen_field_name;
  gen_field_type := TD_gen_field_type;
  gen_output_begin := P_gen_output_begin;
  gen_output_end := H_gen_output_end tl_name;
  gen_forward_class_declaration := fun _ _ => plain_text [];
  gen_class_begin := fun _ _ _ => plain_text [];
  gen_class_end := plain_text [];
  gen_class_alias := fun _ _ => plain_text [];
  gen_field_definition := fun _ _ _ => plain_text [];
  gen_flags_definitions := fun _ _ => plain_text [];
  gen_vars := fun _ _ => no_text_vars;
  gen_function_vars := fun _ => no_text_vars;
  gen_uni := fun _ _ => no_text_vars;
  gen_constructor_id_store := fun _ _ => plain_text [];
  gen_field_fetch := fun _ _ _ _ => no_text_vars;
  gen_field_store := fun _ _ _ => no_text_vars;
  gen_type_fetch := fun _ _ _ _ => plain_text [];
  gen_var_type_fetch := fun _ _ => Fault AssertFailed;
  gen_get_id := fun _ _ _ => plain_text [];
  gen_function_result_type := fun _ => plain_text [];
  gen_fetch_function_begin := fun _ _ _ _ _ _ => no_text_vars;
  gen_fetch_function_end := fun _ _ _ _ => plain_text [];
  gen_fetch_function_result_begin := fun _ _ _ => plain_text [];
  gen_fetch_function_result_end := plain_text [];
  gen_fetch_function_result_any_begin := fun _ _ _ => plain_text [];
  gen_fetch_function_result_any_end := fun _ => plain_text [];
  gen_store_function_begin := fun _ _ _ _ => no_text_vars;
  gen_store_function_end := fun _ _ => plain_text [];
  gen_fetch_switch_begin := plain_text [];
  gen_fetch_switch_case := fun _ _ => plain_text [];
  gen_fetch_switch_end := plain_text [];
  gen_constructor_begin := fun _ _ _ => plain_text [];
  gen_constructor_parameter := fun _ _ _ _ => plain_text [];
  gen_constructor_field_init := fun _ _ _ _ => plain_text [];
  gen_constructor_end := fun _ _ _ => plain_text [];
  gen_additional_function := P_gen_additional_function;
  gen_additional_proxy_function_begin := P_gen_additional_proxy_function_begin;
  gen_additional_proxy_function_case_class := P_gen_additional_proxy_function_case_class;
  gen_additional_proxy_function_case := P_gen_additional_proxy_function_case;
  gen_additional_proxy_function_end := P_gen_additional_proxy_function_end
|}.
End Hpp.
