(* ===== verification/JniWriter.v ===== *)
(** * The writers for JNI (td/generate: tl_writer_jni_h.cpp, tl_writer_jni_cpp.cpp)

    [TD_TL_writer_jni_h] and [TD_TL_writer_jni_cpp] derive from the header and the
    source writer.  They print classes whose fields are read from and written to
    Java objects, and the functions that look up the identifiers of these fields. *)
From Stdlib Require Import ZArith Lia List Bool Ascii String.
From stdpp Require Import base list strings gmap.
From S2P Require Import Prelude Combinator Reader Writers Generate HeaderWriter CppWriter.
Open Scope tl_scope.

(** ** What both classes override in the same way *)

Definition J_is_built_in_simple_type (name : Name) : bool :=
  one_of name ["Bool"; "Int32"; "Int53"; "Int64"; "Double"; "String"; "Bytes"]%string.

Definition J_is_built_in_complex_type (name : Name) : bool := one_of name ["Vector"%string].

Definition J_get_parser_type (_ : tl_combinator) (_ : Name) : Z := 1.
Definition J_get_parsers : list Name := [str "JNIEnv *env, jobject"].
Definition J_get_storers : list Name := [str "JNIEnv *env, jobject"; str "TlStorerToString"].

Definition J_gen_base_tl_class_name : Text := plain_text (str "Object").
Definition J_gen_base_type_class_name (arity : Z) : Text := fun _ => do? _ := check (arity =? 0) in Ret (str "Object").

(** [TD_TL_writer::is_type_bare] with these names *)
Definition J_is_type_bare (h : heap) (i : nat) : result bool :=
  match h_types h !! i, h_simple h !! i with
  | Some t, Some simple =>
      Ret ((simple <=? 1) || (J_is_built_in_simple_type (t_name t) && negb (one_of (t_name t) ["Bool"%string])) ||
           J_is_built_in_complex_type (t_name t))
  | _, _ => Fault BadPointer
  end.

(** [TD_TL_writer::gen_type_name], whose assertion calls the methods above.  It
    returns what it returns in the other classes ([Jni.same_type_name]), so that the
    methods that call it are the same too. *)
Fixpoint J_gen_type_name (tree_type : tl_tree) : Text :=
  fun h =>
    match tree_type with
    | tl_tree_type _ i children =>
        do? t := type_of h i in
        match TD_simple_type_name (t_name t) with
        | Some s => Ret (str s)
        | None =>
            if one_of (t_name t) ["Vector"%string] then
              do? _ := check (t_arity t =? 1) in
              match children with
              | [tl_tree_type _ _ _ as child] => do? s := J_gen_type_name child h in Ret (str "array<" ++ s ++ str ">")
              | _ => Fault AssertFailed
              end
            else
              do? _ := check (negb (J_is_built_in_simple_type (t_name t)) && negb (J_is_built_in_complex_type (t_name t))) in
              do? _ := check (forallb (fun c => node_type c =? NODE_TYPE_NAT_CONST) children) in
              do? s := TL_writer_gen_main_class_name TD_is_combinator_supported TD_gen_class_name i h in
              Ret (str "object_ptr<" ++ s ++ str ">")
        end
    | _ => Fault BadPointer
    end.

(** [function_name == "init_jni_vars"] *)
Definition is_init_jni_vars (function_name : Name) : bool := one_of function_name ["init_jni_vars"%string].

(** ** The header *)

Section JniHeader.
Context (TD_ENABLE_JNI : bool) (tl_name string_type bytes_type : Name) (ext_include : list Name).

Definition JH_get_additional_function_type (f : Name) : result Z :=
  if is_init_jni_vars f then Ret 1 else TL_writer_get_additional_function_type f.

Definition JH_get_additional_functions : list Name := TL_writer_get_additional_functions ++ [str "init_jni_vars"].

Definition JH_gen_output_begin : Text :=
  fun h =>
    let ext_include_str := concat (map (fun it => code "#include " ++ it ++ code "|") ext_include) in
    do? storer := forward_declaration (str "TlStorerToString") in
    do? base := J_gen_base_tl_class_name h in
    Ret (code "#pragma once||#include 'td/tl/TlObject.h'||#include <cstdint>|#include <utility>|#include <vector>||#include <jni.h>||" ++
    ext_include_str ++ code "|namespace td {|" ++ storer ++ code "|namespace " ++ tl_name ++ code " {||" ++
    code "using int32 = std::int32_t;|using int53 = std::int64_t;|using int64 = std::int64_t;||" ++
    code "using string = " ++ string_type ++ code ";||" ++
    code "using bytes = " ++ bytes_type ++ code ";||" ++
    code "template <class Type>|using array = std::vector<Type>;||class " ++ base ++ code ";|using BaseObject = " ++ base ++ code ";||" ++
    code "template <class Type>|using object_ptr = ::td::tl_object_ptr<Type>;||" ++
    code "template <class Type, class... Args>|object_ptr<Type> make_object(Args &&... args) {|" ++
    code "  return object_ptr<Type>(new Type(std::forward<Args>(args)...));|}||" ++
    code "template <class ToType, class FromType>|object_ptr<ToType> move_object_as(FromType &&from) {|" ++
    code "  return object_ptr<ToType>(static_cast<ToType *>(from.release()));|}||" ++
    code "std::string to_string(const BaseObject &value);||template <class T>|" ++
    code "std::string to_string(const object_ptr<T> &value) {|  if (value == nullptr) {|    return 'null';|" ++
    code "  }||  return to_string(" ++ code "*value);|}||").

Definition JH_gen_class_begin (class_name base_class_name : Name) (is_proxy : bool) : Text :=
  fun h =>
    do? base := J_gen_base_tl_class_name h in
    if bool_decide (class_name = base) then
      Ret (code "class " ++ class_name ++ code " {| public:|  virtual ~" ++ class_name ++ code "() {|  }||" ++
           code "  virtual void store(JNIEnv *env, jobject &s) const {|  }||" ++
           code "  virtual void store(TlStorerToString &s, const char *field_name) const = 0;||  static jclass Class;|")
    else
      Ret (code "class " ++ class_name ++ (if is_proxy then [] else code " final ") ++ code ": public " ++ base_class_name ++
           code " {| public:|  static jclass Class;|").

Definition JH_gen_field_definition (class_name type_name field_name : Name) : Text :=
  fun h =>
    do? definition := H_gen_field_definition class_name type_name field_name h in
    Ret (definition ++ code "  static jfieldID " ++ field_name ++ code "fieldID;|").

(** [gen_additional_function] and [gen_additional_proxy_function_begin] *)
Definition JH_declare_init (function_name : Name) : Text :=
  fun h =>
    if is_init_jni_vars function_name
    then Ret (code "|  static void " ++ function_name ++ code "(JNIEnv *env, const char *package_name);|")
    else TL_writer_no_additional h.

(** [gen_additional_proxy_function_case], both of them, and [gen_additional_proxy_function_end] *)
Definition JH_no_init (function_name : Name) : Text :=
  fun h => if is_init_jni_vars function_name then Ret [] else TL_writer_no_additional h.

Definition TD_TL_writer_jni_h : TL_writer := {|
  get_max_arity := TD_get_max_arity;
  is_built_in_simple_type := J_is_built_in_simple_type;
  is_built_in_complex_type := J_is_built_in_complex_type;
  is_combinator_supported := TD_is_combinator_supported;
  is_documentation_generated := TL_writer_is_documentation_generated;
  is_default_constructor_generated := TD_is_default_constructor_generated tl_name;
  is_full_constructor_generated := TD_is_full_constructor_generated tl_name;
  get_parser_type := J_get_parser_type;
  get_storer_type := TD_get_storer_type;
  get_additional_function_type := JH_get_additional_function_type;
  get_parser_mode := TD_get_parser_mode TD_ENABLE_JNI tl_name;
  get_storer_mode := TD_get_storer_mode tl_name;
  get_parsers := J_get_parsers;
  get_storers := J_get_storers;
  get_additional_functions := JH_get_additional_functions;
  gen_base_tl_class_name := J_gen_base_tl_class_name;
  gen_base_type_class_name := J_gen_base_type_class_name;
  gen_base_function_class_name := TD_gen_base_function_class_name;
  gen_class_name := TD_gen_class_name;
  gen_field_name := TD_gen_field_name;
  gen_field_type := TD_gen_field_type;
  gen_output_begin := JH_gen_output_begin;
  gen_output_end := H_gen_output_end tl_name;
  gen_forward_class_declaration := H_gen_forward_class_declaration;
  gen_class_begin := JH_gen_class_begin;
  gen_class_end := H_gen_class_end;
  gen_class_alias := fun _ _ => plain_text [];
  gen_field_definition := JH_gen_field_definition;
  gen_flags_definitions := H_gen_flags_definitions J_is_built_in_simple_type;
  gen_vars := fun _ _ => no_text_vars;
  gen_function_vars := H_gen_function_vars;
  gen_uni := fun _ _ => no_text_vars;
  gen_constructor_id_store := fun _ _ => plain_text [];
  gen_field_fetch := fun _ _ _ _ => no_text_vars;
  gen_field_store := fun _ _ _ => no_text_vars;
  gen_type_fetch := fun _ _ _ _ => plain_text [];
  gen_var_type_fetch := H_gen_var_type_fetch;
  gen_get_id := H_gen_get_id J_gen_base_tl_class_name;
  gen_function_result_type := H_gen_function_result_type;
  gen_fetch_function_begin := H_gen_fetch_function_begin;
  gen_fetch_function_end := fun _ _ _ _ => plain_text [];
  gen_fetch_function_result_begin := H_gen_fetch_function_result_begin;
  gen_fetch_function_result_end := plain_text [];
  gen_fetch_function_result_any_begin := fun _ _ _ => plain_text [];
  gen_fetch_function_result_any_end := fun _ => plain_text [];
  gen_store_function_begin := H_gen_store_function_begin;
  gen_store_function_end := fun _ _ => plain_text [];
  gen_fetch_switch_begin := plain_text [];
  gen_fetch_switch_case := fun _ _ => plain_text [];
  gen_fetch_switch_end := plain_text [];
  gen_constructor_begin := H_gen_constructor_begin;
  gen_constructor_parameter := TD_gen_constructor_parameter string_type bytes_type;
  gen_constructor_field_init := fun _ _ _ _ => plain_text [];
  gen_constructor_end := H_gen_constructor_end;
  gen_additional_function := fun f _ _ => JH_declare_init f;
  gen_additional_proxy_function_begin := fun f _ _ _ _ => JH_declare_init f;
  gen_additional_proxy_function_case_class := fun f _ _ _ => JH_no_init f;
  gen_additional_proxy_function_case := fun f _ _ _ _ => JH_no_init f;
  gen_additional_proxy_function_end := fun f _ _ => JH_no_init f
|}.
End JniHeader.

(** ** Names in Java *)

(** The loop of [gen_java_field_name] and [gen_basic_java_class_name]. *)
Fixpoint java_name (next_to_upper : bool) (name : Name) : Name :=
  match name with
  | [] => []
  | c :: name =>
      if negb (TL_writer_is_alnum c) then java_name true name
      else (if next_to_upper then TL_writer_to_upper c else c) :: java_name false name
  end.

Definition J_gen_java_field_name (name : Name) : Name := java_name false name.
Definition J_gen_basic_java_class_name (name : Name) : Name := java_name true name.

Definition J_gen_java_class_name (name : Name) : list Z :=
  code "(PSLICE() << package_name << '/TdApi$" ++ J_gen_basic_java_class_name name ++ code "').c_str()".

(** [gen_main_class_name] *)
Local Abbreviation main_class_name := (TL_writer_gen_main_class_name TD_is_combinator_supported TD_gen_class_name).

Fixpoint J_gen_type_signature (tree_type : tl_tree) : Text :=
  fun h =>
    match tree_type with
    | tl_tree_type _ i children =>
        do? t := type_of h i in
        let name := t_name t in
        do? _ := check (negb (one_of name ["#"%string])) in
        do? base := J_gen_base_tl_class_name h in
        do? _ := check (negb (bool_decide (name = base))) in
        if one_of name ["Bool"%string] then Ret (str "Z")
        else if one_of name ["Int32"%string] then Ret (str "I")
        else if one_of name ["Int53"; "Int64"]%string then Ret (str "J")
        else if one_of name ["Double"%string] then Ret (str "D")
        else if one_of name ["String"%string] then Ret (str "Ljava/lang/String;")
        else if one_of name ["Bytes"%string] then Ret (str "[B")
        else if one_of name ["Vector"%string] then
          match children with
          | child :: _ => do? s := J_gen_type_signature child h in Ret (str "[" ++ s)
          | [] => Fault OutOfBounds
          end
        else
          do? s := main_class_name i h in
          Ret (str "L%PACKAGE_NAME%/TdApi$" ++ J_gen_basic_java_class_name s ++ str ";")
    | _ => Fault BadPointer
    end.

(** [s.find (p)]: what is before it and after it. *)
Fixpoint cut_at (p s : list Z) : option (list Z * list Z) :=
  if starts_with p s then Some ([], drop (List.length p) s)
  else match s with
       | [] => None
       | c :: s => match cut_at p s with Some (a, b) => Some (c :: a, b) | None => None end
       end.

(** The loop that replaces the package, with one unit of fuel for each character. *)
Fixpoint replace_package (n : nat) (type_signature new_type_signature : list Z) : result (list Z) :=
  match n with
  | O => OutOfFuel
  | S n =>
      match cut_at (str "%PACKAGE_NAME%") type_signature with
      | Some (before, after) => replace_package n after (new_type_signature ++ code " << '" ++ before ++ code "' << package_name")
      | None =>
          Ret (new_type_signature ++ (if bool_decide (type_signature = []) then [] else code " << '" ++ type_signature ++ code "'") ++
               code ").c_str()")
      end
  end.

Definition quote_signature (type_signature : list Z) : result (list Z) :=
  match cut_at (str "%PACKAGE_NAME%") type_signature with
  | None => Ret (code "'" ++ type_signature ++ code "'")
  | Some _ => replace_package (S (List.length type_signature)) type_signature (code "(PSLICE()")
  end.

(** ** The source *)

(** The text for a vector whose items are numbers; empty for the others. *)
Definition array_type (vector_type : list Z) : list Z :=
  if one_of vector_type ["int32"%string] then str "jintArray"
  else if one_of vector_type ["int53"; "int64"]%string then str "jlongArray"
  else if one_of vector_type ["double"%string] then str "jdoubleArray"
  else [].

Definition J_gen_vector_fetch (field_name : list Z) (t : tl_tree) : Text :=
  fun h =>
    do? vector_type := TD_gen_type_name t h in
    do? _ := check (negb (one_of vector_type ["bool"%string])) in
    let fetch_object := code "jni::fetch_object(env, p, " ++ field_name ++ code "fieldID)" in
    if negb (bool_decide (array_type vector_type = [])) then
      Ret (code "jni::fetch_vector(env, (" ++ array_type vector_type ++ code ")" ++ fetch_object ++ code ")")
    else
      do? template_type :=
        (if one_of vector_type ["string"%string] then Ret (str "string")
         else if starts_with (str "array") vector_type then
           match t with
           | tl_tree_type _ _ (child :: _) =>
               do? template_type := TD_gen_type_name child h in
               do? template_type :=
                 (if starts_with (str "object_ptr") template_type then
                    match child with tl_tree_type _ j _ => main_class_name j h | _ => Fault BadPointer end
                  else Ret template_type) in
               Ret (str "array<" ++ template_type ++ str ">")
           | _ => Fault OutOfBounds
           end
         else if one_of vector_type ["bytes"%string] then Ret (str "jbyteArray")
         else
           do? _ := check (starts_with (str "object_ptr") vector_type) in
           match t with tl_tree_type _ i _ => main_class_name i h | _ => Fault BadPointer end) in
      Ret (code "jni::FetchVector<" ++ template_type ++ code ">::fetch(env, (jobjectArray)" ++ fetch_object ++ code ")").

(** The value itself, for a result. *)
Definition J_value (name : Name) : option (list Z) :=
  if one_of name ["Bool"%string] then Some (code "env->CallObjectMethod(p, jni::BooleanGetValueMethodID)")
  else if one_of name ["Int32"%string] then Some (code "env->CallObjectMethod(p, jni::IntegerGetValueMethodID)")
  else if one_of name ["Int53"; "Int64"]%string then Some (code "env->CallObjectMethod(p, jni::LongGetValueMethodID)")
  else if one_of name ["Double"%string] then Some (code "env->CallObjectMethod(p, jni::DoubleGetValueMethodID)")
  else if one_of name ["String"%string] then Some (code "jni::from_jstring(env, (jstring)p)")
  else if one_of name ["Bytes"%string] then Some (code "jni::from_bytes(env, (jbyteArray)p)")
  else None.

(** A field of the object [p]. *)
Definition J_field_value (name : Name) (field_name : list Z) : option (list Z) :=
  if one_of name ["Bool"%string] then Some (code "(env->GetBooleanField(p, " ++ field_name ++ code "fieldID) != 0)")
  else if one_of name ["Int32"%string] then Some (code "env->GetIntField(p, " ++ field_name ++ code "fieldID)")
  else if one_of name ["Int53"; "Int64"]%string then Some (code "env->GetLongField(p, " ++ field_name ++ code "fieldID)")
  else if one_of name ["Double"%string] then Some (code "env->GetDoubleField(p, " ++ field_name ++ code "fieldID)")
  else if one_of name ["String"%string] then Some (code "jni::fetch_string(env, p, " ++ field_name ++ code "fieldID)")
  else if one_of name ["Bytes"%string] then Some (code "jni::from_bytes(env, (jbyteArray)jni::fetch_object(env, p, " ++ field_name ++ code "fieldID))")
  else None.

Definition J_gen_type_fetch (field_name : Name) (tree_type : tl_tree) (_ : list var_description) (parser_type : Z) : Text :=
  fun h =>
    match tree_type with
    | tl_tree_type flags i children =>
        do? t := type_of h i in
        let name := t_name t in
        do? _ := check (negb (has_flag (t_flags t) FLAG_DEFAULT_CONSTRUCTOR)) in
        do? _ := check (parser_type =? 1) in
        do? bare := J_is_type_bare h i in
        do? _ := check (negb (has_flag flags FLAG_BARE) || bare) in
        let res_begin := if bool_decide (field_name = []) then [] else field_name ++ code " = " in
        do? _ := check (negb (one_of name ["#"%string])) in
        match (if bool_decide (field_name = []) then J_value name else None) with
        | Some value => Ret value
        | None =>
            match J_field_value name field_name with
            | Some value => Ret (res_begin ++ value)
            | None =>
                if one_of name ["Vector"%string] then
                  match children with
                  | child :: _ => do? res := J_gen_vector_fetch field_name child h in Ret (res_begin ++ res)
                  | [] => Fault OutOfBounds
                  end
                else
                  do? class_name := main_class_name i h in
                  if bool_decide (field_name = []) then Ret (class_name ++ code "::fetch(env, p)")
                  else Ret (res_begin ++ code "jni::fetch_tl_object<" ++ class_name ++ code ">(env, jni::fetch_object(env, p, " ++
                            field_name ++ code "fieldID))")
            end
        end
    | _ => Fault BadPointer
    end.

(** A field that is a function: all the assertions, the last of which fails. *)
Definition J_function_field (a : arg) (var_num : Z) (vars : list var_description) : result (list Z * list var_description) :=
  do? _ := check (arg_flags a =? FLAG_EXCL) in
  do? _ := check (a_var_num a =? -1) in
  do? _ := check (var_num >=? 0) in
  do? v := var_at vars var_num in
  do? _ := check (is_type v) in
  do? _ := check (negb (is_stored v)) in
  Fault AssertFailed.

Definition J_gen_field_fetch (field_num : Z) (a : arg) (_ : bool) (parser_type : Z) : TextVars :=
  fun vars h =>
    do? _ := check (parser_type >=? 0) in
    do? name := TD_gen_field_name (a_name a) h in
    let field_name := (if parser_type =? 0 then if field_num =? 0 then code ": " else code ", " else code "res->") ++ name in
    do? _ := check (a_exist_var_num a =? -1) in
    match a_type a with
    | tl_tree_var_type _ var_num => do? _ := check (parser_type =? 1) in J_function_field a var_num vars
    | _ =>
        do? _ := check (negb (has_flag (arg_flags a) FLAG_EXCL)) in
        do? _ := check (negb (has_flag (arg_flags a) FLAG_OPT_VAR)) in
        do? _ := check (a_var_num a =? -1) in
        do? _ := check (node_type (a_type a) =? NODE_TYPE_TYPE) in
        do? _ := check (negb (parser_type =? 0)) in
        do? fetch := J_gen_type_fetch field_name (a_type a) vars parser_type h in
        Ret (code "  " ++ fetch ++ code ";|", vars)
    end.

Section JniSource.
Context (TD_ENABLE_JNI : bool) (tl_name string_type bytes_type : Name) (ext_include : list Name).

Definition J_get_pretty_field_name (field_name : list Z) : list Z := J_gen_java_field_name (C_get_pretty_field_name field_name).

Definition J_get_pretty_class_name (class_name : list Z) : list Z :=
  if one_of class_name ["vector"%string] then str "Array" else J_gen_basic_java_class_name class_name.

(** [gen_vector_store] for objects of Java. *)
Definition J_store_vector (field_name : list Z) (t : tl_tree) : Text :=
  fun h =>
    do? vector_type := TD_gen_type_name t h in
    do? _ := check (negb (one_of vector_type ["bool"%string])) in
    if one_of vector_type ["int32"; "int53"; "int64"; "double"; "string"]%string || starts_with (str "array") vector_type ||
       starts_with (str "object_ptr") vector_type
    then Ret (code "{ auto arr_tmp_ = jni::store_vector(env, " ++ field_name ++
              code "); if (arr_tmp_) { env->SetObjectField(s, " ++ field_name ++
              code "fieldID, arr_tmp_); env->DeleteLocalRef(arr_tmp_); } }")
    else Fault AssertFailed.

(** The types that [gen_type_store] writes with a method of their own. *)
Definition J_store_value (name : Name) (field_name : list Z) : result (list Z) :=
  if one_of name ["Bool"%string] then Ret (code "env->SetBooleanField(s, " ++ field_name ++ code "fieldID, " ++ field_name ++ code ");")
  else if one_of name ["Int32"%string] then Ret (code "env->SetIntField(s, " ++ field_name ++ code "fieldID, " ++ field_name ++ code ");")
  else if one_of name ["Int53"; "Int64"]%string then Ret (code "env->SetLongField(s, " ++ field_name ++ code "fieldID, " ++ field_name ++ code ");")
  else if one_of name ["Double"%string] then Ret (code "env->SetDoubleField(s, " ++ field_name ++ code "fieldID, " ++ field_name ++ code ");")
  else if one_of name ["String"%string] then
    Ret (code "{ jstring nextString = jni::to_jstring(env, " ++ field_name ++ code "); if (nextString) { env->SetObjectField(s, " ++
         field_name ++ code "fieldID, nextString); env->DeleteLocalRef(nextString); } }")
  else Fault AssertFailed.

(** [gen_type_store], with [gen_vector_store] in it, its own and that of [TD_TL_writer_cpp]. *)
Fixpoint J_gen_type_store (field_name : list Z) (tree_type : tl_tree) (storer_type : Z) : Text :=
  fun h =>
    match tree_type with
    | tl_tree_type flags i children =>
        do? t := type_of h i in
        let name := t_name t in
        do? _ := check (negb (bool_decide (field_name = []))) in
        do? _ := check (negb (has_flag (t_flags t) FLAG_DEFAULT_CONSTRUCTOR)) in
        do? bare := J_is_type_bare h i in
        do? _ := check (negb (has_flag flags FLAG_BARE) || bare) in
        let pretty := J_get_pretty_field_name field_name in
        if one_of name ["Int32"; "Int53"; "Int64"; "Double"; "Bool"; "String"]%string then
          if storer_type =? 1 then Ret (code "s.store_field('" ++ pretty ++ code "', " ++ field_name ++ code ");")
          else J_store_value name field_name
        else if one_of name ["Bytes"%string] then
          if storer_type =? 1 then Ret (code "s.store_bytes_field('" ++ pretty ++ code "', " ++ field_name ++ code ");")
          else Ret (code "{ jbyteArray nextBytes = jni::to_bytes(env, " ++ field_name ++
                    code "); if (nextBytes) { env->SetObjectField(s, " ++ field_name ++
                    code "fieldID, nextBytes); env->DeleteLocalRef(nextBytes); } }")
        else if one_of name ["Vector"%string] then
          match children with
          | child :: _ =>
              if storer_type =? 1 then
                let num := match field_name with c :: _ => if c =? chr "_" then str "2" else [] | [] => [] end in
                do? s := J_gen_type_store (str "_value" ++ num) child storer_type h in
                Ret (code "{ s.store_vector_begin('" ++ pretty ++ code "', " ++ field_name ++
                     code ".size()); for (const auto &_value" ++ num ++ code " : " ++ field_name ++ code ") { " ++ s ++
                     code " } s.store_class_end(); }")
              else J_store_vector field_name child h
          | [] => Fault OutOfBounds
          end
        else
          do? _ := check (bool_decide (children = [])) in
          Ret (if storer_type =? 1 then
                 code "s.store_object_field('" ++ pretty ++ code "', static_cast<const BaseObject *>(" ++ field_name ++ code ".get()));"
               else
                 code "if (" ++ field_name ++ code " != nullptr) { jobject next; " ++ field_name ++
                 code "->store(env, next); if (next) { env->SetObjectField(s, " ++ field_name ++
                 code "fieldID, next); env->DeleteLocalRef(next); } }")
    | _ => Fault BadPointer
    end.

Definition J_gen_field_store (a : arg) (_ : bool) (storer_type : Z) : TextVars :=
  fun vars h =>
    do? field_name := TD_gen_field_name (a_name a) h in
    let shift := if storer_type =? 1 then code "    " else code "  " in
    do? _ := check (a_exist_var_num a =? -1) in
    match a_type a with
    | tl_tree_var_type _ var_num => J_function_field a var_num vars
    | _ =>
        do? _ := check (negb (has_flag (arg_flags a) FLAG_EXCL)) in
        do? _ := check (negb (has_flag (arg_flags a) FLAG_OPT_VAR)) in
        do? _ := check (a_var_num a =? -1) in
        do? _ := check (node_type (a_type a) =? NODE_TYPE_TYPE) in
        do? store := J_gen_type_store field_name (a_type a) storer_type h in
        Ret (shift ++ store ++ code "|", vars)
    end.

Definition J_gen_fetch_function_begin (parser_name class_name parent_class_name : Name) (arity _ parser_type : Z) : TextVars :=
  fun vars _ =>
    do? _ := check (forallb (fun v => negb (is_stored v)) vars) in
    let fetched_type := code "object_ptr<" ++ class_name ++ code "> " in
    let returned_type := code "object_ptr<" ++ parent_class_name ++ code "> " in
    do? _ := check (arity =? 0) in
    do? _ := check (negb (parser_type =? 0)) in
    Ret (code "|" ++ returned_type ++ class_name ++ code "::fetch(" ++ parser_name ++ code " &p) {|" ++
         (if parser_type =? -1 then []
          else code "  if (p == nullptr) return nullptr;|  " ++ fetched_type ++ code "res = make_object<" ++ class_name ++ code ">();|"), vars).

Definition J_gen_fetch_function_end (has_parent : bool) (_ : Z) (vars : list var_description) (parser_type : Z) : Text :=
  fun _ =>
    do? _ := check (forallb is_stored vars) in
    do? _ := check (negb (parser_type =? 0)) in
    if parser_type =? -1 then Ret (code "}|")
    else Ret (code "  return " ++ (if has_parent then code "std::move(res)" else code "res") ++ code ";|}|").

Definition J_gen_fetch_function_result_begin (parser_name class_name : Name) (_ : tl_tree) : Text :=
  plain_text (code "|" ++ class_name ++ code "::ReturnType " ++ class_name ++ code "::fetch_result(" ++ parser_name ++
              code " &p) {|  if (p == nullptr) return ReturnType();|  return ").

Definition J_gen_store_function_begin (storer_name class_name : Name) (arity storer_type : Z) : TextVars :=
  fun vars _ =>
    let vars := map (set_stored false) vars in
    if storer_type =? -1 then Ret ([], vars)
    else
      do? _ := check (arity =? 0) in
      Ret (code "|void " ++ class_name ++ code "::store(" ++ storer_name ++ code " &s" ++
           (if storer_type <=? 0 then [] else code ", const char *field_name") ++ code ") const {|" ++
           (if storer_type <=? 0 then code "  s = env->AllocObject(Class);|  if (!s) { return; }|"
            else code "  if (!LOG_IS_STRIPPED(ERROR)) {|    s.store_class_begin(field_name, '" ++
                 J_get_pretty_class_name class_name ++ code "');|"), vars).

Definition J_gen_fetch_switch_case (t : tl_combinator) (arity : Z) : Text :=
  fun h =>
    do? _ := check (arity =? 0) in
    do? class_name := TD_gen_class_name (k_name t) h in
    Ret (code "    case " ++ class_name ++ code "::ID:|      return " ++ class_name ++ code "::fetch(env, p);|").

(** The loop over the fields in [gen_additional_function]. *)
Fixpoint J_field_ids (args : list arg) (h : heap) : result (list Z) :=
  match args with
  | [] => Ret []
  | a :: args =>
      do? _ := check (node_type (a_type a) =? NODE_TYPE_TYPE) in
      do? field_name := TD_gen_field_name (a_name a) h in
      do? _ := check (negb (bool_decide (field_name = []))) in
      let java_field_name := J_gen_java_field_name (removelast field_name) in
      do? type_signature := J_gen_type_signature (a_type a) h in
      do? type_signature := quote_signature type_signature in
      do? rest := J_field_ids args h in
      Ret (code "  " ++ field_name ++ code "fieldID = jni::get_field_id(env, Class, '" ++ java_field_name ++ code "', " ++
           type_signature ++ code ");|" ++ rest)
  end.

Definition J_gen_additional_function (function_name : Name) (t : tl_combinator) (_ : bool) : Text :=
  fun h =>
    do? _ := check (is_init_jni_vars function_name) in
    do? class_name := TD_gen_class_name (k_name t) h in
    do? fields := J_field_ids (k_args t) h in
    Ret (code "|void " ++ class_name ++ code "::" ++ function_name ++
         code "(JNIEnv *env, const char *package_name) {|  Class = jni::get_jclass(env, " ++ J_gen_java_class_name class_name ++ code ");|" ++
         fields ++ code "}|").

Definition J_gen_additional_proxy_function_begin (function_name : Name) (_ : option nat) (class_name : Name) (arity : Z) (_ : bool) : Text :=
  fun _ =>
    do? _ := check (is_init_jni_vars function_name) in
    do? _ := check (arity =? 0) in
    Ret (code "|void " ++ class_name ++ code "::" ++ function_name ++
         code "(JNIEnv *env, const char *package_name) {|  Class = jni::get_jclass(env, " ++ J_gen_java_class_name class_name ++ code ");|").

Definition J_gen_additional_proxy_function_case_class (function_name : Name) (_ : option nat) (class_name : Name) (arity : Z) : Text :=
  fun _ =>
    do? _ := check (is_init_jni_vars function_name) in
    do? _ := check (arity =? 0) in
    Ret (code "  " ++ class_name ++ code "::" ++ function_name ++ code "(env, package_name);|").

Definition J_gen_additional_proxy_function_case (function_name : Name) (type : option nat) (t : tl_combinator) (arity : Z) (_ : bool) : Text :=
  fun h =>
    do? _ := check (is_init_jni_vars function_name) in
    do? _ := check (arity =? 0) in
    do? class_name := TD_gen_class_name (k_name t) h in
    Ret (code "  " ++ class_name ++ code "::" ++ function_name ++ code "(env, package_name);|").

Definition J_gen_additional_proxy_function_end (function_name : Name) (_ : option nat) (_ : bool) : Text :=
  fun _ => do? _ := check (is_init_jni_vars function_name) in Ret (code "}|").

(** The class, with what it inherits. *)
Definition TD_TL_writer_jni_cpp : TL_writer := {|
  get_max_arity := TD_get_max_arity;
  is_built_in_simple_type := J_is_built_in_simple_type;
  is_built_in_complex_type := J_is_built_in_complex_type;
  is_combinator_supported := TD_is_combinator_supported;
  is_documentation_generated := TL_writer_is_documentation_generated;
  is_default_constructor_generated := TD_is_default_constructor_generated tl_name;
  is_full_constructor_generated := TD_is_full_constructor_generated tl_name;
  get_parser_type := J_get_parser_type;
  get_storer_type := TD_get_storer_type;
  get_additional_function_type := fun _ => Ret 1;
  get_parser_mode := TD_get_parser_mode TD_ENABLE_JNI tl_name;
  get_storer_mode := TD_get_storer_mode tl_name;
  get_parsers := J_get_parsers;
  get_storers := J_get_storers;
  get_additional_functions := [str "init_jni_vars"];
  gen_base_tl_class_name := J_gen_base_tl_class_name;
  gen_base_type_class_name := J_gen_base_type_class_name;
  gen_base_function_class_name := TD_gen_base_function_class_name;
  gen_class_name := TD_gen_class_name;
  gen_field_name := TD_gen_field_name;
  gen_field_type := TD_gen_field_type;
  gen_output_begin := C_gen_output_begin tl_name ext_include;
  gen_output_end := H_gen_output_end tl_name;
  gen_forward_class_declaration := fun _ _ => plain_text [];
  gen_class_begin := fun class_name _ _ => plain_text (code "|jclass " ++ class_name ++ code "::Class;|");
  gen_class_end := plain_text [];
  gen_class_alias := fun _ _ => plain_text [];
  gen_field_definition := fun class_name _ field_name => plain_text (code "jfieldID " ++ class_name ++ code "::" ++ field_name ++ code "fieldID;|");
  gen_flags_definitions := fun _ _ => plain_text [];
  gen_vars := C_gen_vars;
  gen_function_vars := C_gen_function_vars;
  gen_uni := C_gen_uni;
  gen_constructor_id_store := fun _ _ => plain_text [];
  gen_field_fetch := J_gen_field_fetch;
  gen_field_store := J_gen_field_store;
  gen_type_fetch := J_gen_type_fetch;
  gen_var_type_fetch := fun _ _ => Fault AssertFailed;
  gen_get_id := C_gen_get_id;
  gen_function_result_type := fun _ => plain_text [];
  gen_fetch_function_begin := J_gen_fetch_function_begin;
  gen_fetch_function_end := J_gen_fetch_function_end;
  gen_fetch_function_result_begin := J_gen_fetch_function_result_begin;
  gen_fetch_function_result_end := plain_text (code ";|}|");
  gen_fetch_function_result_any_begin := fun _ _ _ => plain_text [];
  gen_fetch_function_result_any_end := fun _ => plain_text [];
  gen_store_function_begin := J_gen_store_function_begin;
  gen_store_function_end := C_gen_store_function_end;
  gen_fetch_switch_begin := plain_text (code "  if (p == nullptr) { return nullptr; }|  switch (env->CallIntMethod(p, jni::GetConstructorID)) {|");
  gen_fetch_switch_case := J_gen_fetch_switch_case;
  gen_fetch_switch_end := plain_text (code "    default:|      LOG(WARNING) << 'Unknown constructor found';|      return nullptr;|  }|");
  gen_constructor_begin := C_gen_constructor_begin;
  gen_constructor_parameter := TD_gen_constructor_parameter string_type bytes_type;
  gen_constructor_field_init := C_gen_constructor_field_init;
  gen_constructor_end := C_gen_constructor_end;
  gen_additional_function := J_gen_additional_function;
  gen_additional_proxy_function_begin := J_gen_additional_proxy_function_begin;
  gen_additional_proxy_function_case_class := J_gen_additional_proxy_function_case_class;
  gen_additional_proxy_function_case := J_gen_additional_proxy_function_case;
  gen_additional_proxy_function_end := J_gen_additional_proxy_function_end
|}.
End JniSource.
