(* ===== verification/Sample.v ===== *)
(** * A small configuration

    The configuration that the examples of the generator run on: the built-in
    types, a type with two constructors, of which one has a field that depends on
    a bit of its flags, a generic type, a type that needs it, and a function. *)
From Stdlib Require Import ZArith Lia List Bool Ascii String.
From stdpp Require Import base list strings gmap.
From S2P Require Import Prelude Reader Writers Generate HeaderWriter.
Open Scope tl_scope.

Definition of_type (i : nat) : tl_tree := tl_tree_type FLAG_NOVAR i [].

Definition field (name : string) (x : tl_tree) : arg := mk_arg (str name) FLAG_NOVAR (-1) (-1) (-1) x.

Definition type_arg : arg := mk_arg (str "t") (Z.lor FLAG_OPT_VAR FLAG_NOVAR) 0 (-1) (-1) (of_type 1).

Definition sample_type (id : Z) (name : string) (arity : Z) (ks : list tl_combinator) : tl_type :=
  mk_type id (str name) arity 0 (Z.of_nat (List.length ks)) ks.

Definition sample_types : list tl_type := [
  sample_type ID_VAR_NUM "#" 0 [];
  sample_type ID_VAR_TYPE "Type" 0 [];
  sample_type 3 "Int32" 0 [mk_combinator 30 (str "int32") 0 3 [] (of_type 2)];
  sample_type 4 "Vector" 1 [
    (* vector {t:Type} n:# items:n*[item:t] = Vector t *)
    mk_combinator 40 (str "vector") 2 4
      [type_arg; mk_arg (str "n") 0 1 (-1) (-1) (of_type 0);
       field "items" (tl_tree_array 0 (tl_tree_var_num 0 1 0) [field "item" (tl_tree_var_type 0 0)])]
      (tl_tree_type 0 3 [tl_tree_var_type 0 0])];
  sample_type 5 "User" 0 [
    (* user flags:# id:flags.2?Int32 friends:Vector<Int32> = User *)
    mk_combinator 50 (str "user") 1 5
      [mk_arg (str "flags") 0 0 (-1) (-1) (of_type 0); mk_arg (str "id") FLAG_NOVAR (-1) 0 2 (of_type 2);
       field "friends" (tl_tree_type 0 3 [of_type 2])] (of_type 4);
    mk_combinator 51 (str "userEmpty") 0 5 [] (of_type 4)];
  (* box {t:Type} = Box t; boxed box:Box<User> = Boxed *)
  sample_type 6 "Box" 1 [mk_combinator 60 (str "box") 1 6 [type_arg] (tl_tree_type 0 5 [tl_tree_var_type 0 0])];
  sample_type 7 "Boxed" 0 [mk_combinator 70 (str "boxed") 0 7 [field "box" (tl_tree_type 0 5 [of_type 4])] (of_type 6)]
].

(** [getUser id:Int32 = User] *)
Definition sample_functions : list tl_combinator :=
  [mk_combinator 80 (str "getUser") 0 0 [field "id" (of_type 2)] (of_type 4)].

Definition sample_state : gstate := mk_g sample_types (replicate 7 0) [].

Definition sample_writer : TL_writer :=
  TD_TL_writer_h false (str "telegram_api") (str "std::string") (str "BufferSlice") [code "'td/utils/buffer.h'"].

(** The state after the checks of [write_tl]. *)
Definition sample_checked : gstate :=
  match each (check_type sample_writer) (seq 0 7) sample_state with Ret (_, s) => s | _ => sample_state end.

(** What the analysis finds, and the state it leaves. *)
Definition sample_found : names * names :=
  match analyse sample_writer sample_functions sample_state with Ret (found, _) => found | _ => (∅, ∅) end.

Definition sample_analysed : gstate :=
  match analyse sample_writer sample_functions sample_state with Ret (_, s) => s | _ => sample_state end.
