(* ===== verification/Analysis.v ===== *)
(** * Correctness of the generator

    What [write_tl] does to the configuration behind its [const] reference, which
    types it finds complex, and which names it finds reachable, for every writer. *)
From Stdlib Require Import ZArith Lia List Bool Ascii String.
From stdpp Require Import base list strings gmap relations.
From S2P Require Import Prelude Reader Writers Generate HeaderWriter Sample.
Open Scope tl_scope.

(** ** Calls that only write text *)

Definition quiet {A} (m : G A) : Prop :=
  forall s x s', m s = Ret (x, s') -> g_types s' = g_types s /\ g_simple s' = g_simple s.

Lemma quiet_ret {A} (a : A) : quiet (ret a).
Proof. by intros s x s' [= _ <-]. Qed.

Lemma quiet_fail {A} f : quiet (fail f : G A).
Proof. by intros s x s' E. Qed.

Lemma quiet_bind {A B} (m : G A) (k : A -> G B) : quiet m -> (forall a, quiet (k a)) -> quiet (bind m k).
Proof.
  intros Hm Hk s b s' (a & s1 & E1 & E2)%bind_Ret. destruct (Hm s a s1 E1) as [? ?], (Hk a s1 b s' E2) as [? ?].
  split; congruence.
Qed.

Lemma quiet_assert b : quiet (assert b).
Proof. destruct b; [apply quiet_ret|apply quiet_fail]. Qed.

Lemma quiet_get : quiet get.
Proof. by intros s x s' [= _ <-]. Qed.

Lemma quiet_type_at i : quiet (type_at i).
Proof. intros s x s'. unfold type_at. destruct (g_types s !! i); [by intros [= _ <-]|done]. Qed.

Lemma quiet_simple_at i : quiet (simple_at i).
Proof. intros s x s'. unfold simple_at. destruct (g_simple s !! i); [by intros [= _ <-]|done]. Qed.

Lemma quiet_append text : quiet (append text).
Proof. by intros s x s' [= _ <-]. Qed.

Lemma quiet_call m : quiet (call m).
Proof. intros s x s'. unfold call. destruct (m (to_heap s)); cbn; [by intros [= _ <-]|done..]. Qed.

Lemma quiet_call_vars m vars : quiet (call_vars m vars).
Proof. intros s x s'. unfold call_vars. destruct (m vars (to_heap s)); cbn; [by intros [= _ <-]|done..]. Qed.

Lemma quiet_supported w k : quiet (supported w k).
Proof. intros s x s'. unfold supported. destruct (is_combinator_supported w (g_types s) k); cbn; [by intros [= _ <-]|done..]. Qed.

Lemma quiet_additional_function_type w f : quiet (additional_function_type w f).
Proof. intros s x s'. unfold additional_function_type. destruct (get_additional_function_type w f); cbn; [by intros [= _ <-]|done..]. Qed.

Lemma quiet_each {A} (act : A -> G unit) l : (forall x, quiet (act x)) -> quiet (each act l).
Proof. intros Ha. induction l as [|x l IH]; [apply quiet_ret|]. by apply quiet_bind. Qed.

Create HintDb quiet.
#[export] Hint Resolve quiet_ret quiet_fail quiet_assert quiet_get quiet_type_at quiet_simple_at quiet_append quiet_call
  quiet_call_vars quiet_supported quiet_additional_function_type : quiet.

(** Through the binds, loops and conditions of a function. *)
Ltac quiet :=
  repeat first
    [ solve [auto with quiet]
    | apply quiet_bind; [|intros ?]
    | apply quiet_each; intros ?
    | match goal with |- quiet (if ?b then _ else _) => destruct b end
    | match goal with |- quiet (match ?x with _ => _ end) => destruct x end ].

Lemma quiet_emit m : quiet (emit m).
Proof. unfold emit. quiet. Qed.

Lemma quiet_emit_vars m vars : quiet (emit_vars m vars).
Proof. unfold emit_vars. quiet. Qed.

Lemma quiet_constructors_of t : quiet (constructors_of t).
Proof. unfold constructors_of. quiet. Qed.

Lemma quiet_new_vars n : quiet (new_vars n).
Proof. unfold new_vars. quiet. Qed.

#[export] Hint Resolve quiet_emit quiet_emit_vars quiet_constructors_of quiet_new_vars : quiet.

Section Quiet.
Context (w : TL_writer).

Ltac loop l := induction l as [|? l IH]; intros; cbn; quiet.

Lemma quiet_count_parameters c d l n : quiet (count_parameters w c d l n).
Proof. revert n. loop l. Qed.

Lemma quiet_append_fields gen l n : quiet (append_fields gen l n).
Proof. revert n. loop l. Qed.

Lemma quiet_fetch_fields f p l n vars : quiet (fetch_fields w f p l n vars).
Proof. revert n vars. loop l. Qed.

Lemma quiet_store_fields f p l vars : quiet (store_fields w f p l vars).
Proof. revert vars. loop l. Qed.

Lemma quiet_field_definitions v c l n : quiet (field_definitions w v c l n).
Proof. revert n. loop l. Qed.

Hint Resolve quiet_count_parameters quiet_append_fields quiet_fetch_fields quiet_store_fields quiet_field_definitions : quiet.

Lemma quiet_write_class_constructor t c d : quiet (write_class_constructor w t c d).
Proof. unfold write_class_constructor. quiet. Qed.

Lemma quiet_write_function_store n t c r q vars : quiet (write_function_store w n t c r q vars).
Proof. unfold write_function_store. quiet. Qed.

Hint Resolve quiet_write_class_constructor quiet_write_function_store : quiet.

Lemma quiet_function_stores t c r q l vars : quiet (function_stores w t c r q l vars).
Proof. revert vars. loop l. Qed.

Hint Resolve quiet_function_stores : quiet.

Lemma quiet_write_function t r q : quiet (write_function w t r q).
Proof. unfold write_function, gen_field_definitions, write_function_fetch, write_function_result_fetch. quiet. Qed.

Lemma quiet_write_constructor t b p x r q : quiet (write_constructor w t b p x r q).
Proof. unfold write_constructor, gen_field_definitions, write_constructor_fetch, write_constructor_store. quiet. Qed.

Hint Resolve quiet_write_function quiet_write_constructor : quiet.

Lemma quiet_proxy_fetches t c r q l vars : quiet (proxy_fetches w t c r q l vars).
Proof. revert vars. loop l. Qed.

Lemma quiet_proxy_stores t c r q l vars : quiet (proxy_stores w t c r q l vars).
Proof. revert vars. loop l. Qed.

Lemma quiet_write_constructors o c b r q l n : quiet (write_constructors w o c b r q l n).
Proof. revert n. loop l. Qed.

Hint Resolve quiet_proxy_fetches quiet_proxy_stores quiet_write_constructors : quiet.

Lemma quiet_write_class i r q : quiet (write_class w i r q).
Proof. unfold write_class, write_proxy_class. quiet. Qed.

Lemma quiet_count_cases r q l n : quiet (count_cases w r q l n).
Proof. revert n. loop l. Qed.

Hint Resolve quiet_write_class quiet_count_cases : quiet.

Lemma quiet_case_count a r q l n : quiet (case_count w a r q l n).
Proof. revert n. loop l. Qed.

Hint Resolve quiet_case_count : quiet.

Lemma quiet_base_fetches n r q a l vars : quiet (base_fetches w n r q a l vars).
Proof. revert vars. loop l. Qed.

Lemma quiet_base_stores c a l vars : quiet (base_stores w c a l vars).
Proof. revert vars. loop l. Qed.

Lemma quiet_function_fetches fs l vars : quiet (function_fetches w fs l vars).
Proof. revert vars. loop l. Qed.

Hint Resolve quiet_base_fetches quiet_base_stores quiet_function_fetches : quiet.

Lemma quiet_write_base_classes n r q l vars : quiet (write_base_classes w n r q l vars).
Proof. revert vars. induction l as [|a l IH]; intros; cbn; unfold write_base_class, base_additional; quiet. Qed.

Lemma quiet_write_base_function fs vars : quiet (write_base_function w fs vars).
Proof. unfold write_base_function. quiet. Qed.

Hint Resolve quiet_write_base_classes quiet_write_base_function : quiet.

Lemma quiet_write_output n fs r q : quiet (write_output w n fs r q).
Proof. unfold write_output, write_forward. quiet. Qed.
End Quiet.

(** ** Complex flags *)

Definition is_complex (t : tl_type) : bool := has_flag (t_flags t) FLAG_COMPLEX.
Definition flagged (t : tl_type) : tl_type := set_flags (Z.lor (t_flags t) FLAG_COMPLEX) t.
Definition cleared (t : tl_type) : tl_type :=
  if is_complex t then set_flags (Z.land (t_flags t) (Z.lnot FLAG_COMPLEX)) t else t.

(** Some types of [ts] become complex in [ts']. *)
Definition raised (ts ts' : list tl_type) : Prop := Forall2 (fun t t' => t' = t \/ t' = flagged t) ts ts'.

Lemma flag_bit f : has_flag f FLAG_COMPLEX = Z.testbit f 1.
Proof.
  unfold has_flag. change FLAG_COMPLEX with (2 ^ 1). destruct (Z.testbit f 1) eqn:E.
  - apply negb_true_iff, Z.eqb_neq. intros H0. assert (Z.testbit (Z.land f (2 ^ 1)) 1 = false) by by rewrite H0.
    rewrite Z.land_spec, E, Z.pow2_bits_true in H; done.
  - apply negb_false_iff, Z.eqb_eq. apply Z.bits_inj'. intros n Hn. rewrite Z.land_spec, Z.bits_0.
    destruct (decide (n = 1)) as [->|Hne]; [by rewrite E|]. rewrite Z.pow2_bits_false by done. apply andb_false_r.
Qed.

Lemma is_complex_flagged t : is_complex (flagged t) = true.
Proof. unfold is_complex, flagged. rewrite flag_bit. cbn [t_flags set_flags]. rewrite Z.lor_spec. apply orb_true_r. Qed.

Lemma flagged_flagged t : flagged (flagged t) = flagged t.
Proof. unfold flagged, set_flags. cbn. by rewrite <- Z.lor_assoc, Z.lor_diag. Qed.

Lemma cleared_cleared t : cleared (cleared t) = cleared t.
Proof.
  unfold cleared at 2 3. destruct (is_complex t) eqn:E; [|unfold cleared; by rewrite E].
  unfold cleared, is_complex. cbn [t_flags set_flags]. rewrite flag_bit, Z.land_spec. change (Z.testbit (Z.lnot FLAG_COMPLEX) 1) with false.
  by rewrite andb_false_r.
Qed.

(** What [write_tl] sets and clears is the flag itself. *)
Lemma cleared_flagged t : is_complex t = false -> cleared (flagged t) = t.
Proof.
  intros E. unfold cleared. rewrite is_complex_flagged. unfold flagged, set_flags. cbn. destruct t as [id name arity f n ks]. cbn in *.
  f_equal. unfold is_complex in E. cbn in E. rewrite flag_bit in E. apply Z.bits_inj'. intros n' Hn.
  rewrite Z.land_spec, Z.lor_spec, Z.lnot_spec by done. change FLAG_COMPLEX with (2 ^ 1).
  destruct (decide (n' = 1)) as [->|Hne]; [by rewrite E|]. rewrite Z.pow2_bits_false by done. by rewrite orb_false_r, andb_true_r.
Qed.

Lemma cleared_id t : is_complex t = false -> cleared t = t.
Proof. intros E. unfold cleared. by rewrite E. Qed.

(** The flag is cleared whether it was raised now or before. *)
Lemma cleared_flagged_any t : cleared (flagged t) = cleared t.
Proof.
  destruct (is_complex t) eqn:E; [|by rewrite cleared_flagged, cleared_id].
  f_equal. unfold flagged, set_flags. destruct t as [id name arity f n ks]. cbn in *. f_equal.
  unfold is_complex in E. cbn in E. rewrite flag_bit in E. apply Z.bits_inj'. intros n' Hn.
  rewrite Z.lor_spec. change FLAG_COMPLEX with (2 ^ 1). destruct (decide (n' = 1)) as [->|Hne]; [by rewrite E|].
  by rewrite Z.pow2_bits_false, orb_false_r.
Qed.

Lemma raised_refl ts : raised ts ts.
Proof. apply Forall2_same_length_lookup_2; [done|]. intros i t t' H1 H2. left. congruence. Qed.

Lemma raised_trans a b c : raised a b -> raised b c -> raised a c.
Proof.
  intros H1. revert c. induction H1 as [|x y a b Hxy H1 IH]; intros c H2; inversion H2 as [|? z ? c' Hyz H2']; subst; constructor.
  - destruct Hxy as [->| ->], Hyz as [->| ->]; rewrite ?flagged_flagged; auto.
  - by apply IH.
Qed.

(** Calls that raise flags. *)
Definition raises {A} (m : G A) : Prop :=
  forall s x s', m s = Ret (x, s') -> raised (g_types s) (g_types s') /\ List.length (g_simple s') = List.length (g_simple s).

Lemma raises_quiet {A} (m : G A) : quiet m -> raises m.
Proof. intros Hm s x s' E. destruct (Hm s x s' E) as [-> ->]. split; [apply raised_refl|done]. Qed.

Lemma raises_bind {A B} (m : G A) (k : A -> G B) : raises m -> (forall a, raises (k a)) -> raises (bind m k).
Proof.
  intros Hm Hk s b s' (a & s1 & E1 & E2)%bind_Ret. destruct (Hm s a s1 E1) as [? ?], (Hk a s1 b s' E2) as [? ?].
  split; [by eapply raised_trans|congruence].
Qed.

Lemma raises_each {A} (act : A -> G unit) l : (forall x, raises (act x)) -> raises (each act l).
Proof. intros Ha. induction l as [|x l IH]; [apply raises_quiet, quiet_ret|]. by apply raises_bind. Qed.

Lemma raises_update i : raises (update_flags i (fun f => Z.lor f FLAG_COMPLEX)).
Proof.
  intros s x s'. unfold update_flags. destruct (g_types s !! i) as [t|] eqn:E; [|done]. intros [= _ <-]. cbn. split; [|done].
  apply Forall2_same_length_lookup_2; [by rewrite length_insert|]. intros j t1 t2 H1 H2. destruct (decide (i = j)) as [<-|Hne].
  - rewrite list_lookup_insert_eq in H2 by (by eapply lookup_lt_Some). right. unfold flagged. congruence.
  - rewrite list_lookup_insert_ne in H2 by done. left. congruence.
Qed.

Lemma raises_set_simple i n : raises (set_simple i n).
Proof. intros s x s' [= _ <-]. cbn. split; [apply raised_refl|apply length_insert]. Qed.

#[export] Hint Resolve raises_update raises_set_simple : quiet.

Ltac raises :=
  repeat first
    [ solve [auto with quiet]
    | solve [apply raises_quiet; quiet]
    | apply raises_bind; [|intros ?]
    | apply raises_each; intros ?
    | match goal with |- raises (if ?b then _ else _) => destruct b end
    | match goal with |- raises (match ?x with _ => _ end) => destruct x end ].

Section Flags.
Context (w : TL_writer).

Lemma raises_check_type i : raises (check_type w i).
Proof. unfold check_type, check_constructor, check_arg, check_item, check_parameter, result_child, set_complex. raises. Qed.

Lemma quiet_count_supported l n : quiet (count_supported w l n).
Proof. revert n. induction l as [|k l IH]; intros; cbn; quiet. Qed.

Hint Resolve quiet_count_supported : quiet.

Lemma raises_complex_step i b : raises (complex_step w i b).
Proof. unfold complex_step. raises. Qed.

Lemma raises_complex_round l b : raises (complex_round w l b).
Proof. revert b. induction l as [|i l IH]; intros b; cbn; [raises|]. apply raises_bind; [apply raises_complex_step|auto]. Qed.

Lemma raises_complex_loop n l : raises (complex_loop w n l).
Proof. induction n as [|n IH]; cbn; [by intros s x s' E|]. apply raises_bind; [apply raises_complex_round|].
  intros [|]; [done|]. apply raises_quiet, quiet_ret. Qed.

Lemma raises_analyse fs : raises (analyse w fs).
Proof.
  unfold analyse. apply raises_bind; [raises|intros s0]. apply raises_bind; [apply raises_each; apply raises_check_type|intros _].
  apply raises_bind; [apply raises_complex_loop|intros _]. apply raises_bind; [raises|intros s1].
  intros s x s'. destruct (reachable_types w (g_types s1) (dfs_fuel (g_types s1)) fs (∅, ∅)); cbn; [|done..].
  intros [= _ <-]. split; [apply raised_refl|done].
Qed.
End Flags.

Lemma clear_complex_lookup i s s' :
  clear_complex i s = Ret (tt, s') -> exists t, g_types s !! i = Some t /\ g_types s' = <[i := cleared t]> (g_types s).
Proof.
  unfold clear_complex, bind, type_at. destruct (g_types s !! i) as [t|] eqn:E; cbn; [|done]. intros H. exists t. split; [done|].
  unfold cleared. fold (is_complex t) in H. destruct (is_complex t).
  - unfold update_flags in H. rewrite E in H. injection H as <-. done.
  - injection H as <-. by rewrite list_insert_id.
Qed.

Lemma clear_complex_each l s s' :
  each clear_complex l s = Ret (tt, s') ->
  forall i, g_types s' !! i = if bool_decide (i ∈ l) then cleared <$> (g_types s !! i) else g_types s !! i.
Proof.
  revert s. induction l as [|j l IH]; intros s E i; cbn [each] in E.
  { injection E as <-. rewrite bool_decide_false; [done|apply not_elem_of_nil]. }
  apply bind_Ret in E as ([] & s1 & E1 & E2). apply clear_complex_lookup in E1 as (t & Ht & E1). rewrite (IH s1 E2 i), E1.
  destruct (decide (j = i)) as [->|Hne].
  - rewrite list_lookup_insert_eq, Ht by (by eapply lookup_lt_Some). rewrite (bool_decide_true (i ∈ i :: l)) by left.
    cbn. rewrite cleared_cleared. by case_bool_decide.
  - rewrite list_lookup_insert_ne by done.
    assert (H : bool_decide (i ∈ j :: l) = bool_decide (i ∈ l)); [|by rewrite H].
    apply bool_decide_ext. rewrite elem_of_cons. naive_solver.
Qed.

(** ** The search for complex types *)

(** What the search relies on: the writer decides every combinator in [ks], and a
    type that becomes complex never makes a combinator supported. *)
Class SupportLaws (w : TL_writer) (ts0 : list tl_type) (ks : list tl_combinator) : Prop := {
  support_total ts k : raised ts0 ts -> k ∈ ks -> exists b, is_combinator_supported w ts k = Ret b;
  support_mono ts ts' k : raised ts0 ts -> raised ts ts' -> k ∈ ks ->
    is_combinator_supported w ts' k = Ret true -> is_combinator_supported w ts k = Ret true
}.

Definition is_supported (w : TL_writer) (ts : list tl_type) (k : tl_combinator) : bool :=
  match is_combinator_supported w ts k with Ret b => b | _ => false end.

(** The types that the search looks at. *)
Definition candidate (w : TL_writer) (t : tl_type) : bool :=
  negb (t_constructors_num t =? 0) && negb (is_built_in_complex_type w (t_name t)).

Definition supported_count (w : TL_writer) (ts : list tl_type) (t : tl_type) : Z :=
  Z.of_nat (List.length (List.filter (is_supported w ts) (t_constructors t))).

(** Every type that is not complex has a constructor that the writer supports. *)
Definition settled (w : TL_writer) (ts : list tl_type) : Prop :=
  forall i t, ts !! i = Some t -> candidate w t = true -> is_complex t = false -> 0 < supported_count w ts t.

Section Search.
Context (w : TL_writer) (ts0 : list tl_type) (ks : list tl_combinator) {L : SupportLaws w ts0 ks}.
Hypothesis Hnum : forall t, t ∈ ts0 -> t_constructors_num t = Z.of_nat (List.length (t_constructors t)).
Hypothesis Hks : forall t k, t ∈ ts0 -> candidate w t = true -> is_complex t = false -> k ∈ t_constructors t -> k ∈ ks.

Lemma raised_type ts i t :
  raised ts0 ts -> ts !! i = Some t -> exists t0, t0 ∈ ts0 /\ (t = t0 \/ t = flagged t0).
Proof.
  intros HR Ht. destruct (Forall2_lookup_r _ _ _ _ _ HR Ht) as (t0 & H0 & Hc). exists t0. split; [by eapply list_elem_of_lookup_2|done].
Qed.

Lemma raised_num ts i t :
  raised ts0 ts -> ts !! i = Some t -> t_constructors_num t = Z.of_nat (List.length (t_constructors t)) /\
    (candidate w t = true -> is_complex t = false -> forall k, k ∈ t_constructors t -> k ∈ ks).
Proof.
  intros HR Ht. destruct (raised_type ts i t HR Ht) as (t0 & H0 & [->| ->]); (split; [exact (Hnum t0 H0)|intros Hc Hx k]).
  - exact (Hks t0 k H0 Hc Hx).
  - by rewrite is_complex_flagged in Hx.
Qed.

Lemma count_supported_run l n s :
  raised ts0 (g_types s) -> (forall k, k ∈ l -> k ∈ ks) ->
  count_supported w l n s = Ret (n + Z.of_nat (List.length (List.filter (is_supported w (g_types s)) l)), s).
Proof.
  intros HR. revert n. induction l as [|k l IH]; intros n Hl; cbn [count_supported]; [cbn; by rewrite Z.add_0_r|].
  unfold bind, supported. destruct (support_total (g_types s) k HR ltac:(apply Hl; left)) as [b Hb]. rewrite Hb. cbn [rbind].
  rewrite IH by (intros; apply Hl; by right). cbn [List.filter]. unfold is_supported at 2. rewrite Hb.
  destruct b; cbn [bool_int List.length]; do 2 f_equal; lia.
Qed.

(** One type. *)
Lemma complex_step_run i b s t :
  raised ts0 (g_types s) -> g_types s !! i = Some t ->
  complex_step w i b s =
    if negb (candidate w t) || is_complex t then Ret (b, s)
    else
      let n := supported_count w (g_types s) t in
      if n =? 0 then Ret (true, mk_g (<[i := flagged t]> (g_types s)) (<[i := n]> (g_simple s)) (g_out s))
      else Ret (b, mk_g (g_types s) (<[i := n]> (g_simple s)) (g_out s)).
Proof.
  intros HR Ht. unfold complex_step, bind at 1, type_at. rewrite Ht. cbn [rbind]. destruct (raised_num _ _ _ HR Ht) as [Hn Hk].
  unfold candidate in *.
  destruct (t_constructors_num t =? 0); [done|]. destruct (is_built_in_complex_type w (t_name t)); [done|]. cbn [orb negb andb] in *.
  fold (is_complex t). destruct (is_complex t); [done|]. specialize (Hk eq_refl eq_refl).
  unfold constructors_of. rewrite Hn, Z.leb_refl, Nat2Z.id, firstn_all. unfold bind at 1. cbn [ret rbind].
  unfold bind at 1. rewrite count_supported_run by done. cbn [rbind]. rewrite Z.add_0_l. fold (supported_count w (g_types s) t).
  unfold bind at 1, set_simple. cbn [rbind]. destruct (supported_count w (g_types s) t =? 0); [|done].
  unfold bind, update_flags. cbn. by rewrite Ht.
Qed.

Definition noncomplex (ts : list tl_type) : nat := List.length (List.filter (fun t => negb (is_complex t)) ts).

Lemma noncomplex_flag ts i t :
  ts !! i = Some t -> is_complex t = false -> noncomplex ts = S (noncomplex (<[i := flagged t]> ts)).
Proof.
  intros Ht Hc. unfold noncomplex. rewrite <- (take_drop_middle ts i t Ht) at 1.
  rewrite insert_take_drop by (by eapply lookup_lt_Some). rewrite !List.filter_app, !length_app. cbn. rewrite Hc, is_complex_flagged.
  cbn. lia.
Qed.

(** The invariant of a round that starts with the flags [ts0]. *)
Record searched (s s' : gstate) : Prop := {
  sd_raised : raised (g_types s) (g_types s');
  sd_simple : List.length (g_simple s') = List.length (g_simple s);
  sd_out : g_out s' = g_out s;
  sd_least ts : settled w ts -> raised ts0 ts -> raised (g_types s) ts -> raised (g_types s') ts
}.

Lemma searched_refl s : searched s s.
Proof. constructor; auto using raised_refl. Qed.

Lemma searched_trans s1 s2 s3 : searched s1 s2 -> searched s2 s3 -> searched s1 s3.
Proof.
  intros [A1 A2 A3 A4] [B1 B2 B3 B4]. constructor; [by eapply raised_trans|congruence|congruence|auto].
Qed.

(** Flagging a type without supported constructors stays below every settled choice of flags. *)
Lemma flag_least s i t ts :
  raised ts0 (g_types s) -> g_types s !! i = Some t -> candidate w t = true -> is_complex t = false ->
  supported_count w (g_types s) t = 0 -> settled w ts -> raised (g_types s) ts -> raised (<[i := flagged t]> (g_types s)) ts.
Proof.
  intros HR Ht Hc Hn H0 Hset Hle. destruct (Forall2_lookup_l _ _ _ _ _ Hle Ht) as (t' & Ht' & Hcase).
  assert (t' = flagged t) as ->.
  { destruct Hcase as [->|]; [|done]. exfalso. pose proof (Hset i t Ht' Hc Hn) as Hpos. unfold supported_count in *.
    destruct (List.filter (is_supported w ts) (t_constructors t)) as [|k l] eqn:E; [cbn in Hpos; lia|].
    assert (Hk : In k (List.filter (is_supported w ts) (t_constructors t))) by (rewrite E; by left).
    apply filter_In in Hk as [Hk Hs]. unfold is_supported in Hs. destruct (is_combinator_supported w ts k) as [[]| |] eqn:E1; try done.
    assert (E2 : is_combinator_supported w (g_types s) k = Ret true).
    { eapply support_mono; [exact HR|exact Hle|by apply (raised_num _ _ _ HR Ht), list_elem_of_In|done]. }
    assert (Hin : In k (List.filter (is_supported w (g_types s)) (t_constructors t))).
    { apply filter_In. split; [done|]. unfold is_supported. by rewrite E2. }
    destruct (List.filter (is_supported w (g_types s)) (t_constructors t)); [done|cbn in H0; lia]. }
  apply Forall2_same_length_lookup_2; [rewrite length_insert; by eapply Forall2_length|]. intros j t1 t2 H1 H2.
  destruct (decide (i = j)) as [<-|Hne].
  - rewrite list_lookup_insert_eq in H1 by (by eapply lookup_lt_Some). left. congruence.
  - rewrite list_lookup_insert_ne in H1 by done. exact (Forall2_lookup_lr _ _ _ _ _ _ Hle H1 H2).
Qed.

(** What a round has done: it found a complex type, or every type has a supported constructor. *)
Definition round_done (l : list nat) (b b' : bool) (s s' : gstate) : Prop :=
  if b' then b = true \/ (noncomplex (g_types s') < noncomplex (g_types s))%nat
  else b = false /\ g_types s' = g_types s /\
    forall i t, g_types s !! i = Some t -> candidate w t = true -> is_complex t = false ->
      (i ∈ l -> 0 < supported_count w (g_types s) t) /\
      (i ∈ l \/ g_simple s !! i = Some (supported_count w (g_types s) t) -> (i < List.length (g_simple s))%nat ->
       g_simple s' !! i = Some (supported_count w (g_types s) t)).

Lemma noncomplex_le ts ts' : raised ts ts' -> (noncomplex ts' <= noncomplex ts)%nat.
Proof.
  unfold noncomplex. induction 1 as [|t t' ts ts' Hc _ IH]; [done|]. cbn.
  destruct Hc as [->| ->]; [|rewrite is_complex_flagged]; repeat case_match; cbn in *; try done; lia.
Qed.

Lemma complex_step_total i b s t :
  raised ts0 (g_types s) -> g_types s !! i = Some t ->
  exists b' s', complex_step w i b s = Ret (b', s') /\ searched s s' /\ round_done [i] b b' s s'.
Proof.
  intros HR Ht. rewrite (complex_step_run i b s t HR Ht). destruct (negb (candidate w t) || is_complex t) eqn:E.
  { exists b, s. split_and!; [done|apply searched_refl|]. destruct b; [by left|]. split_and!; [done..|].
    intros j t' Hj Hc Hn. split.
    - intros ->%list_elem_of_singleton. simplify_eq. rewrite Hc, Hn in E. done.
    - intros [->%list_elem_of_singleton|?]; [|done]. simplify_eq. rewrite Hc, Hn in E. done. }
  apply orb_false_iff in E as [Hc%negb_false_iff Hn]. cbn zeta.
  destruct (supported_count w (g_types s) t =? 0) eqn:E0.
  - apply Z.eqb_eq in E0. eexists true, _. split; [done|]. split; [constructor; cbn|].
    + apply Forall2_same_length_lookup_2; [by rewrite length_insert|]. intros j t1 t2 H1 H2. destruct (decide (i = j)) as [<-|Hne].
      * rewrite list_lookup_insert_eq in H2 by (by eapply lookup_lt_Some). right. congruence.
      * rewrite list_lookup_insert_ne in H2 by done. left. congruence.
    + apply length_insert.
    + done.
    + intros ts Hset _ Hle. by apply flag_least.
    + right. cbn [g_types]. rewrite (noncomplex_flag (g_types s) i t Ht Hn). lia.
  - apply Z.eqb_neq in E0. assert (Hpos : 0 < supported_count w (g_types s) t) by (unfold supported_count in *; lia).
    eexists b, _. split; [done|]. split; [constructor; cbn; auto using raised_refl; apply length_insert|].
    destruct b; [by left|]. split_and!; [done..|]. cbn. intros j t' Hj Hc' Hn'. split.
    + intros ->%list_elem_of_singleton. by simplify_eq.
    + intros Hor Hlen. destruct (decide (i = j)) as [<-|Hne].
      * simplify_eq. by apply list_lookup_insert_eq.
      * rewrite list_lookup_insert_ne by done. by destruct Hor as [->%list_elem_of_singleton|].
Qed.

Lemma round_done_trans i l b b1 b2 s s1 s2 :
  searched s s1 -> searched s1 s2 -> round_done [i] b b1 s s1 -> round_done l b1 b2 s1 s2 -> round_done (i :: l) b b2 s s2.
Proof.
  intros S1 S2 H1 H2. unfold round_done in *. pose proof (noncomplex_le _ _ (sd_raised _ _ S1)).
  pose proof (noncomplex_le _ _ (sd_raised _ _ S2)). destruct b2.
  - destruct H2 as [->|H2]; [|right; lia]. destruct H1 as [->|H1]; [by left|right; lia].
  - destruct H2 as (-> & E2 & H2), H1 as (-> & E1 & H1). split_and!; [done|congruence|]. intros j t Hj Hc Hn.
    destruct (H1 j t Hj Hc Hn) as [P1 Q1]. rewrite <- E1 in Hj. destruct (H2 j t Hj Hc Hn) as [P2 Q2]. rewrite E1 in *. split.
    + intros [->|Hl]%elem_of_cons; [apply P1; by apply list_elem_of_singleton|by apply P2].
    + intros Hor Hlen. apply Q2; [|by rewrite (sd_simple _ _ S1)]. destruct Hor as [[->|Hl]%elem_of_cons|Hs].
      * right. apply Q1; [left; by apply list_elem_of_singleton|done].
      * by left.
      * right. apply Q1; [by right|done].
Qed.

Lemma complex_round_total l b s :
  raised ts0 (g_types s) -> (forall i, i ∈ l -> (i < List.length (g_types s))%nat) ->
  exists b' s', complex_round w l b s = Ret (b', s') /\ searched s s' /\ round_done l b b' s s'.
Proof.
  revert b s. induction l as [|i l IH]; intros b s HR Hl; cbn [complex_round].
  { exists b, s. split_and!; [done|apply searched_refl|]. destruct b; [by left|]. split_and!; [done..|].
    intros i t Hi Hc Hn. split; [by intros ?%not_elem_of_nil|]. by intros [?%not_elem_of_nil|]. }
  destruct (lookup_lt_is_Some_2 (g_types s) i ltac:(apply Hl; left)) as [t Ht].
  destruct (complex_step_total i b s t HR Ht) as (b1 & s1 & E1 & S1 & D1).
  destruct (IH b1 s1) as (b2 & s2 & E2 & S2 & D2).
  { by eapply raised_trans; [|apply S1]. }
  { intros j Hj. rewrite <- (Forall2_length _ _ _ (sd_raised _ _ S1)). apply Hl. by right. }
  exists b2, s2. split; [unfold bind; rewrite E1; exact E2|]. split; [by eapply searched_trans|by eapply round_done_trans].
Qed.

(** The loop ends, at the least choice of flags in which every type has a supported constructor. *)
Lemma complex_loop_total n l s :
  raised ts0 (g_types s) -> (forall i, i ∈ l <-> (i < List.length (g_types s))%nat) ->
  List.length (g_simple s) = List.length (g_types s) -> (noncomplex (g_types s) < n)%nat ->
  exists s', complex_loop w n l s = Ret (tt, s') /\ searched s s' /\ settled w (g_types s') /\
    forall i t, g_types s' !! i = Some t -> candidate w t = true -> is_complex t = false ->
      g_simple s' !! i = Some (supported_count w (g_types s') t).
Proof.
  revert s. induction n as [|n IH]; intros s HR Hl Hlen Hn; [lia|]. cbn [complex_loop].
  destruct (complex_round_total l false s HR ltac:(intros i; apply Hl)) as ([|] & s1 & E1 & S1 & D1); unfold bind at 1; rewrite E1; cbn [rbind].
  - destruct D1 as [?|D1]; [done|]. pose proof (Forall2_length _ _ _ (sd_raised _ _ S1)) as EL.
    destruct (IH s1) as (s' & E & S' & Hset & Hsim).
    { by eapply raised_trans; [|apply S1]. }
    { intros i. by rewrite <- EL. }
    { by rewrite (sd_simple _ _ S1), Hlen. }
    { lia. }
    exists s'. split; [done|]. split; [by eapply searched_trans|done].
  - destruct D1 as (_ & ET & D1). exists s1. split; [done|]. split; [done|]. rewrite ET.
    assert (Hin : forall i t, g_types s !! i = Some t -> i ∈ l /\ (i < List.length (g_simple s))%nat).
    { intros i t Hi. apply lookup_lt_Some in Hi. split; [by apply Hl|lia]. }
    split; intros i t Hi Hc Hc'; destruct (D1 i t Hi Hc Hc') as [P Q]; destruct (Hin i t Hi); auto.
Qed.
End Search.

(** ** The combinators that remain *)

(** The combinators that the generator looks at: not the constructors of a complex type. *)
Definition combinators (w : TL_writer) (ts : list tl_type) (functions : list tl_combinator) : list tl_combinator :=
  concat (map t_constructors (List.filter (fun t => candidate w t && negb (is_complex t)) ts)) ++ functions.

Lemma combinators_elem w ts functions t k :
  t ∈ ts -> candidate w t = true -> is_complex t = false -> k ∈ t_constructors t -> k ∈ combinators w ts functions.
Proof.
  intros Ht Hc Hx Hk. apply elem_of_app. left. apply elem_of_concat_map. exists t. split; [|done].
  apply list_elem_of_In, filter_In. by rewrite <- list_elem_of_In, Hc, Hx.
Qed.

(** ** The laws, for the writers of the repository *)

(** [is_type_supported] on the children. *)
Definition children_supported (ts : list tl_type) : list tl_tree -> result bool :=
  fix loop (l : list tl_tree) : result bool :=
    match l with
    | [] => Ret true
    | child :: l =>
        match child with
        | tl_tree_type _ _ _ => do? b := is_type_supported ts child in if b then loop l else Ret false
        | tl_tree_var_type _ _ => Ret false
        | tl_tree_nat_const _ _ | tl_tree_var_num _ _ _ => loop l
        | tl_tree_array _ _ _ => Fault AssertFailed
        end
    end.

Lemma is_type_supported_unfold ts f i children :
  is_type_supported ts (tl_tree_type f i children) =
    match ts !! i with
    | None => Fault BadPointer
    | Some t => if is_complex t then Ret false else children_supported ts children
    end.
Proof. done. Qed.

(** Induction over the children of types. *)
Lemma tree_children_ind (P : tl_tree -> Prop) :
  (forall f i children, Forall P children -> P (tl_tree_type f i children)) ->
  (forall x, node_type x <> NODE_TYPE_TYPE -> P x) -> forall x, P x.
Proof.
  intros HT HO. fix IH 1. intros [f i children|f n|f v|f v d|f m items]; [|by apply HO..].
  apply HT. induction children as [|c l IHl]; constructor; [apply IH|exact IHl].
Qed.

Section Mono.
Context (ts ts' : list tl_type) (HR : raised ts ts').

Lemma not_complex_raised i t' :
  ts' !! i = Some t' -> is_complex t' = false -> ts !! i = Some t'.
Proof.
  intros Ht' Hc. destruct (Forall2_lookup_r _ _ _ _ _ HR Ht') as (t & Ht & [->| ->]); [done|].
  by rewrite is_complex_flagged in Hc.
Qed.

Lemma is_type_supported_mono x : is_type_supported ts' x = Ret true -> is_type_supported ts x = Ret true.
Proof.
  induction x as [f i children IH|x Hx] using tree_children_ind; [|by destruct x].
  rewrite !is_type_supported_unfold. destruct (ts' !! i) as [t|] eqn:Ht; [|done]. destruct (is_complex t) eqn:Hc; [done|].
  rewrite (not_complex_raised i t Ht Hc), Hc. induction IH as [|c l Hc' _ IHl]; [done|]. cbn [children_supported].
  destruct c; try done; try exact IHl. intros (b & E & H)%rbind_Ret. destruct b; [|done]. rewrite Hc' by done. cbn. by apply IHl.
Qed.

Lemma items_supported_mono l : items_supported ts' l = Ret true -> items_supported ts l = Ret true.
Proof.
  induction l as [|b l IH]; [done|]. cbn. destruct ((node_type (a_type b) =? NODE_TYPE_TYPE) && (a_var_num b =? -1)); [|done].
  intros (ok & E & H)%rbind_Ret. destruct ok; [|done]. rewrite is_type_supported_mono by done. cbn. auto.
Qed.

(** A variable does not depend on the flags. *)
Lemma type_variable_raised v a : type_variable ts v a = type_variable ts' v a.
Proof.
  unfold type_variable. destruct (a_var_num a >=? 0); [|done]. destruct (a_type a) as [f i l| | | | ]; try done.
  destruct (ts !! i) as [t|] eqn:Ht.
  - destruct (Forall2_lookup_l _ _ _ _ _ HR Ht) as (t' & -> & [->| ->]); done.
  - assert (ts' !! i = None) as ->; [|done]. apply lookup_ge_None. rewrite <- (Forall2_length _ _ _ HR). by apply lookup_ge_None.
Qed.

Lemma args_supported_mono v l : args_supported ts' v l = Ret true -> args_supported ts v l = Ret true.
Proof.
  induction l as [|a l IH]; [done|]. cbn. rewrite type_variable_raised. intros (c & E & H)%rbind_Ret. rewrite E. cbn.
  destruct c; [auto|]. apply rbind_Ret in H as (ok & E1 & H). destruct ok; [|done].
  assert (arg_supported ts a = Ret true) as ->; [|cbn; auto]. unfold arg_supported in *.
  destruct (a_type a); try done; [by apply is_type_supported_mono|by apply items_supported_mono].
Qed.

Lemma TL_writer_supported_mono k :
  TL_writer_is_combinator_supported ts' k = Ret true -> TL_writer_is_combinator_supported ts k = Ret true.
Proof.
  unfold TL_writer_is_combinator_supported. destruct (k_var_count k <? 0); [done|]. intros (v & -> & H)%rbind_Ret. cbn.
  destruct v as [v|]; [|done]. apply rbind_Ret in H as (ok & E & H). destruct ok; [|done]. rewrite args_supported_mono by done. cbn.
  destruct (k_result k); try done. by apply is_type_supported_mono.
Qed.

Lemma TD_supported_mono k : TD_is_combinator_supported ts' k = Ret true -> TD_is_combinator_supported ts k = Ret true.
Proof.
  unfold TD_is_combinator_supported. intros (b & E & H)%rbind_Ret. destruct b; [|done].
  rewrite TL_writer_supported_mono by done. exact H.
Qed.
End Mono.

(** Trees without arrays below types. *)
Fixpoint plain_tree (n : nat) (x : tl_tree) : bool :=
  match x with
  | tl_tree_type _ i children =>
      (i <? n)%nat &&
      (fix plain_children (l : list tl_tree) : bool :=
         match l with
         | [] => true
         | c :: l =>
             match c with
             | tl_tree_type _ _ _ => plain_tree n c
             | tl_tree_array _ _ _ => false
             | _ => true
             end && plain_children l
         end) children
  | _ => false
  end.

Definition plain_arg (n : nat) (a : arg) : bool :=
  match a_type a with
  | tl_tree_var_type _ _ => true
  | tl_tree_type _ _ _ => plain_tree n (a_type a)
  | tl_tree_array _ _ items => forallb (fun b => plain_tree n (a_type b) && (a_var_num b =? -1)) items
  | _ => false
  end.

Definition returned {A} (r : result A) : bool := match r with Ret _ => true | _ => false end.

(** Combinators that [is_combinator_supported] decides whatever the flags: type
    variables only as the results of functions that are arguments, as in
    [f {X:Type} query:!X = X]. *)
Definition checkable (ts : list tl_type) (k : tl_combinator) : bool :=
  (0 <=? k_var_count k) &&
  match function_results (k_args k) (replicate (Z.to_nat (k_var_count k)) false) with
  | Ret None => true
  | Ret (Some v) =>
      forallb (fun a => match type_variable ts v a with
                        | Ret b => b || plain_arg (List.length ts) a
                        | _ => false
                        end) (k_args k) &&
      match k_result k with
      | tl_tree_type _ _ _ => plain_tree (List.length ts) (k_result k)
      | tl_tree_var_type _ n => returned (vec_at v n)
      | _ => false
      end
  | _ => false
  end.

Lemma plain_supported ts x : plain_tree (List.length ts) x = true -> exists b, is_type_supported ts x = Ret b.
Proof.
  induction x as [f i children IH|x Hx] using tree_children_ind; [|by destruct x].
  cbn [plain_tree]. intros [Hi Hc]%andb_true_iff. apply Nat.ltb_lt in Hi. apply lookup_lt_is_Some_2 in Hi as [t Ht].
  rewrite is_type_supported_unfold, Ht. destruct (is_complex t); [by eexists|].
  induction IH as [|c l Hc' _ IHl]; [by eexists|]. apply andb_true_iff in Hc as [Hc Hl]. cbn [children_supported].
  destruct c; try done; try (by apply IHl); [|by eexists].
  destruct (Hc' Hc) as [b ->]. cbn. destruct b; [by apply IHl|by eexists].
Qed.

Lemma plain_items ts l :
  forallb (fun b => plain_tree (List.length ts) (a_type b) && (a_var_num b =? -1)) l = true -> exists b, items_supported ts l = Ret b.
Proof.
  induction l as [|a l IH]; [by eexists|]. cbn. intros [[Ha Hv]%andb_true_iff Hl]%andb_true_iff.
  assert ((node_type (a_type a) =? NODE_TYPE_TYPE) = true) as -> by by destruct (a_type a). rewrite Hv. cbn.
  destruct (plain_supported ts _ Ha) as [b ->]. cbn. destruct b; [by apply IH|by eexists].
Qed.

Lemma plain_arg_supported ts a : plain_arg (List.length ts) a = true -> exists b, arg_supported ts a = Ret b.
Proof.
  unfold plain_arg, arg_supported. destruct (a_type a); try done; [by apply plain_supported|by eexists|by apply plain_items].
Qed.

Lemma checkable_supported ts k : checkable ts k = true -> exists b, TL_writer_is_combinator_supported ts k = Ret b.
Proof.
  unfold checkable. intros [Hv H]%andb_true_iff. unfold TL_writer_is_combinator_supported.
  apply Z.leb_le in Hv. destruct (Z.ltb_spec (k_var_count k) 0); [lia|].
  destruct (function_results _ _) as [[v|]| |]; try done; [|by eexists]. cbn. apply andb_true_iff in H as [Ha Hr].
  assert (Hs : exists b, args_supported ts v (k_args k) = Ret b).
  { induction (k_args k) as [|a l IH]; [by eexists|]. cbn in Ha |- *. apply andb_true_iff in Ha as [Ha Hl].
    destruct (type_variable ts v a) as [b| |]; try done. cbn. destruct b; [by apply IH|].
    destruct (plain_arg_supported ts a Ha) as [b ->]. cbn. destruct b; [by apply IH|by eexists]. }
  destruct Hs as [b ->]. cbn. destruct b; [|by eexists]. destruct (k_result k) as [f i ch|f n|f n|f n d|f m items]; try done.
  - by apply plain_supported.
  - destruct (vec_at v n); try done. by eexists.
Qed.

Lemma forallb_same {A} (f g : A -> bool) l : (forall x, f x = g x) -> forallb f l = forallb g l.
Proof. intros E. induction l as [|x l IH]; cbn; [done|by rewrite E, IH]. Qed.

Lemma checkable_raised ts ts' k : raised ts ts' -> checkable ts' k = checkable ts k.
Proof.
  intros HR. unfold checkable. rewrite <- (Forall2_length _ _ _ HR). f_equal.
  destruct (function_results _ _) as [[v|]| |]; try done. f_equal. apply forallb_same. intros a.
  by rewrite (type_variable_raised ts ts' HR).
Qed.

(** A writer that keeps the method of the base class, or that of [TD_TL_writer]. *)
Lemma base_support_laws w ts0 ks :
  is_combinator_supported w = TL_writer_is_combinator_supported \/ is_combinator_supported w = TD_is_combinator_supported ->
  forallb (checkable ts0) ks = true -> SupportLaws w ts0 ks.
Proof.
  intros Hw Hks. rewrite forallb_forall in Hks. constructor.
  - intros ts k HR Hk. assert (HF : checkable ts k = true) by (rewrite (checkable_raised ts0 ts k HR); by apply Hks, list_elem_of_In).
    destruct (checkable_supported ts k HF) as [b Hb]. destruct Hw as [-> | ->]; [by exists b|].
    unfold TD_is_combinator_supported. rewrite Hb. cbn. destruct b; by eexists.
  - intros ts ts' k _ HR _. destruct Hw as [-> | ->]; [by apply TL_writer_supported_mono|by apply TD_supported_mono].
Qed.

(** [write_tl] leaves no type complex, neither one that it has marked nor one
    that was. *)
Lemma write_tl_cleared w functions s s' :
  write_tl w functions s = Ret (tt, s') -> g_types s' = map cleared (g_types s).
Proof.
  intros E. unfold write_tl in E. apply bind_Ret in E as ([] & s1 & E1 & E). apply bind_Ret in E as (found & s2 & E2 & E).
  apply bind_Ret in E as (s3 & s4 & [= <- <-] & E). apply bind_Ret in E as ([] & s5 & E5 & E6).
  destruct (quiet_emit _ _ _ _ E1) as [T1 _]. destruct (raises_analyse w _ _ _ _ E2) as [T2 _]. rewrite T1 in T2.
  destruct (quiet_write_output w _ _ _ _ _ _ _ E5) as [T5 _].
  apply list_eq. intros i. rewrite (clear_complex_each _ _ _ E6 i), T5.
  rewrite list_lookup_fmap. destruct (g_types s !! i) as [t|] eqn:Ht.
  - destruct (Forall2_lookup_l _ _ _ _ _ T2 Ht) as (t' & Ht' & Hcase).
    rewrite bool_decide_true by (apply elem_of_seq; apply lookup_lt_Some in Ht'; lia). rewrite Ht'. cbn. f_equal.
    destruct Hcase as [->| ->]; [done|]. by apply cleared_flagged_any.
  - assert (g_types s2 !! i = None) as ->; [|by case_bool_decide]. apply lookup_ge_None. rewrite <- (Forall2_length _ _ _ T2).
    by apply lookup_ge_None.
Qed.

Lemma write_tl_types w functions s s' :
  Forall (fun t => is_complex t = false) (g_types s) -> write_tl w functions s = Ret (tt, s') -> g_types s' = g_types s.
Proof.
  intros H0 E. rewrite (write_tl_cleared _ _ _ _ E). induction H0 as [|t ts Ht _ IH]; cbn; [done|].
  by rewrite (cleared_id t Ht), IH.
Qed.

Lemma clear_complex_total l s :
  (forall i, i ∈ l -> (i < List.length (g_types s))%nat) -> exists s', each clear_complex l s = Ret (tt, s').
Proof.
  revert s. induction l as [|i l IH]; intros s Hl; [by eexists|]. cbn [each].
  destruct (lookup_lt_is_Some_2 (g_types s) i (Hl i ltac:(left))) as [t Ht].
  assert (exists s1, clear_complex i s = Ret (tt, s1) /\ List.length (g_types s1) = List.length (g_types s)) as (s1 & E1 & L1).
  { unfold clear_complex, bind, type_at. rewrite Ht. cbn. destruct (has_flag (t_flags t) FLAG_COMPLEX); [|by eexists].
    unfold update_flags. rewrite Ht. eexists. split; [done|]. apply length_insert. }
  unfold bind. rewrite E1. cbn. apply IH. intros j Hj. rewrite L1. apply Hl. by right.
Qed.

(** ** The complex types *)

(** C24. The loop of [write_tl] that looks for complex types ends, for every writer
    that decides the constructors of the types that are left and that supports no
    more when more types are complex: one round for each type is enough.  In what
    it leaves, every type that has constructors, is not built in and is not
    complex has a supported constructor, [simple_constructors] is the number of
    these, and no other choice of complex types with this property has fewer. *)
Theorem complex_types_least w s :
  SupportLaws w (g_types s) (combinators w (g_types s) []) ->
  (forall t, t ∈ g_types s -> t_constructors_num t = Z.of_nat (List.length (t_constructors t))) ->
  List.length (g_simple s) = List.length (g_types s) ->
  exists s', complex_loop w (S (List.length (g_types s))) (seq 0 (List.length (g_types s))) s = Ret (tt, s') /\
    raised (g_types s) (g_types s') /\ settled w (g_types s') /\
    (forall ts, raised (g_types s) ts -> settled w ts -> raised (g_types s') ts) /\
    (forall i t, g_types s' !! i = Some t -> candidate w t = true -> is_complex t = false ->
       g_simple s' !! i = Some (supported_count w (g_types s') t)).
Proof.
  intros Laws Hnum Hlen.
  destruct (complex_loop_total w (g_types s) _ (L := Laws) Hnum (combinators_elem w (g_types s) [])
    (S (List.length (g_types s))) (seq 0 (List.length (g_types s))) s (raised_refl _)) as (s' & E & Hse & Hset & Hsim).
  { intros i. rewrite elem_of_seq. lia. }
  { done. }
  { apply Nat.lt_succ_r, filter_length_le. }
  exists s'. destruct Hse as [Hr _ _ Hleast]. split_and!; [done..| |done]. intros ts Hts Hs. by apply Hleast.
Qed.

(** On the sample, after its checks: [Boxed] becomes complex as [Box] is. *)
Lemma complex_types_least_witness :
  exists s', complex_loop sample_writer 8 (seq 0 7) sample_checked = Ret (tt, s') /\ settled sample_writer (g_types s') /\
    map t_flags (g_types sample_checked) = [0; 2; 0; 0; 0; 2; 0] /\ map t_flags (g_types s') = [0; 2; 0; 0; 0; 2; 2].
Proof.
  destruct (complex_types_least sample_writer sample_checked) as (s' & E & _ & Hs & _).
  - apply base_support_laws; [by right|by vm_compute].
  - intros t Ht%list_elem_of_In. apply Z.eqb_eq. revert t Ht. apply forallb_forall. by vm_compute.
  - by vm_compute.
  - exists s'. split; [exact E|]. split; [exact Hs|]. split; [by vm_compute|]. vm_compute in E. injection E as <-. reflexivity.
Defined.
