(* ===== verification/Reach.v ===== *)
(** * The names that requests and results lead to

    [dfs_type], [dfs_combinator] and [dfs_tree] walk types and constructors by name.
    When the names are distinct, what they add to the set they are given is exactly
    what can be reached, through supported constructors and through the types in
    their arguments; and they end. *)
From Stdlib Require Import ZArith Lia List Bool Ascii String.
From stdpp Require Import base list strings gmap relations.
From S2P Require Import Prelude Reader Writers Generate HeaderWriter Sample Analysis.
Open Scope tl_scope.

(** ** Trees *)

(** The types in a tree. *)
Fixpoint mentions (x : tl_tree) : list nat :=
  match x with
  | tl_tree_type _ i children => i :: concat (map mentions children)
  | tl_tree_array _ _ items => concat (map (fun a => match a with mk_arg _ _ _ _ _ y => mentions y end) items)
  | _ => []
  end.

(** The trees that [dfs_tree] accepts: no numbers but as multiplicities. *)
Fixpoint walkable (x : tl_tree) : bool :=
  match x with
  | tl_tree_type _ _ children => forallb walkable children
  | tl_tree_array _ _ items => forallb (fun a => match a with mk_arg _ _ _ _ _ y => walkable y end) items
  | tl_tree_var_type _ _ => true
  | _ => false
  end.

Lemma tree_items_ind (P : tl_tree -> Prop) :
  (forall f i children, Forall P children -> P (tl_tree_type f i children)) ->
  (forall f m items, Forall (fun a => P (a_type a)) items -> P (tl_tree_array f m items)) ->
  (forall x, node_type x <> NODE_TYPE_TYPE -> node_type x <> NODE_TYPE_ARRAY -> P x) -> forall x, P x.
Proof.
  intros HT HA HO. fix IH 1. intros [f i children|f n|f v|f v d|f m items]; [|by apply HO..|].
  - apply HT. induction children as [|c l IHl]; constructor; [apply IH|exact IHl].
  - apply HA. induction items as [|[nm fl vn en eb y] l IHl]; constructor; [apply IH|exact IHl].
Qed.

Lemma mentions_array f m items i :
  i ∈ mentions (tl_tree_array f m items) <-> exists a, a ∈ items /\ i ∈ mentions (a_type a).
Proof.
  cbn [mentions]. rewrite elem_of_concat_map. split; intros (a & Ha & Hi); exists a; (split; [done|]); by destruct a.
Qed.

Lemma mentions_type f i children j :
  j ∈ mentions (tl_tree_type f i children) <-> j = i \/ exists x, x ∈ children /\ j ∈ mentions x.
Proof. cbn [mentions]. by rewrite elem_of_cons, elem_of_concat_map. Qed.

Lemma walkable_array f m items a : walkable (tl_tree_array f m items) = true -> a ∈ items -> walkable (a_type a) = true.
Proof. cbn. rewrite forallb_forall. intros Hw Ha%list_elem_of_In. specialize (Hw a Ha). by destruct a. Qed.

Lemma walkable_type f i children x : walkable (tl_tree_type f i children) = true -> x ∈ children -> walkable x = true.
Proof. cbn. rewrite forallb_forall. intros Hw Ha%list_elem_of_In. by apply Hw. Qed.

(** ** Sets of names *)

Section Finds.
Context (step : list Z -> list Z -> Prop).

(** From [A] to [B]: the names in [R], what they lead to, and nothing else. *)
Record finds (R : list Z -> Prop) (A B : names) : Prop := {
  fi_keep : A ⊆ B;
  fi_roots n : R n -> n ∈ B;
  fi_sound n : n ∈ B -> n ∈ A \/ exists r, R r /\ rtc step r n;
  fi_closed n n' : n ∈ B -> n ∉ A -> step n n' -> n' ∈ B
}.

Lemma finds_nothing A : finds (fun _ => False) A A.
Proof. constructor; [done..|by left|done]. Qed.

Lemma finds_known R A : (forall n, R n -> n ∈ A) -> finds R A A.
Proof. intros HR. constructor; [done|done|by left|done]. Qed.

Lemma finds_trans R S A B C : finds R A B -> finds S B C -> finds (fun n => R n \/ S n) A C.
Proof.
  intros [K1 R1 S1 C1] [K2 R2 S2 C2]. constructor.
  - by etrans.
  - intros n [Hn|Hn]; [by apply K2, R1|by apply R2].
  - intros n Hn. destruct (S2 n Hn) as [Hn1|(r & Hr & ?)]; [|right; eauto]. destruct (S1 n Hn1) as [?|(r & Hr & ?)]; [by left|right; eauto].
  - intros n n' Hn Hna Hs. destruct (decide (n ∈ B)) as [Hb|Hb]; [apply K2; by apply (C1 n)|by apply (C2 n)].
Qed.

Lemma finds_iff (R S : list Z -> Prop) A B : (forall n, R n <-> S n) -> finds R A B -> finds S A B.
Proof.
  intros HRS [K1 R1 S1 C1]. constructor; try done.
  - intros n Hn. by apply R1, HRS.
  - intros n Hn. destruct (S1 n Hn) as [?|(r & Hr & ?)]; [by left|right]. exists r. by rewrite <- HRS.
Qed.

(** A new name, whose successors are found next. *)
Lemma finds_new n0 (R : list Z -> Prop) A B :
  n0 ∉ A -> (forall n, step n0 n <-> R n) -> finds R ({[n0]} ∪ A) B -> finds (eq n0) A B.
Proof.
  intros H0 HR [K1 R1 S1 C1]. constructor.
  - set_solver.
  - intros n <-. set_solver.
  - intros n Hn. destruct (S1 n Hn) as [Hn1|(r & Hr & Hrtc)].
    + apply elem_of_union in Hn1 as [->%elem_of_singleton|?]; [right; by exists n0|by left].
    + right. exists n0. split; [done|]. apply rtc_l with r; [by apply HR|done].
  - intros n n' Hn Hna Hs. destruct (decide (n = n0)) as [->|Hne]; [by apply R1, HR|]. apply (C1 n); [done|set_solver|done].
Qed.

(** A search that starts from the empty set finds exactly what can be reached. *)
Lemma finds_exact R B n : finds R ∅ B -> (n ∈ B <-> exists r, R r /\ rtc step r n).
Proof.
  intros [K1 R1 S1 C1]. split.
  - intros Hn. destruct (S1 n Hn) as [?|?]; [set_solver|done].
  - intros (r & Hr & Hrtc). apply R1 in Hr. induction Hrtc as [|x y z Hs _ IH]; [done|]. apply IH. apply (C1 x); [done|set_solver|done].
Qed.
End Finds.

(** ** The graph of names *)

(** A type whose constructors are visited. *)
Definition opened (w : TL_writer) (t : tl_type) : bool :=
  negb ((t_constructors_num t =? 0) || is_built_in_simple_type w (t_name t) || is_built_in_complex_type w (t_name t)).

Section Graph.
Context (w : TL_writer) (ts : list tl_type) (ks : list tl_combinator).

(** The names of the types in a tree. *)
Definition tree_names (x : tl_tree) (n : list Z) : Prop :=
  exists i t, i ∈ mentions x /\ ts !! i = Some t /\ n = t_name t.

Definition args_names (k : tl_combinator) (n : list Z) : Prop := exists a, a ∈ k_args k /\ tree_names (a_type a) n.

Definition constructor_names (t : tl_type) (n : list Z) : Prop :=
  exists k, k ∈ t_constructors t /\ is_supported w ts k = true /\ n = k_name k.

(** A type leads to its supported constructors, a combinator to the types in its arguments. *)
Definition leads (n n' : list Z) : Prop :=
  (exists t, t ∈ ts /\ t_name t = n /\ opened w t = true /\ constructor_names t n') \/
  (exists k, k ∈ ks /\ k_name k = n /\ args_names k n').

(** The trees that the search can walk: in particular, it meets no complex type. *)
Definition passable (x : tl_tree) : Prop :=
  walkable x = true /\ forall i, i ∈ mentions x -> exists t, ts !! i = Some t /\ (opened w t = true -> is_complex t = false).

Record walk_config : Prop := {
  wc_names : NoDup (map t_name ts ++ map k_name ks);
  wc_num t : t ∈ ts -> t_constructors_num t = Z.of_nat (List.length (t_constructors t));
  wc_constructors t k : t ∈ ts -> opened w t = true -> is_complex t = false -> k ∈ t_constructors t -> k ∈ ks;
  wc_decided k : k ∈ ks -> exists b, is_combinator_supported w ts k = Ret b;
  wc_args k a : k ∈ ks -> is_supported w ts k = true -> a ∈ k_args k -> passable (a_type a)
}.

Context (W : walk_config).

Lemma name_type t t' : t ∈ ts -> t' ∈ ts -> t_name t = t_name t' -> t = t'.
Proof. pose proof (wc_names W) as ND. apply NoDup_app in ND as (ND & _ & _). by apply NoDup_map_inj. Qed.

Lemma name_combinator k k' : k ∈ ks -> k' ∈ ks -> k_name k = k_name k' -> k = k'.
Proof. pose proof (wc_names W) as ND. apply NoDup_app in ND as (_ & _ & ND). by apply NoDup_map_inj. Qed.

Lemma name_apart t k : t ∈ ts -> k ∈ ks -> t_name t <> k_name k.
Proof.
  intros Ht Hk E. pose proof (wc_names W) as ND. apply NoDup_app in ND as (_ & ND & _).
  apply (ND (t_name t)); [by apply list_elem_of_fmap_2|]. rewrite E. by apply list_elem_of_fmap_2.
Qed.

Lemma leads_type t n : t ∈ ts -> (leads (t_name t) n <-> opened w t = true /\ constructor_names t n).
Proof.
  intros Ht. split.
  - intros [(t' & Ht' & E & Ho & Hn)|(k & Hk & E & _)]; [by rewrite <- (name_type t' t)|].
    by destruct (name_apart t k Ht Hk).
  - intros [Ho Hn]. left. by exists t.
Qed.

Lemma leads_combinator k n : k ∈ ks -> (leads (k_name k) n <-> args_names k n).
Proof.
  intros Hk. split.
  - intros [(t & Ht & E & _)|(k' & Hk' & E & Hn)]; [by destruct (name_apart t k Ht Hk)|by rewrite <- (name_combinator k' k)].
  - intros Hn. right. by exists k.
Qed.

(** The types whose name is not found yet. *)
Definition unnamed (A : names) (l : list tl_type) : nat := List.length (filter (fun t => t_name t ∉ A) l).

Definition unfound (A : names) : nat := unnamed A ts.

Lemma unnamed_le A B l : A ⊆ B -> (unnamed B l <= unnamed A l)%nat.
Proof.
  intros HAB. unfold unnamed. induction l as [|t l IH]; [done|]. rewrite !filter_cons. repeat case_decide; cbn; try lia. set_solver.
Qed.

Lemma unfound_lt A t : t ∈ ts -> t_name t ∉ A -> (unfound ({[t_name t]} ∪ A) < unfound A)%nat.
Proof.
  intros Ht HA. unfold unfound. apply list_elem_of_split in Ht as (l1 & l2 & ->).
  pose proof (unnamed_le A ({[t_name t]} ∪ A) l1 ltac:(set_solver)). pose proof (unnamed_le A ({[t_name t]} ∪ A) l2 ltac:(set_solver)).
  unfold unnamed in *. rewrite !filter_app, !filter_cons, !length_app, (decide_True (P := t_name t ∉ A)) by done.
  rewrite (decide_False (P := t_name t ∉ {[t_name t]} ∪ A)) by set_solver. cbn. lia.
Qed.

(** ** The search *)

(** A search that returns. *)
Definition finding (u : nat) (f : names -> result names) (R : list Z -> Prop) : Prop :=
  forall A, (unfound A < u)%nat -> exists B, f A = Ret B /\ finds leads R A B.

Lemma finding_fold {X} (f : X -> names -> result names) (R : X -> list Z -> Prop) (loop : list X -> names -> result names) u l :
  (forall A, loop [] A = Ret A) -> (forall x l A, loop (x :: l) A = rbind (f x A) (loop l)) ->
  (forall x, x ∈ l -> finding u (f x) (R x)) -> finding u (loop l) (fun n => exists x, x ∈ l /\ R x n).
Proof.
  intros E0 E1. induction l as [|x l IH]; intros Hf A HA.
  { exists A. split; [apply E0|]. eapply finds_iff; [|apply finds_nothing]. intros n. split; [done|]. by intros (x & ?%not_elem_of_nil & _). }
  destruct (Hf x ltac:(left) A HA) as (B & EB & FB). destruct (IH ltac:(intros y Hy; apply Hf; by right) B) as (C & EC & FC).
  { eapply Nat.le_lt_trans; [|exact HA]. apply unnamed_le, FB. }
  exists C. split; [by rewrite E1, EB|]. eapply finds_iff; [|by eapply finds_trans]. intros n. split.
  - intros [?|(y & Hy & ?)]; [exists x; split; [left|done]|exists y; split; [by right|done]].
  - intros (y & Hy & HR). apply elem_of_cons in Hy as [->|Hy]; [by left|right; eauto].
Qed.

Lemma finding_iff u f (R S : list Z -> Prop) : (forall n, R n <-> S n) -> finding u f R -> finding u f S.
Proof. intros HRS Hf A HA. destruct (Hf A HA) as (B & E & F). exists B. split; [done|]. by eapply finds_iff. Qed.

Section With.
Context (dt : nat -> names -> result names) (u : nat).
Hypothesis Hdt : forall i t, ts !! i = Some t -> (opened w t = true -> is_complex t = false) ->
  finding u (dt i) (eq (t_name t)).

Lemma finding_children f i children t :
  Forall (fun x => passable x -> finding u (dfs_tree dt x) (tree_names x)) children ->
  passable (tl_tree_type f i children) -> ts !! i = Some t ->
  finding u (dfs_tree dt (tl_tree_type f i children)) (tree_names (tl_tree_type f i children)).
Proof.
  intros IH [Hw Hm] Ht. rewrite Forall_forall in IH.
  destruct (Hm i ltac:(apply mentions_type; by left)) as (t' & Ht' & Ho). rewrite Ht in Ht'. injection Ht' as <-.
  assert (Hloop : finding u ((fix each_child (l : list tl_tree) (found : names) : result names :=
    match l with [] => Ret found | y :: l => do? found := dfs_tree dt y found in each_child l found end) children)
    (fun n => exists x, x ∈ children /\ tree_names x n)).
  { apply (finding_fold (dfs_tree dt)); [done|done|]. intros x Hx. apply IH; [done|]. split; [by eapply walkable_type|].
    intros j Hj. apply Hm, mentions_type. right. eauto. }
  intros A HA. destruct (Hdt i t Ht Ho A HA) as (B & EB & FB). destruct (Hloop B) as (C & EC & FC).
  { eapply Nat.le_lt_trans; [|exact HA]. apply unnamed_le, FB. }
  exists C. split; [cbn [dfs_tree]; rewrite EB; exact EC|]. eapply finds_iff; [|by eapply finds_trans]. intros n.
  unfold tree_names. setoid_rewrite mentions_type. split.
  - intros [<-|(x & Hx & j & t' & Hj & Ht' & ->)]; [exists i, t; auto|]. exists j, t'. split; [right; by exists x|done].
  - intros (j & t' & [->|(x & Hx & Hj)] & Ht' & ->); [left; congruence|right]. exists x. split; [done|]. by exists j, t'.
Qed.

Lemma finding_tree x : passable x -> finding u (dfs_tree dt x) (tree_names x).
Proof.
  induction x as [f i children IH|f m items IH|x H1 H2] using tree_items_ind; intros HP.
  - destruct (proj2 HP i ltac:(apply mentions_type; by left)) as (t & Ht & _). by eapply finding_children.
  - rewrite Forall_forall in IH. destruct HP as [Hw Hm]. cbn [dfs_tree].
    eapply finding_iff; [|apply (finding_fold (fun a => dfs_tree dt (a_type a)) (fun a => tree_names (a_type a))); [done|by intros []|]].
    + intros n. unfold tree_names. setoid_rewrite mentions_array. naive_solver.
    + intros a Ha. apply IH; [done|]. split; [by eapply walkable_array|]. intros j Hj. apply Hm, mentions_array. eauto.
  - destruct HP as [Hw Hm]. destruct x; try done. intros A HA. exists A. split; [done|].
    eapply finds_iff; [|apply finds_nothing]. intros n. split; [done|]. by intros (i & t & ?%not_elem_of_nil & _).
Qed.

Lemma finding_args k : (forall a, a ∈ k_args k -> passable (a_type a)) -> finding u (dfs_args dt (k_args k)) (args_names k).
Proof.
  intros Ha. apply (finding_fold (fun a => dfs_tree dt (a_type a)) (fun a => tree_names (a_type a))); [done|done|].
  intros a Hin. by apply finding_tree, Ha.
Qed.

Lemma finding_combinator k :
  k ∈ ks -> finding u (dfs_combinator w ts dt k) (fun n => is_supported w ts k = true /\ n = k_name k).
Proof.
  intros Hk A HA. unfold dfs_combinator, is_supported. destruct (wc_decided W k Hk) as [b Hb]. rewrite Hb. cbn.
  destruct b; cbn.
  2: { exists A. split; [done|]. eapply finds_iff; [|apply finds_nothing]. naive_solver. }
  case_bool_decide as Hin.
  { exists A. split; [done|]. apply finds_known. by intros n [_ ->]. }
  destruct (finding_args k) with (A := {[k_name k]} ∪ A) as (B & EB & FB).
  - intros a Ha. apply (wc_args W k); [done|unfold is_supported; by rewrite Hb|done].
  - eapply Nat.le_lt_trans; [|exact HA]. apply unnamed_le. set_solver.
  - exists B. split; [done|]. eapply finds_iff; [|apply (finds_new leads (k_name k) (args_names k)); [done| |done]].
    + intros n. split; [by intros <-|by intros [_ ->]].
    + intros n. by apply leads_combinator.
Qed.

Lemma finding_body i t :
  ts !! i = Some t -> (opened w t = true -> is_complex t = false) -> finding (S u) (dfs_type_body w ts dt i) (eq (t_name t)).
Proof.
  intros Ht Ho A HA. assert (Hin : t ∈ ts) by by eapply list_elem_of_lookup_2. unfold dfs_type_body. rewrite Ht.
  case_bool_decide as HA1; [exists A; split; [done|]; apply finds_known; by intros n <-|].
  assert (Hl : forall n, leads (t_name t) n <-> opened w t = true /\ constructor_names t n) by (intros n; by apply leads_type).
  destruct ((t_constructors_num t =? 0) || is_built_in_simple_type w (t_name t) || is_built_in_complex_type w (t_name t)) eqn:Eo.
  { eexists. split; [done|]. apply (finds_new leads (t_name t) (fun _ => False)); [done| |apply finds_nothing].
    intros n. rewrite Hl. unfold opened. rewrite Eo. by split; [intros [? _]|]. }
  assert (Hop : opened w t = true) by (unfold opened; by rewrite Eo). fold (is_complex t). rewrite (Ho Hop), (wc_num W t Hin), Z.leb_refl.
  rewrite Nat2Z.id, firstn_all.
  destruct (finding_fold (dfs_combinator w ts dt) (fun k n => is_supported w ts k = true /\ n = k_name k)
    (dfs_combinators w ts dt) u (t_constructors t)) with (A := {[t_name t]} ∪ A) as (B & EB & FB); [done|done| | |].
  - intros k Hk. apply finding_combinator. by apply (wc_constructors W t); auto.
  - pose proof (unfound_lt A t Hin HA1). lia.
  - exists B. split; [done|]. apply (finds_new leads (t_name t) (constructor_names t)); [done| |done].
    intros n. rewrite Hl. naive_solver.
Qed.
End With.

Lemma finding_type n i t :
  ts !! i = Some t -> (opened w t = true -> is_complex t = false) -> finding n (dfs_type w ts n i) (eq (t_name t)).
Proof.
  revert i t. induction n as [|n IH]; intros i t Ht Ho; [intros A HA; lia|]. by apply (finding_body (dfs_type w ts n) n IH).
Qed.

(** The loop over functions. *)
Lemma reachable_types_run n l A1 A2 :
  (forall f, f ∈ l -> f ∈ ks /\ passable (k_result f)) -> (unfound A1 < n)%nat -> (unfound A2 < n)%nat ->
  exists B1 B2, reachable_types w ts n l (A1, A2) = Ret (B1, B2) /\
    finds leads (fun m => exists f, f ∈ l /\ is_supported w ts f = true /\ m = k_name f) A1 B1 /\
    finds leads (fun m => exists f, f ∈ l /\ tree_names (k_result f) m) A2 B2.
Proof.
  revert A1 A2. induction l as [|f l IH]; intros A1 A2 Hl H1 H2.
  { exists A1, A2. split; [done|]. split; (eapply finds_iff; [|apply finds_nothing]); intros m;
      (split; [done|]); by intros (f & ?%not_elem_of_nil & _). }
  destruct (Hl f ltac:(left)) as [Hf Hp]. cbn [reachable_types fst snd].
  destruct (finding_combinator (dfs_type w ts n) n (finding_type n) f Hf A1 H1) as (B1 & E1 & F1). rewrite E1. cbn.
  destruct (finding_tree (dfs_type w ts n) n (finding_type n) (k_result f) Hp A2 H2) as (B2 & E2 & F2). rewrite E2. cbn.
  destruct (IH B1 B2) as (C1 & C2 & E & G1 & G2).
  { intros g Hg. apply Hl. by right. }
  { eapply Nat.le_lt_trans; [|exact H1]. apply unnamed_le, F1. }
  { eapply Nat.le_lt_trans; [|exact H2]. apply unnamed_le, F2. }
  exists C1, C2. split; [done|]. split; (eapply finds_iff; [|by eapply finds_trans]); intros m; setoid_rewrite elem_of_cons; naive_solver.
Qed.
End Graph.

(** ** An executable condition *)

Lemma opened_candidate w t : opened w t = true -> candidate w t = true.
Proof. unfold opened, candidate. rewrite negb_true_iff, !orb_false_iff. intros [[-> _] ->]. done. Qed.

Definition passable_tree (w : TL_writer) (ts : list tl_type) (x : tl_tree) : bool :=
  walkable x &&
  forallb (fun i => match ts !! i with Some t => negb (opened w t) || negb (is_complex t) | None => false end) (mentions x).

(** Distinct names; the writer decides every combinator; the arguments of the
    combinators it supports, and the results of functions, can be walked. *)
Definition walk_check (w : TL_writer) (ts : list tl_type) (functions : list tl_combinator) : bool :=
  let ks := combinators w ts functions in
  bool_decide (NoDup (map t_name ts ++ map k_name ks)) &&
  forallb (fun t => t_constructors_num t =? Z.of_nat (List.length (t_constructors t))) ts &&
  forallb (fun k => match is_combinator_supported w ts k with
                    | Ret b => negb b || forallb (fun a => passable_tree w ts (a_type a)) (k_args k)
                    | _ => false
                    end) ks &&
  forallb (fun f => passable_tree w ts (k_result f)) functions.

Lemma passable_tree_ok w ts x : passable_tree w ts x = true -> passable w ts x.
Proof.
  unfold passable_tree. intros [Hw Hm]%andb_true_iff. split; [done|]. intros i Hi%list_elem_of_In. rewrite forallb_forall in Hm.
  specialize (Hm i Hi). destruct (ts !! i) as [t|]; [|done]. exists t. split; [done|]. intros Ho. rewrite Ho in Hm. by apply negb_true_iff in Hm.
Qed.

Lemma walk_check_ok w ts functions :
  walk_check w ts functions = true ->
  walk_config w ts (combinators w ts functions) /\
  forall f, f ∈ functions -> f ∈ combinators w ts functions /\ passable w ts (k_result f).
Proof.
  unfold walk_check. rewrite !andb_true_iff, bool_decide_eq_true, !forallb_forall. intros (((ND & Hn) & Hk) & Hf).
  assert (Hdec : forall k, k ∈ combinators w ts functions -> exists b, is_combinator_supported w ts k = Ret b /\
    (b = true -> forall a, a ∈ k_args k -> passable w ts (a_type a))).
  { intros k Hin%list_elem_of_In. specialize (Hk k Hin). destruct (is_combinator_supported w ts k) as [b| |]; [|done..].
    exists b. split; [done|]. intros -> a Ha%list_elem_of_In. cbn in Hk. rewrite forallb_forall in Hk. by apply passable_tree_ok, Hk. }
  split; [constructor|].
  - done.
  - intros t Ht%list_elem_of_In. by apply Z.eqb_eq, Hn.
  - intros t k Ht Ho Hx Hin. by apply (combinators_elem w ts functions t k Ht (opened_candidate w t Ho)).
  - intros k Hin. destruct (Hdec k Hin) as (b & E & _). by exists b.
  - intros k a Hin Hs Ha. destruct (Hdec k Hin) as (b & E & Hp). unfold is_supported in Hs. rewrite E in Hs. by apply Hp.
  - intros f Hin. split; [apply elem_of_app; by right|]. apply passable_tree_ok, Hf. by apply list_elem_of_In.
Qed.

(** C25. The search of [write_tl] ends, with fuel for one call per type, and finds
    exactly the names it should, for configurations with distinct names and trees
    it can walk: a name is a request name iff it can be reached from a function that
    is supported, a result name iff it can be reached from the result of a function,
    where a combinator leads to the types in its arguments and a type that is not
    built in to its supported constructors. *)
Theorem reachable_types_exact w ts functions :
  walk_check w ts functions = true ->
  exists requests results, reachable_types w ts (dfs_fuel ts) functions (∅, ∅) = Ret (requests, results) /\
    (forall n, n ∈ requests <-> exists f, f ∈ functions /\ is_supported w ts f = true /\
       rtc (leads w ts (combinators w ts functions)) (k_name f) n) /\
    (forall n, n ∈ results <-> exists f r, f ∈ functions /\ tree_names ts (k_result f) r /\
       rtc (leads w ts (combinators w ts functions)) r n).
Proof.
  intros [W HF]%walk_check_ok.
  assert (Hfuel : (unfound ts ∅ < dfs_fuel ts)%nat) by (apply Nat.lt_succ_r, length_filter).
  destruct (reachable_types_run w ts _ W (dfs_fuel ts) functions ∅ ∅ HF Hfuel Hfuel) as (B1 & B2 & E & F1 & F2).
  exists B1, B2. split; [done|]. split; intros n.
  - rewrite (finds_exact _ _ _ _ F1). naive_solver.
  - rewrite (finds_exact _ _ _ _ F2). naive_solver.
Qed.

(** On the sample. *)
Lemma reachable_types_exact_witness :
  exists requests results,
    reachable_types sample_writer (g_types sample_analysed) 8 sample_functions (∅, ∅) = Ret (requests, results) /\
    str "getUser" ∈ requests /\ str "User" ∈ results.
Proof.
  destruct (reachable_types_exact sample_writer (g_types sample_analysed) sample_functions) as (p & q & E & Hp & Hq); [by vm_compute|].
  exists p, q. split; [exact E|]. split.
  - apply Hp. exists (nth 0 sample_functions (mk_combinator 0 [] 0 0 [] (of_type 0))). split; [left|]. split; [by vm_compute|apply rtc_refl].
  - apply Hq. exists (nth 0 sample_functions (mk_combinator 0 [] 0 0 [] (of_type 0))), (str "User"). split; [left|]. split; [|apply rtc_refl].
    exists 4%nat, (nth 4 sample_types (sample_type 0 "x" 0 [])). split; [left|]. by split.
Defined.
