(* ===== verification/Complete.v ===== *)
(** * The generator completes

    Once the analysis of [write_tl] has returned, no assertion of the generator can
    fail any more: the flags are zero or complex, the numbers of supported
    constructors are those that the classes are counted against, results have the
    form that the writers are told.  The methods of the writer are assumed to
    return; everything else is proved. *)
From Stdlib Require Import ZArith Lia List Bool Ascii String.
From stdpp Require Import base list strings gmap relations.
From S2P Require Import Prelude Reader Writers Generate Sample Analysis Reach.
Open Scope tl_scope.

(** ** Writers whose methods return *)

(** The generator calls a method with what it has checked before: names and
    arguments of combinators that are supported, arities of types that are
    generated.  A writer has to return there, in the state that the analysis
    left.  A method may change the descriptions of the variables: [V k done]
    describes them when the arguments [done] of [k] have been printed. *)
Section Calls.
Context (w : TL_writer) (ts : list tl_type) (sm : list Z) (functions : list tl_combinator).
Context (V : tl_combinator -> list arg -> list var_description -> Prop).

Definition text_ok (m : Text) : Prop := exists t, m (mk_heap ts sm) = Ret t.

Definition steps (m : TextVars) (P Q : list var_description -> Prop) : Prop :=
  forall v, P v -> exists text v', m v (mk_heap ts sm) = Ret (text, v') /\ Q v'.

Definition generated (t : tl_type) : Prop := t ∈ ts /\ is_generated w t = true.

(** The functions and constructors that get a class. *)
Definition written (k : tl_combinator) : Prop :=
  is_supported w ts k = true /\ (k ∈ functions \/ exists t, generated t /\ k ∈ t_constructors t).

Definition arg_written (a : arg) : Prop := exists k, written k /\ a ∈ k_args k.

Definition constructor_written (k : tl_combinator) : Prop := written k /\ exists t, generated t /\ k ∈ t_constructors t.

Inductive class_written : Name -> Prop :=
| type_class t : generated t -> class_written (t_name t)
| combinator_class k : written k -> class_written (k_name k).

Inductive arity_used : Z -> Prop :=
| arity_zero : arity_used 0
| arity_base n : 0 <= n <= get_max_arity w -> arity_used n
| arity_type t : generated t -> arity_used (t_arity t)
| arity_result k : constructor_written k -> arity_used (child_count (k_result k)).

Class WriterTotal : Prop := {
  ok_base_tl_class_name : text_ok (gen_base_tl_class_name w);
  ok_base_type_class_name n : arity_used n -> text_ok (gen_base_type_class_name w n);
  ok_base_function_class_name : text_ok (gen_base_function_class_name w);
  ok_class_name n : class_written n -> text_ok (gen_class_name w n);
  ok_field_name a t : arg_written a -> gen_field_type w a (mk_heap ts sm) = Ret t -> t <> [] -> text_ok (gen_field_name w (a_name a));
  ok_field_type a : arg_written a -> text_ok (gen_field_type w a);
  ok_output_end : text_ok (gen_output_end w);
  ok_forward_class_declaration x0 x1 : text_ok (gen_forward_class_declaration w x0 x1);
  ok_class_begin x0 x1 x2 : text_ok (gen_class_begin w x0 x1 x2);
  ok_class_end : text_ok (gen_class_end w);
  ok_class_alias x0 x1 : text_ok (gen_class_alias w x0 x1);
  ok_field_definition x0 x1 x2 : text_ok (gen_field_definition w x0 x1 x2);
  ok_flags_definitions k x1 : written k -> text_ok (gen_flags_definitions w k x1);
  ok_new_vars k : written k -> V k [] (replicate (Z.to_nat (k_var_count k)) empty_var);
  ok_vars k : written k -> steps (gen_vars w k None) (V k []) (V k []);
  ok_constructor_vars k : constructor_written k -> steps (gen_vars w k (Some (k_result k))) (V k []) (V k []);
  ok_function_vars k : written k -> k ∈ functions -> steps (gen_function_vars w k) (V k []) (V k []);
  ok_uni k x1 : constructor_written k -> steps (gen_uni w (k_result k) x1) (V k []) (V k []);
  ok_constructor_id_store x0 x1 : text_ok (gen_constructor_id_store w x0 x1);
  ok_field_fetch k p l a l' x0 x2 : written k -> k_args k = l ++ a :: l' ->
    steps (gen_field_fetch w x0 a x2 (get_parser_type w k p)) (V k l) (V k (l ++ [a]));
  ok_field_store k p l a l' x1 : written k -> k_args k = l ++ a :: l' ->
    steps (gen_field_store w a x1 (get_storer_type w k p)) (V k l) (V k (l ++ [a]));
  ok_type_fetch k p l v : written k -> k ∈ functions -> V k l v ->
    text_ok (gen_type_fetch w [] (k_result k) v (get_parser_type w k p));
  ok_var_type_fetch a : arg_written a -> node_type (a_type a) = NODE_TYPE_VAR_TYPE -> text_ok (gen_var_type_fetch w a);
  ok_get_id x0 x1 x2 : text_ok (gen_get_id w x0 x1 x2);
  ok_function_result_type k : written k -> k ∈ functions -> text_ok (gen_function_result_type w (k_result k));
  ok_fetch_function_begin k p x1 x2 n : written k -> arity_used n ->
    steps (gen_fetch_function_begin w p x1 x2 n (Z.of_nat (List.length (k_args k))) (get_parser_type w k p)) (V k []) (V k []);
  ok_fetch_function_end k p x0 x1 v : written k -> V k (k_args k) v -> text_ok (gen_fetch_function_end w x0 x1 v (get_parser_type w k p));
  ok_proxy_fetch_begin p x1 x2 n : arity_used n -> steps (gen_fetch_function_begin w p x1 x2 n (-1) (-1)) (eq []) (eq []);
  ok_proxy_fetch_end : text_ok (gen_fetch_function_end w false (-1) [] (-1));
  ok_fetch_function_result_begin x0 x1 x2 : text_ok (gen_fetch_function_result_begin w x0 x1 x2);
  ok_fetch_function_result_end : text_ok (gen_fetch_function_result_end w);
  ok_fetch_function_result_any_begin x0 x1 x2 : text_ok (gen_fetch_function_result_any_begin w x0 x1 x2);
  ok_fetch_function_result_any_end x0 : text_ok (gen_fetch_function_result_any_end w x0);
  ok_store_function_begin k p l x1 n : get_storers w <> [] -> written k -> arity_used n ->
    steps (gen_store_function_begin w p x1 n (get_storer_type w k p)) (V k l) (V k []);
  ok_store_function_end k p v : get_storers w <> [] -> written k -> V k (k_args k) v -> text_ok (gen_store_function_end w v (get_storer_type w k p));
  ok_proxy_store_begin p x1 n : get_storers w <> [] -> arity_used n -> steps (gen_store_function_begin w p x1 n (-1)) (eq []) (eq []);
  ok_proxy_store_end : get_storers w <> [] -> text_ok (gen_store_function_end w [] (-1));
  ok_fetch_switch_begin : text_ok (gen_fetch_switch_begin w);
  ok_fetch_switch_case k n : written k -> arity_used n -> text_ok (gen_fetch_switch_case w k n);
  ok_fetch_switch_end : text_ok (gen_fetch_switch_end w);
  ok_constructor_begin x0 x1 x2 : text_ok (gen_constructor_begin w x0 x1 x2);
  ok_constructor_parameter x0 x1 a x3 : arg_written a -> text_ok (gen_constructor_parameter w x0 x1 a x3);
  ok_constructor_field_init x0 x1 a x3 : arg_written a -> text_ok (gen_constructor_field_init w x0 x1 a x3);
  ok_constructor_end k x1 x2 : written k -> text_ok (gen_constructor_end w k x1 x2);
  ok_additional_function f k x2 : f ∈ get_additional_functions w -> written k -> text_ok (gen_additional_function w f k x2);
  ok_additional_proxy_function_begin f x1 x2 n x4 : f ∈ get_additional_functions w -> arity_used n ->
    text_ok (gen_additional_proxy_function_begin w f x1 x2 n x4);
  ok_additional_function_type f : f ∈ get_additional_functions w -> exists n, get_additional_function_type w f = Ret n;
  ok_additional_proxy_function_case_class f m x1 x2 n : f ∈ get_additional_functions w ->
    get_additional_function_type w f = Ret m -> has_flag m 1 = true -> arity_used n ->
    text_ok (gen_additional_proxy_function_case_class w f x1 x2 n);
  ok_additional_proxy_function_case f x1 k n x4 : f ∈ get_additional_functions w -> written k -> arity_used n ->
    text_ok (gen_additional_proxy_function_case w f x1 k n x4);
  ok_additional_proxy_function_end f x1 x2 : f ∈ get_additional_functions w -> text_ok (gen_additional_proxy_function_end w f x1 x2)
}.
End Calls.

Create HintDb runs.
#[export] Hint Resolve ok_base_tl_class_name ok_base_type_class_name ok_base_function_class_name ok_class_name ok_field_name
  ok_field_type ok_output_end ok_forward_class_declaration ok_class_begin ok_class_end
  ok_class_alias ok_field_definition ok_flags_definitions ok_constructor_id_store ok_var_type_fetch ok_get_id
  ok_function_result_type ok_fetch_function_result_begin
  ok_fetch_function_result_end ok_fetch_function_result_any_begin ok_fetch_function_result_any_end
  ok_proxy_fetch_end ok_proxy_store_end ok_fetch_switch_begin ok_fetch_switch_case
  ok_fetch_switch_end ok_constructor_begin ok_constructor_parameter ok_constructor_field_init
  ok_constructor_end ok_additional_function ok_additional_proxy_function_begin
  ok_additional_proxy_function_case_class ok_additional_proxy_function_case
  ok_additional_proxy_function_end
  arity_zero arity_type type_class combinator_class : runs.

(** ** Output *)

Section Output.
Context (w : TL_writer) (ts : list tl_type) (sm : list Z) (functions : list tl_combinator).
Context (V : tl_combinator -> list arg -> list var_description -> Prop) {WT : WriterTotal w ts sm functions V}.
Local Abbreviation text_ok := (text_ok ts sm).
Local Abbreviation steps := (steps ts sm).
Local Abbreviation written := (written w ts functions).
Local Abbreviation arg_written := (arg_written w ts functions).
Local Abbreviation arity_used := (arity_used w ts functions).

(** The output phase leaves types and numbers alone. *)
Definition here (s : gstate) : Prop := g_types s = ts /\ g_simple s = sm.

(** [m] returns, with a result in [Q]. *)
Definition runs {A} (m : G A) (Q : A -> Prop) : Prop :=
  forall s, here s -> exists x s', m s = Ret (x, s') /\ here s' /\ Q x.

Local Abbreviation returns m := (runs m (fun _ => True)).

Lemma runs_ret {A} (a : A) (Q : A -> Prop) : Q a -> runs (ret a) Q.
Proof. intros Ha s Hs. by exists a, s. Qed.

Lemma runs_bind {A B} (m : G A) (k : A -> G B) P Q :
  runs m P -> (forall a, P a -> runs (k a) Q) -> runs (bind m k) Q.
Proof.
  intros Hm Hk s Hs. destruct (Hm s Hs) as (a & s1 & E1 & Hs1 & Ha). destruct (Hk a Ha s1 Hs1) as (b & s2 & E2 & ?).
  exists b, s2. split; [unfold bind; rewrite E1; exact E2|done].
Qed.

Lemma runs_impl {A} (m : G A) (P Q : A -> Prop) : runs m P -> (forall a, P a -> Q a) -> runs m Q.
Proof. intros Hm HPQ s Hs. destruct (Hm s Hs) as (a & s1 & ? & ? & ?). exists a, s1. auto. Qed.

Lemma return_bind {A B} (m : G A) (k : A -> G B) : returns m -> (forall a, returns (k a)) -> returns (bind m k).
Proof. intros Hm Hk. eapply runs_bind; [exact Hm|auto]. Qed.

Lemma bind_return {A B} (m : G A) (k : A -> G B) Q : returns m -> (forall a, runs (k a) Q) -> runs (bind m k) Q.
Proof. intros Hm Hk. eapply runs_bind; [exact Hm|auto]. Qed.

Lemma runs_assert b (Q : unit -> Prop) : b = true -> Q tt -> runs (assert b) Q.
Proof. intros ->. apply runs_ret. Qed.

Lemma returns_each {A} (act : A -> G unit) l : (forall x, x ∈ l -> returns (act x)) -> returns (each act l).
Proof.
  induction l as [|x l IH]; intros Ha; [by apply runs_ret|]. apply return_bind; [apply Ha; left|].
  intros _. apply IH. intros y Hy. apply Ha. by right.
Qed.

Lemma returns_append t : returns (append t).
Proof. intros s Hs. by eexists tt, _. Qed.

Lemma returns_call m : text_ok m -> returns (call m).
Proof. intros [t Ht] s [E1 E2]. unfold call, to_heap. rewrite E1, E2, Ht. by exists t, s. Qed.

Lemma returns_emit m : text_ok m -> returns (emit m).
Proof. intros Hm. apply return_bind; [by apply returns_call|]. intros t. apply returns_append. Qed.

Lemma runs_call_vars m v P Q : steps m P Q -> P v -> runs (call_vars m v) (fun r => Q (snd r)).
Proof.
  intros Hm Hv s [E1 E2]. destruct (Hm v Hv) as (text & v' & Hr & HQ). unfold call_vars, to_heap. rewrite E1, E2, Hr.
  by exists (text, v'), s.
Qed.

Lemma runs_emit_vars m v P Q : steps m P Q -> P v -> runs (emit_vars m v) Q.
Proof.
  intros Hm Hv. eapply runs_bind; [by eapply runs_call_vars|]. intros r Hr. eapply runs_bind; [apply returns_append|].
  intros _ _. by apply runs_ret.
Qed.

Lemma runs_type_at i t : ts !! i = Some t -> runs (type_at i) (eq t).
Proof. intros Ht s [Es E2]. exists t, s. unfold type_at. rewrite Es, Ht. by split_and!. Qed.

Lemma runs_simple_at i n : sm !! i = Some n -> runs (simple_at i) (eq n).
Proof. intros Ht s [Es E2]. exists n, s. unfold simple_at. rewrite E2, Ht. by split_and!. Qed.

Lemma runs_supported k : (exists b, is_combinator_supported w ts k = Ret b) -> runs (supported w k) (eq (is_supported w ts k)).
Proof. intros [b Hb] s [Es E2]. exists b, s. unfold supported, is_supported. rewrite Es, Hb. by split_and!. Qed.

Lemma runs_additional_function_type f :
  f ∈ get_additional_functions w -> runs (additional_function_type w f) (fun n => get_additional_function_type w f = Ret n).
Proof.
  intros Hf s Hs. destruct (ok_additional_function_type w ts sm functions V f Hf) as [n Hn]. exists n, s.
  unfold additional_function_type. by rewrite Hn.
Qed.

Lemma runs_new_vars n : 0 <= n -> runs (new_vars n) (eq (replicate (Z.to_nat n) empty_var)).
Proof. intros Hn. unfold new_vars. destruct (Z.ltb_spec n 0); [lia|by apply runs_ret]. Qed.

Lemma runs_call_text m : text_ok m -> runs (call m) (fun t => m (mk_heap ts sm) = Ret t).
Proof.
  intros [t Ht] s [E1 E2]. unfold call, to_heap. rewrite E1, E2, Ht. by exists t, s.
Qed.

Hint Resolve returns_append returns_call returns_emit : runs.

(** Through binds, conditions and the calls that always return. *)
Ltac runs :=
  repeat first
    [ solve [eauto 4 with runs]
    | by apply runs_ret
    | apply return_bind; [|intros ?]
    | apply returns_each; intros ? ?
    | match goal with |- runs (if ?b then _ else _) _ => destruct b end ].

(** The texts that are not empty. *)
Definition shown (m : Text) : bool :=
  match m (mk_heap ts sm) with Ret t => negb (bool_decide (t = [])) | _ => false end.

Fixpoint count_shown (gen : Z -> arg -> Text) (l : list arg) (n : Z) : Z :=
  match l with
  | [] => n
  | a :: l => count_shown gen l (n + bool_int (shown (gen n a)))
  end.

Lemma runs_count_parameters c d l n :
  (forall a, a ∈ l -> arg_written a) ->
  runs (count_parameters w c d l n) (eq (count_shown (fun n a => gen_constructor_parameter w n c a d) l n)).
Proof.
  revert n. induction l as [|a l IH]; intros n Hl; cbn; [by apply runs_ret|].
  eapply runs_bind; [apply runs_call_text, (ok_constructor_parameter w ts sm functions V), Hl; left|]. intros t Ht. cbn beta in Ht. unfold shown. rewrite Ht.
  apply IH. intros b Hb. apply Hl. by right.
Qed.

Lemma runs_append_fields gen l n : (forall n a, a ∈ l -> text_ok (gen n a)) -> runs (append_fields gen l n) (eq (count_shown gen l n)).
Proof.
  revert n. induction l as [|a l IH]; intros n Hg; cbn; [by apply runs_ret|].
  assert (Hg' : forall n a, a ∈ l -> text_ok (gen n a)) by (intros ? ? ?; apply Hg; by right).
  eapply runs_bind; [apply runs_call_text, Hg; left|]. intros t Ht. cbn beta in Ht. unfold shown. rewrite Ht.
  case_bool_decide; cbn [negb bool_int].
  - rewrite Z.add_0_r. by apply IH.
  - eapply runs_bind; [apply returns_append|]. intros _ _. by apply IH.
Qed.

(** The parameters are counted twice, with the same result. *)
Lemma returns_write_class_constructor t c d : written t -> returns (write_class_constructor w t c d).
Proof.
  intros Ht. assert (Hl : forall a, a ∈ k_args t -> arg_written a) by (by exists t).
  unfold write_class_constructor. eapply runs_bind; [by apply runs_count_parameters|]. intros n <-.
  apply return_bind; [eauto 4 with runs|intros _].
  eapply runs_bind; [apply runs_append_fields; intros; by apply (ok_constructor_parameter w ts sm functions V), Hl|]. intros m <-.
  apply return_bind; [apply runs_assert; [apply Z.eqb_refl|done]|intros _].
  eapply runs_bind; [apply runs_append_fields; intros; by apply (ok_constructor_field_init w ts sm functions V), Hl|]. intros m _. eauto 4 with runs.
Qed.

(** The loops over the fields, from [l] on. *)
Lemma runs_fetch_fields k p l l' f n v :
  written k -> k_args k = l ++ l' -> V k l v -> runs (fetch_fields w f (get_parser_type w k p) l' n v) (fun r => V k (k_args k) (snd r)).
Proof.
  intros Hw. revert l n v. induction l' as [|a l' IH]; intros l n v E Hv; cbn.
  { apply runs_ret. cbn. by rewrite E, app_nil_r. }
  eapply runs_bind; [by eapply runs_call_vars; [eapply ok_field_fetch|]|]. intros r Hr. cbn beta in Hr.
  rewrite cons_middle, app_assoc in E. case_bool_decide; [by apply (IH (l ++ [a]))|].
  eapply runs_bind; [apply returns_append|]. intros _ _. by apply (IH (l ++ [a])).
Qed.

Lemma runs_store_fields k p l l' f v :
  written k -> k_args k = l ++ l' -> V k l v -> runs (store_fields w f (get_storer_type w k p) l' v) (V k (k_args k)).
Proof.
  intros Hw. revert l v. induction l' as [|a l' IH]; intros l v E Hv; cbn.
  { apply runs_ret. by rewrite E, app_nil_r. }
  eapply runs_bind; [by eapply runs_emit_vars; [eapply ok_field_store|]|]. intros r Hr.
  rewrite cons_middle, app_assoc in E. by apply (IH (l ++ [a])).
Qed.

Hint Resolve returns_write_class_constructor : runs.

(** What the generator needs of a combinator that it writes. *)
Record writable (k : tl_combinator) : Prop := {
  wr_vars : 0 <= k_var_count k;
  wr_args a : a ∈ k_args k -> -1 <= a_var_num a < k_var_count k;
  wr_decided : exists b, is_combinator_supported w ts k = Ret b;
  wr_var_types a f n : is_supported w ts k = true -> a ∈ k_args k -> a_type a = tl_tree_var_type f n ->
    has_flag (arg_flags a) FLAG_EXCL = true /\ 0 <= n;
  wr_result : is_supported w ts k = true ->
    (exists f i ch, k_result k = tl_tree_type f i ch /\ is_Some (sm !! i)) \/ exists f n, k_result k = tl_tree_var_type f n
}.

Lemma returns_field_definitions v c l n :
  (forall a, a ∈ l -> arg_written a) -> (forall a, a ∈ l -> -1 <= a_var_num a < v) -> returns (field_definitions w v c l n).
Proof.
  revert n. induction l as [|a l IH]; intros n Hw Hl; cbn; [by apply runs_ret|].
  apply return_bind; [apply runs_assert; [|done]|].
  { destruct (Hl a ltac:(left)). apply andb_true_iff. split; [by apply Z.leb_le|by apply Z.ltb_lt]. }
  intros _. eapply runs_bind; [apply runs_call_text, (ok_field_type w ts sm functions V), Hw; left|]. intros t Ht. cbn beta in Ht. apply return_bind.
  - case_bool_decide; [by apply runs_ret|]. apply return_bind; [|runs]. eapply returns_call, (ok_field_name w ts sm functions V); [apply Hw; left|done..].
  - intros _. apply IH; intros b Hb; [apply Hw|apply Hl]; by right.
Qed.

Section Combinator.
Context (k : tl_combinator) (Hk : writable k) (Hw : written k).

Lemma args_written a : a ∈ k_args k -> arg_written a.
Proof. by exists k. Qed.

Hint Resolve args_written : runs.

Lemma runs_write_function_store n c r q v l : get_storers w <> [] -> V k l v -> runs (write_function_store w n k c r q v) (fun v => exists l, V k l v).
Proof.
  intros Hst Hv. unfold write_function_store. destruct (negb _); [apply runs_ret; by exists l|].
  eapply runs_bind; [eapply runs_emit_vars; [eapply ok_store_function_begin; eauto using arity_zero|done]|]. intros v1 H1.
  eapply runs_bind; [eapply returns_emit, ok_constructor_id_store; exact WT|]. intros _ _.
  eapply runs_bind; [by apply (runs_store_fields k n [])|]. intros v2 H2.
  eapply runs_bind; [by eapply returns_emit, ok_store_function_end|]. intros _ _. apply runs_ret. by exists (k_args k).
Qed.

Lemma runs_function_stores c r q ns v l : (ns <> [] -> get_storers w <> []) -> V k l v -> runs (function_stores w k c r q ns v) (fun v => exists l, V k l v).
Proof.
  intros Hst. revert v l. induction ns as [|n ns IH]; intros v l Hv; cbn; [apply runs_ret; by exists l|].
  eapply runs_bind; [by eapply runs_write_function_store; [apply Hst|]|]. intros v1 (l1 & H1). eapply IH; [|done]. intros _. by apply Hst.
Qed.

Lemma returns_gen_field_definitions c : returns (gen_field_definitions w k c).
Proof. apply returns_field_definitions; [apply args_written|apply Hk]. Qed.

Lemma runs_vars : runs (new_vars (k_var_count k)) (V k []).
Proof. eapply runs_impl; [apply runs_new_vars, Hk|]. intros v <-. by eapply ok_new_vars. Qed.

Lemma returns_write_function_fetch n c r q : returns (write_function_fetch w n k c r q).
Proof.
  unfold write_function_fetch. destruct (negb _); [by apply runs_ret|]. eapply runs_bind; [apply runs_vars|]. intros v1 H1.
  eapply runs_bind; [eapply runs_emit_vars; [eapply ok_fetch_function_begin; eauto using arity_zero|done]|]. intros v2 H2.
  eapply runs_bind; [eapply runs_emit_vars; [by eapply ok_vars|done]|]. intros v3 H3.
  eapply runs_bind; [by apply (runs_fetch_fields k n [])|]. intros x Hx. by eapply returns_emit, ok_fetch_function_end.
Qed.

Lemma returns_write_function_result_fetch n c v l :
  k ∈ functions -> V k l v -> returns (write_function_result_fetch w n k c (k_result k) v).
Proof.
  intros Hf Hv. pose proof Hw as [Hs _]. unfold write_function_result_fetch. apply return_bind; [eauto 4 with runs|intros _].
  apply return_bind; [|intros _; runs].
  destruct (wr_result k Hk Hs) as [(f & i & ch & Er & _)|(f & m & Er)]; rewrite Er; [rewrite <- Er; by eapply returns_emit, ok_type_fetch|].
  apply returns_each. intros a Ha. destruct (a_type a) as [| |f' m'| | ] eqn:Ea; try by apply runs_ret.
  destruct (wr_var_types k Hk a f' m' Hs Ha Ea) as [Hx Hm]. apply return_bind; [by apply runs_assert|intros _].
  apply return_bind; [apply runs_assert; [by apply Z.geb_le|done]|intros _].
  destruct (_ =? _); [|by apply runs_ret]. apply returns_emit, (ok_var_type_fetch w ts sm functions V); [by apply args_written|by rewrite Ea].
Qed.

Section Constructor.
Hypothesis Hc : constructor_written w ts functions k.

Lemma returns_write_constructor_fetch n c p b r q : returns (write_constructor_fetch w n k c p (k_result k) b r q).
Proof.
  unfold write_constructor_fetch. destruct (negb _); [by apply runs_ret|]. eapply runs_bind; [apply runs_vars|]. intros v1 H1.
  eapply runs_bind; [eapply runs_emit_vars; [eapply ok_fetch_function_begin; eauto using arity_result|done]|]. intros v2 H2.
  eapply runs_bind; [eapply runs_emit_vars; [by eapply ok_constructor_vars|done]|]. intros v3 H3.
  eapply runs_bind; [eapply runs_emit_vars; [by eapply ok_uni|done]|]. intros v4 H4.
  eapply runs_bind; [by apply (runs_fetch_fields k n [])|]. intros x Hx. by eapply returns_emit, ok_fetch_function_end.
Qed.

Lemma returns_write_constructor_store n c b r q : get_storers w <> [] -> returns (write_constructor_store w n k c (k_result k) b r q).
Proof.
  intros Hst. unfold write_constructor_store. eapply runs_bind; [apply runs_vars|]. intros v1 H1. destruct (negb _); [by apply runs_ret|].
  eapply runs_bind; [eapply runs_emit_vars; [eapply ok_store_function_begin; eauto using arity_result|done]|]. intros v2 H2.
  eapply runs_bind; [eapply runs_emit_vars; [by eapply ok_constructor_vars|done]|]. intros v3 H3.
  eapply runs_bind; [eapply runs_emit_vars; [by eapply ok_uni|done]|]. intros v4 H4.
  eapply runs_bind; [by apply (runs_store_fields k n [])|]. intros x Hx. by eapply returns_emit, ok_store_function_end.
Qed.
End Constructor.

Hint Resolve returns_gen_field_definitions returns_write_function_fetch returns_write_constructor_fetch
  returns_write_constructor_store : runs.

Lemma returns_write_function r q : k ∈ functions -> returns (write_function w k r q).
Proof.
  intros Hf. pose proof Hw as [Hs _]. unfold write_function. eapply runs_bind; [apply runs_supported, Hk|]. intros b <-.
  rewrite Hs. apply return_bind; [by apply runs_assert|intros _].
  do 5 (apply return_bind; [eauto 4 with runs|intros ?]). eapply runs_bind; [apply runs_vars|]. intros v1 H1.
  eapply runs_bind; [eapply runs_emit_vars; [by eapply ok_function_vars|done]|]. intros v2 H2.
  do 2 (apply return_bind; [runs|intros ?]). do 2 (apply return_bind; [eauto 4 with runs|intros ?]).
  apply return_bind; [runs|intros _]. eapply runs_bind; [by eapply runs_function_stores|]. intros v3 (l & H3).
  apply return_bind; [|intros _; runs]. apply returns_each. intros p _. case_bool_decide; [by apply runs_ret|].
  by eapply returns_write_function_result_fetch.
Qed.

Lemma returns_write_constructor b p x r q :
  node_type (k_result k) = NODE_TYPE_TYPE -> constructor_written w ts functions k -> returns (write_constructor w k b p x r q).
Proof.
  intros Hty Hcw. pose proof Hw as [Hs _]. destruct (wr_result k Hk Hs) as [(f & i & ch & Er & n & Hn)|(f & n & Er)]; [|by rewrite Er in Hty].
  unfold write_constructor.
  eapply runs_bind; [apply runs_supported, Hk|]. intros ? <-. rewrite Hs. apply return_bind; [by apply runs_assert|intros _].
  runs. rewrite Er at 1. apply return_bind; apply returns_each || intros _; [|apply returns_each]; intros y Hy%elem_of_not_nil;
    (eapply runs_bind; [by apply runs_simple_at|]; intros ? _; eauto 4 with runs).
Qed.
End Combinator.

(** ** Types *)

(** What the analysis leaves for the types that are generated. *)
Record analysed : Prop := {
  an_num t : t ∈ ts -> t_constructors_num t = Z.of_nat (List.length (t_constructors t));
  an_writable t k : t ∈ ts -> k ∈ t_constructors t -> is_generated w t = true -> writable k /\ node_type (k_result k) = NODE_TYPE_TYPE;
  an_generated i t : ts !! i = Some t -> is_generated w t = true ->
    t_flags t = 0 /\ 0 <= t_arity t /\ 0 < supported_count w ts t /\ sm !! i = Some (supported_count w ts t)
}.

Context (HA : analysed).

Lemma runs_constructors_of t : t ∈ ts -> runs (constructors_of t) (eq (t_constructors t)).
Proof.
  intros Ht. unfold constructors_of. rewrite (an_num HA t Ht), Z.leb_refl, Nat2Z.id, firstn_all. by apply runs_ret.
Qed.

Lemma returns_each_supported act l :
  (forall k, k ∈ l -> writable k) -> (forall k, k ∈ l -> is_supported w ts k = true -> returns (act k)) ->
  returns (each_supported w act l).
Proof.
  intros Hd Ha. apply returns_each. intros k Hk. eapply runs_bind; [apply runs_supported, Hd, Hk|]. intros b <-.
  destruct (is_supported w ts k) eqn:E; [by apply Ha|by apply runs_ret].
Qed.

Lemma returns_each_generated act l :
  (forall i, i ∈ l -> (i < List.length ts)%nat) -> (forall i t, ts !! i = Some t -> is_generated w t = true -> returns (act i t)) ->
  returns (each_generated w act l).
Proof.
  intros Hl Ha. apply returns_each. intros i Hi. destruct (lookup_lt_is_Some_2 ts i (Hl i Hi)) as [t Ht].
  eapply runs_bind; [by apply runs_type_at|]. intros ? <-. destruct (is_generated w t) eqn:E; [by apply Ha|by apply runs_ret].
Qed.

(** The constructors of a generated type. *)
Lemma returns_constructors i t (act : list tl_combinator -> G unit) :
  ts !! i = Some t -> returns (act (t_constructors t)) -> returns (bind (constructors_of t) act).
Proof.
  intros Ht Ha. eapply runs_bind; [apply runs_constructors_of; by eapply list_elem_of_lookup_2|]. by intros ? <-.
Qed.

Section Generated.
Context (i : nat) (t : tl_type) (Ht : ts !! i = Some t) (Hg : is_generated w t = true).

Lemma generated_result k : k ∈ t_constructors t -> writable k /\ node_type (k_result k) = NODE_TYPE_TYPE.
Proof. intros Hk. eapply (an_writable HA t); [by eapply list_elem_of_lookup_2|done|done]. Qed.

Lemma generated_writable k : k ∈ t_constructors t -> writable k.
Proof. intros Hk. by apply generated_result. Qed.

Lemma is_a_class : generated w ts t.
Proof. split; [by eapply list_elem_of_lookup_2|done]. Qed.

Lemma generated_written k : k ∈ t_constructors t -> is_supported w ts k = true -> written k.
Proof. intros Hk Hs. split; [done|]. right. exists t. split; [apply is_a_class|done]. Qed.

Hint Resolve is_a_class : runs.

Lemma returns_supported_constructors act :
  (forall k, written k -> returns (act k)) -> returns (bind (constructors_of t) (each_supported w act)).
Proof.
  intros Ha. eapply returns_constructors; [exact Ht|]. apply returns_each_supported; [apply generated_writable|].
  intros k Hk Hs. by apply Ha, generated_written.
Qed.

Lemma returns_write_forward : returns (write_forward w i t).
Proof.
  destruct (an_generated HA i t Ht Hg) as (Hf & _ & _ & Hs). unfold write_forward.
  apply return_bind; [apply runs_assert; [by rewrite Hf|done]|intros _].
  eapply runs_bind; [by apply runs_simple_at|]. intros n <-. destruct (negb _); [runs|].
  apply returns_supported_constructors. intros k Hk. runs.
Qed.

Lemma runs_write_constructors o c b r q l n :
  (forall k, k ∈ l -> k ∈ t_constructors t) ->
  runs (write_constructors w o c b r q l n) (eq (n + Z.of_nat (List.length (List.filter (is_supported w ts) l)))).
Proof.
  revert n. induction l as [|k l IH]; intros n Hl; cbn [write_constructors]; [apply runs_ret; cbn; lia|].
  destruct (generated_result k (Hl k ltac:(left))) as [Hk Hty].
  assert (Hl' : forall k, k ∈ l -> k ∈ t_constructors t) by (intros ? ?; apply Hl; by right).
  eapply runs_bind; [by apply runs_supported, Hk|]. intros ? <-. cbn [List.filter].
  destruct (is_supported w ts k) eqn:E; [|by apply IH]. pose proof (generated_written k (Hl k ltac:(left)) E) as Hw.
  assert (Hcw : constructor_written w ts functions k) by (split; [done|]; exists t; split; [apply is_a_class|apply Hl; left]). eapply runs_bind.
  - destruct o; [|by apply returns_write_constructor]. apply return_bind; [eauto 4 with runs|intros p].
    apply return_bind; [by apply returns_write_constructor|intros _]. runs.
  - intros _ _. eapply runs_impl; [by apply IH|]. intros m <-. cbn [List.length]. lia.
Qed.

Lemma runs_proxy_fetches c r q l : runs (proxy_fetches w t c r q l []) (eq []).
Proof.
  induction l as [|n l IH]; cbn [proxy_fetches]; [by apply runs_ret|]. destruct (negb _); [done|].
  eapply runs_bind; [eapply runs_emit_vars; [eapply ok_proxy_fetch_begin; eauto using arity_type, is_a_class|done]|]. intros v <-.
  apply bind_return; [eauto 4 with runs|intros _].
  eapply runs_bind; [apply runs_constructors_of; by eapply list_elem_of_lookup_2|]. intros ks <-.
  apply bind_return; [apply returns_each_supported; [apply generated_writable|intros k Hk Hs; pose proof (generated_written k Hk Hs); runs]|intros _].
  do 2 (apply bind_return; [eauto 4 with runs|intros _]). done.
Qed.

Lemma runs_proxy_stores c r q l : (l <> [] -> get_storers w <> []) -> runs (proxy_stores w t c r q l []) (eq []).
Proof.
  induction l as [|n l IH]; cbn [proxy_stores]; [by intros _; apply runs_ret|]. intros Hst. specialize (Hst ltac:(done)).
  specialize (IH (fun _ => Hst)). destruct (negb _); [done|].
  eapply runs_bind; [eapply runs_emit_vars; [eapply ok_proxy_store_begin; eauto using arity_type, is_a_class|done]|]. intros v <-.
  apply bind_return; [eauto 4 with runs|intros _]. done.
Qed.

Lemma returns_write_proxy_class c b r q : returns (write_proxy_class w i t c b r q).
Proof.
  unfold write_proxy_class. apply return_bind; [eauto 4 with runs|intros _]. apply return_bind; [eauto 4 with runs|intros _].
  eapply runs_bind; [apply runs_proxy_fetches|]. intros v <-. eapply runs_bind; [by apply runs_proxy_stores|]. intros v _.
  apply return_bind; [|intros _; eauto 4 with runs]. apply returns_each. intros f Hf. apply return_bind; [eauto 4 with runs|intros _].
  eapply runs_bind; [apply runs_constructors_of; by eapply list_elem_of_lookup_2|]. intros ks <-.
  apply return_bind; [apply returns_each_supported; [apply generated_writable|intros k Hk Hs; pose proof (generated_written k Hk Hs); runs]|intros _]. runs.
Qed.

(** All the assertions of [write_class]. *)
Lemma returns_write_class r q : returns (write_class w i r q).
Proof.
  destruct (an_generated HA i t Ht Hg) as (Hf & Har & Hpos & Hs). unfold write_class.
  eapply runs_bind; [by apply runs_type_at|]. intros ? <-.
  pose proof Hg as Hg'. unfold is_generated in Hg'. rewrite negb_true_iff, !orb_false_iff in Hg'. destruct Hg' as (((H1 & H2) & H3) & H4).
  pose proof (an_num HA t ltac:(by eapply list_elem_of_lookup_2)) as Hn. apply Z.eqb_neq in H1.
  apply return_bind; [apply runs_assert; [apply Z.gtb_lt; lia|done]|intros _].
  rewrite H2, H3, H4. do 3 (apply return_bind; [by apply runs_assert|intros _]).
  apply return_bind; [apply runs_assert; [apply Z.geb_le; lia|done]|intros _].
  eapply runs_bind; [by apply runs_simple_at|]. intros n <-.
  apply return_bind; [apply runs_assert; [apply Z.gtb_lt; lia|done]|intros _].
  apply return_bind; [apply runs_assert; [by rewrite Hf|done]|intros _].
  apply return_bind; [eauto 4 with runs|intros base]. apply return_bind; [eauto 4 with runs|intros c].
  apply return_bind; [destruct (negb _); [apply returns_write_proxy_class|by apply runs_ret]|intros _].
  eapply runs_bind; [apply runs_constructors_of; by eapply list_elem_of_lookup_2|]. intros ks <-.
  eapply runs_bind; [by apply runs_write_constructors|]. intros m <-.
  apply runs_assert; [|done]. apply Z.eqb_eq. done.
Qed.
End Generated.

(** ** The whole output *)

Lemma all_types_lt i : i ∈ seq 0 (List.length ts) -> (i < List.length ts)%nat.
Proof. rewrite elem_of_seq. lia. Qed.

Lemma returns_count_cases r q l n : (forall k, k ∈ l -> writable k) -> returns (count_cases w r q l n).
Proof.
  revert n. induction l as [|k l IH]; intros n Hl; cbn; [by apply runs_ret|].
  eapply runs_bind; [apply runs_supported, Hl; left|]. intros b _. apply IH. intros ? ?. apply Hl. by right.
Qed.

Lemma returns_case_count a r q l n : (forall i, i ∈ l -> (i < List.length ts)%nat) -> returns (case_count w a r q l n).
Proof.
  revert n. induction l as [|i l IH]; intros n Hl; cbn; [by apply runs_ret|].
  assert (Hl' : forall i, i ∈ l -> (i < List.length ts)%nat) by (intros ? ?; apply Hl; by right).
  destruct (lookup_lt_is_Some_2 ts i (Hl i ltac:(left))) as [t Ht]. eapply runs_bind; [by apply runs_type_at|]. intros ? <-.
  destruct (is_generated w t && (t_arity t =? a)) eqn:E; [|by apply IH]. apply andb_true_iff in E as [Hg _].
  eapply runs_bind; [apply runs_constructors_of; by eapply list_elem_of_lookup_2|]. intros ks <-.
  eapply runs_bind; [apply returns_count_cases; by apply (generated_writable i t)|]. intros m _. by apply IH.
Qed.

Lemma runs_base_fetches r q a l : arity_used a -> runs (base_fetches w (List.length ts) r q a l []) (eq []).
Proof.
  intros Ha. induction l as [|n l IH]; cbn [base_fetches]; [by apply runs_ret|].
  eapply runs_bind; [apply returns_case_count, all_types_lt|]. intros m _. destruct (m =? 0); [done|].
  apply bind_return; [eauto 4 with runs|intros name].
  eapply runs_bind; [eapply runs_emit_vars; [by eapply ok_proxy_fetch_begin|done]|]. intros v <-.
  apply bind_return; [eauto 4 with runs|intros _]. apply bind_return; [|intros _; do 2 (apply bind_return; [eauto 4 with runs|intros _]); done].
  apply returns_each_generated; [apply all_types_lt|]. intros i t Ht Hg. destruct (t_arity t =? a); [|by apply runs_ret].
  apply (returns_supported_constructors i t Ht Hg). intros k Hk. runs.
Qed.

Lemma runs_base_stores c a l : (l <> [] -> get_storers w <> []) -> text_ok c -> arity_used a -> runs (base_stores w c a l []) (eq []).
Proof.
  intros Hst Hc Ha. induction l as [|n l IH]; cbn; [by apply runs_ret|]. specialize (Hst ltac:(done)). specialize (IH (fun _ => Hst)).
  apply bind_return; [eauto 4 with runs|intros name].
  eapply runs_bind; [eapply runs_emit_vars; [by eapply ok_proxy_store_begin|done]|]. intros v <-.
  apply bind_return; [eauto 4 with runs|intros _]. done.
Qed.

Lemma returns_base_additional a f :
  arity_used a -> f ∈ get_additional_functions w -> returns (base_additional w (List.length ts) a f).
Proof.
  intros Ha Hin. unfold base_additional. apply return_bind; [eauto 4 with runs|intros name]. apply return_bind; [eauto 4 with runs|intros _].
  apply return_bind; [|intros _; eauto 4 with runs]. apply returns_each_generated; [apply all_types_lt|]. intros i t Ht Hg.
  destruct (t_arity t =? a); [|by apply runs_ret]. destruct (an_generated HA i t Ht Hg) as (_ & _ & _ & Hs).
  eapply runs_bind; [by apply runs_additional_function_type|]. intros m Hm. cbn beta in Hm.
  eapply runs_bind; [by apply runs_simple_at|]. intros n _.
  pose proof (is_a_class i t Ht Hg). apply return_bind; [|intros _].
  { destruct (has_flag m 1) eqn:Hm1; cbn [andb]; runs. } destruct (_ || _); [|by apply runs_ret]. apply (returns_supported_constructors i t Ht Hg). intros k Hk. runs.
Qed.

Lemma runs_write_base_classes r q l :
  (forall a, a ∈ l -> arity_used (Z.of_nat a)) -> runs (write_base_classes w (List.length ts) r q l []) (eq []).
Proof.
  induction l as [|a l IH]; intros Hl; cbn [write_base_classes]; [by apply runs_ret|].
  pose proof (Hl a ltac:(left)) as Ha. eapply runs_bind with (P := eq []); [|intros v' <-; apply IH; intros b Hb; apply Hl; by right].
  unfold write_base_class. do 5 (apply bind_return; [eauto 4 with runs|intros ?]).
  eapply runs_bind; [by apply runs_base_fetches|]. intros v <-.
  apply bind_return; [apply returns_each; intros f Hf; by apply returns_base_additional|intros _].
  eapply runs_bind; [apply runs_base_stores; eauto 4 with runs|]. intros v <-.
  apply bind_return; [eauto 4 with runs|intros _]. by apply runs_ret.
Qed.

Context (HF : forall f, f ∈ functions -> writable f).

Lemma functions_written f : f ∈ functions -> is_supported w ts f = true -> written f.
Proof. intros Hf Hs. split; [done|by left]. Qed.

Hint Resolve functions_written : runs.

Lemma arities_used a : a ∈ arities w -> arity_used (Z.of_nat a).
Proof. unfold arities. rewrite elem_of_seq. intros Ha. apply arity_base. lia. Qed.

Lemma runs_function_fetches l : runs (function_fetches w functions l []) (eq []).
Proof.
  induction l as [|n l IH]; cbn [function_fetches]; [by apply runs_ret|]. case_bool_decide; [done|].
  apply bind_return; [eauto 4 with runs|intros name].
  eapply runs_bind; [eapply runs_emit_vars; [eapply ok_proxy_fetch_begin; eauto using arity_zero|done]|]. intros v <-.
  apply bind_return; [eauto 4 with runs|intros _].
  apply bind_return; [apply returns_each_supported; [done|intros; runs]|intros _].
  do 2 (apply bind_return; [eauto 4 with runs|intros _]). done.
Qed.

Lemma returns_write_base_function : returns (write_base_function w functions []).
Proof.
  unfold write_base_function. do 4 (apply return_bind; [eauto 4 with runs|intros ?]).
  eapply runs_bind; [apply runs_function_fetches|]. intros v1 <-.
  apply return_bind; [case_bool_decide; [by apply runs_ret|eapply runs_impl; [apply runs_base_stores; eauto 4 with runs|done]]|intros _].
  apply return_bind; [runs|intros _]. apply return_bind; [|intros _; eauto 4 with runs].
  apply returns_each. intros f Hf. apply return_bind; [eauto 4 with runs|intros _].
  apply return_bind; [apply returns_each_supported; [done|intros; runs]|intros _]. runs.
Qed.

Lemma returns_write_output r q : returns (write_output w (List.length ts) functions r q).
Proof.
  unfold write_output. apply return_bind; [apply returns_each_generated; [apply all_types_lt|]; intros; by apply returns_write_forward|intros _].
  apply return_bind; [apply returns_each; intros a Ha%arities_used; runs|intros _].
  apply return_bind; [apply returns_each; intros f Hf; eapply runs_bind; [apply runs_supported, HF, Hf|]; intros; by apply runs_ret|intros _].
  eapply runs_bind; [apply runs_write_base_classes, arities_used|]. intros v <-. apply return_bind; [apply returns_write_base_function|intros _].
  apply return_bind.
  { apply returns_each. intros i Hi. destruct (lookup_lt_is_Some_2 ts i (all_types_lt i Hi)) as [t Ht].
    eapply runs_bind; [by apply runs_type_at|]. intros ? <-.
    destruct (is_generated w t) eqn:Hg; pose proof Hg as Hg'; unfold is_generated in Hg'.
    - apply negb_true_iff in Hg'. rewrite Hg'. by apply (returns_write_class i t).
    - apply negb_false_iff in Hg'. rewrite Hg'. by apply runs_ret. }
  intros _. apply return_bind; [apply returns_each_supported; [done|]; intros f Hf Hs; apply returns_write_function; auto using functions_written|intros _].
  eauto 4 with runs.
Qed.
End Output.

(** ** The analysis does not look at the output, or at the numbers that it computes *)

(** What it does to these numbers is a list of assignments. *)
Definition replay (log : list (nat * Z)) (sm : list Z) : list Z := foldl (fun sm p => <[fst p := snd p]> sm) sm log.

Lemma replay_length log sm : List.length (replay log sm) = List.length sm.
Proof. revert sm. induction log as [|p log IH]; intros sm; [done|]. cbn. unfold replay in IH. by rewrite IH, length_insert. Qed.

Lemma replay_other log sm i : i ∉ map fst log -> replay log sm !! i = sm !! i.
Proof.
  revert sm. induction log as [|[j n] log IH]; intros sm; [done|]. cbn. intros [Hj Hi]%not_elem_of_cons.
  etrans; [by apply IH|]. by apply list_lookup_insert_ne.
Qed.

Lemma replay_over log sm sm' :
  List.length sm = List.length sm' -> (forall i, i ∉ map fst log -> sm !! i = sm' !! i) -> replay log sm = replay log sm'.
Proof.
  revert sm sm'. induction log as [|[j n] log IH]; intros sm sm' Hl Hi; [apply list_eq; intros i; apply Hi, not_elem_of_nil|].
  cbn. apply IH; [by rewrite !length_insert|]. intros i Hlog. destruct (decide (i = j)) as [->|Hne].
  - destruct (decide (j < List.length sm)%nat); [by rewrite !list_lookup_insert_eq by lia|].
    by rewrite !list_insert_ge, !(proj2 (lookup_ge_None _ _)) by lia.
  - rewrite !list_lookup_insert_ne by done. apply Hi. cbn. by apply not_elem_of_cons.
Qed.

(** Assigning the same numbers again changes nothing. *)
Lemma replay_replay log sm : replay log (replay log sm) = replay log sm.
Proof. apply replay_over; [apply replay_length|]. intros i. apply replay_other. Qed.

Definition replays {A} (m : G A) : Prop :=
  forall s x s', m s = Ret (x, s') ->
  exists log, forall sm o, m (mk_g (g_types s) sm o) = Ret (x, mk_g (g_types s') (replay log sm) o).

Lemma replays_nothing {A} (m : G A) :
  (forall s x s' sm o, m s = Ret (x, s') -> m (mk_g (g_types s) sm o) = Ret (x, mk_g (g_types s') sm o)) -> replays m.
Proof. intros Hm s x s' E. exists []. intros sm o. by apply Hm. Qed.

Lemma replays_ret {A} (a : A) : replays (ret a).
Proof. apply replays_nothing. by intros s x s' sm o [= <- <-]. Qed.

Lemma replays_fail {A} f : replays (fail f : G A).
Proof. by intros s x s' E. Qed.

Lemma replays_bind {A B} (m : G A) (k : A -> G B) : replays m -> (forall a, replays (k a)) -> replays (bind m k).
Proof.
  intros Hm Hk s b s' (a & s1 & E1 & E2)%bind_Ret. destruct (Hm _ _ _ E1) as [l1 H1], (Hk _ _ _ _ E2) as [l2 H2].
  exists (l1 ++ l2). intros sm o. apply bind_Ret. eexists a, _. split; [apply H1|]. rewrite H2. unfold replay. by rewrite foldl_app.
Qed.

Lemma replays_assert b : replays (assert b).
Proof. destruct b; [apply replays_ret|apply replays_fail]. Qed.

Lemma replays_each {A} (act : A -> G unit) l : (forall x, replays (act x)) -> replays (each act l).
Proof. intros Ha. induction l as [|x l IH]; [apply replays_ret|]. by apply replays_bind. Qed.

Lemma replays_type_at i : replays (type_at i).
Proof. apply replays_nothing. intros s x s' sm o. unfold type_at. cbn. destruct (g_types s !! i); [|done]. by intros [= <- <-]. Qed.

Lemma replays_update_flags i f : replays (update_flags i f).
Proof. apply replays_nothing. intros s x s' sm o. unfold update_flags. cbn. destruct (g_types s !! i); [|done]. by intros [= <- <-]. Qed.

Lemma replays_set_simple i n : replays (set_simple i n).
Proof. intros s x s' [= <- <-]. by exists [(i, n)]. Qed.

Lemma replays_supported w k : replays (supported w k).
Proof.
  apply replays_nothing. intros s x s' sm o. unfold supported. cbn.
  destruct (is_combinator_supported w (g_types s) k); cbn; [|done..]. by intros [= <- <-].
Qed.

Create HintDb replays.
#[export] Hint Resolve replays_ret replays_fail replays_assert replays_type_at replays_update_flags replays_set_simple
  replays_supported : replays.

Ltac replays :=
  repeat first
    [ solve [auto with replays]
    | apply replays_bind; [|intros ?]
    | apply replays_each; intros ?
    | match goal with |- replays (if ?b then _ else _) => destruct b end
    | match goal with |- replays (match ?x with _ => _ end) => destruct x end ].

Lemma replays_check_type w i : replays (check_type w i).
Proof. unfold check_type, check_constructor, check_arg, check_item, check_parameter, result_child, set_complex. replays. Qed.

Lemma replays_count_supported w l n : replays (count_supported w l n).
Proof. revert n. induction l as [|k l IH]; intros n; cbn; replays. Qed.

Lemma replays_complex_round w l b : replays (complex_round w l b).
Proof.
  revert b. induction l as [|i l IH]; intros b; cbn; [apply replays_ret|]. apply replays_bind; [|done].
  pose proof replays_count_supported. unfold complex_step, constructors_of. replays.
Qed.

Lemma replays_complex_loop w n l : replays (complex_loop w n l).
Proof.
  induction n as [|n IH]; cbn; [by intros s x s' E|]. apply replays_bind; [apply replays_complex_round|]. intros [|]; [done|apply replays_ret].
Qed.

Lemma replays_analyse w fs : replays (analyse w fs).
Proof.
  intros s x s' E. unfold analyse in E. apply bind_Ret in E as (s0 & s1 & [= <- <-] & E). apply bind_Ret in E as ([] & s2 & E2 & E).
  apply bind_Ret in E as ([] & s3 & E3 & E). apply bind_Ret in E as (s4 & s5 & [= <- <-] & E).
  apply rbind_Ret in E as (r & Er & [= <- <-]).
  destruct (replays_each _ _ (replays_check_type w) _ _ _ E2) as [l2 H2], (replays_complex_loop _ _ _ _ _ _ E3) as [l3 H3].
  exists (l2 ++ l3). intros sm o. unfold analyse. apply bind_Ret. eexists _, _. split; [done|].
  apply bind_Ret. eexists tt, _. split; [apply H2|]. apply bind_Ret. eexists tt, _. split; [apply H3|].
  apply bind_Ret. eexists _, _. split; [done|]. cbn. rewrite Er. unfold replay. by rewrite foldl_app.
Qed.

Definition with_out (s : gstate) (o : list Z) : gstate := mk_g (g_types s) (g_simple s) o.

Lemma silent_analyse w fs s x s' o : analyse w fs s = Ret (x, s') -> analyse w fs (with_out s o) = Ret (x, with_out s' o).
Proof.
  intros E. destruct (replays_analyse w fs s x s' E) as [log H]. pose proof (H (g_simple s) (g_out s)) as E'.
  assert (mk_g (g_types s) (g_simple s) (g_out s) = s) as Hs by by destruct s. rewrite Hs, E in E'. injection E' as E'.
  unfold with_out. rewrite H, E'. done.
Qed.

(** ** What [write_tl] leaves behind *)

Definition keeps_simple {A} (m : G A) : Prop := forall s x s', m s = Ret (x, s') -> g_simple s' = g_simple s.

Lemma keeps_simple_quiet {A} (m : G A) : quiet m -> keeps_simple m.
Proof. intros Hm s x s' E. apply (Hm s x s' E). Qed.

Lemma keeps_simple_bind {A B} (m : G A) (k : A -> G B) :
  keeps_simple m -> (forall a, keeps_simple (k a)) -> keeps_simple (bind m k).
Proof. intros Hm Hk s b s' (a & s1 & E1 & E2)%bind_Ret. by rewrite (Hk _ _ _ _ E2), (Hm _ _ _ E1). Qed.

Lemma keeps_simple_each {A} (act : A -> G unit) l : (forall x, keeps_simple (act x)) -> keeps_simple (each act l).
Proof. intros Ha. induction l as [|x l IH]; [apply keeps_simple_quiet, quiet_ret|]. by apply keeps_simple_bind. Qed.

Lemma keeps_simple_update_flags i f : keeps_simple (update_flags i f).
Proof. intros s x s'. unfold update_flags. destruct (g_types s !! i); [|done]. by intros [= _ <-]. Qed.

Ltac keeps_simple :=
  repeat first
    [ solve [apply keeps_simple_quiet; quiet]
    | apply keeps_simple_update_flags
    | apply keeps_simple_bind; [|intros ?]
    | apply keeps_simple_each; intros ?
    | match goal with |- keeps_simple (if ?b then _ else _) => destruct b end
    | match goal with |- keeps_simple (match ?x with _ => _ end) => destruct x end ].

Lemma keeps_simple_check_type w i : keeps_simple (check_type w i).
Proof. unfold check_type, check_constructor, check_arg, check_item, check_parameter, result_child, set_complex. keeps_simple. Qed.

Lemma keeps_simple_clear_complex i : keeps_simple (clear_complex i).
Proof. unfold clear_complex. keeps_simple. Qed.

(** The number of a type that the search passes over is not touched: one without
    constructors, one built in, one that is complex already. *)
Definition passed (w : TL_writer) (t : tl_type) : bool := negb (candidate w t) || is_complex t.

Definition spares {A} (w : TL_writer) (m : G A) : Prop :=
  forall s x s', m s = Ret (x, s') ->
  forall i t, g_types s !! i = Some t -> passed w t = true -> g_simple s' !! i = g_simple s !! i.

Lemma passed_raised w ts ts' i t :
  raised ts ts' -> ts !! i = Some t -> passed w t = true -> exists t', ts' !! i = Some t' /\ passed w t' = true.
Proof.
  intros HR Ht Hp. destruct (Forall2_lookup_l _ _ _ _ _ HR Ht) as (t' & Ht' & [->| ->]); [by exists t|].
  exists (flagged t). split; [done|]. unfold passed. by rewrite is_complex_flagged, orb_true_r.
Qed.

Lemma spares_bind {A B} w (m : G A) (k : A -> G B) :
  raises m -> spares w m -> (forall a, spares w (k a)) -> spares w (bind m k).
Proof.
  intros Hr Hm Hk s b s' (a & s1 & E1 & E2)%bind_Ret i t Ht Hp. destruct (Hr _ _ _ E1) as [HR _].
  destruct (passed_raised w _ _ i t HR Ht Hp) as (t' & Ht' & Hp').
  by rewrite (Hk _ _ _ _ E2 i t' Ht' Hp'), (Hm _ _ _ E1 i t Ht Hp).
Qed.

Lemma spares_keeps {A} w (m : G A) : keeps_simple m -> spares w m.
Proof. intros Hm s x s' E i t _ _. by rewrite (Hm _ _ _ E). Qed.

Lemma spares_complex_step w i b : spares w (complex_step w i b).
Proof.
  intros s x s' E j t Ht Hp. unfold complex_step in E. apply bind_Ret in E as (u & s1 & Eu & E).
  unfold type_at in Eu. destruct (g_types s !! i) as [u'|] eqn:Hu; [|done]. injection Eu as <- <-.
  destruct ((t_constructors_num u' =? 0) || is_built_in_complex_type w (t_name u')) eqn:E1; [by injection E as _ <-|].
  destruct (has_flag (t_flags u') FLAG_COMPLEX) eqn:E2; [by injection E as _ <-|].
  assert (i <> j) as Hne.
  { intros ->. rewrite Hu in Ht. injection Ht as ->. unfold passed, candidate, is_complex in Hp.
    by rewrite E2, orb_false_r, <- negb_orb, E1 in Hp. }
  apply bind_Ret in E as (ks & s1 & E3 & E). apply bind_Ret in E as (n & s2 & E4 & E).
  assert (quiet (constructors_of u')) as Hq by quiet. destruct (Hq _ _ _ E3) as [_ Q1].
  destruct (quiet_count_supported w ks 0 _ _ _ E4) as [_ Q2].
  apply bind_Ret in E as ([] & s3 & [= <-] & E). rewrite <- Q1, <- Q2.
  assert (g_simple s' = <[i := n]> (g_simple s2)) as ->; [|by apply list_lookup_insert_ne].
  assert (Hk : keeps_simple (if n =? 0 then update_flags i (fun f => Z.lor f FLAG_COMPLEX) ;; ret true else ret b))
    by keeps_simple.
  by rewrite (Hk _ _ _ E).
Qed.

Lemma spares_complex_loop w n l : spares w (complex_loop w n l).
Proof.
  assert (Hr : forall b, spares w (complex_round w l b)).
  { induction l as [|i l IH]; intros b; cbn; [apply spares_keeps, keeps_simple_quiet, quiet_ret|].
    apply spares_bind; [apply raises_complex_step|apply spares_complex_step|done]. }
  induction n as [|n IH]; cbn; [by intros s x s' E|].
  apply spares_bind; [apply raises_complex_round|done|]. intros [|]; [done|]. apply spares_keeps, keeps_simple_quiet, quiet_ret.
Qed.

Lemma spares_analyse w fs : spares w (analyse w fs).
Proof.
  unfold analyse. apply spares_bind; [raises|apply spares_keeps; keeps_simple|intros s0].
  apply spares_bind; [apply raises_each, raises_check_type|apply spares_keeps, keeps_simple_each, keeps_simple_check_type|intros _].
  apply spares_bind; [apply raises_complex_loop|apply spares_complex_loop|intros _].
  apply spares_bind; [raises|apply spares_keeps; keeps_simple|intros s1].
  apply spares_keeps. intros s x s'.
  destruct (reachable_types w (g_types s1) (dfs_fuel (g_types s1)) fs (∅, ∅)); cbn; [|done..]. by intros [= _ <-].
Qed.

Lemma clear_complex_simple l s s' : each clear_complex l s = Ret (tt, s') -> g_simple s' = g_simple s.
Proof. apply keeps_simple_each, keeps_simple_clear_complex. Qed.

Lemma write_tl_parts w fs s s' :
  write_tl w fs s = Ret (tt, s') <->
  exists text found s2 s3, gen_output_begin w (to_heap s) = Ret text /\
    analyse w fs (with_out s (g_out s ++ text)) = Ret (found, s2) /\
    write_output w (List.length (g_types s2)) fs (fst found) (snd found) s2 = Ret (tt, s3) /\
    each clear_complex (seq 0 (List.length (g_types s2))) s3 = Ret (tt, s').
Proof.
  unfold write_tl. rewrite bind_Ret. split.
  - intros ([] & s1 & E1 & E). unfold emit, call in E1. apply bind_Ret in E1 as (text & s0 & E0 & E1).
    apply rbind_Ret in E0 as (text' & E0 & [= <- <-]). injection E1 as <-. apply bind_Ret in E as (found & s2 & E2 & E).
    apply bind_Ret in E as (s2' & s2'' & [= <- <-] & E). apply bind_Ret in E as ([] & s3 & E3 & E4). by exists text', found, s2, s3.
  - intros (text & found & s2 & s3 & E0 & E2 & E3 & E4). eexists tt, _. split.
    { unfold emit, call, bind. rewrite E0. reflexivity. }
    apply bind_Ret. eexists found, s2. split; [exact E2|]. apply bind_Ret. eexists _, _. split; [done|]. apply bind_Ret. by eexists tt, _.
Qed.

(** C26. [write_tl] is given the configuration as a constant, but writes to its
    types. Whatever the writer and the types are, when [write_tl] returns no type
    is complex, neither those it has marked nor those that were marked before
    (the reader keeps this bit of a schema file), and nothing else of the types
    has changed: so they are what they were when none was complex. The other
    field that it writes, [simple_constructors], is not restored: it is what a
    list of assignments makes of the old numbers, one that depends on the types
    and not on these numbers (the same analysis from other numbers and another
    output makes the same assignments), and leaves alone the types without
    constructors, the built-in ones and those complex before. *)
Theorem write_tl_leaves w functions s s' :
  write_tl w functions s = Ret (tt, s') ->
  g_types s' = map cleared (g_types s) /\
  (Forall (fun t => is_complex t = false) (g_types s) -> g_types s' = g_types s) /\
  (forall i t, g_types s !! i = Some t -> passed w t = true -> g_simple s' !! i = g_simple s !! i) /\
  exists log found ts, g_simple s' = replay log (g_simple s) /\
    forall simple out, analyse w functions (mk_g (g_types s) simple out) = Ret (found, mk_g ts (replay log simple) out).
Proof.
  intros E. split_and!; [by eapply write_tl_cleared|intros Hc; by eapply write_tl_types|..];
    apply write_tl_parts in E as (text & found & s2 & s3 & _ & E2 & E3 & E4).
  all: pose proof (clear_complex_simple _ _ _ E4) as S4; destruct (quiet_write_output w _ _ _ _ _ _ _ E3) as [_ S3].
  - intros i t Ht Hp. rewrite S4, S3. exact (spares_analyse w _ _ _ _ E2 i t Ht Hp).
  - destruct (replays_analyse w _ _ _ _ E2) as [log Hlog]. exists log, found, (g_types s2).
    split; [|by intros simple out; rewrite Hlog]. rewrite S4, S3.
    cbn [g_types] in Hlog. unfold with_out in E2. rewrite Hlog in E2. by injection E2 as <-.
Qed.

(** On the sample [Type], [Box] and [Boxed] are marked and unmarked. Numbers that
    were there before stay, here 9, where the search does not look. *)
Lemma write_tl_leaves_witness :
  let s := mk_g (g_types sample_state) (replicate 7 9) [] in
  exists s', write_tl sample_writer sample_functions s = Ret (tt, s') /\ g_types s' = g_types s /\
    g_simple s' = [9; 9; 1; 9; 2; 9; 0].
Proof.
  intros s. destruct (write_tl sample_writer sample_functions s) as [[[] s']| |] eqn:E; [|by vm_compute in E..].
  exists s'. split; [reflexivity|]. destruct (write_tl_leaves sample_writer sample_functions s s' E) as (_ & Ht & _).
  split; [apply Ht; repeat constructor|]. vm_compute in E. by injection E as <-.
Defined.

(** ** From the analysis to the output *)

(** What the generator relies on: zero flags at first; then, for the combinators
    that the checks leave, that the writer can decide them, that their variables
    are in range and that constructors have types as results. *)
Definition vars_in_range (k : tl_combinator) : bool :=
  forallb (fun a => (-1 <=? a_var_num a) && (a_var_num a <? k_var_count k)) (k_args k).

Definition combinators_ok (w : TL_writer) (ts : list tl_type) (functions : list tl_combinator) : bool :=
  let ks := combinators w ts functions in
  forallb (checkable ts) ks && forallb vars_in_range ks &&
  forallb (fun k => node_type (k_result k) =? NODE_TYPE_TYPE) (combinators w ts []).

Definition generator_ok (w : TL_writer) (functions : list tl_combinator) (s : gstate) : bool :=
  bool_decide (List.length (g_simple s) = List.length (g_types s)) &&
  forallb (fun t => (t_flags t =? 0) && (0 <=? t_arity t) && (t_constructors_num t =? Z.of_nat (List.length (t_constructors t)))) (g_types s) &&
  match each (check_type w) (seq 0 (List.length (g_types s))) s with
  | Ret (_, s1) => combinators_ok w (g_types s1) functions
  | _ => false
  end.

Definition standard_support (w : TL_writer) : Prop :=
  is_combinator_supported w = TL_writer_is_combinator_supported \/ is_combinator_supported w = TD_is_combinator_supported.

(** The base class has to agree, and then every variable stands for a function. *)
Lemma standard_supported w ts k :
  standard_support w -> is_supported w ts k = true ->
  exists v, function_results (k_args k) (replicate (Z.to_nat (k_var_count k)) false) = Ret (Some v).
Proof.
  intros Hw Hs. assert (E : TL_writer_is_combinator_supported ts k = Ret true).
  { unfold is_supported in Hs. destruct Hw as [Hw|Hw]; rewrite Hw in Hs; [by destruct (TL_writer_is_combinator_supported ts k) as [[]| |]|].
    unfold TD_is_combinator_supported in Hs. by destruct (TL_writer_is_combinator_supported ts k) as [[]| |]. }
  unfold TL_writer_is_combinator_supported in E. destruct (k_var_count k <? 0); [done|].
  destruct (function_results _ _) as [[v|]| |]; try done. by exists v.
Qed.

Lemma function_results_vars args v v' a f n :
  function_results args v = Ret (Some v') -> a ∈ args -> a_type a = tl_tree_var_type f n ->
  has_flag (arg_flags a) FLAG_EXCL = true /\ 0 <= n.
Proof.
  revert v. induction args as [|b args IH]; intros v E Ha Et; [by apply not_elem_of_nil in Ha|]. cbn in E.
  apply elem_of_cons in Ha as [<-|Ha].
  - rewrite Et in E. destruct (has_flag (arg_flags a) FLAG_EXCL); [|done]. destruct (Z.ltb_spec n 0); [done|]. done.
  - destruct (a_type b) as [| |f' n'| | ]; try (by eapply IH). destruct (has_flag (arg_flags b) FLAG_EXCL); [|done].
    destruct (n' <? 0); [done|]. apply rbind_Ret in E as (x & _ & E). destruct x; [done|]. by eapply IH.
Qed.

Lemma checkable_writable w ts0 ts sm k :
  standard_support w -> raised ts0 ts -> List.length sm = List.length ts -> checkable ts0 k = true -> vars_in_range k = true ->
  writable w ts sm k.
Proof.
  intros Hw HR Hlen HF Ha. assert (Laws : SupportLaws w ts0 [k]) by (apply base_support_laws; [done|]; cbn; by rewrite HF).
  unfold checkable in HF. apply andb_true_iff in HF as [Hv HF]. unfold vars_in_range in Ha. rewrite forallb_forall in Ha. constructor.
  - by apply Z.leb_le.
  - intros a Hin%list_elem_of_In. specialize (Ha a Hin). apply andb_true_iff in Ha as [?%Z.leb_le ?%Z.ltb_lt]. done.
  - apply (support_total (ts0 := ts0) (ks := [k])); [done|by left].
  - intros a f n Hs Hin Et. destruct (standard_supported w ts k Hw Hs) as [v Ev]. by eapply function_results_vars.
  - intros Hs. destruct (standard_supported w ts k Hw Hs) as [v Ev]. rewrite Ev in HF. apply andb_true_iff in HF as [_ Hr].
    destruct (k_result k) as [f i ch| |f n| | ] eqn:Er; try done; [left|right; by exists f, n]. exists f, i, ch. split; [done|]. cbn in Hr.
    apply andb_true_iff in Hr as [Hi _]. apply Nat.ltb_lt in Hi. apply lookup_lt_is_Some_2.
    rewrite Hlen, <- (Forall2_length _ _ _ HR). done.
Qed.

Section Final.
Context (w : TL_writer) (functions : list tl_combinator) (s : gstate).
Hypothesis Hw : standard_support w.
Hypothesis Hok : generator_ok w functions s = true.

Lemma ok_types :
  List.length (g_simple s) = List.length (g_types s) /\
  forall t, t ∈ g_types s -> t_flags t = 0 /\ 0 <= t_arity t /\ t_constructors_num t = Z.of_nat (List.length (t_constructors t)).
Proof.
  pose proof Hok as HO. unfold generator_ok in HO. rewrite !andb_true_iff, bool_decide_eq_true in HO. destruct HO as ((H0 & H1) & _).
  split; [done|]. intros t Ht%list_elem_of_In. rewrite forallb_forall in H1. specialize (H1 t Ht). rewrite !andb_true_iff in H1.
  destruct H1 as ((?%Z.eqb_eq & ?%Z.leb_le) & ?%Z.eqb_eq). done.
Qed.

Section Checked.
Context (s1 : gstate) (E1 : each (check_type w) (seq 0 (List.length (g_types s))) s = Ret (tt, s1)).

Lemma ok_combinators :
  forallb (checkable (g_types s1)) (combinators w (g_types s1) functions) = true /\
  (forall k, k ∈ combinators w (g_types s1) functions -> checkable (g_types s1) k = true /\ vars_in_range k = true) /\
  (forall k, k ∈ combinators w (g_types s1) [] -> node_type (k_result k) = NODE_TYPE_TYPE).
Proof.
  pose proof Hok as HO. unfold generator_ok in HO. rewrite E1, !andb_true_iff in HO. destruct HO as (_ & HO).
  unfold combinators_ok in HO. rewrite !andb_true_iff in HO. destruct HO as ((H2 & H3) & H4). split; [done|].
  rewrite forallb_forall in H2, H3, H4. split; intros k Hk%list_elem_of_In; [auto|by apply Z.eqb_eq, H4].
Qed.

Lemma ok_writable ts sm k :
  raised (g_types s1) ts -> List.length sm = List.length ts -> k ∈ combinators w (g_types s1) functions -> writable w ts sm k.
Proof.
  intros HR HL Hk. destruct ok_combinators as (_ & Hparts & _). destruct (Hparts k Hk) as [HF Ha].
  by apply (checkable_writable w (g_types s1)).
Qed.

(** What the checks leave: the types as they were, some of them complex. *)
Lemma checked_types :
  raised (g_types s) (g_types s1) /\ List.length (g_simple s1) = List.length (g_types s1) /\
  List.length (g_types s1) = List.length (g_types s) /\
  forall t, t ∈ g_types s1 -> t_constructors_num t = Z.of_nat (List.length (t_constructors t)).
Proof.
  destruct ok_types as [Hlen Hty]. destruct (raises_each _ _ (raises_check_type w) _ _ _ E1) as [RA LA].
  pose proof (Forall2_length _ _ _ RA) as HTA. split_and!; [done|congruence|done|].
  intros t (i & Ht)%list_elem_of_lookup. destruct (raised_type _ _ _ _ RA Ht) as (t0 & H0 & [->| ->]); by apply Hty in H0 as (_ & _ & ?).
Qed.

Lemma searched_analysed s2 :
  complex_loop w (S (List.length (g_types s))) (seq 0 (List.length (g_types s))) s1 = Ret (tt, s2) ->
  raised (g_types s1) (g_types s2) /\ List.length (g_simple s2) = List.length (g_types s2) /\ analysed w (g_types s2) (g_simple s2).
Proof.
  intros E. destruct ok_combinators as (Hfo & _ & Hres). pose proof (base_support_laws w (g_types s1) _ Hw Hfo) as Laws.
  destruct checked_types as (RA & LA & HTA & Hnum). destruct ok_types as [_ Hty].
  destruct (complex_loop_total w (g_types s1) _ (L := Laws) Hnum (combinators_elem w (g_types s1) functions)
    (S (List.length (g_types s))) (seq 0 (List.length (g_types s))) s1 (raised_refl _)) as (s' & E' & Hse & Hset & Hsim).
  { intros i. rewrite elem_of_seq. lia. }
  { done. }
  { unfold noncomplex. rewrite <- HTA. apply Nat.lt_succ_r, filter_length_le. }
  rewrite E in E'. injection E' as <-. pose proof (sd_raised _ _ _ _ Hse) as RB. pose proof (Forall2_length _ _ _ RB) as HTB.
  assert (HL2 : List.length (g_simple s2) = List.length (g_types s2)) by (rewrite (sd_simple _ _ _ _ Hse); congruence).
  split; [done|]. split; [done|].
  assert (Hback : forall i t, g_types s2 !! i = Some t -> exists t1, t1 ∈ g_types s1 /\ (t = t1 \/ t = flagged t1)).
  { intros i t Ht. exact (raised_type _ _ _ _ RB Ht). }
  (* a generated type was left alone *)
  assert (Hgen : forall i t, g_types s2 !! i = Some t -> is_generated w t = true ->
    candidate w t = true /\ is_complex t = false /\ t ∈ g_types s1 /\ t ∈ g_types s).
  { intros i t Ht Hg. unfold is_generated in Hg. rewrite negb_true_iff, !orb_false_iff in Hg. destruct Hg as (((H1 & H2) & H3) & H4).
    fold (is_complex t) in H4. assert (Hc : candidate w t = true) by (unfold candidate; by rewrite H1, H3).
    destruct (Hback i t Ht) as (t1 & H5 & [<-| ->]); [|by rewrite is_complex_flagged in H4]. split_and!; [done..|].
    apply list_elem_of_lookup in H5 as (j & Hj). destruct (raised_type _ _ _ _ RA Hj) as (t0 & H0 & [<-| ->]); [done|].
    by rewrite is_complex_flagged in H4. }
  constructor.
  - intros t (i & Ht)%list_elem_of_lookup. destruct (Hback i t Ht) as (t0 & H0 & [->| ->]); by apply Hnum in H0.
  - intros t k (i & Ht)%list_elem_of_lookup Hk Hg. destruct (Hgen i t Ht Hg) as (Hc & Hx & Hin & _).
    split; [apply ok_writable; [done|done|]|apply Hres]; by eapply combinators_elem.
  - intros i t Ht Hg. destruct (Hgen i t Ht Hg) as (Hc & Hx & _ & Hin). destruct (Hty t Hin) as (Hf & Har & _).
    split_and!; [done|done|by eapply Hset|by apply Hsim].
Qed.
End Checked.

(** The parts of [analyse]. *)
Lemma analyse_parts found s2 :
  analyse w functions s = Ret (found, s2) ->
  exists s1, each (check_type w) (seq 0 (List.length (g_types s))) s = Ret (tt, s1) /\
    complex_loop w (S (List.length (g_types s))) (seq 0 (List.length (g_types s))) s1 = Ret (tt, s2).
Proof.
  intros E. unfold analyse in E. apply bind_Ret in E as (? & ? & [= <- <-] & E). apply bind_Ret in E as ([] & sA & EA & E).
  apply bind_Ret in E as ([] & sB & EB & E). apply bind_Ret in E as (? & ? & [= <- <-] & E).
  apply rbind_Ret in E as (r & _ & [= _ <-]). by exists sA.
Qed.
End Final.

(** After the analysis nothing stops the generator, and the types are as they were. *)
Lemma write_tl_runs w functions V s text found s2 :
  standard_support w -> generator_ok w functions s = true ->
  gen_output_begin w (to_heap s) = Ret text -> analyse w functions s = Ret (found, s2) ->
  WriterTotal w (g_types s2) (g_simple s2) functions V ->
  exists s', write_tl w functions s = Ret (tt, s') /\ g_types s' = g_types s.
Proof.
  intros Hw Hok Hb E WT. destruct (analyse_parts w functions s found s2 E) as (s1 & E1 & E2).
  destruct (searched_analysed w functions s Hw Hok s1 E1 s2 E2) as (HR & HL2 & HA).
  assert (Hrun : exists s', write_tl w functions s = Ret (tt, s')).
  { unfold write_tl. assert (E0 : emit (gen_output_begin w) s = Ret (tt, with_out s (g_out s ++ text))) by (unfold emit, call, bind; by rewrite Hb).
    apply (silent_analyse w functions s found s2 (g_out s ++ text)) in E.
    destruct (returns_write_output w (g_types s2) (g_simple s2) functions V HA
      ltac:(intros f Hf; eapply ok_writable; [done..|apply elem_of_app; by right]) (fst found) (snd found)
      (with_out s2 (g_out s ++ text)) (conj eq_refl eq_refl)) as ([] & s3 & E3 & [T3 _] & _).
    destruct (clear_complex_total (seq 0 (List.length (g_types s2))) s3) as [s4 E4].
    { intros i Hi%elem_of_seq. rewrite T3. lia. }
    exists s4. apply bind_Ret. exists tt, (with_out s (g_out s ++ text)). split; [done|]. apply bind_Ret. do 2 eexists. split; [exact E|].
    apply bind_Ret. do 2 eexists. split; [done|]. apply bind_Ret. exists tt, s3. split; [exact E3|exact E4]. }
  destruct Hrun as [s' Hs']. exists s'. split; [done|]. eapply write_tl_types; [|exact Hs'].
  apply Forall_forall. intros t Ht. destruct (ok_types w functions s Hok) as [_ Hty]. destruct (Hty t Ht) as (Hf & _).
  unfold is_complex. by rewrite Hf.
Qed.
