(* ===== verification/Header.v ===== *)
(** * The header writer returns

    [TD_TL_writer_h] keeps the promise that the generator needs of a writer, for
    configurations that pass an executable check: none of its assertions fails, and
    the branch that [gen_constructor_parameter] calls unreachable is unreachable. *)
From Stdlib Require Import ZArith Lia List Bool Ascii String.
From stdpp Require Import base list strings gmap.
From S2P Require Import Prelude Reader Writers Generate HeaderWriter Sample Analysis Reach Complete.
Open Scope tl_scope.

(** ** Forward declarations *)

Lemma cut_colons_shorter s a b : cut_colons s = Some (a, b) -> (List.length b < List.length s)%nat.
Proof.
  revert a. induction s as [|c s IH]; intros a; [done|]. cbn. destruct s as [|d rest]; [done|].
  destruct (_ && _); [intros [= <- <-]; cbn; lia|]. destruct (cut_colons (d :: rest)) as [[a' b']|] eqn:E; [|done].
  intros [= <- <-]. specialize (IH a' eq_refl). cbn in *. lia.
Qed.

Lemma forward_declaration_loop_total n type prefix suffix :
  (List.length type < n)%nat -> exists text, forward_declaration_loop n type prefix suffix = Ret text.
Proof.
  revert type prefix suffix. induction n as [|n IH]; intros type prefix suffix Hn; [lia|]. cbn.
  destruct (cut_colons type) as [[a b]|] eqn:E; [|by eexists]. apply IH. apply cut_colons_shorter in E. lia.
Qed.

Lemma forward_declarations_total l : exists text, forward_declarations l = Ret text.
Proof.
  induction l as [|n l [b IH]]; [by eexists|]. cbn [forward_declarations].
  destruct (forward_declaration_loop_total (S (List.length n)) n [] [] (Nat.lt_succ_diag_r _)) as [a Ha].
  unfold forward_declaration at 1. rewrite Ha. cbn [rbind]. rewrite IH. by eexists.
Qed.

Lemma output_begin_total tl_name string_type bytes_type ext_include h :
  exists text, H_gen_output_begin tl_name string_type bytes_type ext_include h = Ret text.
Proof.
  unfold H_gen_output_begin. destruct (forward_declarations_total (TD_get_storers tl_name)) as [a ->]. cbn.
  destruct (forward_declarations_total (TD_get_parsers tl_name)) as [b ->]. by eexists.
Qed.

(** ** The types of fields *)

Definition simple_names : list string :=
  ["int32"; "bool"; "int53"; "int64"; "double"; "string"; "UInt128"; "UInt256"; "bytes"]%string.

(** The texts that [gen_type_name] returns. *)
Definition known_type (text : list Z) : bool :=
  one_of text simple_names || starts_with (str "array") text || starts_with (str "object_ptr") text.

Lemma one_of_elem s l x : x ∈ l -> s = str x -> one_of s l = true.
Proof. intros Hx ->. apply existsb_exists. exists x. split; [by apply list_elem_of_In|]. by apply bool_decide_eq_true. Qed.

Lemma starts_with_app p s t : starts_with p s = true -> starts_with p (s ++ t) = true.
Proof.
  unfold starts_with. rewrite !bool_decide_eq_true. intros Hp.
  assert (List.length p <= List.length s)%nat by (rewrite <- Hp at 1; rewrite length_take; lia). by rewrite take_app_le.
Qed.

Lemma simple_type_known name x : TD_simple_type_name name = Some x -> x ∈ simple_names.
Proof. unfold TD_simple_type_name. repeat (destruct (one_of name _); [intros [= <-]; apply list_elem_of_In; cbn; tauto|]). done. Qed.

Lemma known_array y : known_type (str "array<" ++ y) = true.
Proof. unfold known_type. by rewrite (starts_with_app (str "array") (str "array<")), orb_true_r. Qed.

Lemma known_object y : known_type (str "object_ptr<" ++ y) = true.
Proof. unfold known_type. by rewrite (starts_with_app (str "object_ptr") (str "object_ptr<")), orb_true_r. Qed.

Lemma type_name_known x h text : TD_gen_type_name x h = Ret text -> known_type text = true.
Proof.
  destruct x as [f i children| | | | ]; try done. cbn [TD_gen_type_name]. destruct (h_types h !! i) as [t|]; [|done].
  destruct (TD_simple_type_name (t_name t)) as [x|] eqn:Es.
  { intros [= <-]. unfold known_type. by rewrite (one_of_elem _ _ x (simple_type_known _ _ Es) eq_refl). }
  destruct (one_of _ _).
  - destruct (negb _); [done|]. destruct children as [|[] [|]]; try done. intros (y & _ & [= <-])%rbind_Ret. apply known_array.
  - destruct (_ || _); [done|]. destruct (forallb _ _); [|done]. intros (y & _ & [= <-])%rbind_Ret. apply known_object.
Qed.

Lemma field_type_known a h text : TD_gen_field_type a h = Ret text -> text = [] \/ known_type text = true.
Proof.
  unfold TD_gen_field_type, TL_writer_gen_field_type. destruct (has_flag _ _).
  { destruct (_ || _); [done|]. intros [= <-]. by right. }
  destruct (negb _); [done|]. destruct (a_type a) as [f i children| | | |f m items] eqn:Et; [|by destruct (negb _)..|].
  - destruct (h_types h !! i) as [t|]; [|done]. destruct (negb _); [done|].
    destruct (t_id t =? ID_VAR_TYPE); [intros [= <-]; by left|]. intros E. right. by eapply type_name_known.
  - by destruct (negb _); [|destruct (negb _)].
Qed.

(** The types that [gen_constructor_parameter] knows, with a space at the end. *)
Definition by_value (text : list Z) : bool := one_of text ["bool "; "int32 "; "int53 "; "int64 "; "double "]%string.

Definition by_reference (string_type bytes_type : Name) (text : list Z) : bool :=
  one_of text ["UInt128 "; "UInt256 "; "string "]%string ||
  (bool_decide (string_type = bytes_type) && one_of text ["bytes "%string]).

Definition by_move (text : list Z) : bool :=
  starts_with (str "array") text || one_of text ["bytes "%string] || starts_with (str "object_ptr") text.

Definition with_space (text : list Z) (c : Z) : list Z := if c =? chr " " then text else text ++ [chr " "].

Lemma with_space_known string_type bytes_type text c :
  known_type text = true -> last text = Some c ->
  by_value (with_space text c) || by_reference string_type bytes_type (with_space text c) || by_move (with_space text c) = true.
Proof.
  unfold known_type. rewrite !orb_true_iff. intros [[Hs|Hs]|Hs] Hl.
  - unfold one_of in Hs. cbn in Hs. rewrite !orb_true_iff, !bool_decide_eq_true in Hs.
    repeat destruct Hs as [Hs|Hs]; try done; subst text; injection Hl as <-; first [by left; left|by left; right|by right].
  - right.
    unfold by_move, with_space. by destruct (c =? _); rewrite ?(starts_with_app _ _ _ Hs), ?Hs.
  - right.
    unfold by_move, with_space. by destruct (c =? _); rewrite ?(starts_with_app _ _ _ Hs), ?Hs, !orb_true_r.
Qed.

(** The branch of [gen_constructor_parameter] that is marked unreachable is. *)
Lemma constructor_parameter_returns string_type bytes_type field_num class_name a d h field_type :
  TD_gen_field_type a h = Ret field_type -> (field_type <> [] -> exists name, TD_gen_field_name (a_name a) h = Ret name) ->
  exists text, TD_gen_constructor_parameter string_type bytes_type field_num class_name a d h = Ret text.
Proof.
  intros E Hname. unfold TD_gen_constructor_parameter. destruct d; [by eexists|]. rewrite E. cbn [rbind].
  destruct (field_type_known a h field_type E) as [->|Hk]; [by eexists|].
  destruct (last field_type) as [c|] eqn:Hl; [|by eexists]. destruct Hname as [name ->]; [by intros ->|].
  pose proof (with_space_known string_type bytes_type field_type c Hk Hl) as H3. unfold by_value, by_reference, by_move, with_space in H3.
  destruct (one_of _ ["bool "; _; _; _; _]%string); [by eexists|]. destruct (_ || (_ && _)); [by eexists|]. cbn [orb] in H3. rewrite H3.
  by eexists.
Qed.

(** ** A configuration that the header writer can print *)

Definition not_object (name : Name) : bool := negb (one_of name ["Object"%string]).

Definition field_name_ok (name : Name) : bool :=
  match last (alnum_or_underscore name) with Some c => negb (c =? chr "_") | None => false end.

Section Check.
Context (ts : list tl_type).

(** The names of a type and of its constructors can be class names, and the constructors can be decided. *)
Definition class_ok (t : tl_type) : bool :=
  not_object (t_name t) && (t_constructors_num t =? Z.of_nat (List.length (t_constructors t))) &&
  forallb (fun k => not_object (k_name k) && returned (TD_is_combinator_supported ts k)) (t_constructors t).

(** A tree that [gen_type_name] prints. *)
Fixpoint tree_ok (x : tl_tree) : bool :=
  match x with
  | tl_tree_type _ i children =>
      match ts !! i with
      | None => false
      | Some t =>
          match TD_simple_type_name (t_name t) with
          | Some _ => true
          | None =>
              if one_of (t_name t) ["Vector"%string] then
                (t_arity t =? 1) && match children with [child] => tree_ok child | _ => false end
              else forallb (fun c => node_type c =? NODE_TYPE_NAT_CONST) children && class_ok t
          end
      end
  | _ => false
  end.

(** A field: its flags, its name and its type, and the bit it depends on. *)
Definition arg_ok (a : arg) : bool :=
  negb (has_flag (arg_flags a) FLAG_EXCL) &&
  ((arg_flags a =? FLAG_NOVAR) || (arg_flags a =? 0) || (arg_flags a =? Z.lor (Z.lor FLAG_OPT_VAR FLAG_NOVAR) FLAG_BARE)) &&
  match a_type a with
  | tl_tree_type _ i children =>
      match ts !! i with
      | None => false
      | Some t =>
          (Z.of_nat (List.length children) =? u64 (t_arity t)) &&
          ((t_id t =? ID_VAR_TYPE) || (tree_ok (a_type a) && field_name_ok (a_name a)))
      end
  | _ => false
  end &&
  ((a_exist_var_num a =? -1) || ((0 <=? a_exist_var_bit a) && (a_exist_var_bit a <? 32))).

Definition combinator_ok (k : tl_combinator) : bool :=
  not_object (k_name k) && forallb arg_ok (k_args k) && tree_ok (k_result k).
End Check.

(** In the state that the analysis leaves: what is generated can be printed. *)
Definition header_check (w : TL_writer) (ts : list tl_type) (functions : list tl_combinator) : bool :=
  let types := List.filter (is_generated w) ts in
  let constructors := concat (map t_constructors types) in
  forallb (fun t => not_object (t_name t) && (t_arity t =? 0)) types &&
  forallb (fun k => child_count (k_result k) =? 0) (List.filter (is_supported w ts) constructors) &&
  forallb (combinator_ok ts) (List.filter (is_supported w ts) (functions ++ constructors)).

Lemma class_name_returns name h : not_object name = true -> exists text, TD_gen_class_name name h = Ret text.
Proof. unfold not_object, TD_gen_class_name. intros ->%negb_true_iff. destruct (one_of name _); by eexists. Qed.

Lemma field_name_returns name h : field_name_ok name = true -> exists text, TD_gen_field_name name h = Ret text.
Proof.
  unfold field_name_ok, TD_gen_field_name. destruct (last _) as [c|]; [|done]. intros ->%negb_true_iff. by eexists.
Qed.

Lemma main_class_name_returns h i t simple :
  h_types h !! i = Some t -> h_simple h !! i = Some simple -> class_ok (h_types h) t = true ->
  exists text, TL_writer_gen_main_class_name TD_is_combinator_supported TD_gen_class_name i h = Ret text.
Proof.
  intros Ht Hs Hc. unfold TL_writer_gen_main_class_name. rewrite Ht, Hs. unfold class_ok in Hc. rewrite !andb_true_iff in Hc.
  destruct Hc as ((Hn & Hnum%Z.eqb_eq) & Hk). destruct (simple =? 1); [|by apply class_name_returns]. rewrite Hnum, Nat2Z.id.
  clear Hnum. induction (t_constructors t) as [|k l IH]; [by apply class_name_returns|]. cbn in Hk |- *.
  rewrite !andb_true_iff in Hk. destruct Hk as ((Hk & Hd) & Hl). destruct (TD_is_combinator_supported (h_types h) k) as [[]| |]; [|by apply IH|done..].
  by apply class_name_returns.
Qed.

Lemma built_in_known name : TD_simple_type_name name = None -> TD_is_built_in_simple_type name = false.
Proof.
  unfold TD_simple_type_name, TD_is_built_in_simple_type, one_of. cbn.
  repeat (case_bool_decide; cbn; [done|]). done.
Qed.

Lemma type_name_returns h x :
  List.length (h_simple h) = List.length (h_types h) -> tree_ok (h_types h) x = true -> exists text, TD_gen_type_name x h = Ret text.
Proof.
  intros Hlen. induction x as [f i children IH|x Hx] using tree_children_ind; [|by destruct x]. cbn [tree_ok TD_gen_type_name].
  destruct (h_types h !! i) as [t|] eqn:Ht; [|done]. destruct (TD_simple_type_name (t_name t)) as [x|] eqn:Es; [by eexists|].
  destruct (one_of (t_name t) ["Vector"%string]) eqn:Ev.
  - intros [->%Z.eqb_eq Hc]%andb_true_iff. cbn [negb Z.eqb]. destruct children as [|c [|]]; [done| |done].
    apply Forall_cons in IH as [IH _]. destruct (IH Hc) as [text E]. destruct c; try done. rewrite E. by eexists.
  - intros [Hch Hcl]%andb_true_iff. unfold TD_is_built_in_complex_type. rewrite (built_in_known _ Es), Ev, Hch. cbn [orb].
    destruct (lookup_lt_is_Some_2 (h_simple h) i) as [simple Hs]; [rewrite Hlen; by eapply lookup_lt_Some|].
    destruct (main_class_name_returns h i t simple Ht Hs Hcl) as [text ->]. by eexists.
Qed.

(** ** The methods *)

Section Methods.
Context (h : heap) (Hlen : List.length (h_simple h) = List.length (h_types h)).

Lemma arg_field_type a :
  arg_ok (h_types h) a = true ->
  exists text, TD_gen_field_type a h = Ret text /\ (text <> [] -> field_name_ok (a_name a) = true).
Proof.
  unfold arg_ok. rewrite !andb_true_iff. intros (((H1%negb_true_iff & H2) & H3) & _).
  unfold TD_gen_field_type, TL_writer_gen_field_type. rewrite H1, H2. cbn [negb].
  destruct (a_type a) as [f i children| | | | ] eqn:Et; try done. destruct (h_types h !! i) as [t|]; [|done].
  apply andb_true_iff in H3 as [-> H3]. cbn [negb]. destruct (t_id t =? ID_VAR_TYPE); [by exists []|]. cbn [orb] in H3.
  apply andb_true_iff in H3 as [H3 H4]. destruct (type_name_returns h _ Hlen H3) as [text ->]. by exists text.
Qed.

Lemma arg_parameter string_type bytes_type n c a d :
  arg_ok (h_types h) a = true -> exists text, TD_gen_constructor_parameter string_type bytes_type n c a d h = Ret text.
Proof.
  intros Ha. destruct (arg_field_type a Ha) as (text & E & Hn). eapply constructor_parameter_returns; [exact E|].
  intros Hne. by apply field_name_returns, Hn.
Qed.

Lemma arg_is_type a : arg_ok (h_types h) a = true -> exists f i ch, a_type a = tl_tree_type f i ch /\ is_Some (h_types h !! i).
Proof.
  unfold arg_ok. rewrite !andb_true_iff. intros ((_ & H3) & _). destruct (a_type a) as [f i children| | | | ]; try done.
  exists f, i, children. split; [done|]. by destruct (h_types h !! i).
Qed.

Lemma masked_args_return built_in can_be_stored args :
  forallb (arg_ok (h_types h)) args = true ->
  exists flags, masked_args built_in h can_be_stored args = Ret flags /\ Forall (fun p => 0 <= snd p < 32) flags.
Proof.
  induction args as [|a args IH]; [by exists []|]. cbn [forallb]. intros [Ha Hl]%andb_true_iff.
  destruct (IH Hl) as (flags & E & HF). cbn [masked_args]. destruct (arg_is_type a Ha) as (f & i & ch & Et & [t Ht]).
  assert (exists b, H_need_arg_mask built_in h a can_be_stored = Ret b /\ (b = true -> 0 <= a_exist_var_bit a < 32)) as (b & -> & Hb).
  { unfold arg_ok in Ha. rewrite !andb_true_iff in Ha. destruct Ha as (_ & Hx). unfold H_need_arg_mask.
    destruct (a_exist_var_num a =? -1); [by exists false|]. apply andb_true_iff in Hx as [?%Z.leb_le ?%Z.ltb_lt].
    destruct can_be_stored; [by exists true|]. rewrite Et, Ht. by eexists. }
  cbn [rbind]. rewrite E. cbn [rbind]. eexists. split; [done|]. destruct b; [constructor; [by apply Hb|done]|done].
Qed.

Lemma mask_texts_return flags : Forall (fun p => 0 <= snd p < 32) flags -> exists texts, mask_texts flags = Ret texts.
Proof.
  induction 1 as [|[name bit] flags [H0 H1] _ [texts IH]]; [by eexists|]. cbn in *. unfold shift_one.
  rewrite (proj2 (Z.leb_le 0 bit) H0), (proj2 (Z.ltb_lt bit 32) H1). cbn [andb rbind]. rewrite IH. by eexists.
Qed.

Lemma flags_definitions_return built_in k b : forallb (arg_ok (h_types h)) (k_args k) = true -> exists text, H_gen_flags_definitions built_in k b h = Ret text.
Proof.
  intros Ha. unfold H_gen_flags_definitions. destruct (masked_args_return built_in b (k_args k) Ha) as (flags & -> & HF). cbn [rbind].
  destruct (mask_texts_return flags HF) as [texts E]. destruct flags; [by eexists|]. rewrite E. by eexists.
Qed.

(** No argument is a function, so that the variables are numbers. *)
Lemma mark_function_args_none i args vars :
  forallb (arg_ok (h_types h)) args = true -> mark_function_args i args vars = Ret vars.
Proof.
  revert i. induction args as [|a args IH]; intros i; [done|]. cbn [forallb]. intros [Ha Hl]%andb_true_iff. cbn [mark_function_args].
  destruct (arg_is_type a Ha) as (f & j & ch & -> & _). by apply IH.
Qed.

Lemma declare_vars_return prefix vars :
  Forall (fun v => is_type v = false /\ parameter_num v = -1 /\ function_arg_num v = -1 /\ is_stored v = false) vars ->
  exists text, declare_vars prefix vars h = Ret text.
Proof.
  induction 1 as [|v vars (H1 & H2 & H3 & H4) _ [text IH]]; [by eexists|]. cbn [declare_vars]. unfold TD_gen_var_name.
  rewrite H1, H2, H3, H4. cbn [negb Z.eqb Pos.eqb orb]. cbn [rbind TD_gen_class_name]. rewrite IH. by eexists.
Qed.

Lemma function_vars_return k vars :
  forallb (arg_ok (h_types h)) (k_args k) = true -> exists r, H_gen_function_vars k vars h = Ret r.
Proof.
  intros Ha. unfold H_gen_function_vars. rewrite (mark_function_args_none _ _ _ Ha). cbn [rbind].
  destruct (declare_vars_return (code "  mutable ") (reset_vars vars)) as [text ->]; [|by eexists].
  apply Forall_lookup_2. intros i v Hv. unfold reset_vars in Hv. rewrite list_lookup_imap in Hv.
  destruct (vars !! i); [|done]. by injection Hv as <-.
Qed.

Lemma result_type_returns x : tree_ok (h_types h) x = true -> exists text, H_gen_function_result_type x h = Ret text.
Proof.
  intros Hx. destruct (type_name_returns h x Hlen Hx) as [text E]. unfold H_gen_function_result_type.
  destruct x; try done. rewrite E. by eexists.
Qed.
End Methods.

(** ** The promise, and what it gives *)

Section Checked.
Context (w : TL_writer) (ts : list tl_type) (functions : list tl_combinator).
Hypothesis Harity : get_max_arity w = 0.
Hypothesis Hcheck : header_check w ts functions = true.

Lemma checked_type t : generated w ts t -> not_object (t_name t) = true /\ t_arity t = 0.
Proof.
  intros [Ht Hg]. pose proof Hcheck as Hc. unfold header_check in Hc. rewrite !andb_true_iff, !forallb_forall in Hc.
  destruct Hc as ((H1 & _) & _). specialize (H1 t ltac:(by apply filter_In; rewrite <- list_elem_of_In)).
  by apply andb_true_iff in H1 as [? ?%Z.eqb_eq].
Qed.

Lemma constructor_listed t k : generated w ts t -> k ∈ t_constructors t -> k ∈ concat (map t_constructors (List.filter (is_generated w) ts)).
Proof.
  intros [Ht Hg] Hk. apply elem_of_concat_map. exists t. split; [|done]. apply list_elem_of_In, filter_In. by rewrite <- list_elem_of_In.
Qed.

Lemma checked_combinator k : written w ts functions k ->
  not_object (k_name k) = true /\ forallb (arg_ok ts) (k_args k) = true /\ tree_ok ts (k_result k) = true.
Proof.
  intros [Hs Hk]. pose proof Hcheck as Hc. unfold header_check in Hc. rewrite !andb_true_iff, !forallb_forall in Hc.
  destruct Hc as (_ & H3). specialize (H3 k). unfold combinator_ok in H3. rewrite !andb_true_iff, filter_In in H3.
  destruct H3 as ((? & ?) & ?); [|done]. split; [|done]. apply list_elem_of_In, elem_of_app.
  destruct Hk as [Hk|(t & Ht & Hk)]; [by left|right; by eapply constructor_listed].
Qed.

Lemma checked_arg a : arg_written w ts functions a -> arg_ok ts a = true.
Proof.
  intros (k & Hk & Ha). destruct (checked_combinator k Hk) as (_ & Hargs & _). rewrite forallb_forall in Hargs.
  by apply Hargs, list_elem_of_In.
Qed.

Lemma checked_arity n : arity_used w ts functions n -> n = 0.
Proof.
  intros [|m Hm|t Ht|k (Hw & t & Ht & Hk)]; [done|rewrite Harity in Hm; lia|by apply checked_type|].
  pose proof Hcheck as Hc. unfold header_check in Hc. rewrite !andb_true_iff, !forallb_forall in Hc. destruct Hc as ((_ & H2) & _).
  apply Z.eqb_eq, H2, filter_In. split; [|apply Hw]. by eapply list_elem_of_In, constructor_listed.
Qed.

Lemma checked_class n : class_written w ts functions n -> not_object n = true.
Proof. intros [t Ht|k Hk]; [by apply checked_type|by apply checked_combinator]. Qed.

End Checked.

Section Promise.
Context (TD_ENABLE_JNI : bool) (tl_name string_type bytes_type : Name) (ext_include : list Name).
Let w : TL_writer := TD_TL_writer_h TD_ENABLE_JNI tl_name string_type bytes_type ext_include.
Context (ts : list tl_type) (sm : list Z) (functions : list tl_combinator).
Hypothesis Hlen : List.length sm = List.length ts.
Hypothesis Hcheck : header_check w ts functions = true.

Let arg_fine := checked_arg w ts functions Hcheck.
Let arity_none := checked_arity w ts functions eq_refl Hcheck.
Let class_fine := checked_class w ts functions Hcheck.
Let combinator_fine := checked_combinator w ts functions Hcheck.

(** The header writer does not look at the variables. *)
Definition any_vars (k : tl_combinator) (l : list arg) (v : list var_description) : Prop := True.

#[export] Instance header_total : WriterTotal w ts sm functions any_vars.
Proof.
  constructor; try (intros; cbn; by eexists); try (intros; intros v Hv; eexists [], v; by split).
  - intros n ->%arity_none. by eexists.
  - intros n Hn%class_fine. by apply class_name_returns.
  - intros a t Ha%arg_fine E Hne. destruct (arg_field_type (mk_heap ts sm) Hlen a Ha) as (text & E' & Hn).
    cbn in E. rewrite E in E'. injection E' as <-. by apply field_name_returns, Hn.
  - intros a Ha%arg_fine. destruct (arg_field_type (mk_heap ts sm) Hlen a Ha) as (text & E & _). by exists text.
  - intros k b Hk. by apply flags_definitions_return, combinator_fine.
  - intros k Hk _ v _. destruct (function_vars_return (mk_heap ts sm) k v) as [[text v'] E]; [by apply combinator_fine|].
    by exists text, v'.
  - intros a Ha%arg_fine Hv. destruct (arg_is_type (mk_heap ts sm) a Ha) as (f & i & ch & Et & _). by rewrite Et in Hv.
  - intros c id p. unfold text_ok. cbn. unfold H_gen_get_id. destruct p; by eexists.
  - intros k Hk _. by apply result_type_returns, combinator_fine.
  - intros k p c d n _ ->%arity_none v _. cbn. unfold H_gen_fetch_function_begin. destruct (_ =? 0); by eexists _, _.
  - intros p c d n ->%arity_none v <-. by eexists _, _.
  - intros k p l c n _ _ ->%arity_none v _. cbn. unfold H_gen_store_function_begin. destruct (_ =? -1); by eexists _, _.
  - intros p c n _ ->%arity_none v <-. by eexists _, _.
  - intros n c a d Ha%arg_fine. by apply arg_parameter.
  - intros f k b Hf. by apply not_elem_of_nil in Hf.
  - intros f x1 x2 n x4 Hf. by apply not_elem_of_nil in Hf.
  - intros f m x1 x2 n Hf. by apply not_elem_of_nil in Hf.
  - intros f x1 k n x4 Hf. by apply not_elem_of_nil in Hf.
  - intros f x1 x2 Hf. by apply not_elem_of_nil in Hf.
Qed.
End Promise.

(** C19. The header generator completes: for a configuration that the generator can
    work with, when the analysis has returned and left types whose names and fields
    the header writer can print, none of the assertions in [write_class],
    [write_constructor], [write_function], [gen_constructor_parameter] and the other
    methods fails, all loops end, and the types are as they were before. *)
Theorem header_completes TD_ENABLE_JNI tl_name string_type bytes_type ext_include functions s found s2 :
  let w := TD_TL_writer_h TD_ENABLE_JNI tl_name string_type bytes_type ext_include in
  generator_ok w functions s = true -> analyse w functions s = Ret (found, s2) -> header_check w (g_types s2) functions = true ->
  exists s', write_tl w functions s = Ret (tt, s') /\ g_types s' = g_types s.
Proof.
  intros w Hok E Hcheck. destruct (output_begin_total tl_name string_type bytes_type ext_include (to_heap s)) as [text Hb].
  assert (Hw : standard_support w) by (by right). destruct (analyse_parts w functions s found s2 E) as (s1 & E1 & E2).
  destruct (searched_analysed w functions s Hw Hok s1 E1 s2 E2) as (_ & Hlen & _).
  eapply write_tl_runs; [done|done|exact Hb|exact E|]. by apply header_total.
Qed.

(** On the sample. *)
Lemma header_completes_witness :
  exists s', write_tl sample_writer sample_functions sample_state = Ret (tt, s') /\ g_types s' = sample_types.
Proof.
  apply (header_completes false (str "telegram_api") (str "std::string") (str "BufferSlice") [code "'td/utils/buffer.h'"]
    sample_functions sample_state sample_found sample_analysed); vm_compute; reflexivity.
Defined.

(** The classes that it prints there, after the prologue. *)
Example sample_header :
  match write_tl sample_writer sample_functions sample_state with Ret (_, s) => drop 1391 (g_out s) | _ => [] end =
    code "class User;||class Object;||class Object: public TlObject {| public:||" ++
    code "  static object_ptr<Object> fetch(TlBufferParser &p);|};||class Function: public TlObject {|" ++
    code " public:|};||class User: public Object {| public:||" ++
    code "  static object_ptr<User> fetch(TlBufferParser &p);|};||class user final : public User {| public:|" ++
    code "  int32 flags_;|  int32 id_;|  array<int32> friends_;|  enum Flags : std::int32_t { ID_MASK = 4 };||" ++
    code "  user();||  user(int32 flags_, int32 id_, array<int32> &&friends_);||" ++
    code "  static const std::int32_t ID = 50;|  std::int32_t get_id() const final {|    return ID;|  }||" ++
    code "  static object_ptr<User> fetch(TlBufferParser &p);||" ++
    code "  void store(TlStorerToString &s, const char *field_name) const final;|};||" ++
    code "class userEmpty final : public User {| public:||  static const std::int32_t ID = 51;|" ++
    code "  std::int32_t get_id() const final {|    return ID;|  }||" ++
    code "  static object_ptr<User> fetch(TlBufferParser &p);||" ++
    code "  void store(TlStorerToString &s, const char *field_name) const final;|};||" ++
    code "class getUser final : public Function {| public:|  int32 id_;||  explicit getUser(int32 id_);||" ++
    code "  static const std::int32_t ID = 80;|  std::int32_t get_id() const final {|    return ID;|  }||" ++
    code "  using ReturnType = object_ptr<User>;||  void store(TlStorerCalcLength &s) const final;||" ++
    code "  void store(TlStorerUnsafe &s) const final;||" ++
    code "  void store(TlStorerToString &s, const char *field_name) const final;||" ++
    code "  static ReturnType fetch_result(TlBufferParser &p);|};||}  // namespace telegram_api|" ++
    code "}  // namespace td|".
Proof. vm_compute. reflexivity. Qed.

(** ** Where the assertions of the generator fail *)

Definition run (types : list tl_type) (functions : list tl_combinator) : result (unit * gstate) :=
  write_tl sample_writer functions (mk_g types (replicate (List.length types) 0) []).

(** [getBoxed = Boxed]: the function is not supported, as its result is complex, and
    would not be written; but the search for result types walks the result of every
    function, and asserts that the types it meets are not complex. *)
Example unsupported_function_asserts :
  TD_is_combinator_supported (g_types sample_analysed) (mk_combinator 81 (str "getBoxed") 0 0 [] (of_type 6)) = Ret false /\
  run sample_types [mk_combinator 81 (str "getBoxed") 0 0 [] (of_type 6)] = Fault AssertFailed.
Proof. split; vm_compute; reflexivity. Qed.

(** [tuple {n:#} = Tuple n; pair t:Tuple<2> = Pair]: types with numbers as arguments are
    supported and the writer has a text for them, but the search asserts that it meets no number. *)
Example number_argument_asserts :
  let types := sample_types ++ [
    sample_type 8 "Tuple" 1 [mk_combinator 90 (str "tuple") 1 8 [mk_arg (str "n") (Z.lor FLAG_OPT_VAR FLAG_NOVAR) 0 (-1) (-1) (of_type 0)]
      (tl_tree_type 0 7 [tl_tree_var_num 0 0 0])]] in
  let f := mk_combinator 82 (str "sendPair") 0 0 [field "t" (tl_tree_type 0 7 [tl_tree_nat_const 0 2])] (of_type 4) in
  TD_is_combinator_supported types f = Ret true /\
  returned (TD_gen_field_type (field "t" (tl_tree_type 0 7 [tl_tree_nat_const 0 2])) (mk_heap types (replicate 8 1))) = true /\
  run types [f] = Fault AssertFailed.
Proof. split_and!; vm_compute; reflexivity. Qed.

(** [send {t:Type} items:Vector<t> = User]: the case that [is_combinator_supported] calls not possible. *)
Example type_variable_asserts :
  TL_writer_is_combinator_supported sample_types
    (mk_combinator 83 (str "send") 1 0 [type_arg; field "items" (tl_tree_type 0 3 [tl_tree_var_type 0 0])] (of_type 4)) = Fault AssertFailed.
Proof. vm_compute. reflexivity. Qed.

(** A variable whose number is the number of variables passes the check of the
    types, and fails the assertion of [gen_field_definitions]. *)
Example variable_number_asserts :
  let types := sample_types ++ [
    sample_type 8 "Flags" 0 [mk_combinator 91 (str "flags") 0 8 [mk_arg (str "bits") 0 0 (-1) (-1) (of_type 0)] (of_type 7)]] in
  returned (analyse sample_writer [] (mk_g types (replicate 8 0) [])) = true /\ run types [] = Fault AssertFailed.
Proof. split; vm_compute; reflexivity. Qed.
