(* ===== verification/Cpp.v ===== *)
(** * The source writer returns

    [TD_TL_writer_cpp] keeps the promise that the generator needs, for
    configurations that pass an executable check.  Its part on variables: every
    variable of a combinator is declared by exactly one field, before the fields
    that depend on it; then [gen_field_fetch] and [gen_field_store] find each
    variable in the state they assert, and at the end all of them are stored. *)
From Stdlib Require Import ZArith Lia List Bool Ascii String.
From stdpp Require Import base list strings gmap.
From S2P Require Import Prelude Reader Writers Generate HeaderWriter CppWriter Sample Analysis Reach Complete Header.
Open Scope tl_scope.

(** ** The check *)

(** The variables that fields declare. *)
Definition declared (l : list arg) : list Z := List.filter (fun n => 0 <=? n) (map a_var_num l).

Section Check.
Context (ts : list tl_type) (sm : list Z).

Definition td_supported (k : tl_combinator) : bool := match TD_is_combinator_supported ts k with Ret b => b | _ => false end.

Definition is_bare (t : tl_type) (simple : Z) : bool :=
  (simple <=? 1) || (TD_is_built_in_simple_type (t_name t) && negb (one_of (t_name t) ["Bool"%string])) ||
  TD_is_built_in_complex_type (t_name t).

Definition decided (b : bool) (t : tl_type) : bool :=
  (t_constructors_num t =? Z.of_nat (List.length (t_constructors t))) &&
  forallb (fun k => b || returned (TD_is_combinator_supported ts k)) (t_constructors t).

(** The constructors whose number a boxed value can start with: at most one, and it has a number. *)
Definition one_number (t : tl_type) : bool :=
  let b := TD_is_built_in_complex_type (t_name t) in
  let l := List.filter (fun k => b || td_supported k) (t_constructors t) in
  decided b t && (List.length l <=? 1)%nat && forallb (fun k => negb (k_id k =? 0)) l.

Definition box_ok (flags : Z) (t : tl_type) (simple : Z) : bool :=
  negb (has_flag (t_flags t) FLAG_DEFAULT_CONSTRUCTOR) &&
  (if has_flag flags FLAG_BARE then is_bare t simple else negb (is_bare t simple) || one_number t).

(** A type that [gen_full_fetch_class_name] prints. *)
Fixpoint fetch_ok (x : tl_tree) : bool :=
  match x with
  | tl_tree_type flags i children =>
      match ts !! i, sm !! i with
      | Some t, Some simple =>
          box_ok flags t simple &&
          match TD_simple_type_name (t_name t) with
          | Some _ => true
          | None =>
              if one_of (t_name t) ["Vector"%string] then
                (t_arity t =? 1) && match children with [child] => fetch_ok child | _ => false end
              else bool_decide (children = []) && class_ok ts t
          end
      | _, _ => false
      end
  | _ => false
  end.

Definition store_box_ok (flags : Z) (t : tl_type) (simple : Z) : bool :=
  if has_flag flags FLAG_BARE || one_of (t_name t) ["#"; "Bool"]%string then true
  else if TD_is_built_in_complex_type (t_name t) then negb (bool_decide (t_constructors t = []))
  else negb (is_bare t simple) || (decided false t && existsb td_supported (t_constructors t)).

(** A type that [gen_full_store_class_name] and [gen_type_store] print. *)
Fixpoint store_ok (x : tl_tree) : bool :=
  match x with
  | tl_tree_type flags i children =>
      match ts !! i, sm !! i with
      | Some t, Some simple =>
          negb (has_flag (t_flags t) FLAG_DEFAULT_CONSTRUCTOR) && negb (one_of (t_name t) ["True"%string]) && store_box_ok flags t simple &&
          match TD_simple_type_name (t_name t) with
          | Some _ => true
          | None =>
              if one_of (t_name t) ["Vector"%string] then
                (t_arity t =? 1) && match children with [child] => store_ok child | _ => false end
              else bool_decide (children = [])
          end
      | _, _ => false
      end
  | _ => false
  end.

(** A field of type [True] that depends on a bit. *)
Definition bit_field (a : arg) : bool :=
  (a_exist_var_num a >=? 0) && (a_var_num a <? 0) &&
  match a_type a with
  | tl_tree_type _ i _ => match ts !! i with Some t => one_of (t_name t) ["True"%string] | None => false end
  | _ => false
  end.

(** It declares a variable that no field before it does. *)
Definition declares_ok (var_count : Z) (l : list arg) (a : arg) : bool :=
  (a_var_num a <? 0) ||
  ((a_var_num a <? var_count) && negb (bool_decide (a_var_num a ∈ declared l)) &&
   match a_type a with
   | tl_tree_type _ i _ => match ts !! i with Some t => t_id t =? ID_VAR_NUM | None => false end
   | _ => false
   end).

(** A field after the fields [l]. *)
Definition field_ok (var_count : Z) (l : list arg) (a : arg) : bool :=
  negb (has_flag (arg_flags a) FLAG_OPT_VAR) && field_name_ok (a_name a) && fetch_ok (a_type a) &&
  (bit_field a || store_ok (a_type a)) && declares_ok var_count l a &&
  ((a_exist_var_num a =? -1) || bool_decide (a_exist_var_num a ∈ declared l)).

Fixpoint fields_ok (var_count : Z) (l l' : list arg) : bool :=
  match l' with
  | [] => forallb (fun i => bool_decide (Z.of_nat i ∈ declared l)) (seq 0 (Z.to_nat var_count))
  | a :: l' => field_ok var_count l a && fields_ok var_count (l ++ [a]) l'
  end.
End Check.

Definition cpp_check (w : TL_writer) (ts : list tl_type) (sm : list Z) (functions : list tl_combinator) : bool :=
  let supported := List.filter (is_supported w ts) in
  header_check w ts functions &&
  forallb (fun k => fields_ok ts sm (k_var_count k) [] (k_args k))
    (supported (functions ++ concat (map t_constructors (List.filter (is_generated w) ts)))) &&
  forallb (fun k => fetch_ok ts sm (k_result k)) (supported functions).

(** ** Types *)

Section Types.
Context (h : heap).
Local Abbreviation ts := (h_types h).
Local Abbreviation sm := (h_simple h).

Lemma type_bare i t simple : ts !! i = Some t -> sm !! i = Some simple -> TD_is_type_bare h i = Ret (is_bare t simple).
Proof. intros Ht Hs. unfold TD_is_type_bare. by rewrite Ht, Hs. Qed.

Lemma expected_id_returns b l id :
  forallb (fun k => b || returned (TD_is_combinator_supported ts k)) l = true ->
  let counted := List.filter (fun k => b || td_supported ts k) l in
  (counted = [] \/ (id = 0 /\ (List.length counted <= 1)%nat)) -> forallb (fun k => negb (k_id k =? 0)) counted = true ->
  exists x, expected_id h b (List.length l) l id = Ret x.
Proof.
  revert id. induction l as [|k l IH]; intros id Hd; [by eexists|]. cbn [forallb List.filter expected_id List.length] in *.
  apply andb_true_iff in Hd as [Hk Hl].
  assert (E : (if b then Ret true else TD_is_combinator_supported ts k) = Ret (b || td_supported ts k)).
  { destruct b; [done|]. unfold td_supported. by destruct (TD_is_combinator_supported ts k). }
  rewrite E. cbn [rbind]. destruct (b || td_supported ts k); [|by apply IH].
  cbn [List.length forallb]. intros [|[-> Hc]] Hid; [done|]. apply andb_true_iff in Hid as [Hk0 Hid]. rewrite Hk0. cbn [check rbind Z.eqb].
  apply IH; [done|left|done]. apply nil_length_inv. lia.
Qed.

Lemma expected_constructor_returns flags i t simple :
  ts !! i = Some t -> sm !! i = Some simple -> box_ok ts flags t simple = true -> exists x, C_expected_constructor h flags i t = Ret x.
Proof.
  intros Ht Hs. unfold box_ok. intros [Hd Hb]%andb_true_iff. unfold C_expected_constructor. rewrite Hd, (type_bare i t simple Ht Hs). cbn [check rbind].
  destruct (has_flag flags FLAG_BARE); [rewrite Hb; by eexists|]. destruct (is_bare t simple); [|by eexists]. cbn [negb orb] in Hb.
  unfold one_number, decided in Hb. rewrite !andb_true_iff in Hb. destruct Hb as (((Hn%Z.eqb_eq & Hk) & Hl%Nat.leb_le) & Hid).
  rewrite Hn, Nat2Z.id. apply expected_id_returns; [done|by right|done].
Qed.

Lemma simple_fetch_known name : (exists s, C_simple_fetch name = Some s) <-> exists x, TD_simple_type_name name = Some x.
Proof.
  unfold C_simple_fetch, TD_simple_type_name, one_of. cbn.
  repeat (case_bool_decide as Hd; cbn; [subst name; split; intros _; by eexists|clear Hd]). split; by intros [? ?].
Qed.

Lemma simple_store_known name :
  one_of name ["True"%string] = false ->
  match TD_simple_type_name name with Some _ => exists s, C_simple_store name = Some (Ret s) | None => C_simple_store name = None end.
Proof.
  unfold C_simple_store, TD_simple_type_name, one_of. cbn. intros HT. rewrite orb_false_r in HT.
  repeat (case_bool_decide as Hd; cbn; [try done; subst name; by eexists|clear Hd]). done.
Qed.

Lemma full_fetch_returns x : fetch_ok ts sm x = true -> exists text, C_gen_full_fetch_class_name x h = Ret text.
Proof.
  induction x as [f i children IH|x Hx] using tree_children_ind; [|by destruct x]. cbn [fetch_ok C_gen_full_fetch_class_name].
  unfold type_of. destruct (ts !! i) as [t|] eqn:Ht; [|done]. destruct (sm !! i) as [simple|] eqn:Hs; [|done].
  intros [Hb Hk]%andb_true_iff. cbn [rbind]. destruct (expected_constructor_returns f i t simple Ht Hs Hb) as [id ->]. cbn [rbind].
  destruct (TD_simple_type_name (t_name t)) as [y|] eqn:Es.
  { destruct (proj2 (simple_fetch_known (t_name t)) (ex_intro _ y Es)) as [s ->]. cbn [rbind]. by eexists. }
  assert (C_simple_fetch (t_name t) = None) as ->.
  { destruct (C_simple_fetch (t_name t)) eqn:E; [|done].
    destruct (proj1 (simple_fetch_known (t_name t)) (ex_intro _ _ E)) as [y E']. by rewrite Es in E'. }
  destruct (one_of (t_name t) ["Vector"%string]) eqn:Ev.
  - apply andb_true_iff in Hk as [->%Z.eqb_eq Hc]. cbn [negb Z.eqb Pos.eqb]. destruct children as [|c [|]]; [done| |done].
    apply Forall_cons in IH as [IH _]. destruct (IH Hc) as [text E]. destruct c; try done. rewrite E. cbn [rbind]. by eexists.
  - apply andb_true_iff in Hk as [->%bool_decide_eq_true Hc]. unfold TD_is_built_in_complex_type. rewrite (built_in_known _ Es), Ev. cbn.
    destruct (main_class_name_returns h i t simple Ht Hs Hc) as [text ->]. cbn [rbind]. by eexists.
Qed.

Lemma first_supported_returns l :
  forallb (fun k => returned (TD_is_combinator_supported ts k)) l = true -> existsb (td_supported ts) l = true ->
  exists id, first_supported h (List.length l) l = Ret id.
Proof.
  induction l as [|k l IH]; [done|]. cbn [forallb existsb first_supported List.length]. intros [Hk Hl]%andb_true_iff Hx.
  unfold td_supported in Hx at 1. destruct (TD_is_combinator_supported ts k) as [[]| |]; [by eexists|by apply IH|done..].
Qed.

Lemma full_store_returns x : store_ok ts sm x = true -> exists text, C_gen_full_store_class_name x h = Ret text.
Proof.
  induction x as [f i children IH|x Hx] using tree_children_ind; [|by destruct x]. cbn [store_ok C_gen_full_store_class_name].
  unfold type_of. destruct (ts !! i) as [t|] eqn:Ht; [|done]. destruct (sm !! i) as [simple|] eqn:Hs; [|done].
  rewrite !andb_true_iff. intros (((Hd & HT%negb_true_iff) & Hb) & Hk). cbn [rbind]. rewrite Hd. cbn [check rbind].
  match goal with |- context [rbind ?m (fun s => Ret (str "TlStoreBoxed<" ++ s ++ _))] => assert (exists text, m = Ret text) as [text Hm] end.
  { pose proof (simple_store_known (t_name t) HT) as Hsk. destruct (TD_simple_type_name (t_name t)) as [y|] eqn:Es.
    { destruct Hsk as [s ->]. by eexists. }
    rewrite Hsk. destruct (one_of (t_name t) ["Vector"%string]) eqn:Ev.
    - apply andb_true_iff in Hk as [->%Z.eqb_eq Hc]. cbn [negb Z.eqb Pos.eqb]. destruct children as [|c [|]]; [done| |done].
      apply Forall_cons in IH as [IH _]. destruct (IH Hc) as [text E]. destruct c; try done. rewrite E. cbn [rbind]. by eexists.
    - apply bool_decide_eq_true in Hk as ->. unfold TD_is_built_in_complex_type. rewrite (built_in_known _ Es), Ev. by eexists. }
  rewrite Hm. cbn [rbind]. unfold store_box_ok in Hb. destruct (_ || one_of _ _); [by eexists|].
  destruct (TD_is_built_in_complex_type (t_name t)).
  { destruct (t_constructors t); [done|]. by eexists. }
  rewrite (type_bare i t simple Ht Hs). cbn [rbind]. destruct (is_bare t simple); [|by eexists]. cbn [negb orb] in *.
  unfold decided in Hb. rewrite !andb_true_iff in Hb. destruct Hb as ((Hn%Z.eqb_eq & Hl) & Hx). rewrite Hn, Nat2Z.id.
  destruct (first_supported_returns _ Hl Hx) as [id ->]. cbn [rbind]. by eexists.
Qed.

Lemma stored_names name :
  one_of name ["#"; "Int"; "Long"; "Int32"; "Int53"; "Int64"; "Double"; "Bool"; "String"; "Int128"; "Int256"]%string = false ->
  one_of name ["True"%string] = false -> one_of name ["Bytes"%string] = false -> TD_simple_type_name name = None.
Proof.
  unfold TD_simple_type_name, one_of. cbn.
  repeat (case_bool_decide as Hd; cbn; [subst name; intros; discriminate|clear Hd]). done.
Qed.

Lemma type_store_returns x n name : store_ok ts sm x = true -> exists text, C_gen_type_store name x n h = Ret text.
Proof.
  revert name. induction x as [f i children IH|x Hx] using tree_children_ind; [|by destruct x]. intros name Hx. cbn [C_gen_type_store].
  destruct (n =? 0). { destruct (full_store_returns _ Hx) as [text ->]. by eexists. }
  cbn [store_ok] in Hx. unfold type_of. destruct (ts !! i) as [t|] eqn:Ht; [|done]. destruct (sm !! i) as [simple|]; [|done].
  rewrite !andb_true_iff in Hx. destruct Hx as (((Hd & HT%negb_true_iff) & _) & Hk). cbn [rbind]. rewrite Hd, HT. cbn [check rbind].
  destruct (one_of (t_name t) ("#" :: _)%string) eqn:E1; [by eexists|]. destruct (one_of (t_name t) ["Bytes"%string]) eqn:E2; [by eexists|].
  destruct (TD_simple_type_name (t_name t)) as [y|] eqn:Es.
  { by rewrite (stored_names _ E1 HT E2) in Es. }
  destruct (one_of (t_name t) ["Vector"%string]).
  - apply andb_true_iff in Hk as [_ Hc]. destruct children as [|c [|]]; [done| |done]. apply Forall_cons in IH as [IH _].
    match goal with |- context [C_gen_type_store ?y c n h] => destruct (IH y Hc) as [text ->] end. cbn [rbind]. by eexists.
  - rewrite Hk. by eexists.
Qed.
End Types.

(** ** Variables *)

(** After the fields [l] of [k]: the variables that they declare are stored. *)
Definition stored_vars (k : tl_combinator) (l : list arg) (v : list var_description) : Prop :=
  List.length v = Z.to_nat (k_var_count k) /\
  forall i x, v !! i = Some x -> is_type x = false /\ parameter_num x = -1 /\ is_stored x = bool_decide (Z.of_nat i ∈ declared l).

Lemma declared_snoc l a n : n ∈ declared (l ++ [a]) <-> n ∈ declared l \/ (0 <= n /\ n = a_var_num a).
Proof.
  unfold declared. rewrite map_app, List.filter_app, elem_of_app. cbn. destruct (Z.leb_spec 0 (a_var_num a)).
  - rewrite list_elem_of_singleton. intuition lia.
  - rewrite elem_of_nil. intuition lia.
Qed.

Lemma declared_pos l n : n ∈ declared l -> 0 <= n.
Proof. unfold declared. rewrite list_elem_of_In, filter_In. intros [_ ?%Z.leb_le]. done. Qed.

Lemma stored_new k : stored_vars k [] (replicate (Z.to_nat (k_var_count k)) empty_var).
Proof.
  split; [apply length_replicate|]. intros i x [-> _]%lookup_replicate. split_and!; [done..|].
  symmetry. apply bool_decide_eq_false. apply not_elem_of_nil.
Qed.

Lemma stored_reset k l v : stored_vars k l v -> stored_vars k [] (map (set_stored false) v).
Proof.
  intros [Hl Hv]. split; [by rewrite length_map|]. intros i x Hx. rewrite list_lookup_fmap in Hx.
  destruct (v !! i) as [y|] eqn:Hy; [|done]. injection Hx as <-. destruct (Hv i y Hy) as (? & ? & _). split_and!; [done..|].
  symmetry. apply bool_decide_eq_false. apply not_elem_of_nil.
Qed.

Lemma stored_fresh k v : stored_vars k [] v -> forallb (fun x => negb (is_stored x)) v = true.
Proof.
  intros [_ Hv]. apply forallb_forall. intros x Hx%list_elem_of_In. apply list_elem_of_lookup in Hx as (i & Hi).
  destruct (Hv i x Hi) as (_ & _ & ->). rewrite bool_decide_false; [done|]. apply not_elem_of_nil.
Qed.

Lemma stored_index k l v n :
  stored_vars k l v -> 0 <= n < k_var_count k -> exists x, var_at v n = Ret x /\ v !! Z.to_nat n = Some x /\
    is_type x = false /\ parameter_num x = -1 /\ is_stored x = bool_decide (n ∈ declared l).
Proof.
  intros [Hl Hv] Hn. destruct (lookup_lt_is_Some_2 v (Z.to_nat n)) as [y Hy]; [lia|]. exists y. unfold var_at.
  destruct (Z.ltb_spec n 0); [lia|]. rewrite Hy. destruct (Hv _ y Hy) as (? & ? & Hs). rewrite Z2Nat.id in Hs by lia. done.
Qed.

Lemma stored_next k l a v :
  stored_vars k l v -> a_var_num a < 0 -> stored_vars k (l ++ [a]) v.
Proof.
  intros [Hl Hv] Ha. split; [done|]. intros i x Hx. destruct (Hv i x Hx) as (? & ? & ->). split_and!; [done..|].
  apply bool_decide_ext. rewrite declared_snoc. intuition lia.
Qed.

Lemma stored_store k l a v x :
  stored_vars k l v -> 0 <= a_var_num a -> v !! Z.to_nat (a_var_num a) = Some x ->
  stored_vars k (l ++ [a]) (store_var v (a_var_num a) x).
Proof.
  intros [Hl Hv] Ha Hx. unfold store_var. split; [by rewrite length_insert|]. intros i y Hy.
  destruct (decide (i = Z.to_nat (a_var_num a))) as [->|Hne].
  - rewrite list_lookup_insert_eq in Hy by (by eapply lookup_lt_Some). injection Hy as <-. destruct (Hv _ x Hx) as (? & ? & _).
    split_and!; [done..|]. cbn. symmetry. apply bool_decide_eq_true. rewrite declared_snoc. right. lia.
  - rewrite list_lookup_insert_ne in Hy by done. destruct (Hv i y Hy) as (? & ? & ->). split_and!; [done..|].
    apply bool_decide_ext. rewrite declared_snoc. intuition lia.
Qed.

Lemma stored_reset_vars k l v : stored_vars k l v -> stored_vars k [] (reset_vars v).
Proof.
  intros [Hl Hv]. unfold reset_vars. split; [by rewrite length_imap|]. intros i x Hx. rewrite list_lookup_imap in Hx.
  destruct (v !! i); [|done]. injection Hx as <-. split_and!; [done..|]. symmetry. apply bool_decide_eq_false. apply not_elem_of_nil.
Qed.

(** ** Fields *)

Section Fields.
Context (h : heap) (k : tl_combinator) (l l' : list arg) (a : arg).
Hypothesis Hok : fields_ok (h_types h) (h_simple h) (k_var_count k) [] (k_args k) = true.
Hypothesis Hargs : k_args k = l ++ a :: l'.
Hypothesis Harg : arg_ok (h_types h) a = true.

Lemma fields_split ts sm n l0 l1 l2 : fields_ok ts sm n l0 (l1 ++ l2) = true -> fields_ok ts sm n (l0 ++ l1) l2 = true.
Proof.
  revert l0. induction l1 as [|b l1 IH]; intros l0; cbn [app]; [by rewrite app_nil_r|]. cbn [fields_ok].
  intros [_ Hf]%andb_true_iff. rewrite cons_middle, app_assoc. by apply IH.
Qed.

Lemma this_field : field_ok (h_types h) (h_simple h) (k_var_count k) l a = true.
Proof. rewrite Hargs in Hok. apply fields_split in Hok. cbn in Hok. by apply andb_true_iff in Hok as [? _]. Qed.

Lemma declared_below l0 l1 n :
  fields_ok (h_types h) (h_simple h) (k_var_count k) l0 l1 = true -> (forall m, m ∈ declared l0 -> m < k_var_count k) ->
  n ∈ declared (l0 ++ l1) -> n < k_var_count k.
Proof.
  revert l0. induction l1 as [|b l1 IH]; intros l0; [rewrite app_nil_r; auto|]. cbn [fields_ok]. intros [Hb Hf]%andb_true_iff H0.
  rewrite cons_middle, app_assoc. apply (IH (l0 ++ [b]) Hf). intros m [Hm|[Hp ->]]%declared_snoc; [auto|].
  unfold field_ok, declares_ok in Hb. rewrite !andb_true_iff, !orb_true_iff, !andb_true_iff in Hb.
  destruct Hb as ((_ & [?%Z.ltb_lt|((?%Z.ltb_lt & _) & _)]) & _); lia.
Qed.

(** A variable that was declared before. *)
Lemma earlier_var v n :
  stored_vars k l v -> n ∈ declared l -> 0 <= n /\ n < vars_size v /\
    exists x, var_at v n = Ret x /\ is_stored x = true /\ is_type x = false /\ parameter_num x = -1.
Proof.
  intros Hv Hn. pose proof (declared_pos _ _ Hn). assert (n < k_var_count k).
  { apply (declared_below [] (k_args k) n Hok); [by intros m ?%not_elem_of_nil|]. cbn. rewrite Hargs. unfold declared in *.
    rewrite map_app, List.filter_app, elem_of_app. by left. }
  destruct (stored_index k l v n Hv ltac:(lia)) as (x & Hx & _ & ? & ? & Hs). unfold vars_size. destruct Hv as [-> _].
  split; [done|]. split; [lia|]. exists x. rewrite bool_decide_true in Hs by done. done.
Qed.

(** What the field declares. *)
Lemma declare_field v :
  stored_vars k l v ->
  (a_var_num a < 0 /\ C_declare a v h = Ret None /\ stored_vars k (l ++ [a]) v) \/
  exists text x, 0 <= a_var_num a /\ C_declare a v h = Ret (Some (text, x)) /\ stored_vars k (l ++ [a]) (store_var v (a_var_num a) x) /\
    exists y text', var_at (store_var v (a_var_num a) x) (a_var_num a) = Ret y /\ TD_gen_var_name y = Ret text'.
Proof.
  intros Hv. pose proof this_field as Hf. unfold field_ok in Hf. rewrite !andb_true_iff in Hf. destruct Hf as ((_ & Hd) & _).
  unfold C_declare. destruct (Z.geb_spec (a_var_num a) 0) as [Ha|Ha]; [right|left; split_and!; [lia|done|by apply stored_next]].
  unfold declares_ok in Hd. rewrite (proj2 (Z.ltb_ge _ 0)) in Hd by lia. cbn [orb] in Hd. rewrite !andb_true_iff in Hd.
  destruct Hd as ((Hlt%Z.ltb_lt & Hnew%negb_true_iff%bool_decide_eq_false) & Ht).
  destruct (stored_index k l v (a_var_num a) Hv ltac:(lia)) as (x & Hx & Hvx & H1 & H2 & H3). rewrite bool_decide_false in H3 by done.
  assert (Hname : forall b, exists text, TD_gen_var_name (set_stored b x) = Ret text).
  { intros b. unfold TD_gen_var_name. cbn. rewrite H1, H2. by eexists. }
  destruct (Hname (is_stored x)) as [text Htext]. exists text, x. split; [lia|].
  destruct (a_type a) as [f i ch| | | | ]; try done. unfold type_of. destruct (h_types h !! i) as [t|]; [|done]. cbn [rbind]. rewrite Ht.
  cbn [check rbind]. rewrite (proj2 (Z.ltb_lt (a_var_num a) (vars_size v))) by (unfold vars_size; destruct Hv as [-> _]; lia).
  cbn [check rbind]. rewrite Hx. cbn [rbind]. rewrite H3. cbn [negb check rbind].
  assert (set_stored (is_stored x) x = x) as Hset by (by destruct x). rewrite Hset in Htext. rewrite Htext. cbn [rbind]. split; [done|].
  split; [apply stored_store; [done|lia|done]|]. destruct (Hname true) as [text' Ht']. exists (set_stored true x), text'. split; [|done].
  unfold var_at, store_var. destruct (Z.ltb_spec (a_var_num a) 0); [lia|]. rewrite list_lookup_insert_eq by (by eapply lookup_lt_Some). done.
Qed.

(** The condition on a bit. *)
Lemma condition_field v :
  stored_vars k l v -> a_exist_var_num a <> -1 ->
  0 <= a_exist_var_num a /\ a_exist_var_num a < vars_size v /\
  exists x text, var_at v (a_exist_var_num a) = Ret x /\ is_stored x = true /\ bit_condition x (a_exist_var_bit a) = Ret text.
Proof.
  intros Hv He. pose proof this_field as Hf. unfold field_ok in Hf. rewrite !andb_true_iff in Hf.
  destruct Hf as (_ & [He'%Z.eqb_eq|Hd%bool_decide_eq_true]%orb_true_iff); [done|]. destruct (earlier_var v _ Hv Hd) as (? & ? & x & Hx & Hs & Ht & Hp).
  split; [done|]. split; [done|]. unfold arg_ok in Harg. rewrite !andb_true_iff in Harg. destruct Harg as (_ & Hbit).
  rewrite (proj2 (Z.eqb_neq _ _) He) in Hbit. cbn [orb] in Hbit. eexists x, _. split; [done|]. split; [done|].
  unfold bit_condition, TD_gen_var_name, shift_one. rewrite Ht, Hp. cbn [negb]. rewrite Hbit. reflexivity.
Qed.
End Fields.

Section Methods.
Context (h : heap) (k : tl_combinator) (l l' : list arg) (a : arg).
Hypothesis Hok : fields_ok (h_types h) (h_simple h) (k_var_count k) [] (k_args k) = true.
Hypothesis Hargs : k_args k = l ++ a :: l'.
Hypothesis Harg : arg_ok (h_types h) a = true.

Lemma field_fetch_steps n b p v :
  0 <= p -> stored_vars k l v -> exists text v', C_gen_field_fetch n a b p v h = Ret (text, v') /\ stored_vars k (l ++ [a]) v'.
Proof.
  intros Hp Hv. pose proof (this_field h k l l' a Hok Hargs) as Hf. unfold field_ok in Hf. rewrite !andb_true_iff in Hf.
  destruct Hf as (((((Hopt & Hname) & Hfetch) & _) & _) & _). unfold C_gen_field_fetch. rewrite (proj2 (Z.geb_le p 0) Hp). cbn [check rbind].
  destruct (field_name_returns (a_name a) h Hname) as [name ->]. cbn [rbind]. destruct (arg_is_type h a Harg) as (f & i & ch & Et & _).
  assert (Hx : negb (has_flag (arg_flags a) FLAG_EXCL) = true) by (unfold arg_ok in Harg; rewrite !andb_true_iff in Harg; tauto).
  destruct (full_fetch_returns h _ Hfetch) as [fetch Ef]. rewrite Et in Ef |- *. rewrite Hx, Hopt. cbn [check rbind].
  match goal with |- context [rbind ?m (fun condition => rbind (C_declare a v h) _)] => assert (exists text, m = Ret text) as [condition ->] end.
  { destruct (Z.eqb_spec (a_exist_var_num a) (-1)) as [|He]; [by eexists|].
    destruct (condition_field h k l l' a Hok Hargs Harg v Hv He) as (H0 & H1 & x & text & Hx' & Hs & Hb).
    rewrite (proj2 (Z.leb_le _ _) H0), (proj2 (Z.ltb_lt _ _) H1). cbn [andb check rbind]. rewrite Hx'. cbn [rbind]. rewrite Hs. by eexists. }
  cbn [rbind]. unfold C_gen_type_fetch.
  destruct (declare_field h k l l' a Hok Hargs v Hv) as [(_ & -> & Hv')|(text & x & _ & -> & Hv' & y & text' & Hy & Hn)]; cbn [rbind].
  - rewrite Ef. cbn [rbind]. destruct (a_exist_var_num a >=? 0); by eexists _, _.
  - rewrite Ef. cbn [rbind]. destruct (a_exist_var_num a >=? 0); [rewrite Hy; cbn [rbind]; rewrite Hn; cbn [rbind]|]; by eexists _, _.
Qed.

Lemma field_store_steps b p v :
  stored_vars k l v -> exists text v', C_gen_field_store a b p v h = Ret (text, v') /\ stored_vars k (l ++ [a]) v'.
Proof.
  intros Hv. pose proof (this_field h k l l' a Hok Hargs) as Hf. unfold field_ok in Hf. rewrite !andb_true_iff in Hf.
  destruct Hf as (((((Hopt & Hname) & _) & Hstore) & _) & _). unfold C_gen_field_store.
  destruct (field_name_returns (a_name a) h Hname) as [name ->]. cbn [rbind]. destruct (arg_is_type h a Harg) as (f & i & ch & Et & t & Ht).
  assert (Hx : negb (has_flag (arg_flags a) FLAG_EXCL) = true) by (unfold arg_ok in Harg; rewrite !andb_true_iff in Harg; tauto).
  assert (Hskip : only_a_bit a h = Ret (bit_field (h_types h) a)).
  { unfold only_a_bit, bit_field, type_of. rewrite Et, Ht. by destruct (_ && _). }
  rewrite Hskip, Et, Hx, Hopt. cbn [check rbind]. destruct (bit_field (h_types h) a) eqn:Hb.
  { eexists [], v. split; [done|]. apply stored_next; [done|]. unfold bit_field in Hb. rewrite !andb_true_iff in Hb. destruct Hb as ((_ & ?%Z.ltb_lt) & _). done. }
  cbn [orb] in Hstore. rewrite Et in Hstore.
  match goal with |- context [rbind ?m (fun condition => rbind (C_declare a v h) _)] => assert (exists text, m = Ret text) as [condition ->] end.
  { destruct (Z.geb_spec (a_exist_var_num a) 0) as [He|He]; [|by eexists].
    destruct (condition_field h k l l' a Hok Hargs Harg v Hv ltac:(lia)) as (H0 & H1 & x & text & Hx' & Hs & Hbit).
    rewrite (proj2 (Z.ltb_lt _ _) H1). cbn [check rbind]. rewrite Hx'. cbn [rbind]. rewrite Hs. by eexists. }
  cbn [rbind]. destruct (declare_field h k l l' a Hok Hargs v Hv) as [(_ & -> & Hv')|(text & x & _ & -> & Hv' & _)]; cbn [rbind];
    match goal with |- context [C_gen_type_store ?y ?z p h] => destruct (type_store_returns h z p y Hstore) as [store ->] end;
    by eexists _, _.
Qed.
End Methods.

(** ** The promise, and what it gives *)

Section Promise.
Context (TD_ENABLE_JNI : bool) (tl_name string_type bytes_type : Name) (ext_include : list Name).
Let w : TL_writer := TD_TL_writer_cpp TD_ENABLE_JNI tl_name string_type bytes_type ext_include.
Context (ts : list tl_type) (sm : list Z) (functions : list tl_combinator).
Hypothesis Hlen : List.length sm = List.length ts.
Hypothesis Hcheck : cpp_check w ts sm functions = true.
Local Abbreviation h := (mk_heap ts sm).

Lemma header_checked : header_check w ts functions = true.
Proof. unfold cpp_check in Hcheck. rewrite !andb_true_iff in Hcheck. tauto. Qed.

Let arg_fine := checked_arg w ts functions header_checked.
Let arity_none := checked_arity w ts functions eq_refl header_checked.
Let class_fine := checked_class w ts functions header_checked.
Let combinator_fine := checked_combinator w ts functions header_checked.

Lemma fields_fine k : written w ts functions k -> fields_ok ts sm (k_var_count k) [] (k_args k) = true.
Proof.
  intros [Hs Hk]. pose proof Hcheck as Hc. unfold cpp_check in Hc. rewrite !andb_true_iff, !forallb_forall in Hc.
  destruct Hc as ((_ & H2) & _). apply H2, filter_In. split; [|done]. apply list_elem_of_In, elem_of_app.
  destruct Hk as [Hk|(t & Ht & Hk)]; [by left|right; by eapply constructor_listed].
Qed.

Lemma result_fine k : written w ts functions k -> k ∈ functions -> fetch_ok ts sm (k_result k) = true.
Proof.
  intros [Hs _] Hk%list_elem_of_In. pose proof Hcheck as Hc. unfold cpp_check in Hc. rewrite !andb_true_iff, !forallb_forall in Hc.
  by apply Hc, filter_In.
Qed.

Lemma parser_type_fine k p : 0 <= get_parser_type w k p.
Proof. cbn. unfold TL_writer_get_parser_type. destruct (k_var_count k >? 0); lia. Qed.

(** All variables are stored at the end. *)
Lemma all_stored k v : written w ts functions k -> stored_vars k (k_args k) v -> forallb is_stored v = true.
Proof.
  intros Hk [Hl Hv]. pose proof (fields_fine k Hk) as Hf. rewrite <- (app_nil_r (k_args k)) in Hf at 1. apply fields_split in Hf.
  cbn in Hf. rewrite forallb_forall in Hf. apply forallb_forall. intros x Hx%list_elem_of_In. apply list_elem_of_lookup in Hx as (i & Hi).
  destruct (Hv i x Hi) as (_ & _ & ->). apply Hf. rewrite <- Hl. apply in_seq. apply lookup_lt_Some in Hi. lia.
Qed.

Lemma mark_args_none i args vars : forallb (arg_ok ts) args = true -> C_mark_args i args vars = Ret vars.
Proof.
  revert i. induction args as [|a args IH]; intros i; [done|]. cbn [forallb]. intros [Ha Hl]%andb_true_iff. cbn [C_mark_args].
  destruct (arg_is_type h a Ha) as (f & j & ch & -> & _). by apply IH.
Qed.

Lemma vars_steps k x : written w ts functions k -> match x with Some r => no_children r = true | None => True end ->
  steps ts sm (C_gen_vars k x) (stored_vars k []) (stored_vars k []).
Proof.
  intros Hk Hx v Hv. unfold C_gen_vars. assert ((match x with Some x => no_children x | None => true end) = true) as -> by (by destruct x).
  cbn [check rbind]. rewrite mark_args_none by (by apply combinator_fine). cbn [rbind].
  destruct (declare_vars_return h (code "  ") (reset_vars v)) as [text ->]; [|eexists _, _; split; [done|by eapply stored_reset_vars]].
  apply Forall_lookup_2. intros i y Hy. unfold reset_vars in Hy. rewrite list_lookup_imap in Hy.
  destruct (v !! i); [|done]. by injection Hy as <-.
Qed.

Lemma result_childless k : constructor_written w ts functions k -> no_children (k_result k) = true.
Proof. intros Hk. apply Z.eqb_eq, arity_none. by apply arity_result. Qed.

#[export] Instance cpp_total : WriterTotal w ts sm functions stored_vars.
Proof.
  constructor; try (intros; cbn; by eexists).
  - intros n ->%arity_none. by eexists.
  - intros n Hn%class_fine. by apply class_name_returns.
  - intros a t Ha%arg_fine E Hne. destruct (arg_field_type h Hlen a Ha) as (text & E' & Hn).
    cbn in E. rewrite E in E'. injection E' as <-. by apply field_name_returns, Hn.
  - intros a Ha%arg_fine. destruct (arg_field_type h Hlen a Ha) as (text & E & _). by exists text.
  - intros k _. apply stored_new.
  - intros k Hk. by apply vars_steps.
  - intros k Hk. apply vars_steps; [apply Hk|by apply result_childless].
  - intros k Hk _ v Hv. cbn. unfold C_gen_function_vars. rewrite (mark_function_args_none h) by (by apply combinator_fine).
    eexists _, _. split; [done|]. by eapply stored_reset_vars.
  - intros k b Hk v Hv. cbn. unfold C_gen_uni. rewrite (result_childless k Hk). by eexists _, v.
  - intros k p l a l' n b Hk Ha v Hv. apply (field_fetch_steps h k l l' a); [by apply fields_fine|done| |apply parser_type_fine|done].
    apply arg_fine. exists k. split; [done|]. rewrite Ha. apply elem_of_app. right. left.
  - intros k p l a l' b Hk Ha v Hv. apply (field_store_steps h k l l' a); [by apply fields_fine|done| |done].
    apply arg_fine. exists k. split; [done|]. rewrite Ha. apply elem_of_app. right. left.
  - intros k p l v Hk Hf _. cbn. unfold C_gen_type_fetch. destruct (full_fetch_returns h (k_result k)) as [text E]; [by apply result_fine|].
    eexists. rewrite E. done.
  - intros a Ha%arg_fine Hv. destruct (arg_is_type h a Ha) as (f & i & ch & Et & _). by rewrite Et in Hv.
  - intros k p c d n Hk ->%arity_none v Hv. cbn. unfold C_gen_fetch_function_begin. rewrite (stored_fresh k v Hv). cbn [check rbind Z.eqb].
    destruct (_ =? 0); by eexists _, _.
  - intros k p b n v Hk Hv. unfold text_ok. cbn. unfold C_gen_fetch_function_end. rewrite (all_stored k v Hk Hv). cbn [check rbind].
    destruct (_ =? 0); [by eexists|]. destruct (_ =? -1); by eexists.
  - intros p c d n ->%arity_none v <-. by eexists _, _.
  - intros k p l c n _ _ ->%arity_none v Hv. cbn. unfold C_gen_store_function_begin. pose proof (stored_reset k l v Hv).
    destruct (_ =? -1); by eexists _, _.
  - intros k p v _ Hk Hv. unfold text_ok. cbn. unfold C_gen_store_function_end. rewrite (all_stored k v Hk Hv). cbn [check rbind].
    destruct (_ =? -1); by eexists.
  - intros p c n _ ->%arity_none v <-. by eexists _, _.
  - intros k n Hk ->%arity_none. unfold text_ok. cbn. unfold C_gen_fetch_switch_case. cbn [Z.eqb check rbind].
    destruct (class_name_returns (k_name k) h) as [text ->]; [by apply combinator_fine|]. by eexists.
  - intros n c a d Ha%arg_fine. by apply (arg_parameter h Hlen).
  - intros n c a d Ha%arg_fine. unfold text_ok. cbn. unfold C_gen_constructor_field_init.
    destruct (arg_field_type h Hlen a Ha) as (text & -> & Hn). cbn [rbind]. case_bool_decide; [by eexists|].
    destruct (field_name_returns (a_name a) h) as [name ->]; [by apply Hn|]. by eexists.
  - intros f k b Hf. by apply not_elem_of_nil in Hf.
  - intros f x1 x2 n x4 Hf. by apply not_elem_of_nil in Hf.
  - intros f m x1 x2 n Hf. by apply not_elem_of_nil in Hf.
  - intros f x1 k n x4 Hf. by apply not_elem_of_nil in Hf.
  - intros f x1 x2 Hf. by apply not_elem_of_nil in Hf.
Qed.
End Promise.

(** C20. The source generator completes: for a configuration that the generator can
    work with, when the analysis has returned and left types whose classes, fields and
    variables the source writer can print, [write_tl] returns: all loops end and no
    assertion fails, neither those of the generator nor those of [gen_field_fetch],
    [gen_field_store] and the other methods, which follow the variables through a
    function and want each one stored at its end.  The types are as they were before,
    their [simple_constructors] apart.  That the fields of a combinator declare a
    variable once and before the fields that depend on it is a condition on the
    configuration, part of [cpp_check]. *)
Theorem cpp_completes TD_ENABLE_JNI tl_name string_type bytes_type ext_include functions s found s2 :
  let w := TD_TL_writer_cpp TD_ENABLE_JNI tl_name string_type bytes_type ext_include in
  generator_ok w functions s = true -> analyse w functions s = Ret (found, s2) ->
  cpp_check w (g_types s2) (g_simple s2) functions = true ->
  exists s', write_tl w functions s = Ret (tt, s') /\ g_types s' = g_types s.
Proof.
  intros w Hok E Hcheck. assert (Hw : standard_support w) by (by right). destruct (analyse_parts w functions s found s2 E) as (s1 & E1 & E2).
  destruct (searched_analysed w functions s Hw Hok s1 E1 s2 E2) as (_ & Hlen & _).
  eapply write_tl_runs; [done|done|reflexivity|exact E|]. by apply cpp_total.
Qed.

Definition sample_cpp_writer : TL_writer := TD_TL_writer_cpp false (str "telegram_api") (str "std::string") (str "BufferSlice") [].

(** On the sample. *)
Lemma cpp_completes_witness :
  exists s', write_tl sample_cpp_writer sample_functions sample_state = Ret (tt, s') /\ g_types s' = sample_types.
Proof.
  apply (cpp_completes false (str "telegram_api") (str "std::string") (str "BufferSlice") []
    sample_functions sample_state sample_found sample_analysed); vm_compute; reflexivity.
Defined.

(** The functions of [user flags:# id:flags.2?Int32 friends:Vector<Int32> = User] that it prints there. *)
Example sample_source :
  match write_tl sample_cpp_writer sample_functions sample_state with Ret (_, s) => take 943 (drop 1437 (g_out s)) | _ => [] end =
    code "object_ptr<User> user::fetch(TlBufferParser &p) {|#define FAIL(error) p.set_error(error); return nullptr;|" ++
    code "  object_ptr<user> res = make_tl_object<user>();|  int32 var0;|" ++
    code "  if ((var0 = res->flags_ = TlFetchInt::parse(p)) < 0) { FAIL('Variable of type # can" ++ str "'" ++ code "t be negative'); }|" ++
    code "  if (var0 & 4) { res->id_ = TlFetchBoxed<TlFetchInt, 30>::parse(p); }|" ++
    code "  res->friends_ = TlFetchBoxed<TlFetchVector<TlFetchBoxed<TlFetchInt, 30>>, 40>::parse(p);|" ++
    code "  if (p.get_error()) { FAIL(''); }|  return std::move(res);|#undef FAIL|}||" ++
    code "void user::store(TlStorerToString &s, const char *field_name) const {|" ++
    code "  if (!LOG_IS_STRIPPED(ERROR)) {|    s.store_class_begin(field_name, 'user');|  int32 var0;|" ++
    code "    s.store_field('flags', (var0 = flags_));|    if (var0 & 4) { s.store_field('id', id_); }|" ++
    code "    { s.store_vector_begin('friends', friends_.size()); for (const auto &_value : friends_) { s.store_field('', _value); } s.store_class_end(); }|" ++
    code "    s.store_class_end();|  }|}|".
Proof. vm_compute. reflexivity. Qed.
