(* ===== verification/Files.v ===== *)
(** * Writing a generated file (tdtl: tl_file_utils.cpp, tl_generate.cpp; td/generate: remove_documentation.cpp)

    [write_tl_to_file] compares what the generator prints with the file that is
    already there, without the documentation that other tools add to it, and
    leaves the file alone if they agree.  A file is its contents, [None] if it
    cannot be read; seeking and reading an open file succeeds. *)
From Stdlib Require Import ZArith Lia List Bool Ascii String.
From stdpp Require Import base list strings gmap.
From S2P Require Import Prelude Reader Writers Generate.
Open Scope tl_scope.

Definition newline : Z := 10.

(** ** tl_file_utils.cpp *)

Definition get_file_contents (file : option (list Z)) : result (list Z) :=
  match file with
  | None => Ret []
  | Some contents => if Z.of_nat (List.length contents) >=? Z.shiftl 1 25 then Fault Aborted else Ret contents
  end.

(** [fopen] with mode [wb] empties the file; [fwrite] of no bytes returns 0. *)
Definition put_file_contents (writable : bool) (file : option (list Z)) (contents : list Z) : bool * option (list Z) :=
  if negb writable then (false, file)
  else if bool_decide (contents = []) then (false, Some [])
  else (true, Some contents).

(** [str.find ('\n', line_begin)] and [str.substr]: the line with its newline, and the rest. *)
Fixpoint cut_line (s : list Z) : list Z * list Z :=
  match s with
  | [] => ([], [])
  | c :: s => if c =? newline then ([c], s) else let '(line, rest) := cut_line s in (c :: line, rest)
  end.

(** [line.substr (line.find_first_not_of (' '))] *)
Fixpoint drop_spaces (line : list Z) : list Z :=
  match line with
  | [] => []
  | c :: l => if c =? chr " " then drop_spaces l else line
  end.

(** Whether the text at [pos] starts with the characters; the one after the end of a string is 0. *)
Fixpoint starts (p text : list Z) : bool :=
  match p, text with
  | [], _ => true
  | c :: p, d :: text => (c =? d) && starts p text
  | _ :: _, [] => false
  end.

Definition is_doc_line (inside_documentation : bool) (line : list Z) : bool :=
  let text := drop_spaces line in
  starts (str "///") text || starts (str "/**") text || (inside_documentation && starts (str "*") text).

Definition stays_inside (line : list Z) : bool :=
  let text := drop_spaces line in negb (starts (str "///") text) && negb (starts (str "*/") text).

(** The loop, with one unit of fuel for each character. *)
Fixpoint remove_lines (n : nat) (inside_documentation : bool) (s result : list Z) : list Z :=
  match n, s with
  | O, _ | _, [] => result
  | S n, _ =>
      let '(line, rest) := cut_line s in
      if is_doc_line inside_documentation line then remove_lines n (stays_inside line) rest result
      else remove_lines n false rest (result ++ line)
  end.

Definition remove_documentation (s : list Z) : list Z := remove_lines (List.length s) false s [].

(** ** tl_generate.cpp *)

(** The objects behind a [const tl_config &]: the types, with their [simple_constructors], can change. *)
Record loaded := mk_loaded { l_config : tl_config; l_simple : list Z }.

Definition set_types (ts : list tl_type) (c : tl_config) : tl_config :=
  mk_config ts (id_to_type c) (name_to_type c) (functions c) (id_to_function c) (name_to_function c).

(** Whether it succeeded, the file, and the objects.  [tl_string_outputer::get_result] is [g_out]. *)
Definition write_tl_to_file (w : TL_writer) (config : loaded) (writable : bool) (file : option (list Z)) :
    result (bool * option (list Z) * loaded) :=
  do? (_, s) := write_tl w (functions (l_config config)) (mk_g (types (l_config config)) (l_simple config) []) in
  let config := mk_loaded (set_types (g_types s) (l_config config)) (g_simple s) in
  do? old_file_contents := get_file_contents file in
  let old_file_contents :=
    if is_documentation_generated w then old_file_contents else remove_documentation old_file_contents in
  if bool_decide (old_file_contents = g_out s) then Ret (true, file, config)
  else Ret (put_file_contents writable file (g_out s), config).

(** ** remove_documentation.cpp *)

(** One argument of [main]: a file that cannot be written ends the program. *)
Definition remove_documentation_main (writable : bool) (file : option (list Z)) : result (option (list Z)) :=
  do? old_contents := get_file_contents file in
  let new_contents := remove_documentation old_contents in
  if bool_decide (new_contents = old_contents) then Ret file
  else
    let '(ok, file) := put_file_contents writable file new_contents in
    if ok then Ret file else Fault Aborted.

(** ** Lines *)

Fixpoint split_lines (n : nat) (s : list Z) : list (list Z) :=
  match n, s with
  | O, _ | _, [] => []
  | S n, _ => let '(line, rest) := cut_line s in line :: split_lines n rest
  end.

(** The lines that are kept. *)
Fixpoint kept (inside : bool) (l : list (list Z)) : list (list Z) :=
  match l with
  | [] => []
  | line :: l => if is_doc_line inside line then kept (stays_inside line) l else line :: kept false l
  end.

Lemma remove_lines_kept n inside s result :
  remove_lines n inside s result = result ++ concat (kept inside (split_lines n s)).
Proof.
  revert inside s result. induction n as [|n IH]; intros inside s result; [cbn; by rewrite app_nil_r|].
  destruct s as [|c s]; [cbn; by rewrite app_nil_r|]. cbn [remove_lines split_lines]. destruct (cut_line (c :: s)) as [line rest].
  cbn [kept]. destruct (is_doc_line inside line); rewrite IH; [done|]. cbn. by rewrite app_assoc.
Qed.

(** Complete lines, and a last one that may lack its newline. *)
Definition whole_line (line : list Z) : Prop := exists body, newline ∉ body /\ line = body ++ [newline].

Inductive text_lines : list (list Z) -> Prop :=
| text_nil : text_lines []
| text_last line : line <> [] -> newline ∉ line -> text_lines [line]
| text_cons line l : whole_line line -> text_lines l -> text_lines (line :: l).

Lemma cut_line_body body rest : newline ∉ body -> cut_line (body ++ newline :: rest) = (body ++ [newline], rest).
Proof.
  induction body as [|c body IH]; cbn; intros Hb; [done|]. apply not_elem_of_cons in Hb as [Hc Hb].
  destruct (Z.eqb_spec c newline); [congruence|]. by rewrite IH.
Qed.

Lemma cut_line_last line : newline ∉ line -> cut_line line = (line, []).
Proof.
  induction line as [|c line IH]; cbn; intros Hb; [done|]. apply not_elem_of_cons in Hb as [Hc Hb].
  destruct (Z.eqb_spec c newline); [congruence|]. by rewrite IH.
Qed.

Lemma cut_line_spec s :
  s <> [] ->
  (exists body rest, newline ∉ body /\ s = body ++ newline :: rest) \/ newline ∉ s.
Proof.
  intros _. destruct (decide (newline ∈ s)) as [Hin|]; [left|by right].
  induction s as [|c s IH]; [by apply not_elem_of_nil in Hin|]. destruct (decide (c = newline)) as [->|Hne].
  - exists [], s. split; [apply not_elem_of_nil|done].
  - apply elem_of_cons in Hin as [?|Hin]; [done|]. destruct (IH Hin) as (body & rest & Hb & ->). exists (c :: body), rest.
    split; [by apply not_elem_of_cons|done].
Qed.

Lemma split_lines_text n s : (List.length s <= n)%nat -> text_lines (split_lines n s).
Proof.
  revert s. induction n as [|n IH]; intros s Hn; [constructor|]. destruct s as [|c s]; [constructor|]. cbn [split_lines].
  destruct (cut_line_spec (c :: s)) as [(body & rest & Hb & E)|Hno]; [done| |].
  - rewrite E, cut_line_body by done. apply text_cons; [by exists body|]. apply IH.
    assert (HL : List.length (c :: s) = List.length (body ++ newline :: rest)) by by rewrite E. rewrite length_app in HL. cbn in *. lia.
  - rewrite cut_line_last by done. destruct n; by apply text_last.
Qed.

Lemma text_lines_split l n : text_lines l -> (List.length (concat l) <= n)%nat -> split_lines n (concat l) = l.
Proof.
  intros Hl. revert n. induction Hl as [|line Hne Hno|line l (body & Hb & ->) Hl IH]; intros n Hn.
  - by destruct n.
  - cbn in *. rewrite app_nil_r in *. destruct line as [|c line]; [done|]. destruct n as [|n]; [cbn in Hn; lia|].
    cbn [split_lines]. rewrite cut_line_last by done. by destruct n.
  - cbn [concat] in *. rewrite <- app_assoc in *. cbn [app] in *. rewrite length_app in Hn. cbn in Hn. destruct n as [|n]; [lia|].
    assert (Hs : split_lines (S n) (body ++ newline :: concat l) =
      let '(line, rest) := cut_line (body ++ newline :: concat l) in line :: split_lines n rest) by by destruct body.
    rewrite Hs, cut_line_body by done. f_equal. apply IH. lia.
Qed.

Lemma split_lines_concat n s : (List.length s <= n)%nat -> concat (split_lines n s) = s.
Proof.
  assert (Hcut : forall s, fst (cut_line s) ++ snd (cut_line s) = s).
  { induction s0 as [|c s0 IH]; cbn; [done|]. destruct (c =? newline); [done|].
    destruct (cut_line s0) as [line rest]. cbn in *. by rewrite IH. }
  assert (Hne : forall c s, fst (cut_line (c :: s)) <> []).
  { intros c s0. cbn. destruct (c =? newline); [done|]. by destruct (cut_line s0). }
  revert s. induction n as [|n IH]; intros s Hn; [by destruct s; cbn in Hn; [|lia]|]. destruct s as [|c s]; [done|].
  cbn [split_lines]. specialize (Hcut (c :: s)). specialize (Hne c s). destruct (cut_line (c :: s)) as [line rest].
  cbn [concat fst snd] in *. rewrite IH; [done|].
  assert (HL : List.length (line ++ rest) = List.length (c :: s)) by by rewrite Hcut.
  rewrite length_app in HL. destruct line; [done|]. cbn in *. lia.
Qed.

Lemma kept_text inside l : text_lines l -> text_lines (kept inside l).
Proof.
  intros Hl. revert inside. induction Hl as [|line Hne Hno|line l Hw Hl IH]; intros inside; cbn.
  - constructor.
  - destruct (is_doc_line inside line); constructor; done.
  - destruct (is_doc_line inside line); [done|by constructor].
Qed.

(** A line that is kept inside documentation would be kept outside. *)
Lemma is_doc_line_outside inside line : is_doc_line inside line = false -> is_doc_line false line = false.
Proof. unfold is_doc_line. rewrite !orb_false_iff. naive_solver. Qed.

Lemma kept_kept inside l : kept false (kept inside l) = kept inside l.
Proof.
  revert inside. induction l as [|line l IH]; intros inside; cbn; [done|]. destruct (is_doc_line inside line) eqn:E; [done|].
  cbn. by rewrite (is_doc_line_outside _ _ E), IH.
Qed.

(** ** What documentation is *)

(** After its leading spaces the line begins with the characters [p]. *)
Definition begins (p : string) (line : list Z) : Prop :=
  exists spaces rest, Forall (fun c => c = chr " ") spaces /\ line = spaces ++ str p ++ rest.

(** The line before [i] leaves a comment open: some line above it begins with a
    slash and two stars, and every line in between begins with a star that does
    not close the comment. *)
Definition open_at (ls : list (list Z)) (i : nat) : Prop :=
  exists j line, (j < i)%nat /\ ls !! j = Some line /\ begins "/**" line /\
    forall k, (j < k < i)%nat -> exists line, ls !! k = Some line /\ begins "*" line /\ ~ begins "*/" line.

(** The line at [i] is documentation: it begins with three slashes or with a slash
    and two stars, or with a star in a comment that is open. *)
Definition documentation (ls : list (list Z)) (i : nat) : Prop :=
  exists line, ls !! i = Some line /\
    (begins "///" line \/ begins "/**" line \/ begins "*" line /\ open_at ls i).

(** The lines that are not marked. *)
Fixpoint unmarked (ls : list (list Z)) (marks : list bool) : list (list Z) :=
  match ls, marks with
  | line :: ls, mark :: marks => if mark then unmarked ls marks else line :: unmarked ls marks
  | _, _ => []
  end.

(** *** The tests of the code *)

Lemma starts_app p text : starts p text = true <-> exists rest, text = p ++ rest.
Proof.
  revert text. induction p as [|c p IH]; intros text; [split; [by exists text|done]|].
  destruct text as [|d text]; cbn; [split; [done|by intros (? & ?)]|].
  rewrite andb_true_iff, Z.eqb_eq, IH. split.
  - intros (-> & rest & ->). by exists rest.
  - intros (rest & [= -> ->]). split; [done|by exists rest].
Qed.

Lemma drop_spaces_spec line :
  exists spaces, Forall (fun c => c = chr " ") spaces /\ line = spaces ++ drop_spaces line /\
    match drop_spaces line with c :: _ => c <> chr " " | [] => True end.
Proof.
  induction line as [|c line (spaces & Hs & E & Hc)]; [by exists []|]. cbn.
  destruct (Z.eqb_spec c (chr " ")) as [->|Hne].
  - exists (chr " " :: spaces). split; [by constructor|]. split; [|done]. cbn. by rewrite <- E.
  - exists []. split; [constructor|]. by split.
Qed.

(** The characters looked for do not begin with a space, so the spaces of a line
    are all before them. *)
Lemma begins_starts p line :
  match str p with c :: _ => c <> chr " " | [] => False end ->
  starts (str p) (drop_spaces line) = true <-> begins p line.
Proof.
  intros Hp. rewrite starts_app. split.
  - intros (rest & E). destruct (drop_spaces_spec line) as (spaces & Hs & El & _).
    exists spaces, rest. split; [done|]. by rewrite <- E.
  - intros (spaces & rest & Hs & ->). exists rest. induction Hs as [|c spaces -> _ IH]; [|done].
    cbn. destruct (str p) as [|c q]; [done|]. cbn. by rewrite (proj2 (Z.eqb_neq c (chr " "))).
Qed.

Lemma begins_slash line : begins "///" line \/ begins "/**" line -> ~ begins "*" line.
Proof.
  rewrite <- !begins_starts by done. destruct (drop_spaces line) as [|c l]; [by intros [|]|]. cbn.
  rewrite !andb_true_iff, !Z.eqb_eq. by intros [[<- _]|[<- _]] [? _].
Qed.

Lemma begins_distinct line : begins "///" line -> ~ begins "/**" line.
Proof.
  rewrite <- !begins_starts by done. destruct (drop_spaces line) as [|c [|d l]]; [done|cbn; rewrite !andb_false_r; done|].
  cbn. rewrite !andb_true_iff, !Z.eqb_eq. by intros (_ & <- & _) (_ & ? & _).
Qed.

Lemma begins_close line : begins "*/" line -> begins "*" line.
Proof. intros (spaces & rest & Hs & ->). by exists spaces, (str "/" ++ rest). Qed.

(** One step of the comment that is open. *)
Lemma open_at_step ls i line :
  ls !! i = Some line ->
  open_at ls (S i) <-> begins "/**" line \/ open_at ls i /\ begins "*" line /\ ~ begins "*/" line.
Proof.
  intros Hi. split.
  - intros (j & l & Hj & Hl & Hb & Hk). destruct (decide (j = i)) as [->|Hne].
    { left. congruence. }
    right. destruct (Hk i ltac:(lia)) as (l' & Hl' & H1 & H2). rewrite Hi in Hl'. injection Hl' as <-.
    split; [|done]. exists j, l. split_and!; try done; [lia|]. intros k Hki. apply Hk. lia.
  - intros [Hb|((j & l & Hj & Hl & Hb & Hk) & H1 & H2)].
    + exists i, line. split_and!; try done; [lia|]. intros k Hki. lia.
    + exists j, l. split_and!; try done; [lia|]. intros k Hki. destruct (decide (k = i)) as [->|]; [by exists line|].
      apply Hk. lia.
Qed.

(** The tests of the code on the line at [i], when [inside] says whether a comment
    is open there. *)
Lemma is_doc_line_spec ls i line inside :
  ls !! i = Some line -> (inside = true <-> open_at ls i) ->
  (is_doc_line inside line = true <-> documentation ls i) /\
  ((if is_doc_line inside line then stays_inside line else false) = true <-> open_at ls (S i)).
Proof.
  intros Hi Hin.
  assert (Hdoc : is_doc_line inside line = true <-> documentation ls i).
  { unfold is_doc_line. rewrite !orb_true_iff, andb_true_iff, !begins_starts by done. rewrite Hin. split.
    - intros H. exists line. tauto.
    - intros (l & Hl & H). rewrite Hi in Hl. injection Hl as <-. tauto. }
  split; [done|]. rewrite (open_at_step ls i line Hi).
  assert (Hst : stays_inside line = true <-> ~ begins "///" line /\ ~ begins "*/" line).
  { unfold stays_inside. rewrite andb_true_iff, !negb_true_iff, <- !not_true_iff_false, !begins_starts by done. done. }
  pose proof (begins_slash line) as Hsl. pose proof (begins_distinct line). pose proof (begins_close line).
  destruct (is_doc_line inside line).
  - rewrite Hst. destruct (proj1 Hdoc eq_refl) as (l & Hl & Hd). rewrite Hi in Hl. injection Hl as <-. tauto.
  - split; [done|]. intros H'. assert (documentation ls i); [|by apply Hdoc]. exists line. tauto.
Qed.

(** The marks of the code. *)
Fixpoint marks (inside : bool) (l : list (list Z)) : list bool :=
  match l with
  | [] => []
  | line :: l => let d := is_doc_line inside line in d :: marks (if d then stays_inside line else false) l
  end.

Lemma kept_unmarked inside l : kept inside l = unmarked l (marks inside l).
Proof. revert inside. induction l as [|line l IH]; intros inside; cbn; [done|]. destruct (is_doc_line inside line); by rewrite IH. Qed.

Lemma marks_length inside l : List.length (marks inside l) = List.length l.
Proof. revert inside. induction l as [|line l IH]; intros inside; cbn; [done|]. by rewrite IH. Qed.

Lemma marks_documentation ls l n inside :
  drop n ls = l -> (inside = true <-> open_at ls n) ->
  forall i, marks inside l !! i = Some true <-> documentation ls (n + i).
Proof.
  revert n inside. induction l as [|line l IH]; intros n inside Hl Hin i.
  - cbn. split; [done|]. intros (line & Hi & _). rewrite <- lookup_drop, Hl in Hi. done.
  - assert (Hn : ls !! n = Some line) by (rewrite <- (Nat.add_0_r n), <- lookup_drop, Hl; done).
    destruct (is_doc_line_spec ls n line inside Hn Hin) as [Hd Ho]. cbn [marks].
    destruct i as [|i]; [rewrite Nat.add_0_r, <- Hd; cbn; by destruct (is_doc_line inside line)|].
    cbn [lookup list_lookup]. rewrite Nat.add_succ_r, <- Nat.add_succ_l. apply IH; [|done].
    replace (S n) with (n + 1)%nat by lia. rewrite <- drop_drop, Hl. done.
Qed.

(** C36. [remove_documentation] keeps, in their order and unchanged, exactly the lines
    of the file that are not documentation, whatever the file is: a line is removed
    if it begins, after spaces, with three slashes or with a slash and two stars, or
    with a star while a comment is open, and a comment stays open from the line that
    begins it over lines with a star that do not close it. Removing a second time
    changes nothing. *)
Theorem remove_documentation_correct s :
  exists ls removed, text_lines ls /\ concat ls = s /\ List.length removed = List.length ls /\
    (forall i, removed !! i = Some true <-> documentation ls i) /\
    remove_documentation s = concat (unmarked ls removed) /\
    remove_documentation (remove_documentation s) = remove_documentation s.
Proof.
  set (ls := split_lines (List.length s) s).
  assert (Hls : text_lines ls) by by apply split_lines_text.
  exists ls, (marks false ls). split_and!; [done|by apply split_lines_concat|apply marks_length| | |].
  - apply (marks_documentation ls ls 0); [done|]. split; [done|]. by intros (j & _ & Hj & _); lia.
  - unfold remove_documentation. rewrite remove_lines_kept. cbn [app]. by rewrite kept_unmarked.
  - unfold remove_documentation. rewrite !remove_lines_kept. cbn [app]. fold ls.
    rewrite (text_lines_split (kept false ls)) by (by apply kept_text || done). by rewrite kept_kept.
Qed.

(** What is in the file afterwards: a file that differs from the output only in its
    documentation is left alone, any other becomes the output if it can be written. *)
Definition refreshed (w : TL_writer) (writable : bool) (file : option (list Z)) (text : list Z) : option (list Z) :=
  let old := match file with Some contents => contents | None => [] end in
  if bool_decide ((if is_documentation_generated w then old else remove_documentation old) = text) then file
  else if writable then Some text else file.

Lemma write_tl_to_file_refreshes w config writable file s :
  write_tl w (functions (l_config config)) (mk_g (types (l_config config)) (l_simple config) []) = Ret (tt, s) ->
  match file with Some contents => Z.of_nat (List.length contents) < 2 ^ 25 | None => True end ->
  exists b, write_tl_to_file w config writable file =
    Ret (b, refreshed w writable file (g_out s), mk_loaded (set_types (g_types s) (l_config config)) (g_simple s)).
Proof.
  intros E Hlen. unfold write_tl_to_file, refreshed. rewrite E. cbn [rbind].
  assert (get_file_contents file = Ret (match file with Some contents => contents | None => [] end)) as ->.
  { unfold get_file_contents. destruct file as [contents|]; [|done]. change (Z.shiftl 1 25) with (2 ^ 25).
    by destruct (Z.geb_spec (Z.of_nat (List.length contents)) (2 ^ 25)); [lia|]. }
  cbn [rbind]. case_bool_decide; [by eexists|]. unfold put_file_contents.
  destruct writable; [|by eexists]. case_bool_decide as Hg; [rewrite Hg|]; by eexists.
Qed.
