(* ===== verification/Runs.v ===== *)
(** * Runs of the compiler on whole schemas

    [Main.main] evaluated on concrete files: a schema goes through the
    compiler and the reader of the generators, and files on which the compiler
    does something its author cannot have meant.  The one general theorem is on
    the comparison that recognises builtin types. *)
From Stdlib Require Import ZArith Lia List Bool Ascii String.
From stdpp Require Import base list strings gmap.
From S2P Require Import Prelude Treap Lexer Parser Symbols Combinator Unify Sema Writer Main Wire Reader.
Open Scope tl_scope.

(** The lines of a file. *)
Fixpoint lines (l : list string) : list Z :=
  match l with
  | [] => []
  | x :: l => str x ++ str newline ++ lines l
  end.

(** [tlc -e out schema.tl], where the file [schema.tl] has these lines. *)
Definition tlc (l : list string) : result status :=
  Main.main demo_draws 0 demo_address (fun _ _ => 0) 60 (fun _ => Some (lines l)) (fun _ => true)
    [(chr "e", str "out")] [str "tlc"; str "schema.tl"] 1.

(** The same with [-E]: the lines that are printed. *)
Definition printed_lines (l : list string) : result (list (list Z)) :=
  let text := lines l in
  do? (t, _) := parse_text text (text_fuel text) in
  match t with
  | Some t => do? (_, s) := tl_parse text demo_draws 0 demo_address (fun _ _ => 0) 1 60 t init_sstate in
              Ret (printed s)
  | None => Ret []
  end.

(** From text to generators: the compiler accepts a schema with builtin
    types, a polymorphic type, a conditional field and a function, prints the
    canonical lines with the documented numbers, and the reader finds the
    types, constructors and functions in its output. *)
Theorem schema_end_to_end :
  let l := ["int ? = Int;"; "string ? = String;"; "boolFalse = Bool;"; "boolTrue = Bool;";
            "vector {t:Type} # [ t ] = Vector t;"; "ok = Ok;";
            "user flags:# id:int name:flags.0?string friends:Vector<int> = User;";
            "---functions---"; "getUser id:int = User;"]%string in
  printed_lines l = Ret (map str
    ["int#a8509bda ? = Int"; "string#b5286e24 ? = String"; "boolFalse#bc799737 = Bool";
     "boolTrue#997275b5 = Bool"; "vector#1cb5c415 t:Type # [ t ] = Vector t"; "ok#d4edbe69 = Ok";
     "user#cba3be5f flags:# id:int name:flags.0?string friends:Vector int = User";
     "getUser#fa7de60f id:int = User"]%string) /\
  exists bytes cfg,
    tlc l = Ret (0, Some (str "out", bytes)) /\ read_tl_config bytes = Ret cfg /\
    map (fun t => (Reader.t_name t, map Reader.k_name (t_constructors t))) (types cfg) =
      map (fun '(t, l) => (str t, map str l))
        [("#", []); ("Bool", ["boolFalse"; "boolTrue"]); ("Int", ["int"]); ("Ok", ["ok"]);
         ("String", ["string"]); ("Type", []); ("User", ["user"]); ("Vector", ["vector"])]%string /\
    map (fun f => (Reader.k_name f, Reader.k_id f)) (functions cfg) = [(str "getUser", i32 0xfa7de60f)].
Proof.
  cbv zeta. split; [vm_compute; reflexivity|]. eexists. eexists. split; [vm_compute; reflexivity|].
  split; [vm_compute; reflexivity|]. split; vm_compute; reflexivity.
Qed.

(** ** Builtin types *)

Lemma mystrcmp2_length beyond a b : List.length a = List.length b -> mystrcmp2 beyond a b = 0.
Proof.
  intros H. unfold mystrcmp2. rewrite H, Nat.leb_refl, nth_overflow by lia. cbn [Z.eqb negb].
  by destruct (strcmp a _ =? 0) eqn:E; zbool; cbn [negb].
Qed.

(** The comparison that should recognise [int ? = Int] and the other
    builtins takes any two identifiers of the right lengths: its result is 0
    for strings of equal length, whatever their characters. *)
Theorem builtin_by_length beyond x y c t :
  (x, y) ∈ builtins -> List.length c = List.length (str x) -> List.length t = List.length (str y) ->
  is_builtin_pair beyond c t = true.
Proof.
  intros Hin Hc Ht. unfold is_builtin_pair. apply existsb_exists. exists (x, y).
  split; [by apply list_elem_of_In|]. by rewrite !mystrcmp2_length.
Qed.

Lemma builtin_by_length_witness : is_builtin_pair (fun _ _ => 0) (str "foo") (str "Bar") = true.
Proof. apply (builtin_by_length (fun _ _ => 0) "int" "Int"); [left|reflexivity|reflexivity]. Defined.

(** So [foo ? = Bar] is compiled as a builtin type, and the writer, which
    knows the builtins by name, stops at an assertion on its question mark. *)
Theorem builtin_foo_aborts :
  printed_lines ["foo ? = Bar;"]%string = Ret [str "foo#98518e95 ? = Bar"] /\
  tlc ["foo ? = Bar;"]%string = Fault AssertFailed.
Proof. split; vm_compute; reflexivity. Qed.

(** A builtin in the section of functions is reported as an error with the
    value -1, which the callers take for success: the file is compiled. *)
Theorem builtin_in_functions_accepted :
  exists bytes, tlc ["a = A;"; "---functions---"; "int ? = Int;"]%string = Ret (0, Some (str "out", bytes)).
Proof. eexists. vm_compute. reflexivity. Qed.

(** ** Partial applications *)

(** Applying a combinator to its only argument leaves the sentinel -1
    where its arguments were, and the next use of the tree fails an
    assertion; a partial application of a type stops at the sentinel -2 when a
    constructor has no arguments. *)
Theorem partial_application_aborts :
  tlc ["int ? = Int;"; "foo {X:Type} = Foo X;"; "foo int;"]%string = Fault AssertFailed /\
  tlc ["a = Foo 1;"; "Foo 1;"]%string = Fault AssertFailed.
Proof. split; vm_compute; reflexivity. Qed.

(** The second constructor of a partially applied type is named after the
    text left in the buffer by the first one. *)
Theorem partial_type_application_names :
  exists s T, parse_text (lines ["int ? = Int;"; "foo {X:Type} y:X = Foo X;"; "bar {X:Type} z:X = Foo X;";
                                 "Foo int;"]%string) 400 = Ret (Some T, s) /\
  match tl_parse (lines ["int ? = Int;"; "foo {X:Type} y:X = Foo X;"; "bar {X:Type} z:X = Foo X;"; "Foo int;"]%string)
          demo_draws 0 demo_address (fun _ _ => 0) 0 60 T init_sstate with
  | Ret (true, s') => In (str "foo int") (map fst (inorder (tl_constructor_tree s'))) /\
      In (str "barfoo#77e9c12d y:int = Foo int") (map fst (inorder (tl_constructor_tree s')))
  | _ => False
  end.
Proof.
  do 2 eexists. split; [vm_compute; reflexivity|].
  match goal with |- match ?m with _ => _ end => let v := eval vm_compute in m in
    replace m with v by (vm_compute; reflexivity) end.
  cbv beta iota. split; cbn; tauto.
Qed.

(** A partial application whose first variable is the only item of an
    array replaces the array by its multiplicity: [a:3*[ x:# ]] becomes [a:3], a
    number where a type belongs.  The compiler prints that line, exits with 0 and
    writes a file at which the reader of the generators aborts. *)
Theorem partial_application_untypes_array :
  let l := ["int ? = Int;"; "foo a:3*[ x:# ] y:int = Foo;"; "foo 5;"]%string in
  (exists lines, printed_lines l = Ret (lines ++ [str "foo#dd7a52c6 a:3 y:int = Foo"])) /\
  exists bytes, tlc l = Ret (0, Some (str "out", bytes)) /\ read_tl_config bytes = Fault Aborted.
Proof.
  cbv zeta. split.
  - exists (map str ["int#a8509bda ? = Int"; "foo#e729b3ee a:3*[ x:# ] y:int = Foo"]%string).
    vm_compute. reflexivity.
  - eexists. split; [vm_compute; reflexivity|]. vm_compute. reflexivity.
Qed.

(** ** Conditional fields *)

(** A conditional field on a variable that was not declared is not
    reported: the null result of the lookup is dereferenced. *)
Theorem undeclared_flags_crash :
  tlc ["int ? = Int;"; "foo x:y.0?int = Foo;"]%string = Fault BadPointer.
Proof. vm_compute. reflexivity. Qed.
