(* ===== verification/Program.v ===== *)
(** * The program that generates the C++ interface (td/generate: generate_common.cpp)

    [generate_cpp] reads a schema once and runs three writers on it, one after the
    other, on the same objects.  They do not disturb each other: each file is
    what its writer alone makes of the schema. *)
From Stdlib Require Import ZArith Lia List Bool Ascii String.
From stdpp Require Import base list strings gmap.
From S2P Require Import Prelude Main Reader Writers Generate HeaderWriter CppWriter HppWriter JniWriter Sample Analysis Reach Complete Header Cpp Files Runs.
Open Scope tl_scope.

(** ** generate_common.cpp *)

(** The files by name; a name may be that of a file that cannot be opened for writing. *)
Local Abbreviation files := (gmap (list Z) (list Z)).

(** [new tl_type ()] sets the number of constructors to zero. *)
Definition read_tl_config_from_file (fs : files) (file_name : list Z) : result loaded :=
  do? contents := get_file_contents (fs !! file_name) in
  do? config := read_tl_config contents in
  Ret (mk_loaded config (replicate (List.length (types config)) 0)).

Section Program.
Context (TD_ENABLE_JNI DISABLE_HPP_DOCUMENTATION : bool) (writable : list Z -> bool).

(** [write_tl_to_file] on the files; its callers ignore whether it succeeded. *)
Definition write_file (w : TL_writer) (path : list Z) (config : loaded) (fs : files) : result (loaded * files) :=
  do? r := write_tl_to_file w config (writable path) (fs !! path) in
  let '(_, file, config) := r in Ret (config, partial_alter (fun _ => file) path fs).

Section Templates.
Context (WriterCpp WriterH : Name -> Name -> Name -> list Name -> TL_writer) (WriterHpp : Name -> Name -> Name -> TL_writer).

Definition generate_cpp (directory tl_name string_type bytes_type : Name) (ext_cpp_includes ext_h_includes : list Name) (fs : files) :
    result files :=
  let path := directory ++ str "/" ++ tl_name in
  do? config := read_tl_config_from_file fs (str "auto/tlo/" ++ tl_name ++ str ".tlo") in
  do? (config, fs) := write_file (WriterCpp tl_name string_type bytes_type ext_cpp_includes) (path ++ str ".cpp") config fs in
  do? (config, fs) := write_file (WriterH tl_name string_type bytes_type ext_h_includes) (path ++ str ".h") config fs in
  do? (_, fs) := write_file (WriterHpp tl_name string_type bytes_type) (path ++ str ".hpp") config fs in
  Ret fs.
End Templates.

(** The default arguments of the template; this class does not use the names of the types. *)
Definition WriterHpp (tl_name _ _ : Name) : TL_writer := TD_TL_writer_hpp TD_ENABLE_JNI DISABLE_HPP_DOCUMENTATION tl_name.

Definition generate_cpp_default : Name -> Name -> Name -> Name -> list Name -> list Name -> files -> result files :=
  generate_cpp (TD_TL_writer_cpp TD_ENABLE_JNI) (TD_TL_writer_h TD_ENABLE_JNI) WriterHpp.

Definition generate_common (fs : files) : result files :=
  let parse_store := [code "'td/tl/tl_object_parse.h'"; code "'td/tl/tl_object_store.h'"] in
  do? fs := generate_cpp_default (str "auto/td/telegram") (str "telegram_api") (str "std::string") (str "BufferSlice")
              parse_store [code "'td/utils/buffer.h'"] fs in
  do? fs := generate_cpp_default (str "auto/td/telegram") (str "secret_api") (str "std::string") (str "BufferSlice")
              parse_store [code "'td/utils/buffer.h'"] fs in
  do? fs := generate_cpp_default (str "auto/td/mtproto") (str "mtproto_api") (str "Slice") (str "Slice")
              parse_store [code "'td/utils/Slice.h'"; code "'td/utils/UInt.h'"] fs in
  if TD_ENABLE_JNI then
    generate_cpp (TD_TL_writer_jni_cpp TD_ENABLE_JNI) (TD_TL_writer_jni_h TD_ENABLE_JNI) WriterHpp
      (str "auto/td/telegram") (str "td_api") (str "std::string") (str "std::string") [code "'td/tl/tl_jni_object.h'"] [str "<string>"] fs
  else
    generate_cpp_default (str "auto/td/telegram") (str "td_api") (str "std::string") (str "std::string") [] [str "<string>"] fs.
End Program.

(** ** The writer of downcast_call returns *)

Section Hpp.
Context (TD_ENABLE_JNI DISABLE_HPP_DOCUMENTATION : bool) (tl_name : Name).
Let w : TL_writer := TD_TL_writer_hpp TD_ENABLE_JNI DISABLE_HPP_DOCUMENTATION tl_name.
Context (ts : list tl_type) (sm : list Z) (functions : list tl_combinator).
Hypothesis Hlen : List.length sm = List.length ts.
Hypothesis Hcheck : header_check w ts functions = true.

Let arg_fine := checked_arg w ts functions Hcheck.
Let arity_none := checked_arity w ts functions eq_refl Hcheck.
Let class_fine := checked_class w ts functions Hcheck.
Let combinator_fine := checked_combinator w ts functions Hcheck.

Lemma downcast_fine f : f ∈ get_additional_functions w -> downcast_only f = Ret tt.
Proof. intros ->%list_elem_of_singleton. done. Qed.

#[export] Instance hpp_total : WriterTotal w ts sm functions any_vars.
Proof.
  constructor; try (intros; cbn; by eexists); try (intros; intros v Hv; eexists [], v; by split).
  - intros n ->%arity_none. by eexists.
  - intros n Hn%class_fine. by apply class_name_returns.
  - intros a t Ha%arg_fine E Hne. destruct (arg_field_type (mk_heap ts sm) Hlen a Ha) as (text & E' & Hn).
    cbn in E. rewrite E in E'. injection E' as <-. by apply field_name_returns, Hn.
  - intros a Ha%arg_fine. destruct (arg_field_type (mk_heap ts sm) Hlen a Ha) as (text & E & _). by exists text.
  - intros a Ha%arg_fine Hv. destruct (arg_is_type (mk_heap ts sm) a Ha) as (f & i & ch & Et & _). by rewrite Et in Hv.
  - intros f k b Hf%downcast_fine _. unfold text_ok. cbn. unfold P_gen_additional_function. rewrite Hf. by eexists.
  - intros f x1 x2 n x4 Hf%downcast_fine _. unfold text_ok. cbn. unfold P_gen_additional_proxy_function_begin. rewrite Hf. by eexists.
  - intros f Hf%downcast_fine. cbn. unfold P_get_additional_function_type. rewrite Hf. by eexists.
  - intros f m x1 x2 n Hf%downcast_fine. cbn. unfold P_get_additional_function_type. rewrite Hf. cbn [rbind]. by intros [= <-].
  - intros f x1 k n x4 Hf%downcast_fine Hk _. unfold text_ok. cbn. unfold P_gen_additional_proxy_function_case. rewrite Hf. cbn [rbind].
    destruct (class_name_returns (k_name k) (mk_heap ts sm)) as [text ->]; [by apply combinator_fine|]. by eexists.
  - intros f x1 x2 Hf%downcast_fine. unfold text_ok. cbn. unfold P_gen_additional_proxy_function_end. rewrite Hf. by eexists.
Qed.
End Hpp.

(** ** One writer after the other *)

(** Writers with the same tests for types: the second finds the objects as the first did. *)
Lemma write_tl_again w w' fs s s1 s2 :
  analyse w fs = analyse w' fs -> (forall h h', gen_output_begin w' h = gen_output_begin w' h') ->
  Forall (fun t => is_complex t = false) (g_types s) ->
  write_tl w fs s = Ret (tt, s1) -> write_tl w' fs s = Ret (tt, s2) ->
  write_tl w' fs (mk_g (g_types s1) (g_simple s1) (g_out s)) = Ret (tt, s2).
Proof.
  intros Han Hbegin Hc E1 E2. rewrite (write_tl_types w fs s s1 Hc E1).
  apply write_tl_parts in E1 as (t1 & f1 & a1 & b1 & _ & A1 & B1 & C1). apply write_tl_parts in E2 as (t2 & f2 & a2 & b2 & T2 & A2 & B2 & C2).
  apply write_tl_parts. exists t2, f2, a2, b2. split; [by rewrite <- T2; apply Hbegin|]. split; [|done]. unfold with_out in *. cbn [g_types g_simple g_out] in *.
  destruct (replays_analyse w fs _ _ _ A1) as [log Hlog]. cbn [g_types] in Hlog. rewrite <- Han in A2 |- *.
  assert (Hs : g_simple s1 = replay log (g_simple s)).
  { rewrite (clear_complex_simple _ _ _ C1). destruct (quiet_write_output w _ _ _ _ _ _ _ B1) as [_ ->].
    rewrite Hlog in A1. by injection A1 as <-. }
  rewrite Hlog in A2. rewrite Hlog, Hs, replay_replay. exact A2.
Qed.

(** ** generate_cpp *)

Section Isolation.
Context (TD_ENABLE_JNI DISABLE_HPP_DOCUMENTATION : bool) (writable : list Z -> bool).
Context (directory tl_name string_type bytes_type : Name) (ext_cpp_includes ext_h_includes : list Name).
Let wcpp : TL_writer := TD_TL_writer_cpp TD_ENABLE_JNI tl_name string_type bytes_type ext_cpp_includes.
Let wh : TL_writer := TD_TL_writer_h TD_ENABLE_JNI tl_name string_type bytes_type ext_h_includes.
Let whpp : TL_writer := TD_TL_writer_hpp TD_ENABLE_JNI DISABLE_HPP_DOCUMENTATION tl_name.
Context (config : tl_config).
Let s0 : gstate := mk_g (types config) (replicate (List.length (types config)) 0) [].

(** All three return on the configuration as it was read. *)
Lemma writers_complete found s2 :
  generator_ok wcpp (functions config) s0 = true -> analyse wcpp (functions config) s0 = Ret (found, s2) ->
  cpp_check wcpp (g_types s2) (g_simple s2) (functions config) = true ->
  exists s1 s2 s3, write_tl wcpp (functions config) s0 = Ret (tt, s1) /\ write_tl wh (functions config) s0 = Ret (tt, s2) /\
    write_tl whpp (functions config) s0 = Ret (tt, s3).
Proof.
  intros Hok E Hcheck. assert (Hw : standard_support wcpp) by (by right). destruct (analyse_parts wcpp _ s0 found s2 E) as (s1 & E1 & E2).
  destruct (searched_analysed wcpp _ s0 Hw Hok s1 E1 s2 E2) as (_ & Hlen & _).
  pose proof (header_checked _ _ _ _ _ _ _ _ Hcheck) as Hheader.
  destruct (write_tl_runs wcpp (functions config) stored_vars s0 _ found s2 Hw Hok eq_refl E) as (s1' & R1 & _); [by apply cpp_total|].
  destruct (output_begin_total tl_name string_type bytes_type ext_h_includes (to_heap s0)) as [text Hb].
  destruct (write_tl_runs wh (functions config) any_vars s0 text found s2 Hw Hok Hb E) as (s2' & R2 & _); [by apply header_total|].
  destruct (write_tl_runs whpp (functions config) any_vars s0 _ found s2 Hw Hok eq_refl E) as (s3' & R3 & _); [by apply hpp_total|].
  by exists s1', s2', s3'.
Qed.

(** A file that the writers before did not touch. *)
Lemma write_file_refreshes (w : TL_writer) (path : list Z) (c : loaded) (fs fs' : files) (s : gstate) :
  write_tl w (functions (l_config c)) (mk_g (types (l_config c)) (l_simple c) []) = Ret (tt, s) ->
  match fs !! path with Some contents => Z.of_nat (List.length contents) < 2 ^ 25 | None => True end ->
  fs' !! path = fs !! path ->
  write_file writable w path c fs' =
    Ret (mk_loaded (set_types (g_types s) (l_config c)) (g_simple s),
         partial_alter (fun _ => refreshed w (writable path) (fs !! path) (g_out s)) path fs').
Proof.
  intros E Hlen Hp. unfold write_file. rewrite Hp. by destruct (write_tl_to_file_refreshes w c (writable path) (fs !! path) s E Hlen) as [b ->].
Qed.
End Isolation.

Lemma generator_ok_plain w fs s : generator_ok w fs s = true -> Forall (fun t => is_complex t = false) (g_types s).
Proof.
  unfold generator_ok. rewrite !andb_true_iff, forallb_forall. intros ((_ & H) & _). apply Forall_forall. intros t Ht%list_elem_of_In.
  specialize (H t Ht). rewrite !andb_true_iff in H. destruct H as ((Hf%Z.eqb_eq & _) & _). unfold is_complex. by rewrite Hf.
Qed.

Lemma small_file (fs : files) (path : list Z) :
  map_Forall (fun _ file => Z.of_nat (List.length file) < 2 ^ 25) fs ->
  match fs !! path with Some contents => Z.of_nat (List.length contents) < 2 ^ 25 | None => True end.
Proof. intros Hfs. destruct (fs !! path) as [contents|] eqn:Hp; [|done]. by apply (Hfs path). Qed.

(** C22. The writers do not disturb each other: [generate_cpp] returns, and although the
    three writers work on the same objects one after the other and leave numbers in
    them, each of its files is what its writer alone makes of the configuration as it
    was read: left alone if it only differs in its documentation, replaced otherwise.
    No other file changes. *)
Theorem generate_cpp_isolated (TD_ENABLE_JNI DISABLE_HPP_DOCUMENTATION : bool) (writable : list Z -> bool) (directory tl_name string_type bytes_type : Name)
    (ext_cpp_includes ext_h_includes : list Name) (fs : files) (contents : list Z) (config : tl_config) (found : names * names) (s2 : gstate) :
  let wcpp := TD_TL_writer_cpp TD_ENABLE_JNI tl_name string_type bytes_type ext_cpp_includes in
  let wh := TD_TL_writer_h TD_ENABLE_JNI tl_name string_type bytes_type ext_h_includes in
  let whpp := TD_TL_writer_hpp TD_ENABLE_JNI DISABLE_HPP_DOCUMENTATION tl_name in
  let s0 := mk_g (types config) (replicate (List.length (types config)) 0) [] in
  let path suffix := directory ++ str "/" ++ tl_name ++ str suffix in
  map_Forall (fun _ file => Z.of_nat (List.length file) < 2 ^ 25) fs ->
  fs !! (str "auto/tlo/" ++ tl_name ++ str ".tlo") = Some contents -> read_tl_config contents = Ret config ->
  generator_ok wcpp (functions config) s0 = true -> analyse wcpp (functions config) s0 = Ret (found, s2) ->
  cpp_check wcpp (g_types s2) (g_simple s2) (functions config) = true ->
  exists fs' scpp sh shpp,
    generate_cpp_default TD_ENABLE_JNI DISABLE_HPP_DOCUMENTATION writable directory tl_name string_type bytes_type
      ext_cpp_includes ext_h_includes fs = Ret fs' /\
    write_tl wcpp (functions config) s0 = Ret (tt, scpp) /\ write_tl wh (functions config) s0 = Ret (tt, sh) /\
    write_tl whpp (functions config) s0 = Ret (tt, shpp) /\
    fs' !! path ".cpp"%string = refreshed wcpp (writable (path ".cpp"%string)) (fs !! path ".cpp"%string) (g_out scpp) /\
    fs' !! path ".h"%string = refreshed wh (writable (path ".h"%string)) (fs !! path ".h"%string) (g_out sh) /\
    fs' !! path ".hpp"%string = refreshed whpp (writable (path ".hpp"%string)) (fs !! path ".hpp"%string) (g_out shpp) /\
    forall p, p <> path ".cpp"%string -> p <> path ".h"%string -> p <> path ".hpp"%string -> fs' !! p = fs !! p.
Proof.
  intros wcpp wh whpp s0 path Hfs Htlo Hread Hok E Hcheck.
  destruct (writers_complete TD_ENABLE_JNI DISABLE_HPP_DOCUMENTATION tl_name string_type bytes_type ext_cpp_includes ext_h_includes
    config found s2 Hok E Hcheck) as (scpp & sh & shpp & E1 & E2 & E3).
  pose proof (generator_ok_plain _ _ _ Hok) as Hplain. fold wcpp wh whpp s0 in E1, E2, E3.
  pose proof (write_tl_again wcpp wh (functions config) s0 scpp sh eq_refl ltac:(done) Hplain E1 E2) as E2'.
  pose proof (write_tl_again wh whpp (functions config) s0 sh shpp eq_refl ltac:(done) Hplain E2 E3) as E3'.
  assert (Hread' : read_tl_config_from_file fs (str "auto/tlo/" ++ tl_name ++ str ".tlo") =
    Ret (mk_loaded config (replicate (List.length (types config)) 0))).
  { unfold read_tl_config_from_file. rewrite Htlo. cbn [get_file_contents]. change (Z.shiftl 1 25) with (2 ^ 25).
    pose proof (Hfs _ _ Htlo) as Hl. cbn beta in Hl. destruct (Z.geb_spec (Z.of_nat (List.length contents)) (2 ^ 25)); [lia|]. cbn [rbind]. by rewrite Hread. }
  assert (Hpath : forall suffix, (directory ++ str "/" ++ tl_name) ++ str suffix = path suffix) by (intros; unfold path; by rewrite <- !app_assoc).
  assert (Hne : forall a b, str a <> str b -> path a <> path b).
  { intros a b Hab Heq. apply Hab. unfold path in Heq. by apply app_inv_head, app_inv_head, app_inv_head in Heq. }
  unfold generate_cpp_default, generate_cpp. rewrite Hread'. cbn [rbind]. rewrite !Hpath. fold wcpp wh. change (WriterHpp _ _ _ _ _) with whpp.
  set (c0 := mk_loaded config (replicate (List.length (types config)) 0)).
  set (c1 := mk_loaded (set_types (g_types scpp) config) (g_simple scpp)).
  set (c2 := mk_loaded (set_types (g_types sh) config) (g_simple sh)).
  pose proof (fun fs' => write_file_refreshes writable wcpp (path ".cpp"%string) c0 fs fs' scpp E1 (small_file _ _ Hfs)) as W1.
  pose proof (fun fs' => write_file_refreshes writable wh (path ".h"%string) c1 fs fs' sh E2' (small_file _ _ Hfs)) as W2.
  pose proof (fun fs' => write_file_refreshes writable whpp (path ".hpp"%string) c2 fs fs' shpp E3' (small_file _ _ Hfs)) as W3.
  change (mk_loaded (set_types (g_types scpp) (l_config c0)) (g_simple scpp)) with c1 in W1.
  change (mk_loaded (set_types (g_types sh) (l_config c1)) (g_simple sh)) with c2 in W2.
  do 4 eexists. split.
  { rewrite (W1 fs eq_refl). cbn [rbind]. rewrite W2 by (apply lookup_partial_alter_ne; by apply Hne). cbn [rbind].
    rewrite W3 by (rewrite !lookup_partial_alter_ne by (by apply Hne); done). reflexivity. }
  split; [exact E1|]. split; [exact E2|]. split; [exact E3|].
  split; [rewrite !lookup_partial_alter_ne by (by apply Hne); apply lookup_partial_alter_eq|].
  split; [rewrite lookup_partial_alter_ne by (by apply Hne); apply lookup_partial_alter_eq|].
  split; [apply lookup_partial_alter_eq|]. intros p H1 H2 H3. by rewrite !lookup_partial_alter_ne by congruence.
Qed.

(** ** The client interface *)

(** Declarations of td/generate/scheme/td_api.tl. *)
Definition api : list string := [
  "double ? = Double;"; "string ? = String;"; "int32 = Int32;"; "int53 = Int53;"; "int64 = Int64;"; "bytes = Bytes;";
  "boolFalse = Bool;"; "boolTrue = Bool;"; "vector {t:Type} # [ t ] = Vector t;";
  "error code:int32 message:string = Error;"; "ok = Ok;"; "textEntityTypeBold = TextEntityType;";
  "textEntityTypeTextUrl url:string = TextEntityType;";
  "textEntity offset:int32 length:int32 type:TextEntityType = TextEntity;";
  "textEntities entities:vector<textEntity> = TextEntities;"; "---functions---";
  "getTextEntities text:string = TextEntities;"; "deleteFile file_id:int32 = Ok;"]%string.

(** What the compiler makes of them. *)
Definition api_tlo : list Z := Eval vm_compute in match tlc api with Ret (_, Some (_, bytes)) => bytes | _ => [] end.

Definition api_files : gmap (list Z) (list Z) := {[str "auto/tlo/td_api.tlo" := api_tlo]}.

Definition value_of {A} (d : A) (m : result A) : A := match m with Ret a => a | _ => d end.

Lemma value_of_Ret {A} (d : A) m : returned m = true -> m = Ret (value_of d m).
Proof. by destruct m. Qed.

Definition api_config : tl_config := value_of empty_config (read_tl_config api_tlo).
Definition api_state : gstate := mk_g (types api_config) (replicate (List.length (types api_config)) 0) [].

(** The writers of [generate_common] for this schema. *)
Definition api_cpp : TL_writer := TD_TL_writer_cpp false (str "td_api") (str "std::string") (str "std::string") [].
Definition api_h : TL_writer := TD_TL_writer_h false (str "td_api") (str "std::string") (str "std::string") [str "<string>"].
Definition api_hpp : TL_writer := TD_TL_writer_hpp false false (str "td_api").

Definition api_analysis : (names * names) * gstate :=
  value_of (((∅ : names), (∅ : names)), api_state) (analyse api_cpp (functions api_config) api_state).

(** On these declarations, where none of the files is there. *)
Lemma generate_cpp_isolated_witness :
  exists fs' scpp sh shpp,
    generate_cpp_default false false (fun _ => true) (str "auto/td/telegram") (str "td_api") (str "std::string") (str "std::string")
      [] [str "<string>"] api_files = Ret fs' /\
    write_tl api_cpp (functions api_config) api_state = Ret (tt, scpp) /\ write_tl api_h (functions api_config) api_state = Ret (tt, sh) /\
    write_tl api_hpp (functions api_config) api_state = Ret (tt, shpp) /\
    fs' !! str "auto/td/telegram/td_api.cpp" = refreshed api_cpp true (api_files !! str "auto/td/telegram/td_api.cpp") (g_out scpp) /\
    fs' !! str "auto/td/telegram/td_api.h" = refreshed api_h true (api_files !! str "auto/td/telegram/td_api.h") (g_out sh) /\
    fs' !! str "auto/td/telegram/td_api.hpp" = refreshed api_hpp true (api_files !! str "auto/td/telegram/td_api.hpp") (g_out shpp) /\
    forall p, p <> str "auto/td/telegram/td_api.cpp" -> p <> str "auto/td/telegram/td_api.h" ->
      p <> str "auto/td/telegram/td_api.hpp" -> fs' !! p = api_files !! p.
Proof.
  apply (generate_cpp_isolated false false (fun _ => true) (str "auto/td/telegram") (str "td_api") (str "std::string") (str "std::string")
    [] [str "<string>"] api_files api_tlo api_config (fst api_analysis) (snd api_analysis)).
  - apply map_Forall_singleton. vm_compute. reflexivity.
  - vm_compute. reflexivity.
  - apply value_of_Ret. vm_compute. reflexivity.
  - vm_compute. reflexivity.
  - rewrite <- surjective_pairing. apply value_of_Ret. vm_compute. reflexivity.
  - vm_compute. reflexivity.
Defined.

(** The compiler, then the generator, built without documentation; none of its files is there yet. *)
Definition schema_to_interface (l : list string) : result (gmap (list Z) (list Z)) :=
  do? (_, out) := tlc l in
  match out with
  | None => Fault Aborted
  | Some (_, bytes) =>
      generate_cpp_default false true (fun _ => true) (str "auto/td/telegram") (str "td_api") (str "std::string") (str "std::string")
        [] [str "<string>"] {[str "auto/tlo/td_api.tlo" := bytes]}
  end.

Definition file_of (r : result (gmap (list Z) (list Z))) (path : string) : option (list Z) :=
  match r with Ret fs => fs !! str path | _ => None end.

(** From a schema to its interface: the compiler, the reader and the generator with
    its three writers, one after the other, turn declarations of the client interface
    into the classes of its header, with the numbers of these classes in the published
    interface, the functions of its source, and the switches that call a function on
    an object of known class. *)
Example schema_to_files :
  let fs := schema_to_interface api in
  (option_map (drop 1304) (file_of fs "auto/td/telegram/td_api.h"),
   file_of fs "auto/td/telegram/td_api.hpp",
   option_map (fun text => take 391 (drop 1267 text)) (file_of fs "auto/td/telegram/td_api.cpp")) =
  (Some (
     code "class error;||class ok;||class textEntities;||class textEntity;||class TextEntityType;||class Object;||" ++
     code "class Object: public TlObject {| public:|};||class Function: public TlObject {| public:|};||" ++
     code "class error final : public Object {| public:|  int32 code_;|  string message_;||  error();||" ++
     code "  error(int32 code_, string const &message_);||  static const std::int32_t ID = -1679978726;|" ++
     code "  std::int32_t get_id() const final {|    return ID;|  }||" ++
     code "  void store(TlStorerToString &s, const char *field_name) const final;|};||" ++
     code "class ok final : public Object {| public:||  ok();||  static const std::int32_t ID = -722616727;|" ++
     code "  std::int32_t get_id() const final {|    return ID;|  }||" ++
     code "  void store(TlStorerToString &s, const char *field_name) const final;|};||" ++
     code "class textEntities final : public Object {| public:|  array<object_ptr<textEntity>> entities_;||" ++
     code "  textEntities();||  explicit textEntities(array<object_ptr<textEntity>> &&entities_);||" ++
     code "  static const std::int32_t ID = -933199172;|  std::int32_t get_id() const final {|    return ID;|  }||" ++
     code "  void store(TlStorerToString &s, const char *field_name) const final;|};||" ++
     code "class textEntity final : public Object {| public:|  int32 offset_;|  int32 length_;|" ++
     code "  object_ptr<TextEntityType> type_;||  textEntity();||" ++
     code "  textEntity(int32 offset_, int32 length_, object_ptr<TextEntityType> &&type_);||" ++
     code "  static const std::int32_t ID = -1951688280;|  std::int32_t get_id() const final {|    return ID;|  }||" ++
     code "  void store(TlStorerToString &s, const char *field_name) const final;|};||" ++
     code "class TextEntityType: public Object {| public:|};||" ++
     code "class textEntityTypeBold final : public TextEntityType {| public:||  textEntityTypeBold();||" ++
     code "  static const std::int32_t ID = -1128210000;|  std::int32_t get_id() const final {|    return ID;|  }||" ++
     code "  void store(TlStorerToString &s, const char *field_name) const final;|};||" ++
     code "class textEntityTypeTextUrl final : public TextEntityType {| public:|  string url_;||" ++
     code "  textEntityTypeTextUrl();||  explicit textEntityTypeTextUrl(string const &url_);||" ++
     code "  static const std::int32_t ID = 445719651;|  std::int32_t get_id() const final {|    return ID;|  }||" ++
     code "  void store(TlStorerToString &s, const char *field_name) const final;|};||" ++
     code "class deleteFile final : public Function {| public:|  int32 file_id_;||  deleteFile();||" ++
     code "  explicit deleteFile(int32 file_id_);||  static const std::int32_t ID = 1807653676;|" ++
     code "  std::int32_t get_id() const final {|    return ID;|  }||  using ReturnType = object_ptr<ok>;||" ++
     code "  void store(TlStorerToString &s, const char *field_name) const final;|};||" ++
     code "class getTextEntities final : public Function {| public:|  string text_;||  getTextEntities();||" ++
     code "  explicit getTextEntities(string const &text_);||  static const std::int32_t ID = -341490693;|" ++
     code "  std::int32_t get_id() const final {|    return ID;|  }||" ++
     code "  using ReturnType = object_ptr<textEntities>;||" ++
     code "  void store(TlStorerToString &s, const char *field_name) const final;|};||}  // namespace td_api|" ++
     code "}  // namespace td|"),
   Some (
     code "#pragma once||#include 'td_api.h'||namespace td {|namespace td_api {||template <class T>|" ++
     code "bool downcast_call(Object &obj, const T &func) {|  switch (obj.get_id()) {|    case error::ID:|" ++
     code "      func(static_cast<error &>(obj));|      return true;|    case ok::ID:|" ++
     code "      func(static_cast<ok &>(obj));|      return true;|    case textEntities::ID:|" ++
     code "      func(static_cast<textEntities &>(obj));|      return true;|    case textEntity::ID:|" ++
     code "      func(static_cast<textEntity &>(obj));|      return true;|    case textEntityTypeBold::ID:|" ++
     code "      func(static_cast<textEntityTypeBold &>(obj));|      return true;|" ++
     code "    case textEntityTypeTextUrl::ID:|      func(static_cast<textEntityTypeTextUrl &>(obj));|" ++
     code "      return true;|    default:|      return false;|  }|}||template <class T>|" ++
     code "bool downcast_call(Function &obj, const T &func) {|  switch (obj.get_id()) {|" ++
     code "    case deleteFile::ID:|      func(static_cast<deleteFile &>(obj));|      return true;|" ++
     code "    case getTextEntities::ID:|      func(static_cast<getTextEntities &>(obj));|      return true;|" ++
     code "    default:|      return false;|  }|}||template <class T>|" ++
     code "bool downcast_call(TextEntityType &obj, const T &func) {|  switch (obj.get_id()) {|" ++
     code "    case textEntityTypeBold::ID:|      func(static_cast<textEntityTypeBold &>(obj));|" ++
     code "      return true;|    case textEntityTypeTextUrl::ID:|" ++
     code "      func(static_cast<textEntityTypeTextUrl &>(obj));|      return true;|    default:|" ++
     code "      return false;|  }|}||}  // namespace td_api|}  // namespace td|"),
   Some (
     code "void textEntities::store(TlStorerToString &s, const char *field_name) const {|" ++
     code "  if (!LOG_IS_STRIPPED(ERROR)) {|    s.store_class_begin(field_name, 'textEntities');|" ++
     code "    { s.store_vector_begin('entities', entities_.size()); for (const auto &_value : entities_) { s.store_object_field('', static_cast<const BaseObject *>(_value.get())); } s.store_class_end(); }|" ++
     code "    s.store_class_end();|  }|}||")).
Proof. vm_compute. reflexivity. Qed.
