(* ===== verification/Jni.v ===== *)
(** * The writers for JNI return

    [TD_TL_writer_jni_h] and [TD_TL_writer_jni_cpp] keep the promise that the
    generator needs, for configurations without variables whose fields have types
    that Java has: no vector of [Bool] or [Bytes], which these writers refuse. *)
From Stdlib Require Import ZArith Lia List Bool Ascii String.
From stdpp Require Import base list strings gmap.
From S2P Require Import Prelude Reader Writers Generate HeaderWriter CppWriter JniWriter Analysis Reach Complete Header Cpp Runs Program.
Open Scope tl_scope.

Local Abbreviation main_class_name := (TL_writer_gen_main_class_name TD_is_combinator_supported TD_gen_class_name).

(** ** The check *)

Section Check.
Context (ts : list tl_type) (sm : list Z).

Definition jni_bare (t : tl_type) (simple : Z) : bool :=
  (simple <=? 1) || (J_is_built_in_simple_type (t_name t) && negb (one_of (t_name t) ["Bool"%string])) || J_is_built_in_complex_type (t_name t).

(** A type that has a counterpart in Java. *)
Fixpoint jni_tree (x : tl_tree) : bool :=
  match x with
  | tl_tree_type flags i children =>
      match ts !! i, sm !! i with
      | Some t, Some simple =>
          negb (has_flag (t_flags t) FLAG_DEFAULT_CONSTRUCTOR) && (negb (has_flag flags FLAG_BARE) || jni_bare t simple) &&
          not_object (t_name t) &&
          (if J_is_built_in_simple_type (t_name t) then true
           else if one_of (t_name t) ["Vector"%string] then (t_arity t =? 1) && match children with [child] => jni_tree child | _ => false end
           else bool_decide (TD_simple_type_name (t_name t) = None) && bool_decide (children = []) && class_ok ts t)
      | _, _ => false
      end
  | _ => false
  end.

(** It can be the item of a vector. *)
Definition jni_item (x : tl_tree) : bool :=
  match x with
  | tl_tree_type _ i _ => match ts !! i with Some t => negb (one_of (t_name t) ["Bool"; "Bytes"]%string) | None => false end
  | _ => false
  end.

Definition jni_field (x : tl_tree) : bool :=
  jni_tree x &&
  match x with
  | tl_tree_type _ i (child :: _) => match ts !! i with Some t => negb (one_of (t_name t) ["Vector"%string]) || jni_item child | None => false end
  | _ => true
  end.

Definition jni_arg (a : arg) : bool :=
  negb (has_flag (arg_flags a) FLAG_EXCL) && negb (has_flag (arg_flags a) FLAG_OPT_VAR) && (a_exist_var_num a =? -1) && (a_var_num a =? -1) &&
  field_name_ok (a_name a) && jni_field (a_type a).
End Check.

Definition jni_check (w : TL_writer) (ts : list tl_type) (sm : list Z) (functions : list tl_combinator) : bool :=
  let supported := List.filter (is_supported w ts) in
  header_check w ts functions &&
  forallb (fun k => (k_var_count k <=? 0) && forallb (jni_arg ts sm) (k_args k))
    (supported (functions ++ concat (map t_constructors (List.filter (is_generated w) ts)))) &&
  forallb (fun k => jni_field ts sm (k_result k)) (supported functions).

(** ** The names of types *)

Lemma jni_built_in_known name : TD_simple_type_name name = None -> J_is_built_in_simple_type name = false.
Proof.
  unfold TD_simple_type_name, J_is_built_in_simple_type, one_of. cbn. repeat (case_bool_decide; cbn; [done|]). done.
Qed.

(** The names of types are those of the other classes. *)
Lemma same_type_name x h : J_gen_type_name x h = TD_gen_type_name x h.
Proof.
  induction x as [f i children IH|x Hx] using tree_children_ind; [|by destruct x]. cbn [J_gen_type_name TD_gen_type_name]. unfold type_of.
  destruct (h_types h !! i) as [t|]; [|done]. cbn [rbind]. destruct (TD_simple_type_name (t_name t)) as [s|] eqn:Es; [done|].
  destruct (one_of (t_name t) ["Vector"%string]) eqn:Ev.
  - destruct (t_arity t =? 1); [|done]. cbn [check rbind negb]. destruct children as [|c [|]]; [done| |by destruct c].
    apply Forall_cons in IH as [IH _]. destruct c; [|done..]. by rewrite IH.
  - unfold J_is_built_in_complex_type, TD_is_built_in_complex_type. rewrite Ev, (jni_built_in_known _ Es), (built_in_known _ Es).
    cbn [negb andb check rbind orb]. by destruct (forallb _ _).
Qed.

Lemma one_name name s : one_of name [s] = true -> name = str s.
Proof. unfold one_of. cbn. rewrite orb_false_r. apply bool_decide_eq_true. Qed.

Lemma starts_not_one_of p s l :
  starts_with p s = true -> forallb (fun x => negb (starts_with p (str x))) l = true -> one_of s l = false.
Proof.
  intros Hs Hl. rewrite forallb_forall in Hl. apply not_true_is_false. intros (x & Hx & ->%bool_decide_eq_true)%existsb_exists.
  specialize (Hl x Hx). by rewrite Hs in Hl.
Qed.

Lemma array_not_one_of y l : forallb (fun x => negb (starts_with (str "array") (str x))) l = true -> one_of (str "array<" ++ y) l = false.
Proof. by apply (starts_not_one_of (str "array")), starts_with_app. Qed.

Lemma object_not_one_of y l : forallb (fun x => negb (starts_with (str "object_ptr") (str x))) l = true -> one_of (str "object_ptr<" ++ y) l = false.
Proof. by apply (starts_not_one_of (str "object_ptr")), starts_with_app. Qed.

Section Types.
Context (h : heap).
Local Abbreviation ts := (h_types h).
Local Abbreviation sm := (h_simple h).

(** What [gen_type_name] returns for a type that has a counterpart. *)
Inductive jni_name (x : tl_tree) : list Z -> Prop :=
| name_value s : s ∈ ["int32"; "int53"; "int64"; "double"; "string"]%string -> jni_name x (str s)
| name_refused s : s ∈ ["bool"; "bytes"]%string -> jni_item ts x = false -> jni_name x (str s)
| name_array f i c y : x = tl_tree_type f i [c] -> jni_tree ts sm c = true -> jni_name x (str "array<" ++ y)
| name_object f i y s : x = tl_tree_type f i [] -> main_class_name i h = Ret s -> jni_name x (str "object_ptr<" ++ y).

Lemma jni_type_bare i t simple : ts !! i = Some t -> sm !! i = Some simple -> J_is_type_bare h i = Ret (jni_bare t simple).
Proof. intros Ht Hs. unfold J_is_type_bare. by rewrite Ht, Hs. Qed.

Lemma built_in_value name : J_is_built_in_simple_type name = true ->
  exists s, TD_simple_type_name name = Some s /\
    (s ∈ ["int32"; "int53"; "int64"; "double"; "string"]%string \/
     (s ∈ ["bool"; "bytes"]%string /\ one_of name ["Bool"; "Bytes"]%string = true)).
Proof.
  unfold J_is_built_in_simple_type, one_of at 1. cbn. rewrite !orb_true_iff, !bool_decide_eq_true.
  intros [->|[->|[->|[->|[->|[->|[->|Hf]]]]]]]; [..|done]; eexists; (split; [reflexivity|]);
    first [left; apply list_elem_of_In; cbn; tauto|right; split; [apply list_elem_of_In; cbn; tauto|reflexivity]].
Qed.

Lemma jni_type_name x : jni_tree ts sm x = true -> exists text, TD_gen_type_name x h = Ret text /\ jni_name x text.
Proof.
  induction x as [f i children IH|x Hx] using tree_children_ind; [|by destruct x]. cbn [jni_tree TD_gen_type_name].
  destruct (ts !! i) as [t|] eqn:Ht; [|done]. destruct (sm !! i) as [simple|] eqn:Hs; [|done]. rewrite !andb_true_iff. intros (_ & Hk).
  destruct (J_is_built_in_simple_type (t_name t)) eqn:Eb.
  { destruct (built_in_value _ Eb) as (s & -> & [Hin|[Hin Hb]]); exists (str s); (split; [done|]); [by constructor|].
    apply name_refused; [done|]. cbn [jni_item]. by rewrite Ht, Hb. }
  destruct (one_of (t_name t) ["Vector"%string]) eqn:Ev.
  - pose proof (one_name _ _ Ev) as En.
    rewrite En. apply andb_true_iff in Hk as [->%Z.eqb_eq Hc]. cbn [negb Z.eqb Pos.eqb]. destruct children as [|c [|]]; [done| |done].
    apply Forall_cons in IH as [IH _]. destruct (IH Hc) as (y & E & _). destruct c as [f' i' ch'| | | |]; try done. exists (str "array<" ++ (y ++ str ">")).
    split; [|by eapply name_array]. change (TD_simple_type_name (str "Vector")) with (@None string). cbv iota. rewrite E. done.
  - rewrite !andb_true_iff, !bool_decide_eq_true in Hk. destruct Hk as ((Es & ->) & Hc). rewrite Es. unfold TD_is_built_in_complex_type.
    rewrite (built_in_known _ Es), Ev. cbn [orb forallb]. destruct (main_class_name_returns h i t simple Ht Hs Hc) as [s Em].
    rewrite Em. exists (str "object_ptr<" ++ (s ++ str ">")). split; [done|by eapply name_object].
Qed.

(** The case analysis on the name of an item, down to texts that evaluate. *)
Lemma vector_fetch_returns name x :
  jni_tree ts sm x = true -> jni_item ts x = true -> exists text, J_gen_vector_fetch name x h = Ret text.
Proof.
  intros Hx Hi. destruct (jni_type_name x Hx) as (text & E & Hn). unfold J_gen_vector_fetch. rewrite E. cbn [rbind].
  destruct Hn as [s Hs|s _ Hi'|f i c y -> Hc|f i y s -> Em].
  - apply list_elem_of_In in Hs. cbn in Hs. destruct Hs as [<-|[<-|[<-|[<-|[<-|[]]]]]]; by eexists.
  - by rewrite Hi in Hi'.
  - unfold array_type. rewrite !(array_not_one_of y) by reflexivity. cbn [negb check rbind]. rewrite bool_decide_true by done. cbn [negb].
    rewrite (starts_with_app (str "array") (str "array<") y) by reflexivity. destruct (jni_type_name c Hc) as (z & -> & Hz). cbn [rbind].
    destruct Hz as [s Hs|s Hs _|f' i' c' z -> _|f' i' z s -> Em].
    + apply list_elem_of_In in Hs. cbn in Hs. destruct Hs as [<-|[<-|[<-|[<-|[<-|[]]]]]]; by eexists.
    + apply list_elem_of_In in Hs. cbn in Hs. destruct Hs as [<-|[<-|[]]]; by eexists.
    + by eexists.
    + rewrite (starts_with_app (str "object_ptr") (str "object_ptr<") z) by reflexivity. rewrite Em. by eexists.
  - unfold array_type. rewrite !(object_not_one_of y) by reflexivity. cbn [negb check rbind]. rewrite bool_decide_true by done. cbn [negb].
    change (starts_with (str "array") (str "object_ptr<" ++ y)) with false. cbv iota.
    rewrite (starts_with_app (str "object_ptr") (str "object_ptr<") y) by reflexivity. cbn [check rbind]. rewrite Em. by eexists.
Qed.

Lemma vector_store_returns name x :
  jni_tree ts sm x = true -> jni_item ts x = true -> exists text, J_store_vector name x h = Ret text.
Proof.
  intros Hx Hi. destruct (jni_type_name x Hx) as (text & E & Hn). unfold J_store_vector. rewrite E. cbn [rbind].
  destruct Hn as [s Hs|s _ Hi'|f i c y -> Hc|f i y s -> Em].
  - apply list_elem_of_In in Hs. cbn in Hs. destruct Hs as [<-|[<-|[<-|[<-|[<-|[]]]]]]; by eexists.
  - by rewrite Hi in Hi'.
  - rewrite (array_not_one_of y ["bool"%string]) by reflexivity. rewrite (starts_with_app (str "array") (str "array<") y) by reflexivity.
    cbn [negb check rbind]. rewrite orb_true_r. by eexists.
  - rewrite (object_not_one_of y ["bool"%string]) by reflexivity. rewrite (starts_with_app (str "object_ptr") (str "object_ptr<") y) by reflexivity.
    cbn [negb check rbind]. rewrite orb_true_r. by eexists.
Qed.

(** ** Fields *)

Lemma field_value_known name f : is_Some (J_field_value name f) <-> J_is_built_in_simple_type name = true.
Proof.
  unfold J_field_value, J_is_built_in_simple_type, one_of. cbn [existsb].
  repeat (case_bool_decide as Hd; cbn; [split; [done|by eexists]|clear Hd]). split; [by intros []|done].
Qed.

(** The kinds of types. *)
Inductive jni_kind (i : nat) (t : tl_type) : list tl_tree -> Prop :=
| kind_value children : J_is_built_in_simple_type (t_name t) = true -> jni_kind i t children
| kind_vector c : t_name t = str "Vector" -> jni_tree ts sm c = true -> jni_kind i t [c]
| kind_object s : J_is_built_in_simple_type (t_name t) = false -> one_of (t_name t) ["Vector"%string] = false -> main_class_name i h = Ret s -> jni_kind i t [].

Lemma jni_tree_kind x :
  jni_tree ts sm x = true -> exists f i children t, x = tl_tree_type f i children /\ ts !! i = Some t /\
    has_flag (t_flags t) FLAG_DEFAULT_CONSTRUCTOR = false /\ one_of (t_name t) ["#"%string] = false /\ not_object (t_name t) = true /\
    (exists b, J_is_type_bare h i = Ret b /\ negb (has_flag f FLAG_BARE) || b = true) /\ jni_kind i t children.
Proof.
  destruct x as [f i children| | | |]; try done. cbn [jni_tree]. destruct (ts !! i) as [t|] eqn:Ht; [|done].
  destruct (sm !! i) as [simple|] eqn:Hs; [|done]. rewrite !andb_true_iff. intros (((Hd%negb_true_iff & Hb) & Hn) & Hk).
  enough (one_of (t_name t) ["#"%string] = false /\ jni_kind i t children) as [Hh Hc].
  { exists f, i, children, t. split_and!; [done..| |done]. exists (jni_bare t simple). split; [by apply jni_type_bare|done]. }
  destruct (J_is_built_in_simple_type (t_name t)) eqn:Eb.
  { split; [|by constructor]. destruct (one_of (t_name t) ["#"%string]) eqn:E; [|done]. apply one_name in E. by rewrite E in Eb. }
  destruct (one_of (t_name t) ["Vector"%string]) eqn:Ev.
  - apply one_name in Ev. rewrite Ev. split; [done|]. apply andb_true_iff in Hk as [_ Hc]. destruct children as [|c [|]]; try done. by constructor.
  - rewrite !andb_true_iff, !bool_decide_eq_true in Hk. destruct Hk as ((Es & ->) & Hc). destruct (main_class_name_returns h i t simple Ht Hs Hc) as [s Em].
    split; [|by eapply kind_object]. unfold TD_simple_type_name in Es. by destruct (one_of (t_name t) ["#"%string]).
Qed.

Lemma type_fetch_jni name x vars : jni_field ts sm x = true -> exists text, J_gen_type_fetch name x vars 1 h = Ret text.
Proof.
  unfold jni_field. intros [Hx Hi]%andb_true_iff. destruct (jni_tree_kind x Hx) as (f & i & children & t & -> & Ht & Hd & Hh & _ & (b & Eb & Hb) & Hk).
  unfold J_gen_type_fetch, type_of. rewrite Ht in Hi |- *. cbn [rbind]. rewrite Hd. cbn [negb check rbind Z.eqb Pos.eqb]. rewrite Eb. cbn [rbind].
  rewrite Hb, Hh. cbn [negb check rbind]. destruct (if bool_decide (name = []) then J_value (t_name t) else None); [by eexists|].
  destruct Hk as [children Hk|c En Hc|s _ Hv Em].
  - destruct (proj2 (field_value_known _ name) Hk) as [v ->]. by eexists.
  - rewrite En in Hi |- *. cbn in Hi. destruct (vector_fetch_returns name c Hc Hi) as [text E].
    change (J_field_value (str "Vector") name) with (@None (list Z)). change (one_of (str "Vector") ["Vector"%string]) with true. cbv iota. rewrite E. by eexists.
  - destruct (J_field_value (t_name t) name) as [v|] eqn:E; [by eexists|]. rewrite Hv, Em. cbn [rbind]. case_bool_decide; by eexists.
Qed.

Lemma store_value_known name f :
  one_of name ["Int32"; "Int53"; "Int64"; "Double"; "Bool"; "String"]%string = true -> exists text, J_store_value name f = Ret text.
Proof.
  unfold one_of at 1. cbn. rewrite !orb_true_iff, !bool_decide_eq_true. intros [->|[->|[->|[->|[->|[->|Hf]]]]]]; [by eexists..|done].
Qed.

(** A vector is written item by item only for [TlStorerToString], where any item will do. *)
Lemma type_store_jni name x n :
  name <> [] -> jni_tree ts sm x = true -> (n = 1 \/ jni_field ts sm x = true) -> exists text, J_gen_type_store name x n h = Ret text.
Proof.
  revert name. induction x as [f i children IH|x Hx] using tree_children_ind; [|by destruct x]. intros name Hname Hx Hn.
  destruct (jni_tree_kind _ Hx) as (f' & i' & children' & t & [= <- <- <-] & Ht & Hd & _ & _ & (b & Eb & Hb) & Hk).
  cbn [J_gen_type_store]. unfold type_of. rewrite Ht. cbn [rbind]. rewrite bool_decide_false, Hd by done. cbn [negb check rbind]. rewrite Eb. cbn [rbind].
  rewrite Hb. cbn [check rbind]. destruct (one_of (t_name t) ("Int32" :: _)%string) eqn:E1.
  { destruct (n =? 1); [by eexists|]. by apply store_value_known. }
  destruct (one_of (t_name t) ["Bytes"%string]) eqn:E2; [destruct (n =? 1); by eexists|].
  destruct Hk as [children Hk|c En Hc|s _ Hv _].
  - exfalso. unfold J_is_built_in_simple_type, one_of in Hk. cbn in Hk. rewrite !orb_true_iff, !bool_decide_eq_true in Hk.
    destruct Hk as [Hk|[Hk|[Hk|[Hk|[Hk|[Hk|[Hk|]]]]]]]; first [done|by rewrite Hk in E1|by rewrite Hk in E2].
  - rewrite En. change (one_of (str "Vector") ["Vector"%string]) with true. cbv iota. apply Forall_cons in IH as [IH _].
    destruct (Z.eqb_spec n 1) as [->|Hne].
    + match goal with |- context [J_gen_type_store ?y c 1 h] => destruct (IH y) as [text ->]; [done|done|by left|] end. by eexists.
    + destruct Hn as [|Hn]; [done|]. unfold jni_field in Hn. apply andb_true_iff in Hn as [_ Hi]. rewrite Ht, En in Hi. cbn in Hi.
      by apply vector_store_returns.
  - rewrite Hv. rewrite bool_decide_true by done. by eexists.
Qed.

Lemma type_signature_jni x : jni_tree ts sm x = true -> exists text, J_gen_type_signature x h = Ret text.
Proof.
  induction x as [f i children IH|x Hx] using tree_children_ind; [|by destruct x]. intros Hx.
  destruct (jni_tree_kind _ Hx) as (f' & i' & children' & t & [= <- <- <-] & Ht & _ & Hh & Ho & _ & Hk).
  cbn [J_gen_type_signature]. unfold type_of. rewrite Ht. cbn [rbind]. rewrite Hh. cbn [negb check rbind J_gen_base_tl_class_name plain_text].
  rewrite bool_decide_false by (intros E; by rewrite E in Ho). cbn [negb check rbind].
  destruct Hk as [children Hk|c En Hc|s _ Hv Em].
  - unfold J_is_built_in_simple_type, one_of in Hk. cbn in Hk. rewrite !orb_true_iff, !bool_decide_eq_true in Hk.
    destruct Hk as [->|[->|[->|[->|[->|[->|[->|]]]]]]]; [by eexists..|done].
  - rewrite En. apply Forall_cons in IH as [IH _]. destruct (IH Hc) as [text E]. cbn. rewrite E. by eexists.
  - rewrite Hv, Em. cbn [rbind]. repeat match goal with |- context [if ?b then _ else _] => destruct b; [by eexists|] end. by eexists.
Qed.
End Types.

(** ** The identifiers of the fields *)

Lemma cut_at_shorter p s a b : p <> [] -> cut_at p s = Some (a, b) -> (List.length b < List.length s)%nat.
Proof.
  intros Hp. revert a. induction s as [|c s IH]; intros a; cbn [cut_at]; destruct (starts_with p _) eqn:E; try done.
  - unfold starts_with in E. apply bool_decide_eq_true in E. rewrite take_nil in E. by destruct Hp.
  - intros [= <- <-]. rewrite length_skipn. cbn [List.length]. destruct p; [done|]. cbn [List.length]. lia.
  - destruct (cut_at p s) as [[a' b']|]; [|done]. intros [= <- <-]. specialize (IH a' eq_refl). cbn [List.length]. lia.
Qed.

Lemma replace_package_total n s t : (List.length s < n)%nat -> exists text, replace_package n s t = Ret text.
Proof.
  revert s t. induction n as [|n IH]; intros s t Hn; [lia|]. cbn [replace_package].
  destruct (cut_at _ s) as [[a b]|] eqn:E; [|by eexists]. apply IH. apply cut_at_shorter in E; [lia|done].
Qed.

Lemma quote_signature_total s : exists text, quote_signature s = Ret text.
Proof. unfold quote_signature. destruct (cut_at _ s); [apply replace_package_total; lia|by eexists]. Qed.

Lemma jni_arg_parts ts sm a : jni_arg ts sm a = true ->
  negb (has_flag (arg_flags a) FLAG_EXCL) = true /\ negb (has_flag (arg_flags a) FLAG_OPT_VAR) = true /\ (a_exist_var_num a =? -1) = true /\
  (a_var_num a =? -1) = true /\ field_name_ok (a_name a) = true /\ jni_field ts sm (a_type a) = true /\ jni_tree ts sm (a_type a) = true /\
  exists f i ch, a_type a = tl_tree_type f i ch.
Proof.
  unfold jni_arg. rewrite !andb_true_iff. intros (((((H1 & H2) & H3) & H4) & H5) & H6). split_and!; [done..| |];
    unfold jni_field in H6; apply andb_true_iff in H6 as [H6 _]; [done|]. destruct (a_type a); try done. by eexists _, _, _.
Qed.

Lemma field_name_not_nil name h text : TD_gen_field_name name h = Ret text -> text <> [].
Proof.
  unfold TD_gen_field_name. destruct (last _); [|done]. destruct (_ =? _); [done|]. intros [= <-]. by destruct (alnum_or_underscore name).
Qed.

Lemma field_ids_jni h args : forallb (jni_arg (h_types h) (h_simple h)) args = true -> exists text, J_field_ids args h = Ret text.
Proof.
  induction args as [|a args IH]; [by eexists|]. cbn [forallb J_field_ids]. intros [Ha Hl]%andb_true_iff. destruct (IH Hl) as [rest ->].
  destruct (jni_arg_parts _ _ a Ha) as (_ & _ & _ & _ & Hn & _ & Ht & f & i & ch & Et). destruct (field_name_returns _ h Hn) as [name E].
  pose proof (field_name_not_nil _ _ _ E). rewrite E. destruct (type_signature_jni h _ Ht) as [s ->]. destruct (quote_signature_total s) as [q Eq].
  rewrite Et. cbn [rbind check node_type Z.eqb NODE_TYPE_TYPE Pos.eqb]. rewrite bool_decide_false by done. cbn [negb check rbind]. rewrite Eq. by eexists.
Qed.

(** ** The promise, and what it gives *)

(** There are no variables. *)
Definition no_vars (k : tl_combinator) (l : list arg) (v : list var_description) : Prop := v = [].

Section Promise.
Context (TD_ENABLE_JNI : bool) (tl_name string_type bytes_type : Name) (ext_include : list Name).
Let w : TL_writer := TD_TL_writer_jni_cpp TD_ENABLE_JNI tl_name string_type bytes_type ext_include.
Context (ts : list tl_type) (sm : list Z) (functions : list tl_combinator).
Hypothesis Hlen : List.length sm = List.length ts.
Hypothesis Hcheck : jni_check w ts sm functions = true.
Local Abbreviation h := (mk_heap ts sm).

Lemma jni_header_checked : header_check w ts functions = true.
Proof. unfold jni_check in Hcheck. rewrite !andb_true_iff in Hcheck. tauto. Qed.

Let arg_fine := checked_arg w ts functions jni_header_checked.
Let arity_none := checked_arity w ts functions eq_refl jni_header_checked.
Let class_fine := checked_class w ts functions jni_header_checked.
Let combinator_fine := checked_combinator w ts functions jni_header_checked.

Lemma jni_fields k : written w ts functions k -> k_var_count k <= 0 /\ forallb (jni_arg ts sm) (k_args k) = true.
Proof.
  intros [Hs Hk]. pose proof Hcheck as Hc. unfold jni_check in Hc. rewrite !andb_true_iff, !forallb_forall in Hc.
  destruct Hc as ((_ & H2) & _). rewrite <- Z.leb_le. apply andb_true_iff, H2, filter_In. split; [|done]. apply list_elem_of_In, elem_of_app.
  destruct Hk as [Hk|(t & Ht & Hk)]; [by left|right; by eapply constructor_listed].
Qed.

Lemma jni_this_arg k l a l' : written w ts functions k -> k_args k = l ++ a :: l' -> jni_arg ts sm a = true.
Proof.
  intros Hk E. destruct (jni_fields k Hk) as [_ Ha]. rewrite forallb_forall in Ha. apply Ha. rewrite E. apply in_elt.
Qed.

Lemma jni_result k : written w ts functions k -> k ∈ functions -> jni_field ts sm (k_result k) = true.
Proof.
  intros [Hs _] Hk%list_elem_of_In. pose proof Hcheck as Hc. unfold jni_check in Hc. rewrite !andb_true_iff, !forallb_forall in Hc.
  by apply Hc, filter_In.
Qed.

Lemma jni_fetch_steps k l a l' n b : written w ts functions k -> k_args k = l ++ a :: l' ->
  steps ts sm (J_gen_field_fetch n a b 1) (no_vars k l) (no_vars k (l ++ [a])).
Proof.
  intros Hk Ha v ->. destruct (jni_arg_parts _ _ a (jni_this_arg k l a l' Hk Ha)) as (H1 & H2 & H3 & H4 & Hn & Hf & _ & f & i & ch & Et).
  unfold J_gen_field_fetch. destruct (field_name_returns _ h Hn) as [name ->]. cbn [Z.geb Z.compare check rbind]. rewrite Et, H3, H1, H2, H4 in *.
  cbn [check rbind node_type NODE_TYPE_TYPE Z.eqb Pos.eqb negb]. match goal with |- context [J_gen_type_fetch ?x _ [] 1 h] => destruct (type_fetch_jni h x _ [] Hf) as [text ->] end.
  by eexists _, _.
Qed.

Lemma jni_store_steps k l a l' n b : written w ts functions k -> k_args k = l ++ a :: l' ->
  steps ts sm (J_gen_field_store a b n) (no_vars k l) (no_vars k (l ++ [a])).
Proof.
  intros Hk Ha v ->. destruct (jni_arg_parts _ _ a (jni_this_arg k l a l' Hk Ha)) as (H1 & H2 & H3 & H4 & Hn & Hf & Ht & f & i & ch & Et).
  unfold J_gen_field_store. destruct (field_name_returns _ h Hn) as [name E]. pose proof (field_name_not_nil _ _ _ E). rewrite E. cbn [rbind].
  rewrite Et, H3, H1, H2, H4 in *. cbn [check rbind node_type NODE_TYPE_TYPE Z.eqb Pos.eqb negb].
  destruct (type_store_jni h name _ n ltac:(done) Ht (or_intror Hf)) as [text ->]. by eexists _, _.
Qed.

Lemma init_fine f : f ∈ get_additional_functions w -> is_init_jni_vars f = true.
Proof. by intros ->%list_elem_of_singleton. Qed.

#[export] Instance jni_cpp_total : WriterTotal w ts sm functions no_vars.
Proof.
  constructor; try (intros; cbn; by eexists).
  - intros n ->%arity_none. by eexists.
  - intros n Hn%class_fine. by apply class_name_returns.
  - intros a t Ha%arg_fine E Hne. destruct (arg_field_type h Hlen a Ha) as (text & E' & Hn).
    cbn in E. rewrite E in E'. injection E' as <-. by apply field_name_returns, Hn.
  - intros a Ha%arg_fine. destruct (arg_field_type h Hlen a Ha) as (text & E & _). by exists text.
  - intros k Hk. unfold no_vars. destruct (jni_fields k Hk) as [Hc _]. by rewrite Z2Nat.nonpos.
  - intros k Hk v ->. cbn. unfold C_gen_vars. cbn [check rbind]. rewrite (mark_args_none ts sm) by (by apply combinator_fine). by eexists _, _.
  - intros k Hk v ->. cbn. unfold C_gen_vars, no_children. rewrite (arity_none _ (arity_result _ _ _ k Hk)). cbn [Z.eqb check rbind].
    rewrite (mark_args_none ts sm) by (apply combinator_fine, Hk). by eexists _, _.
  - intros k Hk _ v ->. cbn. unfold C_gen_function_vars. rewrite (mark_function_args_none h) by (by apply combinator_fine). by eexists _, _.
  - intros k b Hk v ->. cbn. unfold C_gen_uni, no_children. rewrite (arity_none _ (arity_result _ _ _ k Hk)). by eexists _, _.
  - intros k p l a l' n b Hk Ha. by eapply jni_fetch_steps.
  - intros k p l a l' b Hk Ha. by eapply jni_store_steps.
  - intros k p l v Hk Hf _. by apply (type_fetch_jni h), jni_result.
  - intros a Ha%arg_fine Hv. destruct (arg_is_type h a Ha) as (f & i & ch & Et & _). by rewrite Et in Hv.
  - intros k p c d n Hk ->%arity_none v ->. by eexists _, _.
  - intros k p b n v Hk ->. by eexists.
  - intros p c d n ->%arity_none v <-. by eexists _, _.
  - intros k p l c n _ _ ->%arity_none v ->. cbn. unfold J_gen_store_function_begin. destruct (_ =? -1); by eexists _, _.
  - intros k p v _ Hk ->. unfold text_ok. cbn. unfold C_gen_store_function_end. cbn [forallb check rbind]. destruct (_ =? -1); by eexists.
  - intros p c n _ ->%arity_none v <-. by eexists _, _.
  - intros k n Hk ->%arity_none. unfold text_ok. cbn. unfold J_gen_fetch_switch_case. cbn [Z.eqb check rbind].
    destruct (class_name_returns (k_name k) h) as [text ->]; [by apply combinator_fine|]. by eexists.
  - intros n c a d Ha%arg_fine. by apply (arg_parameter h Hlen).
  - intros n c a d Ha%arg_fine. unfold text_ok. cbn. unfold C_gen_constructor_field_init.
    destruct (arg_field_type h Hlen a Ha) as (text & -> & Hn). cbn [rbind]. case_bool_decide; [by eexists|].
    destruct (field_name_returns (a_name a) h) as [name ->]; [by apply Hn|]. by eexists.
  - intros f k b Hf%init_fine Hk. unfold text_ok. cbn. unfold J_gen_additional_function. rewrite Hf. cbn [check rbind].
    destruct (class_name_returns (k_name k) h) as [text ->]; [by apply combinator_fine|]. cbn [rbind].
    destruct (field_ids_jni h (k_args k)) as [ids ->]; [by apply jni_fields|]. by eexists.
  - intros f x1 x2 n x4 Hf%init_fine ->%arity_none. unfold text_ok. cbn. unfold J_gen_additional_proxy_function_begin. rewrite Hf. by eexists.
  - intros f m x1 x2 n Hf%init_fine _ _ ->%arity_none. unfold text_ok. cbn. unfold J_gen_additional_proxy_function_case_class. rewrite Hf. by eexists.
  - intros f x1 k n x4 Hf%init_fine Hk ->%arity_none. unfold text_ok. cbn. unfold J_gen_additional_proxy_function_case. rewrite Hf. cbn [check rbind Z.eqb].
    destruct (class_name_returns (k_name k) h) as [text ->]; [by apply combinator_fine|]. by eexists.
  - intros f x1 x2 Hf%init_fine. unfold text_ok. cbn. unfold J_gen_additional_proxy_function_end. rewrite Hf. by eexists.
Qed.
End Promise.

Section HeaderPromise.
Context (TD_ENABLE_JNI : bool) (tl_name string_type bytes_type : Name) (ext_include : list Name).
Let w : TL_writer := TD_TL_writer_jni_h TD_ENABLE_JNI tl_name string_type bytes_type ext_include.
Context (ts : list tl_type) (sm : list Z) (functions : list tl_combinator).
Hypothesis Hlen : List.length sm = List.length ts.
Hypothesis Hcheck : header_check w ts functions = true.
Local Abbreviation h := (mk_heap ts sm).

Let arg_fine := checked_arg w ts functions Hcheck.
Let arity_none := checked_arity w ts functions eq_refl Hcheck.
Let class_fine := checked_class w ts functions Hcheck.
Let combinator_fine := checked_combinator w ts functions Hcheck.

Lemma init_header_fine f : f ∈ get_additional_functions w -> is_init_jni_vars f = true.
Proof. by intros ->%list_elem_of_singleton. Qed.

#[export] Instance jni_h_total : WriterTotal w ts sm functions any_vars.
Proof.
  constructor; try (intros; cbn; by eexists); try (intros; intros v Hv; eexists [], v; by split).
  - intros n ->%arity_none. by eexists.
  - intros n Hn%class_fine. by apply class_name_returns.
  - intros a t Ha%arg_fine E Hne. destruct (arg_field_type h Hlen a Ha) as (text & E' & Hn).
    cbn in E. rewrite E in E'. injection E' as <-. by apply field_name_returns, Hn.
  - intros a Ha%arg_fine. destruct (arg_field_type h Hlen a Ha) as (text & E & _). by exists text.
  - intros c d p. unfold text_ok. cbn [gen_class_begin w TD_TL_writer_jni_h]. unfold JH_gen_class_begin. cbn [J_gen_base_tl_class_name plain_text rbind]. case_bool_decide; by eexists.
  - intros k b Hk. by apply (flags_definitions_return h), combinator_fine.
  - intros k Hk _ v _. destruct (function_vars_return h k v) as [[text v'] E]; [by apply combinator_fine|]. by exists text, v'.
  - intros a Ha%arg_fine Hv. destruct (arg_is_type h a Ha) as (f & i & ch & Et & _). by rewrite Et in Hv.
  - intros c id p. unfold text_ok. cbn. unfold H_gen_get_id. destruct p; by eexists.
  - intros k Hk _. by apply (result_type_returns h Hlen), combinator_fine.
  - intros k p c d n _ ->%arity_none v _. by eexists _, _.
  - intros p c d n ->%arity_none v <-. by eexists _, _.
  - intros k p l c n _ _ ->%arity_none v _. cbn. unfold H_gen_store_function_begin. destruct (_ =? -1); by eexists _, _.
  - intros p c n _ ->%arity_none v <-. by eexists _, _.
  - intros n c a d Ha%arg_fine. by apply (arg_parameter h Hlen).
  - intros f k b Hf%init_header_fine _. unfold text_ok. cbn. unfold JH_declare_init. rewrite Hf. by eexists.
  - intros f x1 x2 n x4 Hf%init_header_fine _. unfold text_ok. cbn. unfold JH_declare_init. rewrite Hf. by eexists.
  - intros f Hf%init_header_fine. cbn. unfold JH_get_additional_function_type. rewrite Hf. by eexists.
  - intros f m x1 x2 n Hf%init_header_fine _ _ _. unfold text_ok. cbn. unfold JH_no_init. rewrite Hf. by eexists.
  - intros f x1 k n x4 Hf%init_header_fine _ _. unfold text_ok. cbn. unfold JH_no_init. rewrite Hf. by eexists.
  - intros f x1 x2 Hf%init_header_fine. unfold text_ok. cbn. unfold JH_no_init. rewrite Hf. by eexists.
Qed.
End HeaderPromise.

(** C21. The writers for JNI complete: for a configuration that the generator can work
    with, when the analysis has returned and left combinators without variables whose
    fields have a counterpart in Java, neither the source nor the header writer fails
    an assertion, the loop that puts the package into a signature ends as all others
    do, and both leave the types as they were. *)
Theorem jni_completes TD_ENABLE_JNI tl_name string_type bytes_type ext_cpp ext_h functions s found s2 :
  let wcpp := TD_TL_writer_jni_cpp TD_ENABLE_JNI tl_name string_type bytes_type ext_cpp in
  let wh := TD_TL_writer_jni_h TD_ENABLE_JNI tl_name string_type bytes_type ext_h in
  generator_ok wcpp functions s = true -> analyse wcpp functions s = Ret (found, s2) ->
  jni_check wcpp (g_types s2) (g_simple s2) functions = true ->
  exists scpp sh, write_tl wcpp functions s = Ret (tt, scpp) /\ g_types scpp = g_types s /\
    write_tl wh functions s = Ret (tt, sh) /\ g_types sh = g_types s.
Proof.
  intros wcpp wh Hok E Hcheck. assert (Hw : standard_support wcpp) by (by right). destruct (analyse_parts wcpp functions s found s2 E) as (s1 & E1 & E2).
  destruct (searched_analysed wcpp functions s Hw Hok s1 E1 s2 E2) as (_ & Hlen & _).
  destruct (write_tl_runs wcpp functions no_vars s _ found s2 Hw Hok eq_refl E) as (scpp & R1 & T1); [by apply jni_cpp_total|].
  destruct (write_tl_runs wh functions any_vars s _ found s2 Hw Hok eq_refl E) as (sh & R2 & T2).
  { apply jni_h_total; [done|]. apply (jni_header_checked _ _ _ _ _ _ _ _ Hcheck). }
  by exists scpp, sh.
Qed.

(** On the client interface, as [generate_common] runs them. *)
Definition api_jni_cpp : TL_writer :=
  TD_TL_writer_jni_cpp true (str "td_api") (str "std::string") (str "std::string") [code "'td/tl/tl_jni_object.h'"].
Definition api_jni_h : TL_writer := TD_TL_writer_jni_h true (str "td_api") (str "std::string") (str "std::string") [str "<string>"].

Definition api_jni_analysis : (names * names) * gstate :=
  value_of (((∅ : names), (∅ : names)), api_state) (analyse api_jni_cpp (functions api_config) api_state).

Lemma jni_completes_witness :
  exists scpp sh, write_tl api_jni_cpp (functions api_config) api_state = Ret (tt, scpp) /\ g_types scpp = g_types api_state /\
    write_tl api_jni_h (functions api_config) api_state = Ret (tt, sh) /\ g_types sh = g_types api_state.
Proof.
  apply (jni_completes true (str "td_api") (str "std::string") (str "std::string") [code "'td/tl/tl_jni_object.h'"] [str "<string>"]
    (functions api_config) api_state (fst api_jni_analysis) (snd api_jni_analysis)).
  - vm_compute. reflexivity.
  - rewrite <- surjective_pairing. apply value_of_Ret. vm_compute. reflexivity.
  - vm_compute. reflexivity.
Defined.

Definition has_text (p s : list Z) : bool := match cut_at p s with Some _ => true | None => false end.

Definition text_of (w : TL_writer) : list Z := match write_tl w (functions api_config) api_state with Ret (_, s) => g_out s | _ => [] end.

(** What it prints for [textEntities entities:vector<textEntity> = TextEntities]. *)
Example jni_vector_field :
  let text := text_of api_jni_cpp in
  forallb (fun line => has_text line text)
    [code "  res->entities_ = jni::FetchVector<textEntity>::fetch(env, (jobjectArray)jni::fetch_object(env, p, res->entities_fieldID));|";
     code "  { auto arr_tmp_ = jni::store_vector(env, entities_); if (arr_tmp_) { env->SetObjectField(s, entities_fieldID, arr_tmp_); env->DeleteLocalRef(arr_tmp_); } }|";
     code "  entities_fieldID = jni::get_field_id(env, Class, 'entities', (PSLICE() << '[L' << package_name << '/TdApi$TextEntity;').c_str());|"] = true /\
  has_text (code "  array<object_ptr<textEntity>> entities_;|  static jfieldID entities_fieldID;|") (text_of api_jni_h) = true.
Proof. split; vm_compute; reflexivity. Qed.

(** A vector of truth values is a field that the other writers print and this one refuses. *)
Example vector_of_bool_asserts :
  let bools := tl_tree_type 0 1 [tl_tree_type 0 0 []] in
  let h := mk_heap [mk_type 1 (str "Bool") 0 0 0 []; mk_type 2 (str "Vector") 1 0 0 [mk_combinator 3 (str "vector") 0 2 [] bools]] [2; 1] in
  returned (C_gen_type_fetch [] bools [] 1 h) = true /\ J_gen_type_fetch [] bools [] 1 h = Fault AssertFailed.
Proof. split; vm_compute; reflexivity. Qed.

(** The result of a function that returns a vector is read from a field whose
    identifier has no name: the text that is printed names nothing that exists. *)
Example vector_result_names_no_field :
  let numbers := tl_tree_type 0 1 [tl_tree_type 0 0 []] in
  let h := mk_heap [mk_type 1 (str "Int32") 0 0 0 []; mk_type 2 (str "Vector") 1 0 0 []] [2; 1] in
  J_gen_type_fetch [] numbers [] 1 h = Ret (code "jni::fetch_vector(env, (jintArray)jni::fetch_object(env, p, fieldID))").
Proof. vm_compute. reflexivity. Qed.
