(* ===== verification/JavaWriter.v ===== *)
(** * The writer of the Java interface (td/generate: tl_writer_java.cpp, generate_java.cpp)

    [TD_TL_writer_java] prints a nested class of Java for every constructor and
    function.  Nothing is fetched or stored there: objects are filled by the code
    that the writers for JNI print. *)
From Stdlib Require Import ZArith Lia List Bool Ascii String.
From stdpp Require Import base list strings gmap.
From S2P Require Import Prelude Combinator Reader Writers Generate HeaderWriter CppWriter JniWriter Files Program.
Open Scope tl_scope.

Definition Java_get_max_arity : Z := 0.

Definition Java_is_built_in_simple_type (name : Name) : bool :=
  one_of name ["Bool"; "Int32"; "Int53"; "Int64"; "Double"; "String"; "Bytes"]%string.

Definition Java_is_built_in_complex_type (name : Name) : bool := one_of name ["Vector"%string].

Definition Java_is_combinator_supported (ts : list tl_type) (k : tl_combinator) : result bool :=
  do? b := TL_writer_is_combinator_supported ts k in
  if b then Ret (forallb (fun a => negb (node_type (a_type a) =? NODE_TYPE_VAR_TYPE)) (k_args k)) else Ret false.

Definition Java_get_parser_type (_ : tl_combinator) (_ : Name) : Z := 0.
Definition Java_get_storer_type (_ : tl_combinator) (_ : Name) : Z := 0.
Definition Java_get_parsers : list Name := [str "<inlined>"].
Definition Java_get_storers : list Name := [].

Definition Java_gen_base_tl_class_name : Text := plain_text (str "Object").
Definition Java_gen_base_type_class_name (arity : Z) : Text := fun _ => do? _ := check (arity =? 0) in Ret (str "Object").
Definition Java_gen_base_function_class_name : Text := plain_text (str "Function").

(** The loops of the two methods are those of the writer for JNI; see [java_name]. *)
Definition Java_gen_class_name (name : Name) : Text :=
  fun _ => do? _ := check (negb (one_of name ["Object"; "#"]%string)) in Ret (java_name true name).

Definition Java_gen_field_name (name : Name) : Text :=
  fun _ =>
    match last name with
    | None => Fault AssertFailed
    | Some c => do? _ := check (TL_writer_is_alnum c) in Ret (java_name false name)
    end.

Definition Java_gen_main_class_name : nat -> Text := TL_writer_gen_main_class_name Java_is_combinator_supported Java_gen_class_name.

(** The names that [gen_type_name] knows. *)
Definition Java_simple_type_name (name : Name) : option (list Z) :=
  if one_of name ["Bool"%string] then Some (str "boolean")
  else if one_of name ["Int32"%string] then Some (str "int")
  else if one_of name ["Int53"; "Int64"]%string then Some (str "long")
  else if one_of name ["Double"%string] then Some (str "double")
  else if one_of name ["String"%string] then Some (str "String")
  else if one_of name ["Bytes"%string] then Some (str "byte[]")
  else None.

Fixpoint Java_gen_type_name (tree_type : tl_tree) : Text :=
  fun h =>
    match tree_type with
    | tl_tree_type _ i children =>
        do? t := type_of h i in
        let name := t_name t in
        do? _ := check (negb (one_of name ["#"%string])) in
        match Java_simple_type_name name with
        | Some s => Ret s
        | None =>
            if one_of name ["Vector"%string] then
              do? _ := check (t_arity t =? 1) in
              match children with
              | [tl_tree_type _ _ _ as child] => do? s := Java_gen_type_name child h in Ret (s ++ str "[]")
              | _ => Fault AssertFailed
              end
            else
              do? _ := check (negb (Java_is_built_in_simple_type name) && negb (Java_is_built_in_complex_type name)) in
              do? _ := check (forallb (fun c => node_type c =? NODE_TYPE_NAT_CONST) children) in
              Java_gen_main_class_name i h
        end
    | _ => Fault BadPointer
    end.

Definition Java_gen_array_type_name (_ : tl_tree) (_ : Name) : Text := fun _ => Fault AssertFailed.
Definition Java_gen_var_type_name : Text := Java_gen_base_function_class_name.

Definition Java_gen_field_type : arg -> Text :=
  TL_writer_gen_field_type Java_gen_var_type_name Java_gen_type_name Java_gen_array_type_name.

Definition Java_gen_class_begin (class_name base_class_name : Name) (is_proxy : bool) : Text :=
  fun h =>
    do? base := Java_gen_base_tl_class_name h in
    do? function := Java_gen_base_function_class_name h in
    Ret (code "    public " ++ (if is_proxy then code "abstract " else []) ++ code "static class " ++ class_name ++
         (if bool_decide (class_name = base) then [] else code " extends " ++ base_class_name) ++ code " {|" ++
         (if bool_decide (class_name = base) || bool_decide (class_name = function) then code "        public native String toString();|" else [])).

(** The assertions on the variables, which are set to numbers just before: there must be none. *)
Definition Java_check_vars (t : tl_combinator) (vars : list var_description) : result (list Z * list var_description) :=
  let vars := reset_vars vars in
  do? _ := check (forallb (fun a => negb (node_type (a_type a) =? NODE_TYPE_VAR_TYPE)) (k_args t)) in
  do? _ := check (forallb is_type vars) in
  Ret ([], vars).

Definition Java_gen_vars (t : tl_combinator) (result_type : option tl_tree) : TextVars :=
  fun vars _ =>
    do? _ := check (match result_type with Some x => no_children x | None => true end) in
    Java_check_vars t vars.

Definition Java_gen_function_vars (t : tl_combinator) : TextVars := fun vars _ => Java_check_vars t vars.

Definition Java_gen_uni (result_type : tl_tree) (_ : bool) : TextVars :=
  fun vars _ => do? _ := check (no_children result_type) in Ret ([], vars).

Definition Java_gen_field_fetch (_ : Z) (a : arg) (_ : bool) (parser_type : Z) : TextVars :=
  fun vars _ =>
    do? _ := check (parser_type >=? 0) in
    do? _ := check (a_exist_var_num a =? -1) in
    do? _ := check (negb (node_type (a_type a) =? NODE_TYPE_VAR_TYPE)) in
    do? _ := check (negb (has_flag (arg_flags a) FLAG_EXCL)) in
    do? _ := check (negb (has_flag (arg_flags a) FLAG_OPT_VAR)) in
    do? _ := check (a_var_num a =? -1) in
    do? _ := check (node_type (a_type a) =? NODE_TYPE_TYPE) in
    Ret ([], vars).

Definition Java_gen_get_id (class_name : Name) (id : Z) (is_proxy : bool) : Text :=
  fun h =>
    if is_proxy then
      do? base := Java_gen_base_tl_class_name h in
      Ret (if bool_decide (class_name = base) then code "|        public abstract int getConstructor();|" else [])
    else Ret (code "|        public static final int CONSTRUCTOR = " ++ int_to_string id ++
              code ";||        @Override|        public int getConstructor() {|            return CONSTRUCTOR;|        }|").

Definition Java_gen_constructor_parameter (field_num : Z) (_ : Name) (a : arg) (is_default : bool) : Text :=
  fun h =>
    if is_default then Ret []
    else
      do? field_type := Java_gen_field_type a h in
      match last field_type with
      | None => Ret []
      | Some c =>
          let field_type := if c =? chr " " then field_type else field_type ++ [chr " "] in
          do? name := Java_gen_field_name (a_name a) h in
          Ret ((if field_num =? 0 then [] else code ", ") ++ field_type ++ name)
      end.

Definition Java_gen_constructor_field_init (field_num : Z) (_ : Name) (a : arg) (is_default : bool) : Text :=
  fun h =>
    do? field_type := Java_gen_field_type a h in
    if bool_decide (field_type = []) then Ret []
    else
      let begin := if field_num =? 0 then code ") {|" else [] in
      if is_default then Ret begin
      else
        do? name := Java_gen_field_name (a_name a) h in
        Ret (begin ++ code "            this." ++ name ++ code " = " ++ name ++ code ";|").

Definition Java_gen_constructor_end (_ : tl_combinator) (field_count : Z) (_ : bool) : Text :=
  plain_text (if field_count =? 0 then code ") {|        }|" else code "        }|").

Definition TD_TL_writer_java (tl_name package_name : Name) : TL_writer := {|
  get_max_arity := Java_get_max_arity;
  is_built_in_simple_type := Java_is_built_in_simple_type;
  is_built_in_complex_type := Java_is_built_in_complex_type;
  is_combinator_supported := Java_is_combinator_supported;
  is_documentation_generated := TL_writer_is_documentation_generated;
  is_default_constructor_generated := TL_writer_is_default_constructor_generated;
  is_full_constructor_generated := TL_writer_is_full_constructor_generated;
  get_parser_type := Java_get_parser_type;
  get_storer_type := Java_get_storer_type;
  get_additional_function_type := TL_writer_get_additional_function_type;
  get_parser_mode := TL_writer_get_parser_mode;
  get_storer_mode := TL_writer_get_storer_mode;
  get_parsers := Java_get_parsers;
  get_storers := Java_get_storers;
  get_additional_functions := TL_writer_get_additional_functions;
  gen_base_tl_class_name := Java_gen_base_tl_class_name;
  gen_base_type_class_name := Java_gen_base_type_class_name;
  gen_base_function_class_name := Java_gen_base_function_class_name;
  gen_class_name := Java_gen_class_name;
  gen_field_name := Java_gen_field_name;
  gen_field_type := Java_gen_field_type;
  gen_output_begin := plain_text (code "package " ++ package_name ++ code ";||public class " ++ tl_name ++ code " {|");
  gen_output_end := plain_text (code "}|");
  gen_forward_class_declaration := fun _ _ => plain_text [];
  gen_class_begin := Java_gen_class_begin;
  gen_class_end := plain_text (code "    }||");
  gen_class_alias := fun _ _ => plain_text [];
  gen_field_definition := fun _ type_name field_name => plain_text (code "        public " ++ type_name ++ code " " ++ field_name ++ code ";|");
  gen_flags_definitions := fun _ _ => plain_text [];
  gen_vars := Java_gen_vars;
  gen_function_vars := Java_gen_function_vars;
  gen_uni := Java_gen_uni;
  gen_constructor_id_store := fun _ _ => plain_text [];
  gen_field_fetch := Java_gen_field_fetch;
  gen_field_store := fun _ _ _ => no_text_vars;
  gen_type_fetch := fun _ _ _ _ => plain_text [];
  gen_var_type_fetch := fun _ _ => Fault AssertFailed;
  gen_get_id := Java_gen_get_id;
  gen_function_result_type := fun _ => plain_text [];
  gen_fetch_function_begin := fun _ _ _ _ _ _ => no_text_vars;
  gen_fetch_function_end := fun _ _ _ _ => plain_text [];
  gen_fetch_function_result_begin := fun _ _ _ => plain_text [];
  gen_fetch_function_result_end := plain_text [];
  gen_fetch_function_result_any_begin := fun _ _ _ => plain_text [];
  gen_fetch_function_result_any_end := fun _ => plain_text [];
  gen_store_function_begin := fun _ _ _ _ _ _ => Fault AssertFailed;
  gen_store_function_end := fun _ _ _ => Fault AssertFailed;
  gen_fetch_switch_begin := plain_text [];
  gen_fetch_switch_case := fun _ arity _ => do? _ := check (arity =? 0) in Ret [];
  gen_fetch_switch_end := plain_text [];
  gen_constructor_begin := fun _ class_name _ => plain_text (code "|        public " ++ class_name ++ code "(");
  gen_constructor_parameter := Java_gen_constructor_parameter;
  gen_constructor_field_init := Java_gen_constructor_field_init;
  gen_constructor_end := Java_gen_constructor_end;
  gen_additional_function := fun _ _ _ => TL_writer_no_additional;
  gen_additional_proxy_function_begin := fun _ _ _ _ _ => TL_writer_no_additional;
  gen_additional_proxy_function_case_class := fun _ _ _ _ => TL_writer_no_additional;
  gen_additional_proxy_function_case := fun _ _ _ _ _ => TL_writer_no_additional;
  gen_additional_proxy_function_end := fun _ _ _ => TL_writer_no_additional
|}.

(** generate_java.cpp: the exit status and the files; [argv] holds the name of the program too. *)
Definition generate_java (writable : list Z -> bool) (argv : list (list Z)) (fs : gmap (list Z) (list Z)) : result (Z * gmap (list Z) (list Z)) :=
  match argv with
  | _ :: api_name :: source :: destination :: package :: _ =>
      let package_name := map (fun c => if c =? chr "/" then chr "." else c) package in
      let destination := destination ++ str "/" ++ package ++ str "/" ++ api_name ++ str ".java" in
      do? config := read_tl_config_from_file fs source in
      do? (_, fs) := write_file writable (TD_TL_writer_java api_name package_name) destination config fs in
      Ret (0, fs)
  | _ => Ret (1, fs)
  end.
