(* ===== verification/Java.v ===== *)
(** * The Java interface and the code behind it agree

    The classes of Java are filled by C++ code that looks up their fields by name and
    type descriptor when it is loaded; the two texts are printed by two writers that
    do not know of each other.  Here: what [gen_additional_function] of the writer
    for JNI looks up is what the writer of the Java interface declares.  And the
    latter keeps the promise [WriterTotal]. *)
From Stdlib Require Import ZArith Lia List Bool Ascii String.
From stdpp Require Import base list strings gmap.
From S2P Require Import Prelude Reader Writers Generate HeaderWriter CppWriter JniWriter Analysis Reach Complete Header Cpp Runs Program Jni JavaWriter.
Open Scope tl_scope.

Local Abbreviation main_class_name := (TL_writer_gen_main_class_name TD_is_combinator_supported TD_gen_class_name).

(** ** Types of Java *)

Inductive java_type :=
| Jboolean
| Jint
| Jlong
| Jdouble
| Jbyte
| JString
| Jarray (t : java_type)
| Jclass (name : list Z).

(** In a declaration. *)
Fixpoint java_text (t : java_type) : list Z :=
  match t with
  | Jboolean => str "boolean"
  | Jint => str "int"
  | Jlong => str "long"
  | Jdouble => str "double"
  | Jbyte => str "byte"
  | JString => str "String"
  | Jarray t => java_text t ++ str "[]"
  | Jclass name => name
  end.

(** The descriptor of the virtual machine: what is before the package, and, of a class, what is after it. *)
Fixpoint descriptor (t : java_type) : list Z * option (list Z) :=
  match t with
  | Jboolean => (str "Z", None)
  | Jint => (str "I", None)
  | Jlong => (str "J", None)
  | Jdouble => (str "D", None)
  | Jbyte => (str "B", None)
  | JString => (str "Ljava/lang/String;", None)
  | Jarray t => let '(a, b) := descriptor t in (str "[" ++ a, b)
  | Jclass name => (str "L", Some (str "/TdApi$" ++ name ++ str ";"))
  end.

(** The expression of C++ for it. *)
Definition descriptor_expression (t : java_type) : list Z :=
  match descriptor t with
  | (a, None) => code "'" ++ a ++ code "'"
  | (a, Some b) => code "(PSLICE() << '" ++ a ++ code "' << package_name << '" ++ b ++ code "').c_str()"
  end.

(** The name of a class has only letters and digits. *)
Fixpoint plain_classes (t : java_type) : Prop :=
  match t with Jarray t => plain_classes t | Jclass name => forallb TL_writer_is_alnum name = true | _ => True end.

(** ** Names *)

Lemma java_name_alnum b name : java_name b (alnum_or_underscore name) = java_name b name.
Proof.
  revert b. induction name as [|c name IH]; intros b; [done|]. cbn [alnum_or_underscore map java_name].
  destruct (TL_writer_is_alnum c) eqn:E; [rewrite E; cbn [negb]; f_equal; apply IH|]. cbn [negb]. change (TL_writer_is_alnum (chr "_")) with false. apply IH.
Qed.

Lemma to_upper_alnum c : TL_writer_is_alnum c = true -> TL_writer_is_alnum (TL_writer_to_upper c) = true.
Proof.
  unfold TL_writer_is_alnum, TL_writer_to_upper. change (chr "0") with 48. change (chr "9") with 57. change (chr "a") with 97.
  change (chr "z") with 122. change (chr "A") with 65. change (chr "Z") with 90. rewrite !orb_true_iff, !andb_true_iff, !Z.leb_le.
  destruct (Z.leb_spec 97 c), (Z.leb_spec c 122); cbn [andb]; rewrite ?Z.leb_le; lia.
Qed.

Lemma java_name_plain b name : forallb TL_writer_is_alnum (java_name b name) = true.
Proof.
  revert b. induction name as [|c name IH]; intros b; [done|]. cbn [java_name]. destruct (TL_writer_is_alnum c) eqn:E; cbn [negb]; [|apply IH].
  cbn [forallb]. rewrite IH. destruct b; [by rewrite to_upper_alnum|by rewrite E].
Qed.

(** The field that is looked up is the field that is declared. *)
Lemma field_names_agree name h text :
  TD_gen_field_name name h = Ret text -> Java_gen_field_name name h = Ret (J_gen_java_field_name (removelast text)).
Proof.
  unfold TD_gen_field_name, Java_gen_field_name, J_gen_java_field_name.
  assert (last (alnum_or_underscore name) = (fun c => if TL_writer_is_alnum c then c else chr "_") <$> last name) as -> by apply fmap_last.
  destruct (last name) as [c|]; [|done]. cbn [fmap option_fmap option_map]. destruct (TL_writer_is_alnum c) eqn:E.
  - destruct (c =? chr "_"); [done|]. intros [= <-]. cbn [check rbind]. by rewrite removelast_last, java_name_alnum.
  - by change (chr "_" =? chr "_") with true.
Qed.

Definition not_hash (name : Name) : bool := negb (one_of name ["#"%string]).

Lemma class_names_agree name h text :
  not_hash name = true -> TD_gen_class_name name h = Ret text -> Java_gen_class_name name h = Ret (J_gen_basic_java_class_name text).
Proof.
  unfold not_hash, TD_gen_class_name, Java_gen_class_name, J_gen_basic_java_class_name. intros Hh.
  destruct (one_of name ["Object"%string]) eqn:Eo; [done|]. rewrite (proj1 (negb_true_iff _) Hh). intros [= <-].
  assert (one_of name ["Object"; "#"]%string = false) as ->.
  { apply negb_true_iff in Hh. unfold one_of in *. cbn [existsb] in *. rewrite !orb_false_r in *. by rewrite Eo, Hh. }
  cbn [negb check rbind]. by rewrite java_name_alnum.
Qed.

Section Types.
Context (h : heap).
Local Abbreviation ts := (h_types h).
Local Abbreviation sm := (h_simple h).

(** No class is named like the type of numbers, and no type in a field is that of types. *)
Definition java_class (t : tl_type) : bool := not_hash (t_name t) && forallb (fun k => not_hash (k_name k)) (t_constructors t).

Fixpoint java_tree (x : tl_tree) : bool :=
  match x with
  | tl_tree_type _ i children =>
      match ts !! i with
      | Some t => negb (t_id t =? ID_VAR_TYPE) && java_class t && match children with [c] => java_tree c | _ => true end
      | None => false
      end
  | _ => false
  end.

Lemma main_classes_agree i t text :
  ts !! i = Some t -> java_class t = true -> main_class_name i h = Ret text -> Java_gen_main_class_name i h = Ret (J_gen_basic_java_class_name text).
Proof.
  intros Ht [Hn Hk]%andb_true_iff. unfold Java_gen_main_class_name, TL_writer_gen_main_class_name. rewrite Ht. destruct (sm !! i) as [simple|]; [|done].
  destruct (simple =? 1); [|by apply class_names_agree]. revert Hk. generalize (Z.to_nat (t_constructors_num t)).
  induction (t_constructors t) as [|k l IH]; intros [|n] Hk; try done; [by apply class_names_agree..|]. cbn [forallb] in Hk. apply andb_true_iff in Hk as [Hk Hl].
  change Java_is_combinator_supported with TD_is_combinator_supported.
  destruct (TD_is_combinator_supported ts k) as [[]| |]; cbn [rbind]; [by apply class_names_agree|by apply IH|done..].
Qed.

Lemma java_value name : J_is_built_in_simple_type name = true -> exists T,
  plain_classes T /\ Java_simple_type_name name = Some (java_text T) /\ snd (descriptor T) = None /\
  forall i t flags children, ts !! i = Some t -> t_name t = name -> J_gen_type_signature (tl_tree_type flags i children) h = Ret (fst (descriptor T)).
Proof.
  unfold J_is_built_in_simple_type, one_of at 1. cbn [existsb]. rewrite !orb_true_iff, !bool_decide_eq_true.
  intros [->|[->|[->|[->|[->|[->|[->|Hf]]]]]]]; [exists Jboolean|exists Jint|exists Jlong|exists Jlong|exists Jdouble|exists JString|exists (Jarray Jbyte)|done];
    (split_and!; [done..|intros i t flags children Ht Hn; cbn [J_gen_type_signature]; unfold type_of; rewrite Ht; cbn [rbind]; rewrite Hn; reflexivity]).
Qed.

(** The text of a descriptor with a placeholder for the package. *)
Definition signature_of (T : java_type) : list Z :=
  match descriptor T with (a, None) => a | (a, Some b) => a ++ str "%PACKAGE_NAME%" ++ b end.

Lemma signature_array T : signature_of (Jarray T) = str "[" ++ signature_of T.
Proof. unfold signature_of. cbn [descriptor]. by destruct (descriptor T) as [a [b|]]. Qed.

Lemma vector_signature f i t c :
  ts !! i = Some t -> t_name t = str "Vector" ->
  J_gen_type_signature (tl_tree_type f i [c]) h = do? s := J_gen_type_signature c h in Ret (str "[" ++ s).
Proof. intros Ht En. cbn [J_gen_type_signature]. unfold type_of. rewrite Ht. cbn [rbind]. by rewrite En. Qed.

Lemma vector_name f i t c :
  ts !! i = Some t -> t_name t = str "Vector" -> (t_arity t =? 1) = true -> node_type c = NODE_TYPE_TYPE ->
  Java_gen_type_name (tl_tree_type f i [c]) h = do? s := Java_gen_type_name c h in Ret (s ++ str "[]").
Proof. intros Ht En Ha Hc. cbn [Java_gen_type_name]. unfold type_of. rewrite Ht. cbn [rbind]. rewrite En, Ha. by destruct c. Qed.

Lemma class_signature f i t s :
  ts !! i = Some t -> one_of (t_name t) ["#"%string] = false -> J_is_built_in_simple_type (t_name t) = false ->
  one_of (t_name t) ["Vector"%string] = false -> main_class_name i h = Ret s -> one_of (t_name t) ["Object"%string] = false ->
  J_gen_type_signature (tl_tree_type f i []) h = Ret (signature_of (Jclass (J_gen_basic_java_class_name s))).
Proof.
  intros Ht Hh Hb Hv Em Ho. cbn [J_gen_type_signature]. unfold type_of. rewrite Ht. cbn [rbind]. rewrite Hh, Hv, Em. cbn [rbind J_gen_base_tl_class_name plain_text negb check].
  rewrite bool_decide_false by (intros E; by rewrite E in Ho). cbn [negb check rbind].
  unfold J_is_built_in_simple_type, one_of in Hb. unfold one_of. cbn [existsb] in *. rewrite !orb_false_iff in Hb.
  destruct Hb as (-> & -> & -> & -> & -> & -> & -> & _). done.
Qed.

(** The type that is looked up is the type that is declared. *)
Lemma types_agree x :
  jni_tree ts sm x = true -> java_tree x = true -> exists T, plain_classes T /\
    Java_gen_type_name x h = Ret (java_text T) /\ J_gen_type_signature x h = Ret (signature_of T).
Proof.
  induction x as [f i children IH|x Hx] using tree_children_ind; [|by destruct x]. intros Hx Hj.
  destruct (jni_tree_kind h _ Hx) as (f' & i' & children' & t & [= <- <- <-] & Ht & _ & Hh & Ho & _ & Hk).
  cbn [java_tree] in Hj. rewrite Ht, !andb_true_iff in Hj. destruct Hj as ((_ & Hc) & Hch).
  destruct Hk as [children Hb|c En Hc'|s Hb Hv Em].
  - destruct (java_value _ Hb) as (T & HT & E1 & E2 & E3). exists T. split; [done|]. cbn [Java_gen_type_name]. unfold type_of. rewrite Ht. cbn [rbind].
    rewrite Hh. cbn [negb check rbind]. rewrite E1, (E3 i t f children Ht eq_refl). split; [done|]. unfold signature_of. by destruct (descriptor T) as [a [b|]].
  - apply Forall_cons in IH as [IH _]. destruct (IH Hc' Hch) as (T & HT & E1 & E2). exists (Jarray T). split; [done|].
    assert (Har : (t_arity t =? 1) = true).
    { cbn [jni_tree] in Hx. rewrite Ht, En in Hx. destruct (sm !! i); [|done]. rewrite !andb_true_iff in Hx. destruct Hx as (_ & Hx). by apply andb_true_iff in Hx as [? _]. }
    rewrite signature_array, (vector_signature f i t c), (vector_name f i t c), E1, E2 by (done || by destruct c). done.
  - exists (Jclass (J_gen_basic_java_class_name s)). split; [apply java_name_plain|]. split.
    + cbn [Java_gen_type_name]. unfold type_of. rewrite Ht. cbn [rbind]. rewrite Hh. cbn [negb check rbind].
      assert (Java_simple_type_name (t_name t) = None) as ->.
      { unfold Java_simple_type_name. unfold J_is_built_in_simple_type, one_of in Hb. unfold one_of. cbn [existsb] in *. rewrite !orb_false_iff in Hb.
        destruct Hb as (-> & -> & -> & -> & -> & -> & -> & _). done. }
      unfold Java_is_built_in_complex_type. change (Java_is_built_in_simple_type (t_name t)) with (J_is_built_in_simple_type (t_name t)).
      rewrite Hv, Hb. cbn [negb andb check rbind forallb]. by eapply main_classes_agree.
    + rewrite class_signature with (t := t) (s := s); [done..|]. by apply negb_true_iff.
Qed.
End Types.

(** ** The descriptors in the source *)

Definition no_percent (s : list Z) : bool := forallb (fun c => negb (c =? chr "%")) s.

Local Abbreviation package := (str "%PACKAGE_NAME%").

Lemma starts_package_percent c s : starts_with package (c :: s) = true -> (c =? chr "%") = true.
Proof. unfold starts_with. rewrite bool_decide_eq_true. by intros [= ->]. Qed.

Lemma cut_at_none s : no_percent s = true -> cut_at package s = None.
Proof.
  induction s as [|c s IH]; [done|]. cbn [no_percent forallb]. intros [Hc Hs]%andb_true_iff. cbn [cut_at].
  destruct (starts_with package (c :: s)) eqn:E; [apply starts_package_percent in E; by rewrite E in Hc|]. by rewrite IH.
Qed.

Lemma cut_at_package a b : no_percent a = true -> cut_at package (a ++ package ++ b) = Some (a, b).
Proof.
  induction a as [|c a IH]; [done|]. cbn [no_percent forallb app]. intros [Hc Ha]%andb_true_iff. cbn [cut_at].
  destruct (starts_with package (c :: a ++ package ++ b)) eqn:E; [apply starts_package_percent in E; by rewrite E in Hc|]. by rewrite IH.
Qed.

Lemma alnum_no_percent s : forallb TL_writer_is_alnum s = true -> no_percent s = true.
Proof.
  unfold no_percent. rewrite !forallb_forall. intros Hs c Hc. specialize (Hs c Hc). destruct (Z.eqb_spec c (chr "%")) as [->|]; done.
Qed.

Lemma descriptor_no_percent T : plain_classes T ->
  no_percent (fst (descriptor T)) = true /\ forall b, snd (descriptor T) = Some b -> no_percent b = true /\ b <> [].
Proof.
  induction T as [| | | | | |T IH|name]; cbn [plain_classes descriptor]; intros HT; try done.
  - destruct (IH HT) as [Ha Hb]. by destruct (descriptor T) as [a b].
  - split; [done|]. intros b [= <-]. split; [|done]. change (no_percent (str "/TdApi$" ++ name ++ str ";") = true).
    pose proof (alnum_no_percent name HT) as Hp. unfold no_percent in *. rewrite !forallb_app. by rewrite Hp.
Qed.

Lemma quote_descriptor T : plain_classes T -> quote_signature (signature_of T) = Ret (descriptor_expression T).
Proof.
  intros HT. destruct (descriptor_no_percent T HT) as [Ha Hb]. unfold quote_signature, signature_of, descriptor_expression.
  destruct (descriptor T) as [a [b|]]; cbn [fst snd] in *; [|by rewrite cut_at_none]. destruct (Hb b eq_refl) as [Hp Hn].
  rewrite cut_at_package by done. cbn [replace_package]. rewrite cut_at_package by done.
  assert (exists n, List.length (a ++ package ++ b) = S n) as [n ->] by (rewrite !length_app; destruct b; [done|]; cbn [List.length]; eexists; rewrite !Nat.add_succ_r; done).
  cbn [replace_package]. rewrite cut_at_none, bool_decide_false by done. by rewrite <- !app_assoc.
Qed.

(** ** Agreement *)

(** A field: in C++, in Java, and its type. *)
Definition field_line (f : list Z * list Z * java_type) : list Z :=
  let '(cpp_name, java_name, T) := f in
  code "  " ++ cpp_name ++ code "fieldID = jni::get_field_id(env, Class, '" ++ java_name ++ code "', " ++ descriptor_expression T ++ code ");|".

(** What the two writers call it. *)
Definition field_declared (h : heap) (a : arg) (f : list Z * list Z * java_type) : Prop :=
  let '(cpp_name, java_name, T) := f in
  TD_gen_field_name (a_name a) h = Ret cpp_name /\ Java_gen_field_name (a_name a) h = Ret java_name /\ Java_gen_field_type a h = Ret (java_text T).

Definition java_arg (h : heap) (a : arg) : bool := arg_ok (h_types h) a && jni_arg (h_types h) (h_simple h) a && java_tree h (a_type a).

Definition java_ok (h : heap) (k : tl_combinator) : bool := not_object (k_name k) && not_hash (k_name k) && forallb (java_arg h) (k_args k).

Lemma java_field_type h a T : arg_ok (h_types h) a = true -> java_tree h (a_type a) = true -> Java_gen_type_name (a_type a) h = Ret T -> Java_gen_field_type a h = Ret T.
Proof.
  unfold arg_ok. rewrite !andb_true_iff. intros (((H1%negb_true_iff & H2) & H3) & _) Hj E.
  unfold Java_gen_field_type, TL_writer_gen_field_type. rewrite H1, H2. cbn [negb]. destruct (a_type a) as [f i children| | | | ]; try done.
  cbn [java_tree] in Hj. destruct (h_types h !! i) as [t|]; [|done]. apply andb_true_iff in H3 as [-> _]. rewrite !andb_true_iff in Hj.
  destruct Hj as ((->%negb_true_iff & _) & _). done.
Qed.

Lemma fields_agree h args : forallb (java_arg h) args = true ->
  exists fields, Forall2 (field_declared h) args fields /\ J_field_ids args h = Ret (concat (map field_line fields)).
Proof.
  induction args as [|a args IH]; [by exists []|]. cbn [forallb]. intros [Ha Hl]%andb_true_iff. destruct (IH Hl) as (fields & HF & E).
  unfold java_arg in Ha. rewrite !andb_true_iff in Ha. destruct Ha as ((Ha & Hj) & Ht).
  destruct (jni_arg_parts _ _ a Hj) as (_ & _ & _ & _ & Hn & _ & Htree & f & i & ch & Et). destruct (field_name_returns _ h Hn) as [name En].
  destruct (types_agree h _ Htree Ht) as (T & HT & E1 & E2). exists ((name, J_gen_java_field_name (removelast name), T) :: fields). split.
  { constructor; [|done]. split; [done|]. split; [by apply field_names_agree|by apply java_field_type]. }
  cbn [J_field_ids]. rewrite En, E, E2. cbn [rbind]. rewrite quote_descriptor, bool_decide_false by (done || by eapply field_name_not_nil).
  rewrite Et. cbn [node_type NODE_TYPE_TYPE Z.eqb Pos.eqb negb check rbind map concat field_line]. by rewrite <- !app_assoc.
Qed.

(** C23. The interface of Java and the code behind it agree: for every constructor or
    function whose fields have a counterpart in Java, the function that the writer for
    JNI prints looks up the class under the name that the Java writer gives it, and
    each field, in order, under its name in Java and with the descriptor of the type
    that the Java writer declares it with: arrays, classes and the built-in types. *)
Theorem jni_java_agree h k is_function :
  java_ok h k = true ->
  exists cpp_class java_class fields,
    TD_gen_class_name (k_name k) h = Ret cpp_class /\ Java_gen_class_name (k_name k) h = Ret java_class /\
    Forall2 (field_declared h) (k_args k) fields /\
    J_gen_additional_function (str "init_jni_vars") k is_function h =
      Ret (code "|void " ++ cpp_class ++ code "::init_jni_vars(JNIEnv *env, const char *package_name) {|" ++
           code "  Class = jni::get_jclass(env, (PSLICE() << package_name << '/TdApi$" ++ java_class ++ code "').c_str());|" ++
           concat (map field_line fields) ++ code "}|").
Proof.
  unfold java_ok. rewrite !andb_true_iff. intros ((Ho & Hh) & Ha). destruct (class_name_returns (k_name k) h Ho) as [c Ec].
  destruct (fields_agree h _ Ha) as (fields & HF & E). exists c, (J_gen_basic_java_class_name c), fields. split; [done|].
  split; [by apply class_names_agree|]. split; [done|]. unfold J_gen_additional_function. rewrite Ec, E.
  change (is_init_jni_vars (str "init_jni_vars")) with true. cbn [check rbind]. unfold J_gen_java_class_name. by rewrite <- !app_assoc.
Qed.

(** The state that the analysis leaves on the client interface, and [textEntity] there. *)
Definition api_heap : heap := to_heap (snd api_jni_analysis).

Definition api_combinator (name : string) : tl_combinator :=
  hd (mk_combinator 0 [] 0 0 [] (tl_tree_nat_const 0 0))
    (List.filter (fun k => bool_decide (k_name k = str name)) (functions api_config ++ concat (map t_constructors (h_types api_heap)))).

Lemma jni_java_agree_witness :
  List.length (k_args (api_combinator "textEntity")) = 3%nat /\
  exists cpp_class java_class fields,
    TD_gen_class_name (k_name (api_combinator "textEntity")) api_heap = Ret cpp_class /\
    Java_gen_class_name (k_name (api_combinator "textEntity")) api_heap = Ret java_class /\
    Forall2 (field_declared api_heap) (k_args (api_combinator "textEntity")) fields /\
    J_gen_additional_function (str "init_jni_vars") (api_combinator "textEntity") false api_heap =
      Ret (code "|void " ++ cpp_class ++ code "::init_jni_vars(JNIEnv *env, const char *package_name) {|" ++
           code "  Class = jni::get_jclass(env, (PSLICE() << package_name << '/TdApi$" ++ java_class ++ code "').c_str());|" ++
           concat (map field_line fields) ++ code "}|").
Proof.
  split; [vm_compute; reflexivity|]. apply (jni_java_agree api_heap (api_combinator "textEntity") false). vm_compute. reflexivity.
Defined.

(** ** The Java writer returns *)

Definition java_check (w : TL_writer) (ts : list tl_type) (sm : list Z) (functions : list tl_combinator) : bool :=
  header_check w ts functions && forallb (fun t => not_hash (t_name t)) (List.filter (is_generated w) ts) &&
  forallb (fun k => (k_var_count k <=? 0) && java_ok (mk_heap ts sm) k)
    (List.filter (is_supported w ts) (functions ++ concat (map t_constructors (List.filter (is_generated w) ts)))).

Lemma java_class_returns name h : not_object name = true -> not_hash name = true -> exists text, Java_gen_class_name name h = Ret text.
Proof. intros Ho Hh. destruct (class_name_returns name h Ho) as [c Ec]. eexists. by apply class_names_agree. Qed.

Lemma java_field_returns h a : java_arg h a = true ->
  exists T name, Java_gen_field_type a h = Ret T /\ Java_gen_field_name (a_name a) h = Ret name.
Proof.
  intros Ha. destruct (fields_agree h [a]) as (fields & HF & _); [by cbn; rewrite Ha|]. inversion HF as [|? [[c n] T] ? ? (_ & Hn & HT) _]. by eexists _, _.
Qed.

Section Promise.
Context (tl_name package_name : Name).
Let w : TL_writer := TD_TL_writer_java tl_name package_name.
Context (ts : list tl_type) (sm : list Z) (functions : list tl_combinator).
Hypothesis Hcheck : java_check w ts sm functions = true.
Local Abbreviation h := (mk_heap ts sm).

Lemma java_header_checked : header_check w ts functions = true.
Proof. unfold java_check in Hcheck. rewrite !andb_true_iff in Hcheck. tauto. Qed.

Let arity_none := checked_arity w ts functions eq_refl java_header_checked.

Lemma java_written k : written w ts functions k -> k_var_count k <= 0 /\ java_ok h k = true.
Proof.
  intros [Hs Hk]. pose proof Hcheck as Hc. unfold java_check in Hc. rewrite !andb_true_iff, !forallb_forall in Hc.
  destruct Hc as (_ & H3). rewrite <- Z.leb_le. apply andb_true_iff, H3, filter_In. split; [|done]. apply list_elem_of_In, elem_of_app.
  destruct Hk as [Hk|(t & Ht & Hk)]; [by left|right; by eapply constructor_listed].
Qed.

Lemma java_args k : written w ts functions k -> forallb (java_arg h) (k_args k) = true.
Proof. intros [_ Hk]%java_written. unfold java_ok in Hk. rewrite !andb_true_iff in Hk. tauto. Qed.

Lemma java_arg_fine a : arg_written w ts functions a -> java_arg h a = true.
Proof. intros (k & Hk & Ha). pose proof (java_args k Hk) as Hf. rewrite forallb_forall in Hf. by apply Hf, list_elem_of_In. Qed.

Lemma java_class_fine n : class_written w ts functions n -> not_object n = true /\ not_hash n = true.
Proof.
  intros Hn. split; [by eapply checked_class; [apply java_header_checked|]|]. destruct Hn as [t [Ht Hg]|k Hk].
  - pose proof Hcheck as Hc. unfold java_check in Hc. rewrite !andb_true_iff, !forallb_forall in Hc. apply Hc, filter_In. by rewrite <- list_elem_of_In.
  - destruct (java_written k Hk) as [_ Hok]. unfold java_ok in Hok. rewrite !andb_true_iff in Hok. tauto.
Qed.

Lemma java_vars_steps k : written w ts functions k -> Java_check_vars k [] = Ret ([], []).
Proof.
  intros Hk%java_args. unfold Java_check_vars. assert (forallb (fun a => negb (node_type (a_type a) =? NODE_TYPE_VAR_TYPE)) (k_args k) = true) as ->; [|done].
  rewrite forallb_forall in *. intros a Ha%Hk. unfold java_arg in Ha. rewrite !andb_true_iff in Ha. destruct Ha as ((Ha & _) & _).
  by destruct (arg_is_type h a Ha) as (f & i & ch & -> & _).
Qed.

#[export] Instance java_total : WriterTotal w ts sm functions no_vars.
Proof.
  constructor; try (intros; match goal with H : get_storers w <> [] |- _ => by destruct H end);
    try (intros; cbn; by eexists); try (intros; intros v ->; eexists [], []; by split).
  - intros n ->%arity_none. by eexists.
  - intros n [Ho Hh]%java_class_fine. by apply java_class_returns.
  - intros a t Ha%java_arg_fine _ _. destruct (java_field_returns h a Ha) as (T & name & _ & E). by exists name.
  - intros a Ha%java_arg_fine. destruct (java_field_returns h a Ha) as (T & name & E & _). by exists T.
  - intros k Hk. unfold no_vars. destruct (java_written k Hk) as [Hc _]. by rewrite Z2Nat.nonpos.
  - intros k Hk v ->. cbn. unfold Java_gen_vars. cbn [check rbind]. rewrite java_vars_steps by done. by eexists _, _.
  - intros k Hk v ->. cbn. unfold Java_gen_vars, no_children. rewrite (arity_none _ (arity_result _ _ _ k Hk)). cbn [Z.eqb check rbind].
    rewrite java_vars_steps by apply Hk. by eexists _, _.
  - intros k Hk _ v ->. cbn. unfold Java_gen_function_vars. rewrite java_vars_steps by done. by eexists _, _.
  - intros k b Hk v ->. cbn. unfold Java_gen_uni, no_children. rewrite (arity_none _ (arity_result _ _ _ k Hk)). by eexists _, _.
  - intros k p l a l' n b Hk Ha v ->. assert (Hj : java_arg h a = true).
    { pose proof (java_args k Hk) as Hf. rewrite forallb_forall in Hf. apply Hf. rewrite Ha. apply in_elt. }
    unfold java_arg in Hj. rewrite !andb_true_iff in Hj. destruct Hj as ((_ & Hj) & _).
    destruct (jni_arg_parts _ _ a Hj) as (H1 & H2 & H3 & H4 & _ & _ & _ & f & i & ch & Et). cbn. unfold Java_gen_field_fetch. rewrite H1, H2, H3, H4, Et. by eexists _, _.
  - intros a Ha%java_arg_fine Hv. unfold java_arg in Ha. rewrite !andb_true_iff in Ha. destruct Ha as ((Ha & _) & _).
    destruct (arg_is_type h a Ha) as (f & i & ch & Et & _). by rewrite Et in Hv.
  - intros c id p. unfold text_ok. cbn. unfold Java_gen_get_id. destruct p; by eexists.
  - intros p c d n _ v <-. by eexists _, _.
  - intros k n _ ->%arity_none. by eexists.
  - intros n c a d Ha%java_arg_fine. destruct (java_field_returns h a Ha) as (T & name & E1 & E2). unfold text_ok. cbn. unfold Java_gen_constructor_parameter.
    rewrite E1, E2. cbn [rbind]. destruct d; [by eexists|]. destruct (last T); by eexists.
  - intros n c a d Ha%java_arg_fine. destruct (java_field_returns h a Ha) as (T & name & E1 & E2). unfold text_ok. cbn. unfold Java_gen_constructor_field_init.
    rewrite E1, E2. cbn [rbind]. case_bool_decide; [by eexists|]. destruct d; by eexists.
  - intros f k b Hf. by apply not_elem_of_nil in Hf.
  - intros f x1 x2 n x4 Hf. by apply not_elem_of_nil in Hf.
  - intros f m x1 x2 n Hf. by apply not_elem_of_nil in Hf.
  - intros f x1 k n x4 Hf. by apply not_elem_of_nil in Hf.
  - intros f x1 x2 Hf. by apply not_elem_of_nil in Hf.
Qed.
End Promise.

(** The Java generator completes, in the same sense as the others. *)
Lemma java_completes tl_name package_name functions s found s2 :
  let w := TD_TL_writer_java tl_name package_name in
  generator_ok w functions s = true -> analyse w functions s = Ret (found, s2) -> java_check w (g_types s2) (g_simple s2) functions = true ->
  exists s', write_tl w functions s = Ret (tt, s') /\ g_types s' = g_types s.
Proof.
  intros w Hok E Hcheck. assert (Hw : standard_support w) by (by right). eapply write_tl_runs; [done|done|reflexivity|exact E|]. by apply java_total.
Qed.

Definition api_java : TL_writer := TD_TL_writer_java (str "TdApi") (str "org.drinkless.td").

Example api_java_completes : exists s', write_tl api_java (functions api_config) api_state = Ret (tt, s') /\ g_types s' = g_types api_state.
Proof.
  set (r := value_of (((∅ : names), (∅ : names)), api_state) (analyse api_java (functions api_config) api_state)).
  apply (java_completes (str "TdApi") (str "org.drinkless.td") (functions api_config) api_state (fst r) (snd r)).
  - vm_compute. reflexivity.
  - rewrite <- surjective_pairing. apply value_of_Ret. vm_compute. reflexivity.
  - vm_compute. reflexivity.
Qed.

(** The class of [textEntity] in Java, and what the code behind it looks up. *)
Example api_java_class :
  has_text (code "    public static class TextEntity extends Object {|        public int offset;|        public int length;|" ++
            code "        public TextEntityType type;||        public TextEntity() {|        }||" ++
            code "        public TextEntity(int offset, int length, TextEntityType type) {|            this.offset = offset;|" ++
            code "            this.length = length;|            this.type = type;|        }||" ++
            code "        public static final int CONSTRUCTOR = -1951688280;|") (text_of api_java) = true /\
  has_text (code "  type_fieldID = jni::get_field_id(env, Class, 'type', (PSLICE() << 'L' << package_name << '/TdApi$TextEntityType;').c_str());|")
    (text_of api_jni_cpp) = true.
Proof. split; vm_compute; reflexivity. Qed.
