(* ===== verification/Builder.v ===== *)
(** * Strings built in a buffer (tdutils: StringBuilder.h, StringBuilder.cpp, SliceBuilder.h)

    [StringBuilder] appends to a buffer that it was given, or to one that it
    grows.  It keeps 30 bytes after [end_ptr_], so that a number can be printed
    without a test for each digit.  The pointers are offsets into the buffer; a
    write outside of it is a fault.  The operators for floating-point numbers and
    for addresses, which call the library, are left out. *)
From Stdlib Require Import ZArith Lia List Bool Ascii String.
From stdpp Require Import base list strings.
From S2P Require Import Prelude Combinator.
Open Scope tl_scope.

Definition RESERVED_SIZE : Z := 30.

(** [begin_ptr_] is offset 0 of [buffer]. *)
Record StringBuilder := mk_sb {
  buffer : list Z;
  current_ptr : Z;
  end_ptr : Z;
  error_flag : bool;
  use_buffer : bool
}.

Definition SB : Type -> Type := M StringBuilder.

Definition set_current p (s : StringBuilder) := mk_sb (buffer s) p (end_ptr s) (error_flag s) (use_buffer s).
Definition set_error (s : StringBuilder) := mk_sb (buffer s) (current_ptr s) (end_ptr s) true (use_buffer s).

(** The constructor, on a slice or on a buffer of its own; [make_unique] clears it. *)
Definition new_builder (slice : list Z) (use_buffer : bool) : StringBuilder :=
  if Z.of_nat (List.length slice) <=? RESERVED_SIZE then
    mk_sb (replicate 130 0) 0 (130 - RESERVED_SIZE) false use_buffer
  else mk_sb slice 0 (Z.of_nat (List.length slice) - RESERVED_SIZE) false use_buffer.

(** [buffer[i]] *)
Definition load (i : Z) : SB Z :=
  fun s => if i <? 0 then Fault OutOfBounds
           else match buffer s !! Z.to_nat i with Some c => Ret (c, s) | None => Fault OutOfBounds end.

Definition store (i c : Z) : SB unit :=
  fun s => if (0 <=? i) && (i <? Z.of_nat (List.length (buffer s)))
           then Ret (tt, mk_sb (<[Z.to_nat i := c]> (buffer s)) (current_ptr s) (end_ptr s) (error_flag s) (use_buffer s))
           else Fault OutOfBounds.

(** [*current_ptr_++ = c] *)
Definition put_char (c : Z) : SB unit :=
  let* s := get in
  store (current_ptr s) c ;;
  modify (fun s => set_current (current_ptr s + 1) s).

Definition on_error : SB unit := modify set_error.

(** ** Reserving space *)

Definition SIZE_MAX : Z := 2 ^ 64 - 1.

Definition reserve_inner (size : Z) : SB bool :=
  let* s := get in
  if negb (use_buffer s) then ret false
  else
    let old_data_size := current_ptr s in
    if size >=? u64 (SIZE_MAX - RESERVED_SIZE - old_data_size - 1) then ret false
    else
      let need_data_size := u64 (old_data_size + size) in
      let old_buffer_size := end_ptr s in
      if old_buffer_size >=? (SIZE_MAX - RESERVED_SIZE) / 2 - 2 then ret false
      else
        let new_buffer_size := u64 ((old_buffer_size + 1) * 2) in
        let new_buffer_size := if new_buffer_size <? need_data_size then need_data_size else new_buffer_size in
        let new_buffer_size := if new_buffer_size <? 100 then 100 else new_buffer_size in
        let new_buffer_size := u64 (new_buffer_size + RESERVED_SIZE) in
        let new_buffer := take (Z.to_nat old_data_size) (buffer s) ++ replicate (Z.to_nat (new_buffer_size - old_data_size)) 0 in
        let end_ptr_ := new_buffer_size - RESERVED_SIZE in
        put (mk_sb new_buffer old_data_size end_ptr_ (error_flag s) (use_buffer s)) ;;
        if (end_ptr_ >? old_data_size) && (end_ptr_ - old_data_size >=? size) then ret true else fail Aborted.

Definition reserve : SB bool :=
  let* s := get in
  if end_ptr s >? current_ptr s then ret true else reserve_inner RESERVED_SIZE.

Definition reserve_size (size : Z) : SB bool :=
  let* s := get in
  if (end_ptr s >? current_ptr s) && (end_ptr s - current_ptr s >=? size) then ret true else reserve_inner size.

(** ** Appending *)

(** [operator<< (Slice)]; [memcpy] copies byte by byte. *)
Definition append_slice (slice : list Z) : SB unit :=
  let size := Z.of_nat (List.length slice) in
  let* reserved := reserve_size size in
  if reserved then each put_char slice
  else
    let* s := get in
    if end_ptr s <? current_ptr s then on_error
    else
      let available_size := end_ptr s + RESERVED_SIZE - 1 - current_ptr s in
      if size >? available_size then on_error ;; each put_char (take (Z.to_nat available_size) slice)
      else each put_char slice.

Definition append_char (c : Z) : SB unit :=
  let* reserved := reserve in
  if reserved then put_char c else on_error.

(** The digits from the last one, and how many; fuel for one digit each. *)
Fixpoint print_digits (n : nat) (x : Z) : SB unit :=
  match n with
  | O => out_of_fuel
  | S n =>
      put_char (chr "0" + x mod 10) ;;
      if x / 10 >? 0 then print_digits n (x / 10) else ret tt
  end.

(** The loop that swaps the cells at both ends, until they meet. *)
Fixpoint reverse_cells (n : nat) (begin_ptr end_ptr : Z) : SB unit :=
  if begin_ptr <? end_ptr then
    match n with
    | O => out_of_fuel
    | S n =>
        let* a := load begin_ptr in
        let* b := load end_ptr in
        store begin_ptr b ;;
        store end_ptr a ;;
        reverse_cells n (begin_ptr + 1) (end_ptr - 1)
    end
  else ret tt.

(** A number of at most 64 bits has at most 20 digits. *)
Definition print_uint (x : Z) : SB unit :=
  if x <? 100 then
    if x <? 10 then put_char (chr "0" + x)
    else put_char (chr "0" + x / 10) ;; put_char (chr "0" + x mod 10)
  else
    let* s := get in
    print_digits 20 x ;;
    let* s' := get in
    reverse_cells 20 (current_ptr s) (current_ptr s' - 1).

(** A negative number that is not the least one. *)
Definition print_negative (x : Z) : SB unit := put_char (chr "-") ;; print_uint (- x).

(** [T] has the given number of bits. *)
Definition print_int (bits x : Z) : SB unit :=
  if x <? 0 then
    if x =? - 2 ^ (bits - 1) then
      print_negative (x + 1) ;;
      let* s := get in
      let* c := load (current_ptr s - 1) in
      if c =? chr "9" then fail Aborted else store (current_ptr s - 1) (c + 1)
    else print_negative x
  else print_uint x.

Definition append_int (bits x : Z) : SB unit :=
  let* reserved := reserve in
  if reserved then print_int bits x else on_error.

Definition append_uint (x : Z) : SB unit :=
  let* reserved := reserve in
  if reserved then print_uint x else on_error.

(** What the operators take; [bool] is one of two slices, the other integers are converted. *)
Inductive piece :=
| Slice (s : list Z)
| Char (c : Z)
| Int (bits x : Z)
| Uint (x : Z).

Definition append (p : piece) : SB unit :=
  match p with
  | Slice s => append_slice s
  | Char c => append_char c
  | Int bits x => append_int bits x
  | Uint x => append_uint x
  end.

(** ** The other methods *)

Definition clear : SB unit := modify (fun s => mk_sb (buffer s) 0 (end_ptr s) false (use_buffer s)).

Definition pop_back : SB unit :=
  let* s := get in
  if current_ptr s >? 0 then modify (set_current (current_ptr s - 1)) else fail Aborted.

Definition as_cslice : SB (list Z) :=
  let* s := get in
  if current_ptr s >=? end_ptr s + RESERVED_SIZE then fail Aborted
  else
    store (current_ptr s) 0 ;;
    let* s := get in
    ret (take (Z.to_nat (current_ptr s)) (buffer s)).

Definition is_error : SB bool := let* s := get in ret (error_flag s).

(** [PSTRING () << ...]: [garbage] is the buffer that the allocator of temporary memory returns. *)
Definition PSTRING (garbage : list Z) (l : list piece) : result (list Z) :=
  do? (text, _) := (each append l ;; as_cslice) (new_builder garbage true) in Ret text.

(** ** Runs that append text *)

(** The builder that holds [t], with [rest] after it. *)
Local Abbreviation holding t rest e err ub := (mk_sb (t ++ rest) (Z.of_nat (List.length t)) e err ub).

Lemma store_run t r rest p e err ub c :
  store (Z.of_nat (List.length t)) c (mk_sb (t ++ r :: rest) p e err ub) = Ret (tt, mk_sb (t ++ c :: rest) p e err ub).
Proof.
  unfold store. cbn [buffer current_ptr end_ptr error_flag use_buffer]. rewrite length_app. cbn [List.length].
  rewrite (proj2 (Z.leb_le _ _)), (proj2 (Z.ltb_lt _ _)) by lia. cbn [andb]. rewrite Nat2Z.id, insert_app_r_alt by lia. by rewrite Nat.sub_diag.
Qed.

Lemma load_run t r rest p e err ub :
  load (Z.of_nat (List.length t)) (mk_sb (t ++ r :: rest) p e err ub) = Ret (r, mk_sb (t ++ r :: rest) p e err ub).
Proof.
  unfold load. rewrite (proj2 (Z.ltb_ge _ _)) by lia. cbn [buffer]. by rewrite Nat2Z.id, list_lookup_middle.
Qed.

Lemma put_char_run t r rest e err ub c : put_char c (holding t (r :: rest) e err ub) = Ret (tt, holding (t ++ [c]) rest e err ub).
Proof.
  unfold put_char, bind, get. cbn [rbind current_ptr]. rewrite store_run. cbn [rbind]. unfold modify, set_current.
  cbn [buffer current_ptr end_ptr error_flag use_buffer]. rewrite length_app, <- app_assoc. cbn. repeat f_equal. lia.
Qed.

Lemma put_chars_run l t rest e err ub :
  (List.length l <= List.length rest)%nat ->
  each put_char l (holding t rest e err ub) = Ret (tt, holding (t ++ l) (drop (List.length l) rest) e err ub).
Proof.
  revert t rest. induction l as [|c l IH]; intros t rest Hl; [by rewrite app_nil_r|]. destruct rest as [|r rest]; [cbn in Hl; lia|].
  cbn [each List.length drop] in *. unfold bind at 1. rewrite put_char_run. cbn [rbind]. rewrite IH by lia. by rewrite <- (app_assoc t [c] l).
Qed.

(** ** Numbers *)

(** The digits in the order in which the loop finds them. *)
Fixpoint back_digits (n : nat) (x : Z) : list Z :=
  match n with
  | O => []
  | S n => (chr "0" + x mod 10) :: (if x / 10 >? 0 then back_digits n (x / 10) else [])
  end.

Lemma back_digits_length n x : (List.length (back_digits n x) <= n)%nat.
Proof. revert x. induction n as [|n IH]; intros x; cbn; [lia|]. destruct (_ >? 0); cbn; [specialize (IH (x / 10))|]; lia. Qed.

Lemma back_digits_rev n x acc : 0 <= x -> digits n x acc = rev (back_digits n x) ++ acc.
Proof.
  revert x acc. induction n as [|n IH]; intros x acc Hx; [done|]. cbn [digits back_digits rev].
  destruct (Z.gtb_spec (x / 10) 0) as [H|H].
  - rewrite (proj2 (Z.ltb_ge _ _)) by (pose proof (Z.div_small x 10); lia). rewrite IH by (apply Z.div_pos; lia). by rewrite <- app_assoc.
  - rewrite (proj2 (Z.ltb_lt _ _)); [done|]. apply Z.nle_gt. intros H10. pose proof (Z.div_le_mono 10 x 10 ltac:(lia) H10). change (10 / 10) with 1 in *. lia.
Qed.

Lemma print_digits_run n x t rest e err ub :
  0 <= x < 10 ^ Z.of_nat n -> (0 < n <= List.length rest)%nat ->
  print_digits n x (holding t rest e err ub) =
    Ret (tt, holding (t ++ back_digits n x) (drop (List.length (back_digits n x)) rest) e err ub).
Proof.
  revert x t rest. induction n as [|n IH]; intros x t rest Hx Hn; [lia|]. destruct rest as [|r rest]; [cbn in Hn; lia|].
  cbn [print_digits back_digits]. unfold bind at 1. rewrite put_char_run. cbn [rbind]. destruct (Z.gtb_spec (x / 10) 0) as [H|]; [|done].
  rewrite Nat2Z.inj_succ, Z.pow_succ_r in Hx by lia. assert (Hd : x / 10 < 10 ^ Z.of_nat n) by (apply Z.div_lt_upper_bound; lia).
  rewrite IH; [by rewrite <- (app_assoc t [_])|lia|]. destruct n; [change (10 ^ Z.of_nat 0) with 1 in Hd; lia|]. cbn in Hn. lia.
Qed.

Lemma reverse_cells_run n l p rest q e err ub :
  (List.length l <= 2 * n + 1)%nat ->
  reverse_cells n (Z.of_nat (List.length p)) (Z.of_nat (List.length p) + Z.of_nat (List.length l) - 1) (mk_sb (p ++ l ++ rest) q e err ub) =
    Ret (tt, mk_sb (p ++ rev l ++ rest) q e err ub).
Proof.
  revert l p rest. induction n as [|n IH]; intros l p rest Hl.
  { destruct l as [|a [|]]; [|..|cbn in Hl; lia]; cbn [reverse_cells List.length]; rewrite (proj2 (Z.ltb_ge _ _)) by lia; done. }
  destruct l as [|a l]; [cbn [reverse_cells List.length]; rewrite (proj2 (Z.ltb_ge _ _)) by lia; done|].
  destruct l as [|b m _] using rev_ind; [cbn [reverse_cells List.length]; rewrite (proj2 (Z.ltb_ge _ _)) by lia; done|].
  cbn [reverse_cells List.length] in *. rewrite length_app in *. cbn [List.length] in *. rewrite (proj2 (Z.ltb_lt _ _)) by lia.
  replace (Z.of_nat (List.length p) + Z.of_nat (S (List.length m + 1)) - 1) with (Z.of_nat (List.length (p ++ a :: m)))
    by (rewrite length_app; cbn [List.length]; lia).
  unfold bind. cbn [app]. rewrite <- app_assoc. cbn [app]. rewrite load_run. cbn [rbind].
  assert (Hsplit : forall c, p ++ c :: m ++ b :: rest = (p ++ c :: m) ++ b :: rest) by (intros; by rewrite <- app_assoc).
  rewrite Hsplit, load_run. cbn [rbind]. rewrite <- Hsplit, store_run. cbn [rbind].
  rewrite Hsplit. replace (Z.of_nat (List.length (p ++ a :: m))) with (Z.of_nat (List.length (p ++ b :: m))) by (by rewrite !length_app).
  rewrite store_run. cbn [rbind].
  replace (Z.of_nat (List.length p) + 1) with (Z.of_nat (List.length (p ++ [b]))) by (rewrite length_app; cbn; lia).
  replace (Z.of_nat (List.length (p ++ b :: m)) - 1) with (Z.of_nat (List.length (p ++ [b])) + Z.of_nat (List.length m) - 1)
    by (rewrite !length_app; cbn [List.length]; lia).
  replace ((p ++ b :: m) ++ a :: rest) with ((p ++ [b]) ++ m ++ a :: rest) by (by rewrite <- !app_assoc).
  rewrite IH by lia. do 3 f_equal. cbn [rev]. rewrite rev_app_distr. cbn [rev app]. by rewrite <- !app_assoc.
Qed.

Lemma print_uint_run x t rest e err ub :
  0 <= x < 2 ^ 64 -> (20 <= List.length rest)%nat ->
  print_uint x (holding t rest e err ub) = Ret (tt, holding (t ++ lld x) (drop (List.length (lld x)) rest) e err ub).
Proof.
  intros Hx Hrest. unfold lld. rewrite (proj2 (Z.ltb_ge x 0)) by lia. unfold print_uint. destruct (Z.ltb_spec x 100) as [H|H].
  - destruct rest as [|r1 [|r2 rest]]; [cbn in Hrest; lia..|]. destruct (Z.ltb_spec x 10) as [H'|H'].
    + assert (E : digits 20 x [] = [chr "0" + x]) by (cbn [digits]; rewrite (proj2 (Z.ltb_lt x 10)), Z.mod_small by lia; done).
      rewrite E. apply put_char_run.
    + assert (E : digits 20 x [] = [chr "0" + x / 10; chr "0" + x mod 10]).
      { cbn [digits]. rewrite (proj2 (Z.ltb_ge x 10)) by lia. assert (0 <= x / 10 < 10) by zmod.
        rewrite (proj2 (Z.ltb_lt (x / 10) 10)), (Z.mod_small (x / 10)) by lia. done. }
      rewrite E. unfold bind. rewrite put_char_run. cbn [rbind]. rewrite put_char_run. by rewrite <- (app_assoc t [_]).
  - unfold bind, get. cbn [rbind]. rewrite print_digits_run by (cbn; lia). cbn [rbind current_ptr].
    rewrite (back_digits_rev 20 x []), app_nil_r by lia. set (l := back_digits 20 x).
    assert (Hl : (List.length l <= 20)%nat) by apply back_digits_length.
    rewrite (length_app t l), Nat2Z.inj_add, <- (app_assoc t l). rewrite reverse_cells_run by lia.
    rewrite app_assoc. by rewrite length_app, !length_rev, Nat2Z.inj_add.
Qed.

Definition piece_ok (p : piece) : Prop :=
  match p with
  | Slice _ | Char _ => True
  | Int bits x => (bits = 32 \/ bits = 64) /\ - 2 ^ (bits - 1) <= x < 2 ^ (bits - 1)
  | Uint x => 0 <= x < 2 ^ 64
  end.

Definition show (p : piece) : list Z :=
  match p with
  | Slice s => s
  | Char c => [c]
  | Int _ x | Uint x => lld x
  end.

Lemma digits_length n x acc : 0 <= x -> (List.length (digits n x acc) <= n + List.length acc)%nat.
Proof. intros Hx. rewrite back_digits_rev by done. rewrite length_app, length_rev. pose proof (back_digits_length n x). lia. Qed.

Lemma lld_uint_length x : 0 <= x -> (List.length (lld x) <= 20)%nat.
Proof. intros Hx. unfold lld. rewrite (proj2 (Z.ltb_ge x 0)) by lia. pose proof (digits_length 20 x [] Hx). cbn in *. lia. Qed.

Lemma print_negative_run x t rest e err ub :
  - 2 ^ 63 < x < 0 -> (21 <= List.length rest)%nat ->
  print_negative x (holding t rest e err ub) = Ret (tt, holding (t ++ lld x) (drop (List.length (lld x)) rest) e err ub).
Proof.
  intros Hx Hrest. destruct rest as [|r rest]; [cbn in Hrest; lia|]. cbn in Hrest. unfold print_negative, bind. rewrite put_char_run. cbn [rbind].
  rewrite print_uint_run by lia. unfold lld. rewrite (proj2 (Z.ltb_ge (- x) 0)), (proj2 (Z.ltb_lt x 0)) by lia. by rewrite <- (app_assoc t [_]).
Qed.

(** The least number: the text of its successor, with the last digit raised. *)
Lemma print_least_run bits t rest e err ub :
  bits = 32 \/ bits = 64 -> (21 <= List.length rest)%nat ->
  print_int bits (- 2 ^ (bits - 1)) (holding t rest e err ub) =
    Ret (tt, holding (t ++ lld (- 2 ^ (bits - 1))) (drop (List.length (lld (- 2 ^ (bits - 1)))) rest) e err ub).
Proof.
  intros Hbits Hrest. unfold print_int. rewrite (proj2 (Z.ltb_lt _ 0)), Z.eqb_refl by (destruct Hbits as [-> | ->]; lia). unfold bind at 1.
  rewrite print_negative_run by (try done; destruct Hbits as [-> | ->]; lia). cbn [rbind].
  assert (exists l c, lld (- 2 ^ (bits - 1) + 1) = l ++ [c] /\ lld (- 2 ^ (bits - 1)) = l ++ [c + 1] /\ (c =? chr "9") = false)
    as (l & c & -> & -> & Hc).
  { destruct Hbits as [-> | ->]; [exists (removelast (lld (- 2 ^ 31))), (chr "7")|exists (removelast (lld (- 2 ^ 63))), (chr "7")]; by vm_compute. }
  unfold bind, get. cbn [rbind current_ptr]. rewrite !length_app. cbn [List.length].
  replace (Z.of_nat (List.length t + (List.length l + 1)) - 1) with (Z.of_nat (List.length (t ++ l))) by (rewrite length_app; lia).
  set (rest' := drop _ rest). replace ((t ++ l ++ [c]) ++ rest') with ((t ++ l) ++ c :: rest') by (by rewrite <- !app_assoc).
  rewrite load_run. cbn [rbind]. rewrite Hc, store_run. by rewrite <- !app_assoc.
Qed.

Lemma print_int_run bits x t rest e err ub :
  piece_ok (Int bits x) -> (21 <= List.length rest)%nat ->
  print_int bits x (holding t rest e err ub) = Ret (tt, holding (t ++ lld x) (drop (List.length (lld x)) rest) e err ub).
Proof.
  intros [Hbits Hx] Hrest. destruct (Z.eq_dec x (- 2 ^ (bits - 1))) as [->|Hne]; [by apply print_least_run|]. unfold print_int.
  assert (2 ^ (bits - 1) <= 2 ^ 63) by (destruct Hbits as [-> | ->]; lia).
  destruct (Z.ltb_spec x 0); [|apply print_uint_run; lia]. rewrite (proj2 (Z.eqb_neq _ _)) by done. apply print_negative_run; lia.
Qed.

(** ** The invariant *)

(** The builder holds [t] and ends at [e]: the buffer goes on for 30 bytes, and one of them is left for the terminating null. *)
Inductive builder_ok (t : list Z) (e : Z) (err ub : bool) : StringBuilder -> Prop :=
| builder_ok_intro rest :
    Z.of_nat (List.length t) + Z.of_nat (List.length rest) = e + RESERVED_SIZE -> Z.of_nat (List.length t) < e + RESERVED_SIZE -> 0 < e ->
    builder_ok t e err ub (holding t rest e err ub).

Lemma new_builder_ok slice ub : builder_ok [] (end_ptr (new_builder slice ub)) false ub (new_builder slice ub).
Proof.
  unfold new_builder, RESERVED_SIZE. destruct (Z.leb_spec (Z.of_nat (List.length slice)) 30).
  - apply (builder_ok_intro [] _ _ _ (replicate 130 0)); cbn; unfold RESERVED_SIZE; lia.
  - apply (builder_ok_intro [] _ _ _ slice); cbn; unfold RESERVED_SIZE; lia.
Qed.

(** [clear] forgets the text and the error, but not the buffer; [pop_back] takes the last character back. *)
Lemma clear_ok t e err ub s : builder_ok t e err ub s -> exists s', clear s = Ret (tt, s') /\ builder_ok [] e false ub s'.
Proof.
  intros [rest Hrest Ht He]. eexists. split; [reflexivity|]. apply (builder_ok_intro [] e false ub (t ++ rest)); cbn; rewrite ?length_app; lia.
Qed.

Lemma pop_back_ok t c e err ub s :
  builder_ok (t ++ [c]) e err ub s -> exists s', pop_back s = Ret (tt, s') /\ builder_ok t e err ub s'.
Proof.
  intros [rest Hrest Ht He]. rewrite length_app in *. cbn [List.length] in *. eexists. split.
  { unfold pop_back, bind, get. cbn [rbind current_ptr]. rewrite (proj2 (Z.gtb_lt _ _)) by lia. reflexivity. }
  unfold set_current. cbn [buffer end_ptr error_flag use_buffer]. replace (Z.of_nat (List.length t + 1) - 1) with (Z.of_nat (List.length t)) by lia.
  rewrite <- app_assoc. apply builder_ok_intro; cbn [app List.length]; lia.
Qed.

Lemma pop_back_empty e err ub s : builder_ok [] e err ub s -> pop_back s = Fault Aborted.
Proof. by intros [rest _ _ _]. Qed.

(** Growing keeps the text; it fails only for sizes near 2 to the 63. *)
Lemma reserve_inner_ok size t e err ub s :
  builder_ok t e err ub s -> 0 <= size -> exists b e' s', reserve_inner size s = Ret (b, s') /\ builder_ok t e' err ub s' /\
    (b = true -> Z.of_nat (List.length t) < e' /\ Z.of_nat (List.length t) + size <= e') /\
    (b = false -> s' = s) /\ (ub = false -> b = false) /\
    (ub = true -> e < 2 ^ 62 -> Z.of_nat (List.length t) + size < 2 ^ 62 -> b = true /\ e' <= Z.max (2 * e + 2) (Z.max (Z.of_nat (List.length t) + size) 100)).
Proof.
  intros [rest Hrest Ht He] Hsize. unfold reserve_inner, bind, get, RESERVED_SIZE in *. cbn [rbind use_buffer current_ptr end_ptr buffer error_flag].
  destruct ub; cbn [negb]; [|exists false, e; eexists; split_and!; [done|by constructor|done..]].
  set (n := Z.of_nat (List.length t)) in *. assert (Hn : 0 <= n) by lia.
  destruct (Z.geb_spec size (u64 (SIZE_MAX - 30 - n - 1))) as [H1|H1].
  { exists false, e. eexists. split_and!; [done|by constructor|done..|]. intros _ H2 H3. exfalso. unfold SIZE_MAX, u64 in H1. rewrite Z.mod_small in H1; lia. }
  destruct (Z.geb_spec e ((SIZE_MAX - 30) / 2 - 2)) as [H2|H2]; change ((SIZE_MAX - 30) / 2 - 2) with 9223372036854775790 in H2.
  { exists false, e. eexists. split_and!; [done|by constructor|done..|]. intros _ H3 H4. exfalso. lia. }
  unfold SIZE_MAX, u64 in H1. rewrite Z.mod_small in H1 by lia. unfold u64. rewrite (Z.mod_small (n + size)), (Z.mod_small ((e + 1) * 2)) by lia.
  set (size1 := if (e + 1) * 2 <? n + size then n + size else (e + 1) * 2). set (size2 := if size1 <? 100 then 100 else size1).
  assert (Hsize2 : size2 = Z.max (2 * e + 2) (Z.max (n + size) 100)).
  { subst size2 size1. destruct (Z.ltb_spec ((e + 1) * 2) (n + size)); [destruct (Z.ltb_spec (n + size) 100)|destruct (Z.ltb_spec ((e + 1) * 2) 100)]; lia. }
  rewrite (Z.mod_small (size2 + 30)) by lia. unfold put. cbn [rbind]. rewrite Z.add_simpl_r.
  rewrite (Z.gtb_ltb size2 n), (proj2 (Z.ltb_lt n size2)), (Z.geb_leb (size2 - n)), (proj2 (Z.leb_le size (size2 - n))) by lia. cbn [andb].
  exists true, size2. eexists. split; [done|]. unfold n. rewrite Nat2Z.id, take_app_length. split; [|split_and!; [lia|done|done|lia]].
  apply builder_ok_intro; rewrite ?length_replicate; unfold RESERVED_SIZE; lia.
Qed.

Local Abbreviation len l := (Z.of_nat (List.length l)).

Lemma reserve_size_ok size t e err ub s :
  builder_ok t e err ub s -> 0 <= size -> exists b e' s', reserve_size size s = Ret (b, s') /\ builder_ok t e' err ub s' /\
    (b = true -> len t + size <= e') /\ (b = false -> s' = s /\ (e <= len t \/ e < len t + size)) /\ (ub = false -> e' = e) /\
    (ub = true -> e < 2 ^ 62 -> len t + size <= 2 ^ 60 -> b = true /\ e' < 2 ^ 62).
Proof.
  intros Hs Hsize. destruct (reserve_inner_ok size t e err ub s Hs Hsize) as (b & e' & s' & E & Hs' & H1 & H2 & H3 & H4).
  unfold reserve_size, bind, get. cbn [rbind]. assert (current_ptr s = len t /\ end_ptr s = e) as [-> ->] by (by destruct Hs).
  destruct (Z.gtb_spec e (len t)), (Z.geb_spec (e - len t) size); cbn [andb];
    [exists true, e, s; split_and!; [done..|lia|done|done|lia]|..];
    (exists b, e', s'; split_and!; [done..|intros Hb; by apply H1|intros Hb; split; [by apply H2|lia]| |]);
    try (intros Hub; specialize (H3 Hub); specialize (H2 H3); subst s'; destruct Hs; by inversion Hs');
    intros Hub He Ht; destruct (H4 Hub He ltac:(lia)); split; [done|lia|done|lia|done|lia].
Qed.

Lemma reserve_ok t e err ub s :
  builder_ok t e err ub s -> exists b e' s', reserve s = Ret (b, s') /\ builder_ok t e' err ub s' /\
    (b = true -> len t < e') /\ (b = false -> s' = s /\ e <= len t) /\ (ub = false -> e' = e) /\
    (ub = true -> e < 2 ^ 62 -> len t <= 2 ^ 60 -> b = true /\ e' < 2 ^ 62).
Proof.
  intros Hs. destruct (reserve_inner_ok RESERVED_SIZE t e err ub s Hs ltac:(done)) as (b & e' & s' & E & Hs' & H1 & H2 & H3 & H4).
  unfold reserve, bind, get. cbn [rbind]. assert (current_ptr s = len t /\ end_ptr s = e) as [-> ->] by (by destruct Hs).
  destruct (Z.gtb_spec e (len t)); [exists true, e, s; split_and!; done|].
  exists b, e', s'. split_and!; [done..|intros Hb; by apply H1|intros Hb; split; [by apply H2|lia]| |].
  - intros Hub. specialize (H3 Hub). specialize (H2 H3). subst s'. destruct Hs. by inversion Hs'.
  - intros Hub He Ht. unfold RESERVED_SIZE in H4. destruct (H4 Hub He ltac:(lia)). split; [done|lia].
Qed.

(** What appending [x] may do. *)
Record appended (x t : list Z) (e : Z) (err ub : bool) (t' : list Z) (e' : Z) (err' : bool) : Prop := {
  ap_text : err' = false -> err = false /\ t' = t ++ x;
  ap_end : ub = false -> e' = e;
  ap_fits : ub = false -> len t + len x <= e -> err' = err /\ t' = t ++ x;
  ap_grows : ub = true -> e < 2 ^ 62 -> len t + len x <= 2 ^ 60 -> err' = err /\ t' = t ++ x /\ e' < 2 ^ 62
}.

Definition appends (m : SB unit) (x : list Z) : Prop :=
  forall t e err ub s, builder_ok t e err ub s ->
  exists t' e' err' s', m s = Ret (tt, s') /\ builder_ok t' e' err' ub s' /\ appended x t e err ub t' e' err'.

Lemma copy_ok x t e err ub s :
  builder_ok t e err ub s -> len t + len x < e + RESERVED_SIZE -> exists s', each put_char x s = Ret (tt, s') /\ builder_ok (t ++ x) e err ub s'.
Proof.
  intros [rest Hrest Ht He] Hx. rewrite put_chars_run by lia. eexists. split; [done|].
  apply builder_ok_intro; rewrite ?length_app, ?length_drop; lia.
Qed.

Lemma on_error_ok t e err ub s : builder_ok t e err ub s -> builder_ok t e true ub (set_error s).
Proof. intros [rest Hrest Ht He]. by apply builder_ok_intro. Qed.

Lemma append_slice_ok x : appends (append_slice x) x.
Proof.
  intros t e err ub s Hs. destruct (reserve_size_ok (len x) t e err ub s Hs ltac:(lia)) as (b & e' & s1 & E & Hs1 & H1 & H2 & H3 & H4).
  unfold append_slice, bind at 1. rewrite E. cbn [rbind]. destruct b.
  { specialize (H1 eq_refl). destruct (copy_ok x t e' err ub s1 Hs1) as (s2 & E2 & Hs2); [unfold RESERVED_SIZE; lia|].
    exists (t ++ x), e', err, s2. split_and!; [done..|]. split; [done|done|done|]. intros Hub He Ht. by destruct (H4 Hub He Ht). }
  destruct (H2 eq_refl) as [-> Hsmall]. clear H2. unfold bind at 1, get. cbn [rbind].
  assert (current_ptr s = len t /\ end_ptr s = e /\ e' = e) as (Hc & He & ->) by (destruct Hs; by inversion Hs1). rewrite Hc, He.
  destruct (Z.ltb_spec e (len t)).
  { exists t, e, true, (set_error s). split_and!; [done|by eapply on_error_ok|]. split; [done|done|intros; lia|]. intros Hub He' Ht. by destruct (H4 Hub He' Ht). }
  unfold RESERVED_SIZE. destruct (Z.gtb_spec (len x) (e + 30 - 1 - len t)) as [Hbig|Hok].
  - destruct (copy_ok (take (Z.to_nat (e + 30 - 1 - len t)) x) t e true ub (set_error s)) as (s2 & E2 & Hs2).
    { by eapply on_error_ok. } { rewrite length_take. unfold RESERVED_SIZE. lia. }
    exists (t ++ take (Z.to_nat (e + 30 - 1 - len t)) x), e, true, s2. split_and!; [exact E2|done|]. split; [done|done|intros; lia|].
    intros Hub He' Ht. by destruct (H4 Hub He' Ht).
  - destruct (copy_ok x t e err ub s Hs) as (s2 & E2 & Hs2); [unfold RESERVED_SIZE; lia|].
    exists (t ++ x), e, err, s2. split_and!; [done..|]. split; [done|done|done|]. intros Hub He' Ht. by destruct (H4 Hub He' Ht).
Qed.

(** The operators that first make sure that a byte is left. *)
Lemma reserved_ok (m : SB unit) x :
  0 < len x <= 21 ->
  (forall t rest e err ub, (21 <= List.length rest)%nat ->
     m (holding t rest e err ub) = Ret (tt, holding (t ++ x) (drop (List.length x) rest) e err ub)) ->
  appends (let* reserved := reserve in if reserved then m else on_error) x.
Proof.
  intros Hx Hm t e err ub s Hs. destruct (reserve_ok t e err ub s Hs) as (b & e' & s1 & E & Hs1 & H1 & H2 & H3 & H4).
  unfold bind. rewrite E. cbn [rbind]. destruct b.
  - specialize (H1 eq_refl). destruct Hs1 as [rest Hrest Ht He]. unfold RESERVED_SIZE in *. rewrite Hm by lia.
    exists (t ++ x), e', err. eexists. split; [done|]. split.
    { apply builder_ok_intro; rewrite ?length_app, ?length_drop; unfold RESERVED_SIZE; lia. }
    split; [done|done|done|]. intros Hub He' Htx. by destruct (H4 Hub He' ltac:(lia)).
  - destruct (H2 eq_refl) as [-> Hfull]. exists t, e', true, (set_error s). split_and!; [done|by eapply on_error_ok|].
    split; [done|done|intros; lia|]. intros Hub He' Htx. by destruct (H4 Hub He' ltac:(lia)).
Qed.

Lemma lld_length x : - 2 ^ 63 <= x < 2 ^ 64 -> 0 < len (lld x) <= 21.
Proof.
  intros Hx. unfold lld. assert (H : forall y, 0 <= y -> 0 < len (digits 20 y []) <= 20).
  { intros y Hy. rewrite back_digits_rev, app_nil_r, length_rev by done. pose proof (back_digits_length 20 y).
    assert (List.length (back_digits 20 y) <> 0%nat) by done. lia. }
  destruct (Z.ltb_spec x 0); [cbn [List.length]; specialize (H (- x))|specialize (H x)]; lia.
Qed.

Lemma append_ok p : piece_ok p -> appends (append p) (show p).
Proof.
  destruct p as [x|c|bits x|x]; intros Hp; cbn [append show].
  - apply append_slice_ok.
  - apply reserved_ok; [cbn; lia|]. intros t rest e err ub Hrest. destruct rest; [cbn in Hrest; lia|]. apply put_char_run.
  - apply reserved_ok; [|intros; by apply print_int_run]. destruct Hp as [[-> | ->] Hx]; apply lld_length; lia.
  - cbn in Hp. apply reserved_ok; [apply lld_length; lia|]. intros; apply print_uint_run; lia.
Qed.

Definition show_all (l : list piece) : list Z := concat (map show l).

Lemma append_all_ok l : Forall piece_ok l -> appends (each append l) (show_all l).
Proof.
  induction 1 as [|p l Hp Hl IH]; intros t e err ub s Hs.
  { exists t, e, err, s. split_and!; [done..|]. split; rewrite ?app_nil_r; done. }
  destruct (append_ok p Hp t e err ub s Hs) as (t1 & e1 & err1 & s1 & E1 & Hs1 & [A1 A2 A3 A4]).
  destruct (IH t1 e1 err1 ub s1 Hs1) as (t2 & e2 & err2 & s2 & E2 & Hs2 & [B1 B2 B3 B4]).
  exists t2, e2, err2, s2. split_and!; [cbn [each]; unfold bind; by rewrite E1|done|]. unfold show_all in *. cbn [map concat].
  split.
  - intros Herr. destruct (B1 Herr) as [Herr1 ->]. destruct (A1 Herr1) as [? ->]. by rewrite app_assoc.
  - intros Hub. by rewrite (B2 Hub), (A2 Hub).
  - rewrite length_app, Nat2Z.inj_add. intros Hub Hfit. destruct (A3 Hub ltac:(lia)) as [-> ->]. rewrite (A2 Hub), length_app, Nat2Z.inj_add in B3.
    destruct (B3 Hub ltac:(lia)) as [-> ->]. by rewrite app_assoc.
  - rewrite length_app, Nat2Z.inj_add. intros Hub He Hfit. destruct (A4 Hub He ltac:(lia)) as (-> & -> & He1). rewrite length_app, Nat2Z.inj_add in B4.
    destruct (B4 Hub He1 ltac:(lia)) as (-> & -> & ?). by rewrite app_assoc.
Qed.

(** The terminating null fits. *)
Lemma as_cslice_ok t e err ub s : builder_ok t e err ub s -> exists s', as_cslice s = Ret (t, s') /\ buffer s' !! List.length t = Some 0.
Proof.
  intros [rest Hrest Ht He]. unfold RESERVED_SIZE in *. destruct rest as [|r rest]; [cbn in Hrest; lia|].
  unfold as_cslice, bind, get. cbn [rbind current_ptr end_ptr]. unfold RESERVED_SIZE.
  destruct (Z.geb_spec (len t) (e + 30)); [lia|]. rewrite store_run. cbn [rbind current_ptr buffer]. rewrite Nat2Z.id, take_app_length.
  eexists. split; [done|]. cbn [buffer]. by rewrite list_lookup_middle.
Qed.

(** C30. A string builder never writes outside its buffer, whatever is appended: slices of
    any length, characters, integers of 32 and 64 bits down to the least one; and
    there is always room for the terminating null.  Unless the error flag is set, the
    string is the concatenation of what was appended, integers in decimal.  The flag
    is not set as long as the text fits before [end_ptr_], or, for a builder that may
    grow, in 2 to the 60 bytes. *)
Theorem builder_correct slice ub l :
  Forall piece_ok l -> len slice < 2 ^ 62 ->
  exists s text s', each append l (new_builder slice ub) = Ret (tt, s) /\ as_cslice s = Ret (text, s') /\
    buffer s' !! List.length text = Some 0 /\
    (error_flag s = false -> text = show_all l) /\
    (len (show_all l) <= (if ub then 2 ^ 60 else end_ptr (new_builder slice ub)) -> error_flag s = false).
Proof.
  intros Hl Hslice. destruct (append_all_ok l Hl _ _ _ _ _ (new_builder_ok slice ub)) as (t & e & err & s & E & Hs & [H1 _ H3 H4]).
  destruct (as_cslice_ok t e err ub s Hs) as (s' & Ec & H0). exists s, t, s'.
  assert (error_flag s = err) as -> by (by destruct Hs). split_and!; [done..| |].
  - intros Herr. by destruct (H1 Herr).
  - intros Hfit. destruct ub; [|by apply H3]. apply H4; [done| |done]. unfold new_builder, RESERVED_SIZE. destruct (_ <=? 30); cbn [end_ptr]; lia.
Qed.

(** On a buffer of 31 bytes, of which one is before the end. *)
Lemma builder_correct_witness :
  exists s text s', each append [Int 32 (-2147483648); Char 32; Slice (str "bytes")] (new_builder (replicate 31 7) false) = Ret (tt, s) /\
    as_cslice s = Ret (text, s') /\ buffer s' !! List.length text = Some 0 /\
    (error_flag s = false -> text = show_all [Int 32 (-2147483648); Char 32; Slice (str "bytes")]) /\
    (len (show_all [Int 32 (-2147483648); Char 32; Slice (str "bytes")]) <= 1 -> error_flag s = false).
Proof.
  apply (builder_correct (replicate 31 7) false [Int 32 (-2147483648); Char 32; Slice (str "bytes")]); [|vm_compute; reflexivity].
  repeat constructor; cbn; lia.
Defined.

(** What a client needs to know. *)
Lemma PSTRING_text garbage l : Forall piece_ok l -> len garbage < 2 ^ 62 -> len (show_all l) <= 2 ^ 60 -> PSTRING garbage l = Ret (show_all l).
Proof.
  intros Hl Hg Hlen. destruct (append_all_ok l Hl _ _ _ _ _ (new_builder_ok garbage true)) as (t & e & err & s & E & Hs & [H1 _ _ H4]).
  destruct (as_cslice_ok t e err true s Hs) as (s' & Ec & _). unfold PSTRING, bind. rewrite E. cbn [rbind]. rewrite Ec. cbn [rbind].
  destruct H4 as (_ & -> & _); [done| |done|done]. unfold new_builder, RESERVED_SIZE. destruct (_ <=? 30); cbn [end_ptr]; lia.
Qed.
