(* ===== verification/Json.v ===== *)
(** * The JSON converter (td/generate: tl_json_converter.cpp, generate_json.cpp)

    The generator walks the simplified schema and appends the text of the
    functions that convert objects from and to JSON to a [StringBuilder] on a
    buffer of 2000000 bytes.  The [gen_*] functions return what they append. *)
From Stdlib Require Import ZArith Lia List Bool Ascii String.
From stdpp Require Import base list strings gmap.
From S2P Require Import Prelude Builder Reader Simple Writers HeaderWriter Files Program.
Open Scope tl_scope.

Local Abbreviation files := (gmap (list Z) (list Z)).

(** A literal; see [code]. *)
Definition lit (s : string) : piece := Slice (code s).

Section Converter.
(** The temporary buffers of [PSTRING], and the files that can be written. *)
Context (garbage : list Z) (writable : list Z -> bool).

Section Texts.
Context (schema : schema).

Definition deref_type (i : nat) : result Type_ :=
  match types_ schema !! i with Some t => Ret t | None => Fault BadPointer end.

(** Calls on every element, one after the other. *)
Fixpoint gen_each {A} (gen : A -> result (list piece)) (l : list A) : result (list piece) :=
  match l with
  | [] => Ret []
  | x :: l => do? a := gen x in do? b := gen_each gen l in Ret (a ++ b)
  end.

(** ** To JSON *)

(** The expression for a field of the given type. *)
Definition to_json_object (type : Type_) (object : list Z) : result (list Z) :=
  match tag type with
  | Bytes => PSTRING garbage [lit "base64_encode("; Slice object; lit ")"]
  | TBool => PSTRING garbage [lit "JsonBool{"; Slice object; lit "}"]
  | Int64 => PSTRING garbage [lit "JsonInt64{"; Slice object; lit "}"]
  | Vector =>
      match vector_value_type type with
      | None => Fault BadPointer
      | Some v =>
          do? value := deref_type v in
          if bool_decide (tag value = Int64) then PSTRING garbage [lit "JsonVectorInt64{"; Slice object; lit "}"] else Ret object
      end
  | _ => Ret object
  end.

Definition to_json_arg (a : Arg) : result (list piece) :=
  do? field_name := gen_cpp_field_name (arg_name a) in
  do? type := deref_type (arg_type a) in
  let is_custom := bool_decide (tag type = Custom) in
  do? object := PSTRING garbage [lit "object."; Slice field_name] in
  let head := if is_custom then [lit "  if ("; Slice object; lit ") {|  "] else [] in
  do? object := to_json_object type object in
  Ret (head ++
       (if is_custom then [lit "  jo('"; Slice (arg_name a); lit "', ToJson(*"; Slice object; lit "));|"]
        else if bool_decide (tag type = Int64) || bool_decide (tag type = Vector)
        then [lit "  jo('"; Slice (arg_name a); lit "', ToJson("; Slice object; lit "));|"]
        else [lit "  jo('"; Slice (arg_name a); lit "', "; Slice object; lit ");|"]) ++
       (if is_custom then [lit "  }|"] else [])).

(** The template, for a constructor or a function. *)
Definition gen_to_json_constructor (name : list Z) (args : list Arg) (is_header : bool) : result (list piece) :=
  do? cpp_name := gen_cpp_name name in
  let head := [lit "void to_json(JsonValueScope &jv, "; lit "const td_api::"; Slice cpp_name; lit " &object)"] in
  if is_header then Ret (head ++ [lit ";||"])
  else
    do? body := gen_each to_json_arg args in
    Ret (head ++ [lit " {|"; lit "  auto jo = jv.enter_object();|"; lit "  jo('@type', '"; Slice cpp_name; lit "');|"] ++
         body ++ [lit "}||"]).

Definition constructor_at (i : nat) : result Constructor :=
  match constructors_ schema !! i with Some k => Ret k | None => Fault BadPointer end.
Definition custom_at (i : nat) : result CustomType :=
  match custom_types_ schema !! i with Some c => Ret c | None => Fault BadPointer end.
Definition function_at (i : nat) : result Function_ :=
  match functions_ schema !! i with Some f => Ret f | None => Fault BadPointer end.

Definition to_json_custom (is_header : bool) (mode : Mode) (i : nat) : result (list piece) :=
  do? custom_type := custom_at i in
  if negb ((is_query_ custom_type && negb (bool_decide (mode = Server))) || (is_result_ custom_type && negb (bool_decide (mode = Client))))
  then Ret []
  else
    do? own :=
      (if (1 <? List.length (ct_constructors custom_type))%nat then
         do? type_name := gen_cpp_name (ct_name custom_type) in
         let head := [lit "void to_json(JsonValueScope &jv, const td_api::"; Slice type_name; lit " &object)"] in
         Ret (head ++
              (if is_header then [lit ";||"]
               else [lit " {|"; lit "  td_api::downcast_call(const_cast<td_api::"; Slice type_name;
                     lit " &>(object), [&jv](const auto &object) { to_json(jv, object); });|"; lit "}||"]))
       else Ret []) in
    do? constructors :=
      gen_each (fun k => do? k := constructor_at k in gen_to_json_constructor (c_name k) (c_args k) is_header) (ct_constructors custom_type) in
    Ret (own ++ constructors).

Definition gen_to_json (is_header : bool) (mode : Mode) : result (list piece) :=
  do? customs := gen_each (to_json_custom is_header mode) (custom_types schema) in
  if bool_decide (mode = Server) then Ret customs
  else
    do? functions :=
      gen_each (fun f => do? f := function_at f in gen_to_json_constructor (f_name f) (f_args f) is_header) (functions_out schema) in
    Ret (customs ++ functions).

(** ** From JSON *)

Definition from_json_arg (a : Arg) : result (list piece) :=
  do? type := deref_type (arg_type a) in
  do? field_name := gen_cpp_field_name (arg_name a) in
  do? name := gen_cpp_name (arg_name a) in
  Ret [lit "  TRY_STATUS(from_json"; Slice (if bool_decide (tag type = Bytes) then str "_bytes" else []); lit "(to.";
       Slice field_name; lit ", get_json_object_field_force(from, '"; Slice name; lit "')));|"].

Definition gen_from_json_constructor (name : list Z) (args : list Arg) (is_header : bool) : result (list piece) :=
  do? cpp_name := gen_cpp_name name in
  let head := [lit "Status from_json(td_api::"; Slice cpp_name; lit " &to, JsonObject &from)"] in
  if is_header then Ret (head ++ [lit ";||"])
  else
    do? body := gen_each from_json_arg args in
    Ret (head ++ [lit " {|"] ++ body ++ [lit "  return Status::OK();|"; lit "}||"]).

(** The test of [gen_from_json] and [gen_tl_constructor_from_string]. *)
Definition is_read (mode : Mode) (c : CustomType) : bool :=
  (is_query_ c && negb (bool_decide (mode = Client))) || (is_result_ c && negb (bool_decide (mode = Server))).

Definition from_json_custom (is_header : bool) (mode : Mode) (i : nat) : result (list piece) :=
  do? custom_type := custom_at i in
  if negb (is_read mode custom_type) then Ret []
  else
    gen_each (fun k => do? k := constructor_at k in gen_from_json_constructor (c_name k) (c_args k) is_header) (ct_constructors custom_type).

Definition gen_from_json (is_header : bool) (mode : Mode) : result (list piece) :=
  do? customs := gen_each (from_json_custom is_header mode) (custom_types schema) in
  if bool_decide (mode = Client) then Ret customs
  else
    do? functions :=
      gen_each (fun f => do? f := function_at f in gen_from_json_constructor (f_name f) (f_args f) is_header) (functions_out schema) in
    Ret (customs ++ functions).

(** ** From the name of a class to its number *)

(** The loop over the pairs. *)
Fixpoint table_entries (is_first : bool) (vec : list (Z * list Z)) : list piece :=
  match vec with
  | [] => []
  | (id, name) :: vec =>
      (if is_first then [] else [lit ",|"]) ++ [lit "    {'"; Slice name; lit "', "; Int 32 id; lit "}"] ++ table_entries false vec
  end.

Definition constructor_table (name : list Z) (vec : list (Z * list Z)) (is_header : bool) : list piece :=
  let head := [lit "Result<int32> tl_constructor_from_string(td_api::"; Slice name; lit " *object, const std::string &str)"] in
  if is_header then head ++ [lit ";||"]
  else
    head ++ [lit " {|"; lit "  static const std::unordered_map<Slice, int32, SliceHash> m = {|"] ++ table_entries true vec ++
    [lit "|  };|"; lit "  auto it = m.find(str);|";
     lit "  if (it == m.end()) {|"; lit "    return Status::Error(PSLICE() << 'Unknown class \'' << str << '\'');|"; lit "  }|";
     lit "  return it->second;|"; lit "}||"].

(** [vec.emplace_back (constructor->id, constructor->name)] for each one. *)
Fixpoint constructor_pairs (l : list nat) : result (list (Z * list Z)) :=
  match l with
  | [] => Ret []
  | i :: l =>
      do? k := constructor_at i in
      do? vec := constructor_pairs l in
      Ret ((c_id k, c_name k) :: vec)
  end.

(** The loop over the custom types: the text, and [vec_for_nullary]. *)
Fixpoint custom_tables (is_header : bool) (mode : Mode) (l : list nat) (vec_for_nullary : list (Z * list Z)) :
    result (list piece * list (Z * list Z)) :=
  match l with
  | [] => Ret ([], vec_for_nullary)
  | i :: l =>
      do? custom_type := custom_at i in
      if negb (is_read mode custom_type) then custom_tables is_header mode l vec_for_nullary
      else
        do? vec := constructor_pairs (ct_constructors custom_type) in
        do? own :=
          (if (1 <? List.length vec)%nat then
             do? name := gen_cpp_name (ct_name custom_type) in Ret (constructor_table name vec is_header)
           else Ret []) in
        do? (rest, vec_for_nullary) := custom_tables is_header mode l (vec_for_nullary ++ vec) in
        Ret (own ++ rest, vec_for_nullary)
  end.

Fixpoint function_pairs (l : list nat) : result (list (Z * list Z)) :=
  match l with
  | [] => Ret []
  | i :: l =>
      do? f := function_at i in
      do? vec := function_pairs l in
      Ret ((f_id f, f_name f) :: vec)
  end.

Definition gen_tl_constructor_from_string (is_header : bool) (mode : Mode) : result (list piece) :=
  do? (customs, vec_for_nullary) := custom_tables is_header mode (custom_types schema) [] in
  let objects := constructor_table (str "Object") vec_for_nullary is_header in
  if bool_decide (mode = Client) then Ret (customs ++ objects)
  else
    do? vec_for_function := function_pairs (functions_out schema) in
    Ret (customs ++ objects ++ constructor_table (str "Function") vec_for_function is_header).

(** ** The files *)

Definition file_head (file_name_base : list Z) (is_header : bool) : list piece :=
  (if is_header then
     [lit "#pragma once||"; lit "#include 'td/telegram/td_api.h'||"; lit "#include 'td/utils/JsonBuilder.h'|"; lit "#include 'td/utils/Status.h'||"]
   else
     [lit "#include '"; Slice file_name_base; lit ".h'||"; lit "#include 'td/telegram/td_api.h'|"; lit "#include 'td/telegram/td_api.hpp'||";
      lit "#include 'td/tl/tl_json.h'||"; lit "#include 'td/utils/base64.h'|"; lit "#include 'td/utils/common.h'|";
      lit "#include 'td/utils/Slice.h'||"; lit "#include <functional>|"; lit "#include <unordered_map>||"]) ++
  [lit "namespace td {|"; lit "namespace td_api {|"] ++
  (if is_header then
     [lit "|void to_json(JsonValueScope &jv, const tl_object_ptr<Object> &value);|"; lit "|Status from_json(tl_object_ptr<Function> &to, td::JsonValue from);|";
      lit "|void to_json(JsonValueScope &jv, const Object &object);|"; lit "|void to_json(JsonValueScope &jv, const Function &object);||"]
   else
     [Slice (
        code "|void to_json(JsonValueScope &jv, const tl_object_ptr<Object> &value) {|  td::to_json(jv, std::move(value));|}|" ++
        code "|Status from_json(tl_object_ptr<Function> &to, td::JsonValue from) {|  return td::from_json(to, std::move(from));|}|" ++
        code "|template <class T>|auto lazy_to_json(JsonValueScope &jv, const T &t) -> decltype(td_api::to_json(jv, t)) {|" ++
        code "  return td_api::to_json(jv, t);|}|" ++
        code "|template <class T>|void lazy_to_json(std::reference_wrapper<JsonValueScope>, const T &t) {|  UNREACHABLE();|}|" ++
        code "|void to_json(JsonValueScope &jv, const Object &object) {|" ++
        code "  downcast_call(const_cast<Object &>(object), [&jv](const auto &object) { lazy_to_json(jv, object); });|}|" ++
        code "|void to_json(JsonValueScope &jv, const Function &object) {|" ++
        code "  downcast_call(const_cast<Function &>(object), [&jv](const auto &object) { lazy_to_json(jv, object); });|}||")]).

(** All that is appended. *)
Definition json_converter (file_name_base : list Z) (is_header : bool) (mode : Mode) : result (list piece) :=
  do? tables := gen_tl_constructor_from_string is_header mode in
  do? readers := gen_from_json is_header mode in
  do? writers := gen_to_json is_header mode in
  Ret (file_head file_name_base is_header ++ tables ++ readers ++ writers ++
       [lit "}  // namespace td_api|"; lit "}  // namespace td|"]).

(** [std::string buf (2000000, ' ')]; a text that does not fit fails the [CHECK]. *)
Definition gen_json_converter_file (file_name_base : list Z) (is_header : bool) (mode : Mode) (fs : files) : result files :=
  let file_name := str "auto/" ++ file_name_base ++ (if is_header then str ".h" else str ".cpp") in
  let old_file_content := match fs !! file_name with Some content => content | None => [] end in
  do? pieces := json_converter file_name_base is_header mode in
  do? (_, sb) := each append pieces (new_builder (replicate (Z.to_nat 2000000) (chr " ")) false) in
  if error_flag sb then Fault Aborted
  else
    do? (new_file_content, _) := as_cslice sb in
    if bool_decide (new_file_content = old_file_content) then Ret fs
    else if writable file_name then Ret (<[file_name := new_file_content]> fs)
    else Fault Aborted.
End Texts.

Definition gen_json_converter (config : tl_config) (file_name : list Z) (mode : Mode) (fs : files) : result files :=
  do? schema := make_schema config in
  do? fs := gen_json_converter_file schema file_name true mode fs in
  gen_json_converter_file schema file_name false mode fs.

(** generate_json.cpp *)
Definition generate_json (fs : files) : result files :=
  do? config := read_tl_config_from_file fs (str "auto/tlo/td_api.tlo") in
  gen_json_converter (l_config config) (str "td/telegram/td_api_json") Server fs.
End Converter.
