(* ===== verification/JsonText.v ===== *)
(** * What the JSON converter writes

    The abstract interface: types with their classes, functions, fields with the
    kind of their type, and which types occur in results and in queries.  The
    generator, which reads this off the graph of objects of the simplified schema,
    writes the text of the interface that the configuration describes. *)
From Stdlib Require Import ZArith Lia List Bool Ascii String.
From stdpp Require Import base list strings gmap relations.
From S2P Require Import Prelude Combinator Builder Reader Simple Marks Shape Mirror Writers HeaderWriter Files Program Json.
Open Scope tl_scope.

Local Abbreviation len l := (Z.of_nat (List.length l)).

(** ** Interfaces *)

(** [fd_item] is the kind of the items of a vector. *)
Record field := mk_field { fd_name : list Z; fd_kind : type_tag; fd_item : option type_tag }.
Record class := mk_class { cl_name : list Z; cl_id : Z; cl_fields : list field }.
Record class_type := mk_class_type { ty_name : list Z; ty_classes : list class; ty_result : bool; ty_query : bool }.
Record interface := mk_interface { if_types : list class_type; if_functions : list class }.

(** ** The text of an interface *)

Definition cpp_name (name : list Z) : list Z := map (fun c => if is_alnum c then c else chr "_") name.
Definition cpp_field_name (name : list Z) : list Z := cpp_name name ++ [chr "_"].

Definition value_text (f : field) : list Z :=
  let object := code "object." ++ cpp_field_name (fd_name f) in
  match fd_kind f with
  | Bytes => code "base64_encode(" ++ object ++ code ")"
  | TBool => code "JsonBool{" ++ object ++ code "}"
  | Int64 => code "JsonInt64{" ++ object ++ code "}"
  | Vector => if bool_decide (fd_item f = Some Int64) then code "JsonVectorInt64{" ++ object ++ code "}" else object
  | _ => object
  end.

Definition field_to_json (f : field) : list Z :=
  let entry open close := code "  jo('" ++ fd_name f ++ code open ++ value_text f ++ code close in
  match fd_kind f with
  | Custom => code "  if (" ++ value_text f ++ code ") {|  " ++ entry "', ToJson(*"%string "));|"%string ++ code "  }|"
  | Int64 | Vector => entry "', ToJson("%string "));|"%string
  | _ => entry "', "%string ");|"%string
  end.

Definition class_to_json (is_header : bool) (c : class) : list Z :=
  code "void to_json(JsonValueScope &jv, " ++ code "const td_api::" ++ cpp_name (cl_name c) ++ code " &object)" ++
  (if is_header then code ";||"
   else code " {|" ++ code "  auto jo = jv.enter_object();|" ++ code "  jo('@type', '" ++ cpp_name (cl_name c) ++ code "');|" ++
        concat (map field_to_json (cl_fields c)) ++ code "}||").

Definition type_to_json (is_header : bool) (mode : Mode) (t : class_type) : list Z :=
  if (ty_query t && negb (bool_decide (mode = Server))) || (ty_result t && negb (bool_decide (mode = Client))) then
    (if (1 <? List.length (ty_classes t))%nat then
       code "void to_json(JsonValueScope &jv, const td_api::" ++ cpp_name (ty_name t) ++ code " &object)" ++
       (if is_header then code ";||"
        else code " {|" ++ code "  td_api::downcast_call(const_cast<td_api::" ++ cpp_name (ty_name t) ++
             code " &>(object), [&jv](const auto &object) { to_json(jv, object); });|" ++ code "}||")
     else []) ++ concat (map (class_to_json is_header) (ty_classes t))
  else [].

Definition to_json_text (i : interface) (is_header : bool) (mode : Mode) : list Z :=
  concat (map (type_to_json is_header mode) (if_types i)) ++
  (if bool_decide (mode = Server) then [] else concat (map (class_to_json is_header) (if_functions i))).

Definition field_from_json (f : field) : list Z :=
  code "  TRY_STATUS(from_json" ++ (if bool_decide (fd_kind f = Bytes) then str "_bytes" else []) ++ code "(to." ++
  cpp_field_name (fd_name f) ++ code ", get_json_object_field_force(from, '" ++ cpp_name (fd_name f) ++ code "')));|".

Definition class_from_json (is_header : bool) (c : class) : list Z :=
  code "Status from_json(td_api::" ++ cpp_name (cl_name c) ++ code " &to, JsonObject &from)" ++
  (if is_header then code ";||"
   else code " {|" ++ concat (map field_from_json (cl_fields c)) ++ code "  return Status::OK();|" ++ code "}||").

(** The types that the program reads. *)
Definition ty_read (mode : Mode) (t : class_type) : bool :=
  (ty_query t && negb (bool_decide (mode = Client))) || (ty_result t && negb (bool_decide (mode = Server))).

Definition types_read (i : interface) (mode : Mode) : list class_type := List.filter (ty_read mode) (if_types i).

Definition from_json_text (i : interface) (is_header : bool) (mode : Mode) : list Z :=
  concat (map (class_from_json is_header) (concat (map ty_classes (types_read i mode)))) ++
  (if bool_decide (mode = Client) then [] else concat (map (class_from_json is_header) (if_functions i))).

Definition entry_text (c : class) : list Z := code "    {'" ++ cl_name c ++ code "', " ++ lld (cl_id c) ++ code "}".

(** The entries with a separator between them. *)
Fixpoint separated (sep : list Z) (l : list (list Z)) : list Z :=
  match l with
  | [] => []
  | [x] => x
  | x :: l => x ++ sep ++ separated sep l
  end.

Definition table_text (is_header : bool) (name : list Z) (l : list class) : list Z :=
  code "Result<int32> tl_constructor_from_string(td_api::" ++ name ++ code " *object, const std::string &str)" ++
  (if is_header then code ";||"
   else code " {|" ++ code "  static const std::unordered_map<Slice, int32, SliceHash> m = {|" ++
        separated (code ",|") (map entry_text l) ++ code "|  };|" ++ code "  auto it = m.find(str);|" ++ code "  if (it == m.end()) {|" ++
        code "    return Status::Error(PSLICE() << 'Unknown class \'' << str << '\'');|" ++ code "  }|" ++
        code "  return it->second;|" ++ code "}||").

Definition tables_text (i : interface) (is_header : bool) (mode : Mode) : list Z :=
  concat (map (fun t => if (1 <? List.length (ty_classes t))%nat then table_text is_header (cpp_name (ty_name t)) (ty_classes t) else [])
    (types_read i mode)) ++
  table_text is_header (str "Object") (concat (map ty_classes (types_read i mode))) ++
  (if bool_decide (mode = Client) then [] else table_text is_header (str "Function") (if_functions i)).

(** The lines before the tables: what the files include, the namespaces, and the
    conversions of [Object] and [Function], declared in the header and defined in
    the source. *)
Definition lines_text (l : list (list Z)) : list Z := concat (map (fun line => line ++ [newline]) l).

Definition preamble (base : list Z) (is_header : bool) : list Z :=
  if is_header then
    lines_text (map code [
      "#pragma once";
      EmptyString;
      "#include 'td/telegram/td_api.h'";
      EmptyString;
      "#include 'td/utils/JsonBuilder.h'";
      "#include 'td/utils/Status.h'";
      EmptyString;
      "namespace td {";
      "namespace td_api {";
      EmptyString;
      "void to_json(JsonValueScope &jv, const tl_object_ptr<Object> &value);";
      EmptyString;
      "Status from_json(tl_object_ptr<Function> &to, td::JsonValue from);";
      EmptyString;
      "void to_json(JsonValueScope &jv, const Object &object);";
      EmptyString;
      "void to_json(JsonValueScope &jv, const Function &object);";
      EmptyString]%string)
  else
    lines_text ((code "#include '" ++ base ++ code ".h'") :: map code [
      EmptyString;
      "#include 'td/telegram/td_api.h'";
      "#include 'td/telegram/td_api.hpp'";
      EmptyString;
      "#include 'td/tl/tl_json.h'";
      EmptyString;
      "#include 'td/utils/base64.h'";
      "#include 'td/utils/common.h'";
      "#include 'td/utils/Slice.h'";
      EmptyString;
      "#include <functional>";
      "#include <unordered_map>";
      EmptyString;
      "namespace td {";
      "namespace td_api {";
      EmptyString;
      "void to_json(JsonValueScope &jv, const tl_object_ptr<Object> &value) {";
      "  td::to_json(jv, std::move(value));";
      "}";
      EmptyString;
      "Status from_json(tl_object_ptr<Function> &to, td::JsonValue from) {";
      "  return td::from_json(to, std::move(from));";
      "}";
      EmptyString;
      "template <class T>";
      "auto lazy_to_json(JsonValueScope &jv, const T &t) -> decltype(td_api::to_json(jv, t)) {";
      "  return td_api::to_json(jv, t);";
      "}";
      EmptyString;
      "template <class T>";
      "void lazy_to_json(std::reference_wrapper<JsonValueScope>, const T &t) {";
      "  UNREACHABLE();";
      "}";
      EmptyString;
      "void to_json(JsonValueScope &jv, const Object &object) {";
      "  downcast_call(const_cast<Object &>(object), [&jv](const auto &object) { lazy_to_json(jv, object); });";
      "}";
      EmptyString;
      "void to_json(JsonValueScope &jv, const Function &object) {";
      "  downcast_call(const_cast<Function &>(object), [&jv](const auto &object) { lazy_to_json(jv, object); });";
      "}";
      EmptyString]%string).

Definition converter_text (i : interface) (base : list Z) (is_header : bool) (mode : Mode) : list Z :=
  preamble base is_header ++ tables_text i is_header mode ++ from_json_text i is_header mode ++
  to_json_text i is_header mode ++ code "}  // namespace td_api|" ++ code "}  // namespace td|".

(** The start of the files in the code is this text. *)
Lemma file_head_text base is_header : show_all (file_head base is_header) = preamble base is_header.
Proof.
  destruct is_header; [by vm_compute|]. unfold preamble, file_head, show_all, lines_text. cbn [map concat show lit].
  rewrite <- !app_assoc. reflexivity.
Qed.

(** ** The interface of a configuration *)

Section Describes.
Context (config : tl_config).

Definition tree_kind (x : tl_tree) : option type_tag :=
  match x with
  | tl_tree_type _ i [] => t ← types config !! i; Some (match builtin_tag (t_name t) with Some g => g | None => Custom end)
  | tl_tree_type _ _ [_] => Some Vector
  | _ => None
  end.

Definition item_kind (x : tl_tree) : option type_tag :=
  match x with tl_tree_type _ _ [child] => tree_kind child | _ => None end.

Definition field_described (a : arg) (f : field) : Prop :=
  fd_name f = from_name a /\ tree_kind (from_type a) = Some (fd_kind f) /\ item_kind (from_type a) = fd_item f.

Definition class_described (k : tl_combinator) (c : class) : Prop :=
  cl_name c = k_name k /\ cl_id c = k_id k /\ Forall2 field_described (k_args k) (cl_fields c).

(** The marks are reachability, from the results and from the arguments of functions. *)
Definition type_described (t : tl_type) (ct : class_type) : Prop :=
  ty_name ct = t_name t /\ Forall2 class_described (t_constructors t) (ty_classes ct) /\
  (ty_result ct = true <-> exists t0, start config true t0 /\ rtc (config_uses config) t0 t) /\
  (ty_query ct = true <-> exists t0, start config false t0 /\ rtc (config_uses config) t0 t).

Definition describes (i : interface) : Prop :=
  Forall2 type_described (custom_list config) (if_types i) /\ Forall2 class_described (functions config) (if_functions i).

(** Names that [gen_cpp_name] accepts, and numbers of 32 bits. *)
Definition json_name_ok (name : list Z) : bool :=
  match last (cpp_name name) with Some c => negb (c =? chr "_") | None => false end && (len name <=? 2 ^ 32).

Definition json_combinator_ok (k : tl_combinator) : bool :=
  json_name_ok (k_name k) && (- 2 ^ 31 <=? k_id k) && (k_id k <? 2 ^ 31) && forallb (fun a => json_name_ok (from_name a)) (k_args k).

Definition json_ok : bool :=
  forallb (fun t => json_name_ok (t_name t) && forallb json_combinator_ok (t_constructors t)) (custom_list config) &&
  forallb json_combinator_ok (functions config).
End Describes.

(** ** Printing *)

(** The call appends pieces that make up the text. *)
Definition prints (r : result (list piece)) (text : list Z) : Prop :=
  exists ps, r = Ret ps /\ Forall piece_ok ps /\ show_all ps = text.

Lemma show_all_app l1 l2 : show_all (l1 ++ l2) = show_all l1 ++ show_all l2.
Proof. unfold show_all. by rewrite map_app, concat_app. Qed.

Lemma prints_ret ps text : Forall piece_ok ps -> show_all ps = text -> prints (Ret ps) text.
Proof. intros ? ?. by exists ps. Qed.

Lemma prints_bind r (k : list piece -> result (list piece)) text text' :
  prints r text -> (forall ps, Forall piece_ok ps -> show_all ps = text -> prints (k ps) text') -> prints (rbind r k) text'.
Proof. intros (ps & -> & Hps & Hs) Hk. cbn [rbind]. by apply Hk. Qed.

Lemma prints_each {A B} (gen : A -> result (list piece)) (text : B -> list Z) l l' :
  Forall2 (fun x y => prints (gen x) (text y)) l l' -> prints (gen_each gen l) (concat (map text l')).
Proof.
  induction 1 as [|x y l l' Hx _ IH]; [by apply prints_ret|]. cbn [gen_each map concat].
  eapply prints_bind; [exact Hx|]. intros a Ha Ea. eapply prints_bind; [exact IH|]. intros b Hb Eb.
  apply prints_ret; [by apply Forall_app|]. by rewrite show_all_app, Ea, Eb.
Qed.

(** Slices and characters need no check. *)
Local Opaque code.

Ltac texts := unfold show_all; cbn [map concat show lit app]; rewrite ?app_nil_r, <- ?app_assoc; reflexivity.

Ltac pieces := repeat first [apply Forall_nil; done | apply Forall_cons; split; [exact I|] | apply Forall_app; split; try done].

Section Print.
Context (garbage : list Z) (schema : schema).
Hypothesis Hgarbage : len garbage < 2 ^ 62.

(** The object of an argument is of the kind that the field says. *)
Definition resolves (b : Arg) (f : field) : Prop :=
  arg_name b = fd_name f /\ json_name_ok (fd_name f) = true /\
  exists ty, types_ schema !! arg_type b = Some ty /\ tag ty = fd_kind f /\
    (tag ty = Vector -> exists v ty', vector_value_type ty = Some v /\ types_ schema !! v = Some ty' /\ fd_item f = Some (tag ty')).

Lemma cpp_name_runs name : json_name_ok name = true -> gen_cpp_name name = Ret (cpp_name name) /\ len (cpp_name name) <= 2 ^ 32.
Proof.
  unfold json_name_ok, gen_cpp_name. intros [H1 H2%Z.leb_le]%andb_true_iff. fold (cpp_name name). destruct (last (cpp_name name)) as [c|]; [|done].
  apply negb_true_iff in H1 as ->. split; [done|]. unfold cpp_name. by rewrite length_map.
Qed.

Lemma temporary l text : Forall piece_ok l -> show_all l = text -> len text <= 2 ^ 60 -> PSTRING garbage l = Ret text.
Proof. intros Hl <- Hlen. by apply PSTRING_text. Qed.

(** The literals of an expression are short. *)
Lemma wrapped f open close :
  json_name_ok (fd_name f) = true -> (List.length (code "object.") + List.length (code open) + List.length (code close) <= 100)%nat ->
  let object := code "object." ++ cpp_field_name (fd_name f) in
  PSTRING garbage [lit "object."; Slice (cpp_field_name (fd_name f))] = Ret object /\
  PSTRING garbage [lit open; Slice object; lit close] = Ret (code open ++ object ++ code close).
Proof.
  intros Hok Hlen object. destruct (cpp_name_runs _ Hok) as [_ Hname]. unfold object, cpp_field_name.
  split; (apply temporary; [pieces|texts|rewrite !length_app; cbn [List.length]; lia]).
Qed.

Ltac short := cbn [List.length]; vm_compute; lia.

Lemma object_text b f ty :
  resolves b f -> types_ schema !! arg_type b = Some ty ->
  to_json_object garbage schema ty (code "object." ++ cpp_field_name (fd_name f)) = Ret (value_text f).
Proof.
  intros (_ & Hname & ty' & Hty & Hkind & Hitem) Hty'. rewrite Hty in Hty'. injection Hty' as <-.
  unfold to_json_object, value_text. rewrite <- Hkind. destruct (tag ty') eqn:Etag; try done; try (apply wrapped; [done|short]).
  destruct (Hitem eq_refl) as (v & ty2 & -> & Hv & ->). unfold deref_type. rewrite Hv. cbn [rbind].
  assert (bool_decide (Some (tag ty2) = Some Int64) = bool_decide (tag ty2 = Int64)) as -> by (apply bool_decide_ext; split; congruence).
  case_bool_decide; [|done]. apply wrapped; [done|short].
Qed.

Lemma to_json_arg_prints b f : resolves b f -> prints (to_json_arg garbage schema b) (field_to_json f).
Proof.
  intros Hr. pose proof Hr as (Hn & Hok & ty & Hty & Hkind & _). destruct (cpp_name_runs _ Hok) as [Hcpp Hlen].
  unfold to_json_arg, gen_cpp_field_name, deref_type. rewrite Hn, Hcpp, Hty. cbn [rbind]. fold (cpp_field_name (fd_name f)).
  rewrite (proj1 (wrapped f EmptyString EmptyString Hok ltac:(short))). cbn [rbind]. rewrite (object_text b f ty Hr Hty). cbn [rbind].
  unfold field_to_json. rewrite Hkind.
  assert (Hcustom : fd_kind f = Custom -> code "object." ++ cpp_field_name (fd_name f) = value_text f) by (unfold value_text; by intros ->).
  destruct (fd_kind f) eqn:Ek; try (rewrite Hcustom by done);
    repeat (rewrite bool_decide_false by done || rewrite bool_decide_true by done); cbn [orb app]; (apply prints_ret; [pieces|texts]).
Qed.

Lemma from_json_arg_prints b f : resolves b f -> prints (from_json_arg schema b) (field_from_json f).
Proof.
  intros (Hn & Hok & ty & Hty & Hkind & _). destruct (cpp_name_runs _ Hok) as [Hcpp _].
  unfold from_json_arg, gen_cpp_field_name, deref_type. rewrite Hn, Hcpp, Hty. cbn [rbind]. apply prints_ret; [pieces|].
  unfold field_from_json, cpp_field_name. rewrite Hkind. texts.
Qed.
(** ** Classes *)

Definition class_resolves (name : list Z) (id : Z) (args : list Arg) (c : class) : Prop :=
  name = cl_name c /\ id = cl_id c /\ json_name_ok (cl_name c) = true /\ - 2 ^ 31 <= cl_id c < 2 ^ 31 /\ Forall2 resolves args (cl_fields c).

Lemma to_json_constructor_prints name id args c is_header :
  class_resolves name id args c -> prints (gen_to_json_constructor garbage schema name args is_header) (class_to_json is_header c).
Proof.
  intros (-> & _ & Hok & _ & Hargs). destruct (cpp_name_runs _ Hok) as [Hcpp _]. unfold gen_to_json_constructor, class_to_json. rewrite Hcpp.
  cbn [rbind]. destruct is_header; [apply prints_ret; [pieces|texts]|]. eapply prints_bind.
  { apply (prints_each _ field_to_json). eapply Forall2_impl; [exact Hargs|]. intros b f. apply to_json_arg_prints. }
  intros ps Hps Es. apply prints_ret; [pieces|]. rewrite !show_all_app, Es. texts.
Qed.

Lemma from_json_constructor_prints name id args c is_header :
  class_resolves name id args c -> prints (gen_from_json_constructor schema name args is_header) (class_from_json is_header c).
Proof.
  intros (-> & _ & Hok & _ & Hargs). destruct (cpp_name_runs _ Hok) as [Hcpp _]. unfold gen_from_json_constructor, class_from_json. rewrite Hcpp.
  cbn [rbind]. destruct is_header; [apply prints_ret; [pieces|texts]|]. eapply prints_bind.
  { apply (prints_each _ field_from_json). eapply Forall2_impl; [exact Hargs|]. intros b f. apply from_json_arg_prints. }
  intros ps Hps Es. apply prints_ret; [pieces|]. rewrite !show_all_app, Es. texts.
Qed.

Definition constructor_resolves (q : nat) (c : class) : Prop :=
  exists k, constructors_ schema !! q = Some k /\ class_resolves (c_name k) (c_id k) (c_args k) c.

Definition function_resolves (q : nat) (c : class) : Prop :=
  exists f, functions_ schema !! q = Some f /\ class_resolves (f_name f) (f_id f) (f_args f) c.

(** A call on each constructor, or on each function. *)
Lemma constructors_print gen text l l' :
  (forall k c, class_resolves (c_name k) (c_id k) (c_args k) c -> prints (gen k) (text c)) -> Forall2 constructor_resolves l l' ->
  prints (gen_each (fun q => do? k := constructor_at schema q in gen k) l) (concat (map text l')).
Proof.
  intros Hgen Hl. apply prints_each. eapply Forall2_impl; [exact Hl|]. intros q c (k & Hk & Hc). cbn beta. unfold constructor_at. rewrite Hk.
  by apply Hgen.
Qed.

Lemma functions_print gen text l l' :
  (forall k c, class_resolves (f_name k) (f_id k) (f_args k) c -> prints (gen k) (text c)) -> Forall2 function_resolves l l' ->
  prints (gen_each (fun q => do? k := function_at schema q in gen k) l) (concat (map text l')).
Proof.
  intros Hgen Hl. apply prints_each. eapply Forall2_impl; [exact Hl|]. intros q c (k & Hk & Hc). cbn beta. unfold function_at. rewrite Hk.
  by apply Hgen.
Qed.

(** ** Types *)

Definition type_resolves (i : nat) (t : class_type) : Prop :=
  exists ct, custom_types_ schema !! i = Some ct /\ ct_name ct = ty_name t /\ json_name_ok (ty_name t) = true /\
    is_result_ ct = ty_result t /\ is_query_ ct = ty_query t /\ Forall2 constructor_resolves (ct_constructors ct) (ty_classes t).

Lemma to_json_custom_prints i t is_header mode :
  type_resolves i t -> prints (to_json_custom garbage schema is_header mode i) (type_to_json is_header mode t).
Proof.
  intros (ct & Hct & Hn & Hok & Hres & Hq & HF). unfold to_json_custom, custom_at, type_to_json. rewrite Hct. cbn [rbind]. rewrite Hres, Hq.
  destruct (_ || _); cbn [negb]; [|by apply prints_ret]. destruct (cpp_name_runs _ Hok) as [Hcpp _]. rewrite Hn, Hcpp, (Forall2_length _ _ _ HF).
  match goal with |- prints (rbind ?own _) (?text ++ _) => assert (prints own text) as (own' & -> & Hown & Eown) end.
  { destruct (1 <? _)%nat; [|by apply prints_ret]. cbn [rbind]. destruct is_header; apply prints_ret; [pieces|texts|pieces|texts]. }
  cbn [rbind]. eapply prints_bind; [apply (constructors_print _ (class_to_json is_header)); [|exact HF]; intros k c Hc; by eapply to_json_constructor_prints|].
  intros ps Hps Es. apply prints_ret; [by apply Forall_app|]. by rewrite show_all_app, Eown, Es.
Qed.

Lemma from_json_custom_prints i t is_header mode :
  type_resolves i t -> prints (from_json_custom schema is_header mode i) (if ty_read mode t then concat (map (class_from_json is_header) (ty_classes t)) else []).
Proof.
  intros (ct & Hct & Hn & Hok & Hres & Hq & HF). unfold from_json_custom, custom_at, is_read, ty_read. rewrite Hct. cbn [rbind]. rewrite Hres, Hq.
  destruct (_ || _); cbn [negb]; [|by apply prints_ret]. apply constructors_print; [|exact HF]. intros k c Hc. by eapply from_json_constructor_prints.
Qed.

(** ** Tables *)

Definition pair_of (c : class) : Z * list Z := (cl_id c, cl_name c).

Lemma table_entries_text is_first l :
  show_all (table_entries is_first (map pair_of l)) =
    match l with [] => [] | _ => if is_first then separated (code ",|") (map entry_text l) else code ",|" ++ separated (code ",|") (map entry_text l) end.
Proof.
  revert is_first. induction l as [|c l IH]; intros is_first; [done|]. cbn [map pair_of table_entries]. rewrite !show_all_app, IH.
  destruct is_first, l; unfold entry_text; cbn [map separated]; texts.
Qed.

Definition ids_ok (l : list class) : Prop := Forall (fun c => - 2 ^ 31 <= cl_id c < 2 ^ 31) l.

Lemma table_entries_ok is_first l : ids_ok l -> Forall piece_ok (table_entries is_first (map pair_of l)).
Proof.
  intros Hl. revert is_first. induction Hl as [|c l Hc _ IH]; intros is_first; [constructor|]. cbn [map pair_of table_entries].
  apply Forall_app. split; [destruct is_first; pieces|]. apply Forall_app. split; [|done]. repeat (apply Forall_cons; split; [done|]).
  apply Forall_cons. split; [|pieces]. split; [by left|lia].
Qed.

Lemma constructor_table_prints name l is_header :
  ids_ok l -> Forall piece_ok (constructor_table name (map pair_of l) is_header) /\
    show_all (constructor_table name (map pair_of l) is_header) = table_text is_header name l.
Proof.
  intros Hl. unfold constructor_table, table_text. destruct is_header; [split; [pieces|texts]|]. split.
  - apply Forall_app. split; [pieces|]. apply Forall_app. split; [pieces|]. apply Forall_app. split; [by apply table_entries_ok|pieces].
  - rewrite !show_all_app, table_entries_text. destruct l; cbn [separated map]; texts.
Qed.

Lemma resolves_ids l l' : Forall2 constructor_resolves l l' -> ids_ok l'.
Proof. induction 1 as [|q c l l' (k & _ & Hc) _ IH]; constructor; [apply Hc|done]. Qed.

Lemma constructor_pairs_run l l' : Forall2 constructor_resolves l l' -> constructor_pairs schema l = Ret (map pair_of l').
Proof.
  induction 1 as [|q c l l' (k & Hk & (Hn & Hid & _)) _ IH]; [done|]. cbn [constructor_pairs map]. unfold constructor_at. rewrite Hk. cbn [rbind].
  rewrite IH. cbn [rbind]. unfold pair_of. by rewrite Hn, Hid.
Qed.

Lemma function_pairs_run l l' : Forall2 function_resolves l l' -> function_pairs schema l = Ret (map pair_of l') /\ ids_ok l'.
Proof.
  induction 1 as [|q c l l' (k & Hk & (Hn & Hid & _ & Hr & _)) _ [IH Hl]]; [by split; [|constructor]|]. split; [|by constructor].
  cbn [function_pairs map]. unfold function_at. rewrite Hk. cbn [rbind]. rewrite IH. cbn [rbind]. unfold pair_of. by rewrite Hn, Hid.
Qed.

Lemma custom_tables_print is_header mode l l' acc :
  Forall2 type_resolves l l' ->
  let read := List.filter (ty_read mode) l' in
  ids_ok (concat (map ty_classes read)) /\
  exists ps, custom_tables schema is_header mode l acc = Ret (ps, acc ++ map pair_of (concat (map ty_classes read))) /\ Forall piece_ok ps /\
    show_all ps = concat (map (fun t => if (1 <? List.length (ty_classes t))%nat then table_text is_header (cpp_name (ty_name t)) (ty_classes t) else []) read).
Proof.
  intros HF read. subst read. revert acc.
  induction HF as [|i t l l' (ct & Hct & Hn & Hok & Hres & Hq & HF) _ IH]; intros acc; cbn [List.filter custom_tables].
  { split; [constructor|]. exists []. by rewrite app_nil_r. }
  unfold custom_at. rewrite Hct. cbn [rbind]. assert (is_read mode ct = ty_read mode t) as -> by (unfold is_read, ty_read; by rewrite Hres, Hq).
  destruct (ty_read mode t); cbn [negb]; [|apply IH]. rewrite (constructor_pairs_run _ _ HF). cbn [rbind map concat].
  pose proof (resolves_ids _ _ HF) as Hids. destruct (IH (acc ++ map pair_of (ty_classes t))) as (Hl & ps & E & Hps & Es). rewrite E.
  split; [by apply Forall_app|]. destruct (cpp_name_runs _ Hok) as [Hcpp _]. rewrite Hn, Hcpp, length_map.
  destruct (constructor_table_prints (cpp_name (ty_name t)) (ty_classes t) is_header Hids) as [H1 H2].
  rewrite (map_app pair_of), <- (app_assoc acc). destruct (1 <? _)%nat; cbn [rbind]; eexists; (split; [done|]).
  - split; [by apply Forall_app|]. by rewrite show_all_app, H2, Es.
  - done.
Qed.
(** ** Files *)

Definition schema_resolves (i : interface) : Prop :=
  Forall2 type_resolves (custom_types schema) (if_types i) /\ Forall2 function_resolves (functions_out schema) (if_functions i).

Lemma to_json_prints i is_header mode : schema_resolves i -> prints (gen_to_json garbage schema is_header mode) (to_json_text i is_header mode).
Proof.
  intros [HT HF]. unfold gen_to_json, to_json_text. eapply prints_bind.
  { apply (prints_each _ (type_to_json is_header mode)). eapply Forall2_impl; [exact HT|]. intros c t. apply to_json_custom_prints. }
  intros ps Hps Es. case_bool_decide; [rewrite app_nil_r; by apply prints_ret|]. eapply prints_bind.
  { apply (functions_print _ (class_to_json is_header)); [|exact HF]. intros k c Hc. by eapply to_json_constructor_prints. }
  intros ps' Hps' Es'. apply prints_ret; [by apply Forall_app|]. by rewrite show_all_app, Es, Es'.
Qed.

Lemma read_classes (text : class -> list Z) mode l :
  concat (map (fun t => if ty_read mode t then concat (map text (ty_classes t)) else []) l) =
  concat (map text (concat (map ty_classes (List.filter (ty_read mode) l)))).
Proof.
  induction l as [|t l IH]; [done|]. cbn [map concat List.filter]. rewrite IH. destruct (ty_read mode t); [|done]. cbn [map concat].
  by rewrite map_app, concat_app.
Qed.

Lemma from_json_prints i is_header mode : schema_resolves i -> prints (gen_from_json schema is_header mode) (from_json_text i is_header mode).
Proof.
  intros [HT HF]. unfold gen_from_json, from_json_text, types_read. rewrite <- read_classes. eapply prints_bind.
  { apply (prints_each _ (fun t => if ty_read mode t then concat (map (class_from_json is_header) (ty_classes t)) else [])).
    eapply Forall2_impl; [exact HT|]. intros c t. apply from_json_custom_prints. }
  intros ps Hps Es. case_bool_decide; [rewrite app_nil_r; by apply prints_ret|]. eapply prints_bind.
  { apply (functions_print _ (class_from_json is_header)); [|exact HF]. intros k c Hc. by eapply from_json_constructor_prints. }
  intros ps' Hps' Es'. apply prints_ret; [by apply Forall_app|]. by rewrite show_all_app, Es, Es'.
Qed.

Lemma tables_print i is_header mode : schema_resolves i -> prints (gen_tl_constructor_from_string schema is_header mode) (tables_text i is_header mode).
Proof.
  intros [HT HF]. unfold gen_tl_constructor_from_string, tables_text, types_read.
  destruct (custom_tables_print is_header mode _ _ [] HT) as (Hids & ps & -> & Hps & Es). cbn [rbind app].
  destruct (constructor_table_prints (str "Object") _ is_header Hids) as [H1 H2].
  case_bool_decide; [apply prints_ret; [by apply Forall_app|]; by rewrite show_all_app, Es, H2, app_nil_r|].
  destruct (function_pairs_run _ _ HF) as [-> Hids']. cbn [rbind]. destruct (constructor_table_prints (str "Function") _ is_header Hids') as [H3 H4].
  apply prints_ret; [repeat (apply Forall_app; split; [done|]); done|]. by rewrite !show_all_app, Es, H2, H4.
Qed.

Lemma file_head_ok base is_header : Forall piece_ok (file_head base is_header).
Proof. unfold file_head. destruct is_header; pieces. Qed.

Lemma json_converter_prints i base is_header mode :
  schema_resolves i -> prints (json_converter garbage schema base is_header mode) (converter_text i base is_header mode).
Proof.
  intros Hi. unfold json_converter, converter_text. eapply prints_bind; [by apply tables_print|]. intros p1 H1 E1.
  eapply prints_bind; [by apply from_json_prints|]. intros p2 H2 E2. eapply prints_bind; [by apply to_json_prints|]. intros p3 H3 E3.
  apply prints_ret; [apply Forall_app; split; [apply file_head_ok|]; repeat (apply Forall_app; split; [done|]); pieces|].
  rewrite !show_all_app, E1, E2, E3, file_head_text. by unfold show_all; cbn [map concat show lit]; rewrite app_nil_r.
Qed.

End Print.

Local Transparent code.

(** The text is never empty. *)
Lemma converter_text_head i base is_header mode : converter_text i base is_header mode <> [].
Proof. unfold converter_text, preamble. by destruct is_header; cbn. Qed.

(** ** The buffer and the file *)

Definition capacity : Z := 2000000 - RESERVED_SIZE.

Lemma buffer_end : end_ptr (new_builder (replicate (Z.to_nat 2000000) (chr " ")) false) = capacity.
Proof.
  unfold new_builder. rewrite length_replicate, Z2Nat.id by lia. by unfold RESERVED_SIZE; rewrite (proj2 (Z.leb_gt _ _)) by lia.
Qed.

Definition json_file (base : list Z) (is_header : bool) : list Z := str "auto/" ++ base ++ (if is_header then str ".h" else str ".cpp").

(** One file: what the [CHECK] and the write make of the text. *)
Lemma converter_file_cases (garbage : list Z) (writable : list Z -> bool) (schema : schema) (i : interface) (base : list Z) (is_header : bool)
    (mode : Mode) (fs : gmap (list Z) (list Z)) :
  len garbage < 2 ^ 62 -> schema_resolves schema i ->
  exists overflow, (len (converter_text i base is_header mode) <= capacity -> overflow = false) /\
    (capacity + RESERVED_SIZE <= len (converter_text i base is_header mode) -> overflow = true) /\
    gen_json_converter_file garbage writable schema base is_header mode fs =
      if overflow then Fault Aborted
      else if bool_decide (fs !! json_file base is_header = Some (converter_text i base is_header mode)) || writable (json_file base is_header)
      then Ret (<[json_file base is_header := converter_text i base is_header mode]> fs) else Fault Aborted.
Proof.
  intros Hg Hi. destruct (json_converter_prints garbage schema Hg i base is_header mode Hi) as (ps & E & Hps & Es).
  unfold gen_json_converter_file. rewrite E. cbn [rbind]. clear E. pose proof buffer_end as Hend.
  set (sb0 := new_builder _ _) in *. pose proof (new_builder_ok (replicate (Z.to_nat 2000000) (chr " ")) false) as Hsb. fold sb0 in Hsb.
  destruct (append_all_ok ps Hps _ _ _ _ _ Hsb) as (t & e & err & sb & Ea & Hsb' & [Htext He Hfit _]). rewrite Ea. cbn [rbind].
  exists err. split_and!.
  - intros Hlen. apply Hfit; [done|]. rewrite Es, Hend. cbn [List.length]. lia.
  - intros Hlen. destruct err; [done|]. destruct (Htext eq_refl) as [_ ->]. exfalso.
    cbn [app] in Hsb'. rewrite Es in Hsb'. rewrite (He eq_refl), Hend in Hsb'. inversion Hsb'. lia.
  - assert (error_flag sb = err) as -> by (by destruct Hsb'). destruct err; [reflexivity|]. destruct (Htext eq_refl) as [_ ->].
    destruct (as_cslice_ok _ _ _ _ _ Hsb') as (sb' & Ec & _). rewrite Ec. cbn [rbind app]. rewrite Es. fold (json_file base is_header).
    pose proof (converter_text_head i base is_header mode) as Hne.
    destruct (fs !! json_file base is_header) as [old|] eqn:Ef.
    + destruct (decide (converter_text i base is_header mode = old)) as [<-|Hd].
      * rewrite !bool_decide_eq_true_2 by done. cbn [orb]. f_equal. symmetry. by apply insert_id.
      * rewrite !bool_decide_eq_false_2 by congruence. done.
    + by rewrite !bool_decide_eq_false_2 by done.
Qed.

(** ** From the configuration to the objects *)

Lemma Forall2_through {A B C} (P : A -> B -> Prop) (Q : A -> C -> Prop) (R : B -> C -> Prop) l l' :
  Forall2 P l l' -> (forall x y, x ∈ l -> P x y -> exists z, Q x z /\ R y z) -> exists zs, Forall2 Q l zs /\ Forall2 R l' zs.
Proof.
  induction 1 as [|x y l l' Hxy _ IH]; intros H; [exists []; by split|]. destruct (H x y) as (z & ? & ?); [left|done|].
  destruct IH as (zs & ? & ?); [intros; apply H; [by right|done]|]. exists (z :: zs). split; by constructor.
Qed.

Section Config.
Context (config : tl_config) (schema : schema).
Hypothesis Hsc : simple_config config = true.
Hypothesis Hjson : json_ok config = true.
Hypothesis Hrep : represents config schema.
Hypothesis Htag : tagged config schema.
Hypothesis Hmarks : forall b t c, t ∈ custom_list config -> custom_of schema t c ->
  (marked b schema c <-> exists t0, start config b t0 /\ rtc (config_uses config) t0 t).

Lemma rep_tree_kind x p : rep_tree config schema x p -> exists ty, types_ schema !! p = Some ty /\ tree_kind config x = Some (tag ty).
Proof.
  intros [f i t y q ty r Ht Hv Hty Htg Hval Hy|f i t q Ht Hv Hq]; cbn [tree_kind].
  - exists ty. by rewrite Htg.
  - destruct (Htag t q) as (ty & Hty & Hk); [by eapply list_elem_of_lookup_2|done|]. exists ty. split; [done|]. rewrite Ht. cbn. by rewrite Hk.
Qed.

Lemma field_exists a b :
  json_name_ok (from_name a) = true -> arg_name b = from_name a -> rep_tree config schema (from_type a) (arg_type b) ->
  exists f, field_described config a f /\ resolves schema b f.
Proof.
  intros Hok Hn Ht. destruct (rep_tree_kind _ _ Ht) as (ty & Hty & Hk). exists (mk_field (from_name a) (tag ty) (item_kind config (from_type a))).
  split; [done|]. split; [done|]. split; [done|]. exists ty. split_and!; [done..|]. cbn. intros Hv.
  inversion Ht as [f i t y q ty' r Ht1 Hv1 Hty' Htg Hval Hy E1 E2|f i t q Ht1 Hv1 Hq E1 E2].
  - destruct (rep_tree_kind _ _ Hy) as (ty2 & Hty2 & Hk2). exists r, ty2. split_and!; [congruence|done|]. cbn. by rewrite Hk2.
  - rewrite <- E1 in Hk. cbn in Hk. rewrite Ht1 in Hk. cbn in Hk. injection Hk as Hk. rewrite Hv in Hk.
    destruct (builtin_tag (t_name t)) as [g|] eqn:Hb; [|done]. by destruct (builtin_not_custom _ _ Hb).
Qed.

Lemma class_exists k name id args :
  json_combinator_ok k = true -> name = k_name k -> id = k_id k -> rep_args config schema (k_args k) args ->
  exists c, class_described config k c /\ class_resolves schema name id args c.
Proof.
  intros Hk Hn Hid Hargs. unfold json_combinator_ok in Hk. rewrite !andb_true_iff, forallb_forall in Hk. destruct Hk as (((Hname & Hlo%Z.leb_le) & Hhi%Z.ltb_lt) & Hfields).
  destruct (Forall2_through _ (field_described config) (resolves schema) _ _ Hargs) as (fs & Hd & Hr).
  { intros a b Ha [Hab Ht]. apply field_exists; [by apply Hfields, list_elem_of_In|done|done]. }
  exists (mk_class (k_name k) (k_id k) fs). split; [done|]. by rewrite Hn, Hid.
Qed.

Lemma interface_exists : exists i, describes config i /\ schema_resolves schema i.
Proof.
  pose proof Hjson as Hj. unfold json_ok in Hj. rewrite andb_true_iff, !forallb_forall in Hj. destruct Hj as [Htypes Hfuns].
  destruct (Forall2_through _ (type_described config) (type_resolves schema) _ _ (rp_custom_types _ _ Hrep)) as (ts & Hd & Hr).
  { intros t c Ht (Hc & ct & Hct & Hn & HF). specialize (Htypes t (proj1 (list_elem_of_In _ _) Ht)). rewrite andb_true_iff, forallb_forall in Htypes. destruct Htypes as [Hname Hks].
    destruct (Forall2_through _ (class_described config) (constructor_resolves schema) _ _ HF) as (cs & Hcd & Hcr).
    { intros k q Hk (kk & Hkk & E1 & E2 & _ & Ha). destruct (class_exists k (c_name kk) (c_id kk) (c_args kk)) as (cl & ? & ?); [by apply Hks, list_elem_of_In|done..|].
      exists cl. split; [done|]. by exists kk. }
    exists (mk_class_type (t_name t) cs (is_result_ ct) (is_query_ ct)). split.
    - split; [done|]. split; [done|]. cbn. rewrite <- (Hmarks true t c Ht Hc), <- (Hmarks false t c Ht Hc). unfold marked. rewrite Hct.
      split; (split; [intros Hw; by exists ct|intros (ct' & [= <-] & Hw); exact Hw]).
    - by exists ct. }
  destruct (Forall2_through _ (class_described config) (fun ff c => class_resolves schema (f_name ff) (f_id ff) (f_args ff) c) _ _ (rp_functions _ _ Hrep)) as (cs & Hcd & Hcr).
  { intros f ff Hf (E1 & E2 & _ & Ha). apply class_exists; [by apply Hfuns, list_elem_of_In|done..]. }
  exists (mk_interface ts cs). split; [done|]. split; [done|]. cbn. rewrite (rp_functions_out _ _ Hrep).
  apply Forall2_same_length_lookup. split; [rewrite length_seq; by eapply Forall2_length|]. intros j q c [-> Hj]%lookup_seq Hcj.
  destruct (Forall2_lookup_r _ _ _ _ _ Hcr Hcj) as (ff & Hff & Hres). by exists ff.
Qed.
End Config.

(** C29. What the JSON converter writes, for a simple configuration whose names can be
    names in C++ and whose numbers have 32 bits: the header and the source are the
    text of the interface that the configuration describes, whatever was in them
    before: a table from names to numbers, a reader and a writer for the classes of
    the types that queries, or results, can reach through fields and vectors, each
    field by the kind of its type. The program returns so when both texts fit in the
    buffer of 2000000 bytes and both files can be written. A text of either file that
    is longer than the buffer stops it at the [CHECK]. In every case it stops or
    leaves exactly these two files. *)
Theorem json_converter_refines (garbage : list Z) (writable : list Z -> bool) (config : tl_config) (base : list Z) (mode : Mode)
    (fs : gmap (list Z) (list Z)) :
  simple_config config = true -> json_ok config = true -> len garbage < 2 ^ 62 ->
  exists i, describes config i /\
    let text := fun is_header => converter_text i base is_header mode in
    let files := <[json_file base false := text false]> (<[json_file base true := text true]> fs) in
    ((forall is_header, len (text is_header) <= capacity /\ writable (json_file base is_header) = true) ->
     gen_json_converter garbage writable config base mode fs = Ret files) /\
    ((exists is_header, capacity + RESERVED_SIZE <= len (text is_header)) ->
     gen_json_converter garbage writable config base mode fs = Fault Aborted) /\
    (gen_json_converter garbage writable config base mode fs = Ret files \/
     gen_json_converter garbage writable config base mode fs = Fault Aborted).
Proof.
  intros Hsc Hjson Hg. destruct (make_schema_spec config Hsc) as (s & E & Hrep & Htag & Hmarks).
  destruct (interface_exists config s Hjson Hrep Htag Hmarks) as (i & Hd & Hr). exists i. split; [done|]. cbv zeta.
  unfold gen_json_converter. rewrite E. cbn [rbind].
  destruct (converter_file_cases garbage writable s i base true mode fs Hg Hr) as (o1 & F1 & O1 & ->).
  destruct (converter_file_cases garbage writable s i base false mode
    (<[json_file base true := converter_text i base true mode]> fs) Hg Hr) as (o2 & F2 & O2 & E2).
  split_and!.
  - intros H. destruct (H true) as [H1 W1], (H false) as [H2 W2]. rewrite (F1 H1), W1, orb_true_r. cbn [rbind].
    by rewrite E2, (F2 H2), W2, orb_true_r.
  - intros [[|] H]; [by rewrite (O1 H)|]. destruct o1; [done|]. case_goal; [|done]. cbn [rbind]. by rewrite E2, (O2 H).
  - destruct o1; [by right|]. case_goal; [|by right]. cbn [rbind]. rewrite E2. destruct o2; [by right|]. case_goal; auto.
Qed.

(** On the sample of the simplified schema. *)
Lemma json_converter_refines_witness :
  exists i, describes Sample.sample i /\
    let text := fun is_header => converter_text i (str "td_api_json") is_header Server in
    let files := <[str "auto/td_api_json.cpp" := text false]> (<[str "auto/td_api_json.h" := text true]> ∅) in
    (len (text true) <= capacity /\ len (text false) <= capacity ->
     gen_json_converter (replicate 1024 0) (fun _ => true) Sample.sample (str "td_api_json") Server ∅ = Ret files) /\
    (capacity + RESERVED_SIZE <= len (text false) ->
     gen_json_converter (replicate 1024 0) (fun _ => true) Sample.sample (str "td_api_json") Server ∅ = Fault Aborted).
Proof.
  destruct (json_converter_refines (replicate 1024 0) (fun _ => true) Sample.sample (str "td_api_json") Server ∅)
    as (i & Hd & H1 & H2 & _); [vm_compute; reflexivity..|].
  exists i. split; [exact Hd|]. split.
  - intros [Hh Hc]. apply H1. intros [|]; (split; [|reflexivity]); [exact Hh|exact Hc].
  - intros Hc. apply H2. by exists false.
Defined.
